(* ===== verification/_CoqProject ===== *)
-Q . S2P
Prelude.v
GoText.v
HexHash.v
Mf.v
Cbor.v
CborRef.v
RrcRoom.v
RrcEnvelope.v
RrcBodies.v
GoFloat.v
RrcHub.v
RrcHubInv.v
RrcHubSafe.v
RrcHubProps.v
RrcClient.v
RrcDelivery.v
RnvProto.v
Sha256.v
SeqWindow.v
RnvMedia.v
RnvSession.v
RnvSessionProps.v
Msgpack.v
LxstProto.v
LxstMedia.v
LxstCall.v
LxstCallProps.v
LxstTalk.v
LxstBoard.v
ShaStream.v
LxmfStamp.v
MsgValue.v
LxmfMessage.v
LxmfTicket.v
LxmfMessenger.v
GoConv.v
GorrcdConfig.v
GorrcdRooms.v
GorrcdToml.v
Gorrcd.v
GorrcdSafe.v
GorrcdNotice.v
GorrcdProps.v
