(* ===== verification/Prelude.v ===== *)
(** * Verification of reticulum-go-protocols

    The repository implements application protocols over the Reticulum network
    stack in Go.  This library models them from their sources and proves what
    makes them correct: MF (short messages, [pkg/mf]), RRC (relay chat with a
    hub and clients, [pkg/rrc]), RNV (stills, clips and live media between two
    peers, [pkg/rnv]), LXST (telephony, [pkg/lxst]) and LXMF (signed and stamped
    messages, [pkg/lxmf]), and the hub daemon that runs an RRC hub with rooms,
    operators and commands ([internal/gorrcd]).

    ** The program and its model

    An RRC hub keeps a table of connected peers, a table of rooms and a
    nickname index; clients reach it over Reticulum links, every packet being a
    CBOR envelope.  The daemon is the hub's policy: the hub asks its hooks who
    may connect, join and speak, hands it the messages that are slash commands,
    and the daemon acts back on the hub through the hub's public operations.
    RNV peers exchange HELLO envelopes, then stills, clips and
    streams, live media going in small binary frames through a jitter buffer.
    An LXST call is one object per end, driven by signalling and media packets
    in MessagePack over one link; a switchboard lets one call in at a time.
    MF messages are single packets with a small binary header.  An LXMF message
    is signed, carries a proof-of-work stamp or one derived from a ticket where
    the recipient asks for it, and is delivered once per message id.

    Go code is translated as follows.  A function returning [(T, error)] is a
    [res E T]; state is passed explicitly; objects shared by pointer (hub
    sessions, streams, clip channels, the calls of a switchboard) live on stores
    and are named; a handler is one function from state to state, sends and
    callbacks being appended to the trace in the state; a blocking call is cut
    at its [select], one function per part, and a non-deterministic [select] is
    the choice of the case.  Integers are [Z] with the wrap-around of their
    width written out ([u16], [u64], [i64]); [float64] is the binary64 of
    [GoFloat.v]; a Go map keyed by bytes or numbers is a [gmap], the dynamic
    CBOR maps are association lists.  Locks are not modelled: every handler runs
    to completion, which is what the mutexes of the sources make of it up to the
    points where they are released around a callback or a send.  Where the code
    is exposed to interleavings in between (LXST calls and the switchboard) an
    operation is cut at those points and the goroutine in the middle is part of
    the state.

    The environment is a parameter or an argument: the link ([send_ok], or a
    flag in the state), the clock (a [now] argument), the random source
    ([rand_read]), the application's hub policy (the record [HubPolicy] with the
    class of laws [PolicyOk], which the daemon discharges in
    [GorrcdSafe.gorrcd_policy]), the file system (a map of files, and [disk_ok]
    for the writes), the host's home and environment (class [Host]), the CBOR library (class [Cbor] with [CborLaws],
    [CborHead] and [CborSize]), the iteration order of Go maps where it matters
    ([MapOrder], and [reorders] and [orders] of the LXMF files), audio codecs and
    devices, signatures, encryption, the OpenCL engine, and the decoding of image
    headers.
    [CborRef.v] is an executable codec that satisfies the laws, so that every
    theorem about the wire has a witness that runs.  The MessagePack library is
    in the repository and is modelled itself.

    ** Files

    - [Prelude.v]: results, bytes, machine integers, big-endian fields, the
      [rgp] hint database and the tactics [bool_hyps], [len_lia], [dlia],
      [field_setter].
    - [GoText.v]: UTF-8 decoding, trimming and case folding of the Go library,
      over the tables the sources rely on.
    - [HexHash.v]: [rrc/hash.go] (and the identical [mf/hash.go]).
    - [Mf.v]: [mf/mf.go], [mf/constants.go].
    - [Cbor.v], [CborRef.v]: values of type [any], the codec interface and its
      reference instance.
    - [RrcRoom.v], [RrcEnvelope.v], [RrcBodies.v]: [rrc/room.go],
      [envelope.go], [bodies.go], with [constants.go] and [errors.go].
    - [GoFloat.v]: the [float64] arithmetic of token buckets and of the adaptive
      controller, on binary floats.
    - [RrcHub.v]: [rrc/hub.go], [hub_ops.go], [session.go], [policy.go]: the
      state of the hub ([Hub]), all handlers and operations, and the steps of
      the hub in its environment.  [RrcHubInv.v] has the invariant, the abstract
      hub (a table from connected identities to rooms) and the simulation;
      [RrcHubSafe.v] shows that every step preserves them for any policy that
      keeps the laws; [RrcHubProps.v] states the properties.
    - [RrcClient.v]: [rrc/client.go]; [RrcDelivery.v] composes client, hub and
      client.
    - [RnvProto.v]: [rnv/proto/*.go] and [rnv/recommend.go].
    - [Sha256.v]: SHA-256, used for content hashes and destination hashes.
    - [SeqWindow.v]: 16-bit sequence numbers compared modulo 2^16, shared by
      both jitter buffers.
    - [RnvMedia.v]: [rnv/media/jitter.go], [clock.go].
    - [RnvSession.v]: [rnv/session/*.go]; [RnvSessionProps.v] has its
      properties.
    - [Msgpack.v]: the calls of the vendored MessagePack library that LXST
      packets use.
    - [LxstProto.v]: [lxst/proto/*.go]: packets, profiles, names.
    - [LxstMedia.v]: [lxst/media/jitter.go], [adaptive.go].
    - [LxstCall.v]: [lxst/call/call.go], [signaling.go], [access.go],
      [codec.go], [timing.go] and the state changes of [pipeline.go]: the call
      object ([Call]), its operations, and the steps of a call ([cstep]).
      [LxstCallProps.v] has the abstract life cycle ([lrule]) and the simulation;
      [LxstTalk.v] joins two calls by a link and follows the receive path.
    - [LxstBoard.v]: [lxst/call/switchboard.go], [ratelimit.go], and dialling in
      [phone.go].

    - [ShaStream.v]: the streaming SHA-256 of the Go library with its saved
      state, and [lxmf/midstate.go], [sha256_fast.go].
    - [LxmfStamp.v]: [lxmf/stamper.go], [workblock.go], [generate_cpu.go],
      [batch_validate.go], [backend.go]; HKDF of the vendored Reticulum-Go.
    - [MsgValue.v]: MessagePack values of type [any], with the map decoder of
      [lxmf/message.go].
    - [LxmfMessage.v]: [lxmf/message.go]: the message object ([LXMessage]),
      packing, unpacking, stamps, choice of the delivery method.
    - [LxmfTicket.v]: [lxmf/tickets.go]: ticket book and stamp cost book with
      their files.
    - [LxmfMessenger.v]: [lxmf/messenger.go]: receiving and sending.

    - [GoConv.v]: the parts of [strings], [bufio], [sort] and [strconv] the
      daemon's files need, with [strconv.Quote] and [Unquote].
    - [GorrcdConfig.v]: [gorrcd/hash.go], [config.go], [paths.go].
    - [GorrcdRooms.v]: [gorrcd/rooms.go], [rooms_mut.go], [trust.go],
      [atomic.go]: room state ([RoomState]), the registry with its file
      ([RoomRegistry]), the lists of identities ([Trust]); [GorrcdToml.v] reads
      back what it writes.
    - [Gorrcd.v]: [gorrcd/service.go], [commands.go], [notice.go],
      [resources.go], [stats.go]: the service ([Service]), every command and
      hook, the policy ([gorrcd]) and the daemon's steps ([daemon_step]).
      [GorrcdSafe.v] has what a command may do ([act]) and the laws of the policy;
      [GorrcdNotice.v] and [GorrcdProps.v] state the properties.

    ** What the theorems show

    Hub ([RrcHubProps.v]): in every reachable state, while the policy has not come
    to refuse somebody connected, the peer table, the room table, the nickname
    index, the sessions and the identities of their links agree
    ([hub_invariant]), and the
    hub refines the abstract membership table ([hub_refinement]); content goes
    to exactly the welcomed members of the room under the authenticated sender
    ([hub_relay], [hub_direct_notice]); before WELCOME a session affects nobody
    else ([hub_gate]); a second link takes an identity over, leaving a stale
    nickname behind ([hub_takeover]); the token bucket ([hub_burst]); a peer the
    policy refuses is still served one message ([hub_refused_ghost]).
    Daemon ([GorrcdProps.v], [GorrcdNotice.v], [GorrcdToml.v]): commands change
    only what their sender may change ([gorrcd_command_authority]); the hub under
    the daemon keeps its invariant and refines the table
    ([gorrcd_daemon_invariant]); who gets into a room and who is heard there
    ([gorrcd_join_rule], [gorrcd_moderation]); klines act at once
    ([gorrcd_kline]); notices are cut without loss ([gorrcd_notice_chunks]); the
    registry survives a restart ([gorrcd_registry_survives]); and three defects: a
    peer that missed a ping is locked out ([gorrcd_ping_lockout]), a room without
    founder is taken over ([founderless_takeover]), a kline is lost
    ([kline_lost_after_restart]).
    Client ([RrcClient.v], [RrcDelivery.v]): [Dial] ends, what holds of the
    client in all states, two races ([client_welcome_after_close],
    [client_part_misattributed]), and delivery of a message from client to
    client through the hub ([rrc_delivery]).
    Codecs: envelopes, bodies and frames survive the wire
    ([envelope_roundtrip], [rrc_bodies_roundtrip], [rnv_hello_roundtrip],
    [rnv_bodies_roundtrip], [rnv_frame_roundtrip], [mf_roundtrip],
    [hash_text_roundtrip], [lxst_signalling_roundtrip],
    [lxst_frame_roundtrip]), decoders accept only well-formed input
    ([unmarshal_well_formed], [resource_validation_iff], [mf_unpack_canonical],
    [lxst_unpack_bounds]), and the hand-written frame encoder agrees with the
    MessagePack encoder ([lxst_pack_frame_reference]).
    RNV: the verdict on a stream offer and its agreement between the peers
    ([rnv_offer_verdict], [rnv_offer_over_wire]), the jitter buffer
    ([jitter_delivers_in_order], [jitter_reorders], [jitter_stalls_on_loss]),
    sessions end to end ([rnv_stream_negotiation], [rnv_still_delivery]), rate
    and size limits ([rnv_rate_limit], [rnv_config_guards]) and three defects
    ([rnv_close_sends_no_bye], [rnv_still_gaps], [rnv_crossing_offers]).
    LXST: every run of a call under any interleaving follows the abstract life
    cycle ([lxst_call_lifecycle]); callers that are not admitted never get
    through ([lxst_access_control]) and a call that is not answered takes
    nothing but preferences ([lxst_unanswered_gate]); two ends set a call up
    ([lxst_call_setup]) and the receive path is a queue ([lxst_receive_queue]);
    the jitter buffer accounts for every frame and recovers from loss
    ([lxst_jitter_accounting], [lxst_jitter_recovers]); the adaptive controller
    and the rate limiter keep their bounds ([lxst_adaptive_control],
    [lxst_rate_limiter]); one call at a time holds the switchboard if callbacks
    do not overlap ([lxst_switchboard_exclusive]), not if they do
    ([lxst_switchboard_race]); three more defects
    ([lxst_decoder_never_follows], [lxst_active_without_media],
    [lxst_dial_revives_call]).
    LXMF: packed messages survive the wire under any order of map iteration
    ([lxmf_pack_unpack]), stamped ones with several fields only if both encodings
    use one order ([lxmf_stamped_order]); a validated signature means what it
    says ([lxmf_unpack_trust]); the limits of the delivery methods
    ([lxmf_method_limits]); stamps: value, cost and target ([lxmf_stamp_cost]),
    generation by concurrent workers ([lxmf_stamp_generation]), parallel
    workblocks and batches agree with the sequential ones
    ([lxmf_workers_agree]), the midstate code is SHA-256
    ([lxmf_midstate_hash]); tickets: the book survives a restart
    ([lxmf_tickets_saved]), a ticket replaces the proof of work
    ([lxmf_ticket_redeemed]), but one received in a message is lost
    ([lxmf_ticket_field_lost]); the messenger: at most one delivery per message
    id ([lxmf_delivered_once]), enforced stamps ([lxmf_stamp_enforced]), and a
    stamped message from the sender to the handler
    ([lxmf_stamped_send_delivered]).

    ** Bounds

    Fuel appears in the polling loops ([wait_ticks], [waitUntil],
    [recall_loop]), where the termination theorems give the fuel that suffices
    in terms of the deadline; in the reference CBOR decoder, where the length of
    the input suffices ([dec_enc]); and in [Sha256.chunks], where it is the
    length of the padded message.  [Msgpack.Skip] recurses on the depth limit of
    the library's decoder; [MsgValue.decode] has one unit of fuel more than the
    two nesting limits of its decoder together, so that the limits act first
    ([decode_encode]).

    ** What is not modelled

    The Reticulum stack (links, destinations, announces, resources) and the
    CBOR library are parameters.  Log output, [String] methods and plain
    getters, the progress callbacks of clip transfers, and the order in which
    several extension callbacks of one envelope fire are left out; of LXST the
    processing of captured samples, the tone players, audio devices, codecs and
    the operating-system sandbox; of LXMF the link bookkeeping of the messenger
    and the diagnostic texts; of the daemon announcing, the start of the transport
    and the terminal.  The propagation node of [pkg/lxmf] (store, peers), its
    daemon [internal/golxmd], paper messages, the session helpers of [pkg/lxmf]
    and [pkg/lxst], and the C interfaces remain to be done. *)

From stdpp Require Import base tactics list gmap strings countable.
From Stdlib Require Import ZArith Lia.
From Corelib Require Export Init.Byte.
From Stdlib Require Strings.Byte.

#[global] Open Scope Z_scope.

(** ** Go results: a value or an error

    A Go function returning [(T, error)] is a [res E T]; the error type is the
    inductive type of the package's sentinel errors. *)

Inductive res (E A : Type) : Type :=
| Ok (a : A)
| Err (e : E).
Arguments Ok {E A} a.
Arguments Err {E A} e.

#[export] Instance res_ret {E} : MRet (res E) := fun A a => Ok a.
#[export] Instance res_bind {E} : MBind (res E) :=
  fun A B f m => match m with Ok a => f a | Err e => Err e end.

#[export] Instance res_eq_dec {E A} `{!EqDecision E, !EqDecision A} : EqDecision (res E A).
Proof. solve_decision. Defined.

Definition is_ok {E A} (r : res E A) : bool :=
  match r with Ok _ => true | Err _ => false end.

(** [guard_or e b k] is the Go idiom [if !b { return e }; k]. *)
Definition guard_or {E A} (e : E) (b : bool) (k : res E A) : res E A :=
  if b then k else Err e.

Lemma bind_Ok {E A B} (m : res E A) (f : A -> res E B) y :
  mbind f m = Ok y <-> exists x, m = Ok x /\ f x = Ok y.
Proof. destruct m; simpl; naive_solver. Qed.

Lemma guard_or_Ok {E A} (e : E) b (k : res E A) y :
  guard_or e b k = Ok y <-> b = true /\ k = Ok y.
Proof. destruct b; simpl; naive_solver. Qed.

(** [res_inv] takes a hypothesis stating that a chain of binds and guards
    returned [Ok] apart into its steps. *)
Ltac res_inv :=
  repeat match goal with
  | H : mbind _ _ = Ok _ |- _ =>
      apply bind_Ok in H; destruct H as (? & ? & H)
  | H : guard_or _ _ _ = Ok _ |- _ =>
      apply guard_or_Ok in H; destruct H as (? & H)
  | H : Ok ?a = Ok ?b |- _ => assert (a = b) by congruence; clear H; try subst
  | H : Err _ = Ok _ |- _ => discriminate H
  | H : Ok _ = Err _ |- _ => discriminate H
  end.

(** ** Bytes *)

Abbreviation byte := Init.Byte.byte.
Abbreviation bytes := (list Init.Byte.byte).

#[export] Instance byte_eq_dec : EqDecision byte := Byte.byte_eq_dec.

#[export] Program Instance byte_countable : Countable byte :=
  inj_countable Byte.to_N Byte.of_N _.
Next Obligation. intros b. apply Byte.of_to_N. Qed.

(** The value of a byte, and Go's conversion [byte(z)], which keeps the low
    eight bits. *)
Definition bZ (b : byte) : Z := Z.of_N (Byte.to_N b).
Definition Zb (z : Z) : byte :=
  match Byte.of_N (Z.to_N (z mod 256)) with Some b => b | None => x00 end.

Lemma bZ_range b : 0 <= bZ b < 256.
Proof. unfold bZ. pose proof (Byte.to_N_bounded b). lia. Qed.

Lemma Zb_bZ b : Zb (bZ b) = b.
Proof.
  unfold Zb. rewrite Z.mod_small by apply bZ_range.
  unfold bZ. by rewrite N2Z.id, Byte.of_to_N.
Qed.

Lemma bZ_Zb z : bZ (Zb z) = z mod 256.
Proof.
  unfold Zb. pose proof (Z.mod_pos_bound z 256 ltac:(lia)).
  destruct (Byte.of_N (Z.to_N (z mod 256))) as [b|] eqn:E.
  - unfold bZ. apply Byte.to_of_N in E. rewrite E. lia.
  - apply Byte.of_N_None_iff in E. lia.
Qed.

Lemma bZ_Zb_small z : 0 <= z < 256 -> bZ (Zb z) = z.
Proof. intros. rewrite bZ_Zb. by apply Z.mod_small. Qed.

#[export] Instance bZ_inj : Inj (=) (=) bZ.
Proof. intros a b H. by rewrite <- (Zb_bZ a), <- (Zb_bZ b), H. Qed.

(** Length of a slice as a Go [int]. *)
Definition len {A} (l : list A) : Z := Z.of_nat (length l).

Lemma len_nonneg {A} (l : list A) : 0 <= len l.
Proof. unfold len. lia. Qed.

Lemma len_nil {A} : len (@nil A) = 0.
Proof. done. Qed.

Lemma len_app {A} (l k : list A) : len (l ++ k) = len l + len k.
Proof. unfold len. rewrite length_app. lia. Qed.

Lemma len_cons {A} (x : A) l : len (x :: l) = 1 + len l.
Proof. unfold len. simpl. lia. Qed.

Lemma len_0_nil {A} (l : list A) : len l = 0 <-> l = [].
Proof. unfold len. destruct l; simpl; split; intros; (done || lia). Qed.

(** Go slicing [s[:n]] and [s[n:]] for an [n] already known to be in range. *)
Definition ztake {A} (n : Z) (l : list A) : list A := take (Z.to_nat n) l.
Definition zdrop {A} (n : Z) (l : list A) : list A := drop (Z.to_nat n) l.

Lemma ztake_zdrop {A} n (l : list A) : ztake n l ++ zdrop n l = l.
Proof. apply take_drop. Qed.

Lemma len_ztake {A} n (l : list A) : 0 <= n <= len l -> len (ztake n l) = n.
Proof. unfold len, ztake. intros. rewrite length_take. lia. Qed.

Lemma len_zdrop {A} n (l : list A) : 0 <= n <= len l -> len (zdrop n l) = len l - n.
Proof. unfold len, zdrop. intros. rewrite length_drop. lia. Qed.

Lemma ztake_app {A} n (l k : list A) : n = len l -> ztake n (l ++ k) = l.
Proof. intros ->. unfold ztake, len. rewrite Nat2Z.id. apply take_app_length. Qed.

Lemma zdrop_app {A} n (l k : list A) : n = len l -> zdrop n (l ++ k) = k.
Proof. intros ->. unfold zdrop, len. rewrite Nat2Z.id. apply drop_app_length. Qed.

Lemma ztake_all {A} n (l : list A) : len l <= n -> ztake n l = l.
Proof. unfold ztake, len. intros. apply take_ge. lia. Qed.

Lemma ztake_app_ge {A} n (l k : list A) : len l <= n -> ztake n (l ++ k) = l ++ ztake (n - len l) k.
Proof. unfold ztake, len. intros. rewrite take_app, take_ge by lia. do 2 f_equal. lia. Qed.

Lemma zdrop_app_ge {A} n (l k : list A) : len l <= n -> zdrop n (l ++ k) = zdrop (n - len l) k.
Proof. unfold zdrop, len. intros. rewrite drop_app, drop_ge by lia. simpl. f_equal. lia. Qed.

Lemma ztake_split {A} n m (l : list A) : 0 <= m <= n -> ztake n l = ztake m l ++ ztake (n - m) (zdrop m l).
Proof.
  intros. unfold ztake, zdrop. replace (Z.to_nat n) with (Z.to_nat m + Z.to_nat (n - m))%nat by lia.
  rewrite <- (take_drop (Z.to_nat m) (take _ l)). rewrite take_take, take_drop_commute. f_equal. f_equal. lia.
Qed.

Lemma zdrop_split {A} n m (l : list A) : 0 <= m <= n -> zdrop n l = zdrop (n - m) (zdrop m l).
Proof. intros. unfold zdrop. rewrite drop_drop. f_equal. lia. Qed.

(** [make([]byte, n)] and [copy(dst[lo:hi], src)]: the number of bytes copied
    is the smaller of the two lengths. *)
Definition make_bytes (n : Z) : bytes := replicate (Z.to_nat n) x00.

Definition copy_range {A} (lo hi : Z) (src dst : list A) : list A :=
  let n := Z.min (hi - lo) (len src) in
  ztake lo dst ++ ztake n src ++ zdrop (lo + n) dst.

Lemma len_make_bytes n : 0 <= n -> len (make_bytes n) = n.
Proof. intros. unfold len, make_bytes. rewrite length_replicate. lia. Qed.

(** Copying the whole of [src] over a block of its size. *)
Lemma copy_range_block {A} lo hi (src a b c : list A) :
  len a = lo -> len b = len src -> hi = lo + len src ->
  copy_range lo hi src (a ++ b ++ c) = a ++ src ++ c.
Proof.
  intros Ha Hb ->. unfold copy_range. replace (Z.min _ _) with (len src) by lia.
  rewrite ztake_app by done. rewrite ztake_all by lia. rewrite (app_assoc a b c).
  rewrite zdrop_app; [done|]. rewrite len_app. lia.
Qed.

Lemma make_bytes_app n m : 0 <= n -> 0 <= m ->
  make_bytes (n + m) = make_bytes n ++ make_bytes m.
Proof. intros. unfold make_bytes. rewrite Z2Nat.inj_add by lia. apply replicate_add. Qed.

Lemma zdrop_make_bytes n m : 0 <= n <= m -> zdrop n (make_bytes m) = make_bytes (m - n).
Proof. intros. unfold zdrop, make_bytes. rewrite drop_replicate. f_equal. lia. Qed.

(** ** Machine integers *)

Definition u8 (z : Z) : Z := z mod 2 ^ 8.
Definition u16 (z : Z) : Z := z mod 2 ^ 16.
Definition u32 (z : Z) : Z := z mod 2 ^ 32.
Definition u64 (z : Z) : Z := z mod 2 ^ 64.

(** Go's conversion to a signed [w]-bit integer (two's complement). *)
Definition sint (w z : Z) : Z :=
  let m := z mod 2 ^ w in if m <? 2 ^ (w - 1) then m else m - 2 ^ w.

Definition i16 : Z -> Z := sint 16.
Definition i32 : Z -> Z := sint 32.
Definition i64 : Z -> Z := sint 64.

Definition max_u64 : Z := 2 ^ 64 - 1.

Lemma u64_small z : 0 <= z < 2 ^ 64 -> u64 z = z.
Proof. apply Z.mod_small. Qed.

Lemma i64_small z : - 2 ^ 63 <= z < 2 ^ 63 -> i64 z = z.
Proof.
  intros H. unfold i64, sint. cbv zeta.
  change (64 - 1) with 63.
  destruct (Z_lt_ge_dec z 0) as [Hn|Hn].
  - rewrite <- (Z_mod_plus_full z 1 (2 ^ 64)).
    rewrite Z.mod_small by lia.
    destruct (_ <? _) eqn:E; [apply Z.ltb_lt in E|]; lia.
  - rewrite Z.mod_small by lia.
    destruct (_ <? _) eqn:E; [|apply Z.ltb_ge in E]; lia.
Qed.

(** Big-endian fields of [n] bytes. *)
Fixpoint be_put (n : nat) (z : Z) : bytes :=
  match n with
  | O => []
  | S n => be_put n (z / 256) ++ [Zb z]
  end.

Definition be_get (l : bytes) : Z := fold_left (fun acc b => acc * 256 + bZ b) l 0.

Lemma be_get_snoc l b : be_get (l ++ [b]) = be_get l * 256 + bZ b.
Proof. unfold be_get. by rewrite fold_left_app. Qed.

Lemma length_be_put n z : length (be_put n z) = n.
Proof. revert z. induction n; intros; simpl; [done|]. rewrite length_app, IHn. simpl. lia. Qed.

Lemma be_get_put n z : be_get (be_put n z) = z mod 256 ^ Z.of_nat n.
Proof.
  revert z. induction n as [|n IH]; intros z.
  { simpl. by rewrite Z.mod_1_r. }
  cbn [be_put]. rewrite be_get_snoc, IH, bZ_Zb.
  rewrite Nat2Z.inj_succ, Z.pow_succ_r by lia.
  rewrite Z.rem_mul_r by lia. lia.
Qed.

(** ** Byte-string literals *)

Definition lit (s : string) : bytes := String.list_byte_of_string s.

(** ** Shared automation *)

(** [lia] with quotients and remainders by constants. *)
Ltac dlia := Z.to_euclidean_division_equations; lia.

Create HintDb rgp.
#[export] Hint Resolve bZ_range len_nonneg : rgp.
#[export] Hint Rewrite @len_app @len_cons @len_nil : rgp.

(** Arithmetic on lengths of assembled byte strings. *)
Ltac len_lia := autorewrite with rgp in *; rewrite ?len_make_bytes in * by lia; lia.

(** [field_setter eta p] is the function that replaces the field [p] of a record
    whose eta expansion is [eta]. *)
Ltac field_setter eta p :=
  let e := eval cbv beta delta [eta] in eta in
  lazymatch eval pattern p in e with
  | ?f _ => let s := eval cbv beta in (fun v c => f (fun _ => v) c) in exact s
  end.

(** [bool_hyps] turns boolean tests of the code into propositions. *)
Ltac bool_hyps :=
  repeat match goal with
  | H : (_ && _)%bool = true |- _ => apply andb_true_iff in H as [? ?]
  | H : (_ || _)%bool = false |- _ => apply orb_false_iff in H as [? ?]
  | H : negb _ = true |- _ => apply negb_true_iff in H
  | H : negb _ = false |- _ => apply negb_false_iff in H
  | H : (_ =? _)%Z = true |- _ => apply Z.eqb_eq in H
  | H : (_ =? _)%Z = false |- _ => apply Z.eqb_neq in H
  | H : (_ <? _)%Z = true |- _ => apply Z.ltb_lt in H
  | H : (_ <? _)%Z = false |- _ => apply Z.ltb_ge in H
  | H : (_ <=? _)%Z = true |- _ => apply Z.leb_le in H
  | H : (_ <=? _)%Z = false |- _ => apply Z.leb_gt in H
  | H : bool_decide _ = true |- _ => apply bool_decide_eq_true_1 in H
  | H : bool_decide _ = false |- _ => apply bool_decide_eq_false_1 in H
  end.
