(* ===== verification/GoText.v ===== *)
(** * Go strings: UTF-8, trimming, lower case

    A Go string is its bytes.  [range s], [strings.TrimSpace],
    [strings.ToLower] and [unicode.IsControl] look at the runes those bytes
    encode; this file models the decoding (with Go's treatment of invalid
    bytes), the encoding, and the library functions on top of them.  The lemmas
    at the end (decoding inverts encoding, the trimmed and lower-cased forms are
    stable) are what the room and nickname normalisation of [pkg/rrc/room.go]
    rests on. *)

From stdpp Require Import base tactics list strings.
From Stdlib Require Import ZArith Lia.
From S2P Require Import Prelude.

(** ** Decoding and encoding *)

(** One step of [range s]: a well-formed rune, or a byte that starts no
    well-formed encoding (Go yields U+FFFD of width 1 for it). *)
Inductive runit : Type :=
| R (r : Z)
| B (b : byte).

Definition RuneError : Z := 65533.

Definition rune_of (u : runit) : Z :=
  match u with R r => r | B _ => RuneError end.

Definition valid_rune (r : Z) : bool :=
  ((0 <=? r) && (r <? 55296)) || ((57344 <=? r) && (r <=? 1114111)).

Definition between (lo z hi : Z) : bool := (lo <=? z) && (z <=? hi).
Definition is_cont (b : byte) : bool := between 128 (bZ b) 191.

Definition ok2 (b0 b1 : byte) : bool := between 194 (bZ b0) 223 && is_cont b1.
Definition ok3 (b0 b1 b2 : byte) : bool :=
  between 224 (bZ b0) 239
  && between (if bZ b0 =? 224 then 160 else 128) (bZ b1) (if bZ b0 =? 237 then 159 else 191)
  && is_cont b2.
Definition ok4 (b0 b1 b2 b3 : byte) : bool :=
  between 240 (bZ b0) 244
  && between (if bZ b0 =? 240 then 144 else 128) (bZ b1) (if bZ b0 =? 244 then 143 else 191)
  && is_cont b2 && is_cont b3.

Definition rune2 (b0 b1 : byte) : Z := (bZ b0 - 192) * 64 + (bZ b1 - 128).
Definition rune3 (b0 b1 b2 : byte) : Z :=
  (bZ b0 - 224) * 4096 + (bZ b1 - 128) * 64 + (bZ b2 - 128).
Definition rune4 (b0 b1 b2 b3 : byte) : Z :=
  (bZ b0 - 240) * 262144 + (bZ b1 - 128) * 4096 + (bZ b2 - 128) * 64 + (bZ b3 - 128).

(** [utf8.DecodeRuneInString]: the first unit and the rest. *)
Definition decode1 (s : bytes) : option (runit * bytes) :=
  match s with
  | [] => None
  | b0 :: s1 =>
      if bZ b0 <? 128 then Some (R (bZ b0), s1)
      else
        match s1 with
        | b1 :: s2 =>
            if ok2 b0 b1 then Some (R (rune2 b0 b1), s2)
            else
              match s2 with
              | b2 :: s3 =>
                  if ok3 b0 b1 b2 then Some (R (rune3 b0 b1 b2), s3)
                  else
                    match s3 with
                    | b3 :: s4 =>
                        if ok4 b0 b1 b2 b3 then Some (R (rune4 b0 b1 b2 b3), s4)
                        else Some (B b0, s1)
                    | [] => Some (B b0, s1)
                    end
              | [] => Some (B b0, s1)
              end
        | [] => Some (B b0, s1)
        end
  end.

Fixpoint decode_fuel (n : nat) (s : bytes) : list runit :=
  match n with
  | O => []
  | S n =>
      match decode1 s with
      | None => []
      | Some (u, rest) => u :: decode_fuel n rest
      end
  end.

(** Every step consumes a byte, so the length of the string is enough fuel. *)
Definition decode (s : bytes) : list runit := decode_fuel (length s) s.

Definition encode_rune (r : Z) : bytes :=
  let r := if valid_rune r then r else RuneError in
  if r <? 128 then [Zb r]
  else if r <? 2048 then [Zb (192 + r / 64); Zb (128 + r mod 64)]
  else if r <? 65536 then [Zb (224 + r / 4096); Zb (128 + (r / 64) mod 64); Zb (128 + r mod 64)]
  else [Zb (240 + r / 262144); Zb (128 + (r / 4096) mod 64);
        Zb (128 + (r / 64) mod 64); Zb (128 + r mod 64)].

Definition encode1 (u : runit) : bytes :=
  match u with R r => encode_rune r | B b => [b] end.

Definition encode (us : list runit) : bytes := concat (map encode1 us).

(** ** Unicode classes *)

(** [unicode.IsSpace] (the White_Space property). *)
Definition isSpace (r : Z) : bool :=
  between 9 r 13 || (r =? 32) || (r =? 133) || (r =? 160) || (r =? 5760)
  || between 8192 r 8202 || (r =? 8232) || (r =? 8233) || (r =? 8239) || (r =? 8287)
  || (r =? 12288).

(** [unicode.IsControl] (category Cc). *)
Definition isControl (r : Z) : bool := between 0 r 31 || between 127 r 159.

(** The lower-case column of the case table of package [unicode]: entries
    [(lo, hi, stride, delta)] for the runes above ASCII. *)
Definition lower_ranges : list (Z * Z * Z * Z) := [
  (192, 214, 1, 32); (216, 222, 1, 32); (256, 302, 2, 1); (304, 304, 1, -199);
  (306, 310, 2, 1); (313, 327, 2, 1); (330, 374, 2, 1); (376, 376, 1, -121);
  (377, 381, 2, 1); (385, 385, 1, 210); (386, 388, 2, 1); (390, 390, 1, 206);
  (391, 391, 1, 1); (393, 394, 1, 205); (395, 395, 1, 1); (398, 398, 1, 79);
  (399, 399, 1, 202); (400, 400, 1, 203); (401, 401, 1, 1); (403, 403, 1, 205);
  (404, 404, 1, 207); (406, 406, 1, 211); (407, 407, 1, 209); (408, 408, 1, 1);
  (412, 412, 1, 211); (413, 413, 1, 213); (415, 415, 1, 214); (416, 420, 2, 1);
  (422, 422, 1, 218); (423, 423, 1, 1); (425, 425, 1, 218); (428, 428, 1, 1);
  (430, 430, 1, 218); (431, 431, 1, 1); (433, 434, 1, 217); (435, 437, 2, 1);
  (439, 439, 1, 219); (440, 440, 1, 1); (444, 444, 1, 1); (452, 452, 1, 2);
  (453, 453, 1, 1); (455, 455, 1, 2); (456, 456, 1, 1); (458, 458, 1, 2);
  (459, 475, 2, 1); (478, 494, 2, 1); (497, 497, 1, 2); (498, 500, 2, 1);
  (502, 502, 1, -97); (503, 503, 1, -56); (504, 542, 2, 1); (544, 544, 1, -130);
  (546, 562, 2, 1); (570, 570, 1, 10795); (571, 571, 1, 1); (573, 573, 1, -163);
  (574, 574, 1, 10792); (577, 577, 1, 1); (579, 579, 1, -195); (580, 580, 1, 69);
  (581, 581, 1, 71); (582, 590, 2, 1); (880, 882, 2, 1); (886, 886, 1, 1);
  (895, 895, 1, 116); (902, 902, 1, 38); (904, 906, 1, 37); (908, 908, 1, 64);
  (910, 911, 1, 63); (913, 929, 1, 32); (931, 939, 1, 32); (975, 975, 1, 8);
  (984, 1006, 2, 1); (1012, 1012, 1, -60); (1015, 1015, 1, 1); (1017, 1017, 1, -7);
  (1018, 1018, 1, 1); (1021, 1023, 1, -130); (1024, 1039, 1, 80); (1040, 1071, 1, 32);
  (1120, 1152, 2, 1); (1162, 1214, 2, 1); (1216, 1216, 1, 15); (1217, 1229, 2, 1);
  (1232, 1326, 2, 1); (1329, 1366, 1, 48); (4256, 4293, 1, 7264);
  (4295, 4295, 1, 7264); (4301, 4301, 1, 7264); (5024, 5103, 1, 38864);
  (5104, 5109, 1, 8); (7312, 7354, 1, -3008); (7357, 7359, 1, -3008);
  (7680, 7828, 2, 1); (7838, 7838, 1, -7615); (7840, 7934, 2, 1); (7944, 7951, 1, -8);
  (7960, 7965, 1, -8); (7976, 7983, 1, -8); (7992, 7999, 1, -8); (8008, 8013, 1, -8);
  (8025, 8031, 2, -8); (8040, 8047, 1, -8); (8072, 8079, 1, -8); (8088, 8095, 1, -8);
  (8104, 8111, 1, -8); (8120, 8121, 1, -8); (8122, 8123, 1, -74); (8124, 8124, 1, -9);
  (8136, 8139, 1, -86); (8140, 8140, 1, -9); (8152, 8153, 1, -8);
  (8154, 8155, 1, -100); (8168, 8169, 1, -8); (8170, 8171, 1, -112);
  (8172, 8172, 1, -7); (8184, 8185, 1, -128); (8186, 8187, 1, -126);
  (8188, 8188, 1, -9); (8486, 8486, 1, -7517); (8490, 8490, 1, -8383);
  (8491, 8491, 1, -8262); (8498, 8498, 1, 28); (8544, 8559, 1, 16); (8579, 8579, 1, 1);
  (9398, 9423, 1, 26); (11264, 11311, 1, 48); (11360, 11360, 1, 1);
  (11362, 11362, 1, -10743); (11363, 11363, 1, -3814); (11364, 11364, 1, -10727);
  (11367, 11371, 2, 1); (11373, 11373, 1, -10780); (11374, 11374, 1, -10749);
  (11375, 11375, 1, -10783); (11376, 11376, 1, -10782); (11378, 11378, 1, 1);
  (11381, 11381, 1, 1); (11390, 11391, 1, -10815); (11392, 11490, 2, 1);
  (11499, 11501, 2, 1); (11506, 11506, 1, 1); (42560, 42604, 2, 1);
  (42624, 42650, 2, 1); (42786, 42798, 2, 1); (42802, 42862, 2, 1);
  (42873, 42875, 2, 1); (42877, 42877, 1, -35332); (42878, 42886, 2, 1);
  (42891, 42891, 1, 1); (42893, 42893, 1, -42280); (42896, 42898, 2, 1);
  (42902, 42920, 2, 1); (42922, 42922, 1, -42308); (42923, 42923, 1, -42319);
  (42924, 42924, 1, -42315); (42925, 42925, 1, -42305); (42926, 42926, 1, -42308);
  (42928, 42928, 1, -42258); (42929, 42929, 1, -42282); (42930, 42930, 1, -42261);
  (42931, 42931, 1, 928); (42932, 42946, 2, 1); (42948, 42948, 1, -48);
  (42949, 42949, 1, -42307); (42950, 42950, 1, -35384); (42951, 42953, 2, 1);
  (42960, 42960, 1, 1); (42966, 42968, 2, 1); (42997, 42997, 1, 1);
  (65313, 65338, 1, 32); (66560, 66599, 1, 40); (66736, 66771, 1, 40);
  (66928, 66938, 1, 39); (66940, 66954, 1, 39); (66956, 66962, 1, 39);
  (66964, 66965, 1, 39); (68736, 68786, 1, 64); (71840, 71871, 1, 32);
  (93760, 93791, 1, 32); (125184, 125217, 1, 34)
  ].

Definition in_range (r : Z) (e : Z * Z * Z * Z) : bool :=
  match e with (lo, hi, st, _) => between lo r hi && ((r - lo) mod st =? 0) end.

Fixpoint find_lower (r : Z) (t : list (Z * Z * Z * Z)) : Z :=
  match t with
  | [] => r
  | e :: t => if in_range r e then r + e.2 else find_lower r t
  end.

(** [unicode.ToLower]. *)
Definition lower_rune (r : Z) : Z :=
  if r <? 128 then (if between 65 r 90 then r + 32 else r)
  else find_lower r lower_ranges.

(** ** Library functions *)

Definition space_unit (u : runit) : bool :=
  match u with R r => isSpace r | B _ => false end.

Fixpoint trim_left (us : list runit) : list runit :=
  match us with
  | u :: us' => if space_unit u then trim_left us' else us
  | [] => []
  end.

Definition trim_units (us : list runit) : list runit :=
  reverse (trim_left (reverse (trim_left us))).

(** [strings.TrimSpace]. *)
Definition TrimSpace (s : bytes) : bytes := encode (trim_units (decode s)).

Definition lower_unit (u : runit) : runit := R (lower_rune (rune_of u)).

(** [strings.ToLower]: an invalid byte becomes U+FFFD, as in [strings.Map]. *)
Definition ToLower (s : bytes) : bytes := encode (map lower_unit (decode s)).

(** ** Decoding inverts encoding *)

Definition valid_unit (u : runit) : bool :=
  match u with R r => valid_rune r | B b => 128 <=? bZ b end.

Ltac unfold_utf8 :=
  unfold ok2, ok3, ok4, is_cont, between, rune2, rune3, rune4, valid_rune in *.

Ltac case_tests :=
  repeat match goal with
  | |- context [if ?b then _ else _] => let E := fresh "E" in destruct b eqn:E
  | H : context [if ?b then _ else _] |- _ => let E := fresh "E" in destruct b eqn:E
  end.

Lemma Zb_eq b z : bZ b = z -> Zb z = b.
Proof. intros <-. apply Zb_bZ. Qed.

Lemma decode1_nil s : decode1 s = None <-> s = [].
Proof.
  split; [|by intros ->].
  destruct s as [|b0 s1]; [done|]. simpl. repeat case_match; done.
Qed.

Lemma encode_rune2 b0 b1 : ok2 b0 b1 = true ->
  encode_rune (rune2 b0 b1) = [b0; b1] /\ valid_rune (rune2 b0 b1) = true.
Proof.
  intros H. unfold_utf8. bool_hyps. pose proof (bZ_range b0). pose proof (bZ_range b1).
  unfold encode_rune, valid_rune. cbv zeta. case_tests; bool_hyps; try lia.
  split; [|done]. repeat f_equal; apply Zb_eq; dlia.
Qed.

Lemma encode_rune3 b0 b1 b2 : ok3 b0 b1 b2 = true ->
  encode_rune (rune3 b0 b1 b2) = [b0; b1; b2] /\ valid_rune (rune3 b0 b1 b2) = true.
Proof.
  intros H. unfold_utf8. bool_hyps.
  pose proof (bZ_range b0). pose proof (bZ_range b1). pose proof (bZ_range b2).
  destruct (bZ b0 =? 224) eqn:?, (bZ b0 =? 237) eqn:?; bool_hyps; try lia;
  unfold encode_rune, valid_rune; cbv zeta; case_tests; bool_hyps; try lia;
  (split; [repeat f_equal; apply Zb_eq; dlia | lia]).
Qed.

Lemma encode_rune4 b0 b1 b2 b3 : ok4 b0 b1 b2 b3 = true ->
  encode_rune (rune4 b0 b1 b2 b3) = [b0; b1; b2; b3] /\ valid_rune (rune4 b0 b1 b2 b3) = true.
Proof.
  intros H. unfold_utf8. bool_hyps.
  pose proof (bZ_range b0). pose proof (bZ_range b1). pose proof (bZ_range b2).
  pose proof (bZ_range b3).
  destruct (bZ b0 =? 240) eqn:?, (bZ b0 =? 244) eqn:?; bool_hyps; try lia;
  unfold encode_rune, valid_rune; cbv zeta; case_tests; bool_hyps; try lia;
  (split; [repeat f_equal; apply Zb_eq; dlia | lia]).
Qed.

Lemma decode1_encode s u rest : decode1 s = Some (u, rest) ->
  s = encode1 u ++ rest /\ valid_unit u = true.
Proof.
  destruct s as [|b0 s1]; [done|]. cbn [decode1]. pose proof (bZ_range b0).
  destruct (bZ b0 <? 128) eqn:E0; [|destruct s1 as [|b1 s2]].
  { intros [= <- <-]. bool_hyps. simpl. unfold encode_rune, valid_rune. cbv zeta.
    case_tests; bool_hyps; try lia. by rewrite Zb_bZ. }
  { intros [= <- <-]. bool_hyps. simpl. split; [done|lia]. }
  assert (HB : valid_unit (B b0) = true) by (bool_hyps; simpl; lia).
  destruct (ok2 b0 b1) eqn:E2; [|destruct s2 as [|b2 s3]].
  { intros [= <- <-]. apply encode_rune2 in E2 as [E2 ?]. simpl. by rewrite E2. }
  { intros [= <- <-]. done. }
  destruct (ok3 b0 b1 b2) eqn:E3; [|destruct s3 as [|b3 s4]].
  { intros [= <- <-]. apply encode_rune3 in E3 as [E3 ?]. simpl. by rewrite E3. }
  { intros [= <- <-]. done. }
  destruct (ok4 b0 b1 b2 b3) eqn:E4; intros [= <- <-]; [|done].
  apply encode_rune4 in E4 as [E4 ?]. simpl. by rewrite E4.
Qed.

Lemma decode1_rune r rest : valid_rune r = true ->
  decode1 (encode_rune r ++ rest) = Some (R r, rest).
Proof.
  intros Hv. unfold encode_rune. rewrite Hv. cbv zeta.
  unfold valid_rune in Hv.
  destruct (r <? 128) eqn:?; [|destruct (r <? 2048) eqn:?; [|destruct (r <? 65536) eqn:?]];
    bool_hyps; simpl.
  - rewrite bZ_Zb_small by lia. by rewrite (proj2 (Z.ltb_lt r 128)) by lia.
  - unfold_utf8. rewrite !bZ_Zb_small by dlia.
    rewrite (proj2 (Z.ltb_ge _ 128)) by dlia.
    replace (_ && _) with true by (symmetry; dlia). repeat f_equal. dlia.
  - unfold_utf8. rewrite !bZ_Zb_small by dlia.
    rewrite (proj2 (Z.ltb_ge _ 128)) by dlia.
    replace (_ && _ && _) with false at 1 by (symmetry; dlia).
    replace (_ && _) with true; [repeat f_equal; dlia|].
    symmetry. case_tests; bool_hyps; dlia.
  - unfold_utf8. rewrite !bZ_Zb_small by dlia.
    rewrite (proj2 (Z.ltb_ge _ 128)) by dlia.
    rewrite !(proj2 (Z.leb_gt (240 + _) _)) by dlia.
    rewrite !andb_false_r. simpl.
    replace (_ && _) with true; [repeat f_equal; dlia|].
    symmetry. case_tests; bool_hyps; dlia.
Qed.

Lemma encode1_length u : (1 <= length (encode1 u))%nat.
Proof.
  destruct u as [r|b]; simpl; [|lia]. unfold encode_rune. cbv zeta.
  case_tests; simpl; lia.
Qed.

Lemma decode_fuel_enough n m s : (length s <= n)%nat -> (length s <= m)%nat ->
  decode_fuel n s = decode_fuel m s.
Proof.
  revert m s. induction n as [|n IH]; intros m s Hn Hm.
  { destruct s; simpl in Hn; [|lia]. by destruct m. }
  destruct m as [|m]; [destruct s; simpl in Hm; [done|lia]|].
  simpl. destruct (decode1 s) as [[u rest]|] eqn:E; [|done].
  apply decode1_encode in E as [-> _]. pose proof (encode1_length u).
  rewrite length_app in *. f_equal. apply IH; lia.
Qed.

(** The recursion equation of [decode]. *)
Lemma decode_unfold s :
  decode s = match decode1 s with None => [] | Some (u, rest) => u :: decode rest end.
Proof.
  unfold decode. destruct (decode1 s) as [[u rest]|] eqn:E.
  - apply decode1_encode in E as E'. destruct E' as [Hs _].
    pose proof (encode1_length u) as Hu.
    assert (Hl : (length rest < length s)%nat) by (rewrite Hs, length_app; lia).
    destruct (length s) as [|n] eqn:Hn; [lia|]. simpl. rewrite E. f_equal.
    apply decode_fuel_enough; lia.
  - apply decode1_nil in E. by subst.
Qed.

Lemma decode_ind (P : bytes -> Prop) :
  P [] ->
  (forall s u rest, decode1 s = Some (u, rest) -> P rest -> P s) ->
  forall s, P s.
Proof.
  intros H0 HS s. remember (length s) as n eqn:Hn.
  revert s Hn. induction (lt_wf n) as [n _ IH]. intros s ->.
  destruct (decode1 s) as [[u rest]|] eqn:E.
  - eapply HS; [exact E|]. eapply IH; [|reflexivity].
    apply decode1_encode in E as [-> _]. pose proof (encode1_length u).
    rewrite length_app. lia.
  - apply decode1_nil in E. by subst.
Qed.

Lemma encode_cons u us : encode (u :: us) = encode1 u ++ encode us.
Proof. done. Qed.

Lemma encode_app us vs : encode (us ++ vs) = encode us ++ encode vs.
Proof. unfold encode. by rewrite map_app, concat_app. Qed.

Lemma encode_decode s : encode (decode s) = s.
Proof.
  induction s as [|s u rest E IH] using decode_ind; [done|].
  rewrite decode_unfold, E, encode_cons, IH.
  by apply decode1_encode in E as [-> _].
Qed.

Lemma decode_valid s : Forall (fun u => valid_unit u = true) (decode s).
Proof.
  induction s as [|s u rest E IH] using decode_ind; [constructor|].
  rewrite decode_unfold, E. apply decode1_encode in E as [_ ?]. by constructor.
Qed.

Lemma decode1_B_prefix b p q rest : decode1 (b :: p ++ q) = Some (B b, rest) ->
  decode1 (b :: p) = Some (B b, p).
Proof.
  cbn [decode1]. destruct (bZ b <? 128); [done|].
  destruct p as [|b1 p]; [done|]. cbn [app].
  destruct (ok2 b b1); [done|]. destruct p as [|b2 p]; [done|]. cbn [app].
  destruct (ok3 b b1 b2); [done|]. destruct p as [|b3 p]; [done|]. cbn [app].
  by destruct (ok4 b b1 b2 b3).
Qed.

(** A prefix of a decoding decodes to itself, and so does a suffix. *)
Lemma decode_prefix us vs s : decode s = us ++ vs -> decode (encode us) = us.
Proof.
  revert s. induction us as [|u us IH]; intros s Hs; [done|].
  rewrite decode_unfold in Hs. destruct (decode1 s) as [[u' rest]|] eqn:E; [|done].
  injection Hs as -> Hs. pose proof (IH _ Hs) as Hus.
  rewrite decode_unfold, encode_cons.
  destruct u as [r|b].
  - apply decode1_encode in E as [_ Hv]. simpl in *. by rewrite decode1_rune, Hus.
  - apply decode1_encode in E as E'. destruct E' as [-> _].
    rewrite <- (encode_decode rest), Hs, encode_app in E.
    simpl in E |- *. apply decode1_B_prefix in E. simpl in E. by rewrite E, Hus.
Qed.

Lemma decode_suffix us vs s : decode s = us ++ vs -> decode (encode vs) = vs.
Proof.
  revert s. induction us as [|u us IH]; intros s Hs.
  { simpl in Hs. by rewrite <- Hs, encode_decode. }
  rewrite decode_unfold in Hs. destruct (decode1 s) as [[u' rest]|] eqn:E; [|done].
  injection Hs as -> Hs. by apply (IH rest).
Qed.

Lemma decode_encode_runes rs :
  Forall (fun r => valid_rune r = true) rs -> decode (encode (map R rs)) = map R rs.
Proof.
  induction 1 as [|r rs Hr _ IH]; [done|].
  cbn [map]. rewrite encode_cons, decode_unfold. cbn [encode1].
  by rewrite decode1_rune, IH.
Qed.

(** ** Trimming *)

Lemma trim_left_suffix us : exists ps, us = ps ++ trim_left us.
Proof.
  induction us as [|u us [ps IH]]; [by exists []|]. simpl.
  destruct (space_unit u); [|by exists []]. exists (u :: ps). simpl. by f_equal.
Qed.

Lemma trim_left_head us : forall u, head (trim_left us) = Some u -> space_unit u = false.
Proof. induction us as [|u us IH]; simpl; [done|]. destruct (space_unit u) eqn:E; naive_solver. Qed.

Lemma trim_left_id us :
  (forall u, head us = Some u -> space_unit u = false) -> trim_left us = us.
Proof. destruct us as [|u us]; [done|]. simpl. intros H. by rewrite (H u). Qed.

(** What trimming leaves has no space at either end. *)
Definition no_space_ends (us : list runit) : Prop :=
  (forall u, head us = Some u -> space_unit u = false)
  /\ (forall u, last us = Some u -> space_unit u = false).

Lemma trim_units_ends us : no_space_ends (trim_units us).
Proof.
  unfold trim_units. split.
  - intros u Hu. rewrite head_reverse in Hu.
    destruct (trim_left_suffix (reverse (trim_left us))) as [ps Hps].
    destruct (trim_left (reverse (trim_left us))) as [|v vs] eqn:E; [done|].
    apply (trim_left_head us). rewrite <- last_reverse, Hps, last_app.
    by rewrite Hu.
  - intros u Hu. rewrite last_reverse in Hu. by apply trim_left_head in Hu.
Qed.

Lemma trim_units_id us : no_space_ends us -> trim_units us = us.
Proof.
  intros [Hh Hl]. unfold trim_units. rewrite (trim_left_id us Hh).
  rewrite trim_left_id; [apply reverse_involutive|].
  intros u Hu. apply Hl. by rewrite <- head_reverse.
Qed.

Lemma trim_units_infix us : exists ps qs, us = ps ++ trim_units us ++ qs.
Proof.
  destruct (trim_left_suffix us) as [ps Hps].
  destruct (trim_left_suffix (reverse (trim_left us))) as [qs Hqs].
  exists ps, (reverse qs). unfold trim_units.
  rewrite Hps at 1. f_equal. apply (inj reverse).
  rewrite reverse_app, !reverse_involutive. exact Hqs.
Qed.

Lemma decode_TrimSpace s : decode (TrimSpace s) = trim_units (decode s).
Proof.
  unfold TrimSpace. destruct (trim_units_infix (decode s)) as (ps & qs & H).
  apply decode_suffix in H as H'. by apply decode_prefix in H'.
Qed.

Lemma TrimSpace_idemp s : TrimSpace (TrimSpace s) = TrimSpace s.
Proof.
  unfold TrimSpace at 1. rewrite decode_TrimSpace.
  by rewrite trim_units_id by apply trim_units_ends.
Qed.

(** ** Lower-casing

    A rune that [lower_rune] changes is one of the finitely many of the ASCII
    capitals and the table; what is needed of them is checked by evaluation. *)

Definition expand (e : Z * Z * Z * Z) : list Z :=
  match e with
  | (lo, hi, st, _) =>
      map (fun k => lo + Z.of_nat k * st) (List.seq 0 (Z.to_nat ((hi - lo) / st + 1)))
  end.

Definition cased_runes : list Z :=
  expand (65, 90, 1, 32) ++ concat (map expand lower_ranges).

Definition lower_ok (r : Z) : bool :=
  (lower_rune (lower_rune r) =? lower_rune r)
  && negb (isSpace r) && negb (isSpace (lower_rune r)) && valid_rune (lower_rune r).

Lemma cased_runes_ok : forallb lower_ok cased_runes = true.
Proof. vm_compute. reflexivity. Qed.

Lemma lower_ranges_pos : forallb (fun e => match e with (_, _, st, _) => 0 <? st end) lower_ranges = true.
Proof. reflexivity. Qed.

Lemma in_range_expand r lo hi st d : 0 < st ->
  in_range r (lo, hi, st, d) = true -> In r (expand (lo, hi, st, d)).
Proof.
  intros Hst H. unfold in_range, between in H. bool_hyps.
  apply in_map_iff. exists (Z.to_nat ((r - lo) / st)).
  assert (Hd : r - lo = st * ((r - lo) / st)) by (apply Z.div_exact; lia).
  assert (0 <= (r - lo) / st) by (apply Z.div_pos; lia).
  assert ((r - lo) / st <= (hi - lo) / st) by (apply Z.div_le_mono; lia).
  split; [lia|]. apply in_seq. lia.
Qed.

Lemma find_lower_cases r t :
  forallb (fun e => match e with (_, _, st, _) => 0 <? st end) t = true ->
  find_lower r t = r \/ In r (concat (map expand t)).
Proof.
  induction t as [|[[[lo hi] st] d] t IH]; [by left|].
  intros H. cbn [forallb] in H. bool_hyps. cbn [find_lower map concat].
  destruct (in_range r (lo, hi, st, d)) eqn:E.
  - right. apply in_app_iff. left. by apply in_range_expand.
  - destruct IH as [?|?]; [done|by left|]. right. apply in_app_iff. by right.
Qed.

Lemma lower_rune_cases r : lower_rune r = r \/ In r cased_runes.
Proof.
  unfold lower_rune, cased_runes. destruct (r <? 128) eqn:E.
  - destruct (between 65 r 90) eqn:E'; [right|by left].
    apply in_app_iff. left. apply in_range_expand; [lia|].
    simpl. rewrite E', Z.mod_1_r. done.
  - destruct (find_lower_cases r lower_ranges) as [?|?]; [apply lower_ranges_pos|by left|].
    right. apply in_app_iff. by right.
Qed.

Lemma lower_rune_ok r : lower_rune r = r \/ lower_ok r = true.
Proof.
  destruct (lower_rune_cases r) as [?|H]; [by left|right].
  pose proof cased_runes_ok as Hall. rewrite forallb_forall in Hall. by apply Hall.
Qed.

Lemma lower_rune_idemp r : lower_rune (lower_rune r) = lower_rune r.
Proof.
  destruct (lower_rune_ok r) as [H|H]; [by rewrite !H|].
  unfold lower_ok in H. by bool_hyps.
Qed.

Lemma lower_rune_space r : isSpace (lower_rune r) = isSpace r.
Proof.
  destruct (lower_rune_ok r) as [H|H]; [by rewrite H|].
  unfold lower_ok in H. bool_hyps. congruence.
Qed.

Lemma lower_rune_valid r : valid_rune r = true -> valid_rune (lower_rune r) = true.
Proof.
  destruct (lower_rune_ok r) as [H|H]; [by rewrite H|].
  unfold lower_ok in H. by bool_hyps.
Qed.

Lemma rune_of_valid u : valid_unit u = true -> valid_rune (rune_of u) = true.
Proof. by destruct u. Qed.

(** A string of valid runes decodes to them; [ToLower] and [WriteRune] loops
    produce such strings. *)
Lemma decode_ToLower s : decode (ToLower s) = map lower_unit (decode s).
Proof.
  unfold ToLower, lower_unit.
  rewrite <- (map_map (fun u => lower_rune (rune_of u)) R).
  apply decode_encode_runes. apply Forall_map.
  eapply Forall_impl; [apply decode_valid|]. simpl. intros u Hu.
  by apply lower_rune_valid, rune_of_valid.
Qed.

Lemma ToLower_idemp s : ToLower (ToLower s) = ToLower s.
Proof.
  unfold ToLower at 1. rewrite decode_ToLower, map_map.
  unfold ToLower. f_equal. apply map_ext. intros u.
  unfold lower_unit. simpl. by rewrite lower_rune_idemp.
Qed.

(** Lower-casing a string without outer spaces introduces none. *)
Lemma lower_unit_space u : space_unit u = false -> space_unit (lower_unit u) = false.
Proof. destruct u; simpl; intros; by rewrite lower_rune_space. Qed.

Lemma lower_no_space_ends us : no_space_ends us -> no_space_ends (map lower_unit us).
Proof.
  intros [Hh Hl]. split; intros u.
  - destruct us as [|v us]; [done|]. intros [= <-]. apply lower_unit_space. by apply Hh.
  - change (map lower_unit us) with (lower_unit <$> us). rewrite fmap_last.
    destruct (last us) as [v|]; [|done]. intros [= <-]. apply lower_unit_space. by apply Hl.
Qed.

Lemma space_lower_unit u : space_unit (lower_unit u) = space_unit u.
Proof. destruct u as [r|b]; simpl; [apply lower_rune_space|reflexivity]. Qed.

Lemma trim_left_lower us : trim_left (map lower_unit us) = map lower_unit (trim_left us).
Proof.
  induction us as [|u us IH]; [done|]. cbn [map trim_left]. rewrite space_lower_unit.
  by destruct (space_unit u).
Qed.

(** Trimming and lower-casing commute. *)
Lemma TrimSpace_ToLower s : TrimSpace (ToLower s) = ToLower (TrimSpace s).
Proof.
  unfold TrimSpace at 1, ToLower at 2. rewrite decode_ToLower, decode_TrimSpace.
  f_equal. unfold trim_units. rewrite trim_left_lower.
  change (map lower_unit) with (fmap (M := list) lower_unit).
  rewrite <- fmap_reverse. change (fmap (M := list) lower_unit) with (map lower_unit).
  rewrite trim_left_lower. change (map lower_unit) with (fmap (M := list) lower_unit).
  by rewrite fmap_reverse.
Qed.

Lemma TrimSpace_ToLower_TrimSpace s :
  TrimSpace (ToLower (TrimSpace s)) = ToLower (TrimSpace s).
Proof. by rewrite TrimSpace_ToLower, TrimSpace_idemp. Qed.

Lemma decode_nil_iff s : decode s = [] <-> s = [].
Proof.
  split; [|by intros ->]. intros H. by rewrite <- (encode_decode s), H.
Qed.

(** ** ASCII text *)

Lemma decode_ascii s : Forall (fun c => bZ c < 128) s -> decode s = map (fun c => R (bZ c)) s.
Proof.
  induction 1 as [|c s Hc _ IH]; [done|]. rewrite decode_unfold. cbn [decode1 map].
  by rewrite (proj2 (Z.ltb_lt _ 128)), IH.
Qed.

Lemma TrimSpace_ascii s :
  Forall (fun c => bZ c < 128) s ->
  (forall c, head s = Some c -> isSpace (bZ c) = false) ->
  (forall c, last s = Some c -> isSpace (bZ c) = false) ->
  TrimSpace s = s.
Proof.
  intros Ha Hh Hl. unfold TrimSpace. rewrite trim_units_id; [apply encode_decode|].
  rewrite decode_ascii by done. split; intros u.
  - destruct s; [done|]. intros [= <-]. by apply Hh.
  - change (map ?f s) with (f <$> s). rewrite fmap_last.
    destruct (last s); [|done]. intros [= <-]. by apply Hl.
Qed.
