(* ===== verification/HexHash.v ===== *)
(** * Destination and identity hashes in text form

    [pkg/rrc/hash.go] (and its twin [pkg/mf/hash.go]): parsing a 16-byte hash
    from hex with optional angle brackets and separators, and printing it in
    groups of four hex digits.  The main result is that printing and parsing
    are inverse on every hash of the right length. *)

From stdpp Require Import base tactics list strings.
From Stdlib Require Import ZArith Lia.
From S2P Require Import Prelude GoText.

Definition hashGroup : nat := 4.
Definition IdentityLength : Z := 16.

(** ** [encoding/hex] *)

Definition hex_digit (v : Z) : byte := if v <? 10 then Zb (48 + v) else Zb (87 + v).

Fixpoint hex_Encode (l : bytes) : bytes :=
  match l with
  | [] => []
  | b :: l => hex_digit (bZ b / 16) :: hex_digit (bZ b mod 16) :: hex_Encode l
  end.

Definition hex_value (c : byte) : option Z :=
  let z := bZ c in
  if between 48 z 57 then Some (z - 48)
  else if between 97 z 102 then Some (z - 87)
  else if between 65 z 70 then Some (z - 55)
  else None.

Inductive hex_error := InvalidByteError (c : byte) | ErrLength | TooLong | Empty.

Fixpoint hex_Decode (s : bytes) : res hex_error bytes :=
  match s with
  | [] => Ok []
  | [p] => match hex_value p with None => Err (InvalidByteError p) | Some _ => Err ErrLength end
  | p :: q :: s =>
      match hex_value p, hex_value q with
      | None, _ => Err (InvalidByteError p)
      | _, None => Err (InvalidByteError q)
      | Some a, Some b => r ← hex_Decode s; Ok (Zb (a * 16 + b) :: r)
      end
  end.

(** ** [hash.go] *)

Definition is_sep (c : byte) : bool :=
  bool_decide (c = x3a) || bool_decide (c = x20) || bool_decide (c = x2d).

(** The copy loop of [decodeHashHex]: separators are skipped, and at most 128
    characters are kept. *)
Fixpoint collect (s : bytes) (buf : bytes) : res hex_error bytes :=
  match s with
  | [] => Ok buf
  | c :: s =>
      if is_sep c then collect s buf
      else if 128 <=? len buf then Err TooLong
      else collect s (buf ++ [c])
  end.

Definition strip_brackets (s : bytes) : bytes :=
  if (2 <=? len s) && bool_decide (head s = Some x3c) && bool_decide (last s = Some x3e)
  then ztake (len s - 2) (zdrop 1 s) else s.

Definition decodeHashHex (s : bytes) : res hex_error bytes :=
  let s := strip_brackets (TrimSpace s) in
  buf ← collect s [];
  if len buf =? 0 then Err Empty else hex_Decode buf.

Inductive hash_error := ErrInvalidHash (cause : hex_error) | ErrInvalidHashLength (n : Z).

Definition ParseHash (s : bytes) : res hash_error bytes :=
  match decodeHashHex s with
  | Err e => Err (ErrInvalidHash e)
  | Ok raw => if len raw =? IdentityLength then Ok raw else Err (ErrInvalidHashLength (len raw))
  end.

(** [formatGroupedBytes]: a blank before every chunk but the first. *)
Fixpoint group_loop (n : nat) (first : bool) (group : nat) (hexs : bytes) : bytes :=
  match n with
  | O => []
  | S n =>
      match hexs with
      | [] => []
      | _ => (if first then [] else [x20]) ++ take group hexs
             ++ group_loop n false group (drop group hexs)
      end
  end.

Definition formatGroupedBytes (hexs : bytes) (group : nat) : bytes :=
  group_loop (length hexs) true group hexs.

Definition FormatHash (hash : bytes) : bytes :=
  if len hash =? 0 then [] else formatGroupedBytes (hex_Encode hash) hashGroup.

Example ex_format : FormatHash [x01; xab; xcd; xef; x10] = lit "01ab cdef 10".
Proof. reflexivity. Qed.

Example ex_parse : ParseHash (lit " <01:23-45 67:89ab-cdef:0123-4567:89AB CDEF> ")
  = Ok [x01; x23; x45; x67; x89; xab; xcd; xef; x01; x23; x45; x67; x89; xab; xcd; xef].
Proof. reflexivity. Qed.

(** ** Round trip *)

(** What the printed text is made of. *)
Definition hexish (c : byte) : bool := between 48 (bZ c) 57 || between 97 (bZ c) 102.

Lemma hex_digit_bZ v : 0 <= v < 16 ->
  bZ (hex_digit v) = if v <? 10 then 48 + v else 87 + v.
Proof. intros. unfold hex_digit. destruct (v <? 10) eqn:?; bool_hyps; apply bZ_Zb_small; lia. Qed.

Lemma hex_digit_hexish v : 0 <= v < 16 -> hexish (hex_digit v) = true.
Proof.
  intros. unfold hexish, between. rewrite hex_digit_bZ by done.
  destruct (v <? 10) eqn:?; bool_hyps; lia.
Qed.

Lemma hex_value_digit v : 0 <= v < 16 -> hex_value (hex_digit v) = Some v.
Proof.
  intros. unfold hex_value. rewrite hex_digit_bZ by done. cbv zeta. unfold between.
  destruct (v <? 10) eqn:?; bool_hyps; case_tests; bool_hyps; try lia; f_equal; lia.
Qed.

Lemma nibbles b : 0 <= bZ b / 16 < 16 /\ 0 <= bZ b mod 16 < 16.
Proof. pose proof (bZ_range b). dlia. Qed.

Lemma hex_Decode_Encode l : hex_Decode (hex_Encode l) = Ok l.
Proof.
  induction l as [|b l IH]; [done|]. cbn [hex_Encode hex_Decode].
  destruct (nibbles b). rewrite !hex_value_digit, IH by done. simpl.
  repeat f_equal. rewrite Z.mul_comm, <- Z.div_mod by lia. apply Zb_bZ.
Qed.

Lemma hex_Encode_hexish l : Forall (fun c => hexish c = true) (hex_Encode l).
Proof.
  induction l as [|b l IH]; [constructor|]. cbn [hex_Encode].
  destruct (nibbles b). repeat constructor; try apply hex_digit_hexish; done.
Qed.

Lemma length_hex_Encode l : length (hex_Encode l) = (2 * length l)%nat.
Proof. induction l; simpl; lia. Qed.

Lemma hexish_not_sep c : hexish c = true -> is_sep c = false.
Proof.
  unfold hexish, is_sep, between. intros H.
  repeat case_bool_decide; subst; try done.
Qed.

Lemma collect_app s1 s2 buf :
  Forall (fun c => is_sep c = false) s1 -> len buf + len s1 <= 128 ->
  collect (s1 ++ s2) buf = collect s2 (buf ++ s1).
Proof.
  intros Hs. revert buf. induction Hs as [|c s1 Hc _ IH]; intros buf Hl.
  { by rewrite app_nil_r. }
  rewrite len_cons in Hl. pose proof (len_nonneg s1). simpl. rewrite Hc.
  rewrite (proj2 (Z.leb_gt 128 _)) by lia.
  rewrite IH by (rewrite len_app, len_cons; unfold len at 2; simpl; lia).
  by rewrite <- app_assoc.
Qed.

Lemma collect_grouped n first group hexs buf :
  (length hexs <= n)%nat -> (0 < group)%nat ->
  Forall (fun c => hexish c = true) hexs -> len buf + len hexs <= 128 ->
  collect (group_loop n first group hexs) buf = Ok (buf ++ hexs).
Proof.
  revert first hexs buf. induction n as [|n IH]; intros first hexs buf Hn Hg Hh Hl.
  { destruct hexs; simpl in Hn; [|lia]. by rewrite app_nil_r. }
  destruct hexs as [|c hexs]; [by rewrite app_nil_r|]. cbn [group_loop].
  set (l := c :: hexs) in *.
  assert (Hns : Forall (fun c => is_sep c = false) (take group l)).
  { apply Forall_take. eapply Forall_impl; [exact Hh|]. intros ?. apply hexish_not_sep. }
  rewrite <- (take_drop group l) in Hl. rewrite len_app in Hl.
  pose proof (len_nonneg (take group l)). pose proof (len_nonneg (drop group l)).
  transitivity (collect (take group l ++ group_loop n false group (drop group l)) buf).
  { by destruct first. }
  rewrite collect_app by (done || lia).
  rewrite IH; [by rewrite <- app_assoc, take_drop| |done|by apply Forall_drop|].
  - subst l. rewrite length_drop. simpl in *. lia.
  - rewrite len_app. lia.
Qed.

Lemma group_loop_head n group hexs : (length hexs <= n)%nat -> (0 < group)%nat ->
  head (group_loop n true group hexs) = head hexs.
Proof.
  destruct n, hexs as [|c hexs]; simpl; try done; [lia|]. intros. by destruct group; [lia|].
Qed.

Lemma group_loop_last n first group hexs : (length hexs <= n)%nat -> (0 < group)%nat ->
  last (group_loop n first group hexs) = last hexs.
Proof.
  revert first hexs. induction n as [|n IH]; intros first hexs Hn Hg.
  { destruct hexs; [done|simpl in Hn; lia]. }
  destruct hexs as [|c hexs]; [done|]. cbn [group_loop].
  set (l := c :: hexs) in *.
  assert (Hd : (length (drop group l) <= n)%nat).
  { subst l. rewrite length_drop. simpl in *. lia. }
  rewrite !last_app, (IH false _ Hd Hg).
  transitivity (last (take group l ++ drop group l)); [|by rewrite take_drop].
  rewrite last_app.
  destruct (last (drop group l)) as [d|] eqn:E; [done|].
  destruct (last (take group l)) as [e|] eqn:E'; [done|].
  apply last_None in E'. subst l. by destruct group; [lia|].
Qed.

Lemma group_loop_ascii n first group hexs : Forall (fun c => bZ c < 128) hexs ->
  Forall (fun c => bZ c < 128) (group_loop n first group hexs).
Proof.
  revert first hexs. induction n as [|n IH]; intros first hexs Hh; [constructor|].
  destruct hexs as [|c hexs]; [constructor|]. cbn [group_loop].
  apply Forall_app; split; [destruct first; repeat constructor|].
  apply Forall_app; split; [by apply Forall_take|]. apply IH. by apply Forall_drop.
Qed.

Lemma hexish_ascii c : hexish c = true -> bZ c < 128 /\ isSpace (bZ c) = false
  /\ c <> x3c.
Proof.
  unfold hexish, isSpace, between. intros H.
  split; [lia|]. split; [lia|]. intros ->. done.
Qed.

(** The printed form of a hash survives trimming and has no brackets. *)
Lemma FormatHash_clean h : 0 < len h ->
  strip_brackets (TrimSpace (FormatHash h)) = formatGroupedBytes (hex_Encode h) hashGroup.
Proof.
  intros Hl. unfold FormatHash. rewrite (proj2 (Z.eqb_neq (len h) 0)) by lia.
  unfold formatGroupedBytes. set (x := hex_Encode h).
  assert (Hx : Forall (fun c => hexish c = true) x) by apply hex_Encode_hexish.
  assert (Hh : forall c, head x = Some c -> hexish c = true).
  { intros c Hc. destruct x; [done|]. injection Hc as ->. by inversion Hx. }
  rewrite TrimSpace_ascii.
  - unfold strip_brackets. rewrite group_loop_head by (unfold hashGroup; lia).
    destruct (bool_decide (head x = Some x3c)) eqn:E; [|by rewrite andb_false_r].
    bool_hyps. apply Hh in E. by destruct (hexish_ascii _ E) as (_ & _ & []).
  - apply group_loop_ascii. eapply Forall_impl; [exact Hx|]. intros c Hc. by apply hexish_ascii.
  - intros c. rewrite group_loop_head by (unfold hashGroup; lia). intros Hc.
    by apply hexish_ascii, Hh.
  - intros c. rewrite group_loop_last by (unfold hashGroup; lia). intros Hc.
    apply hexish_ascii. rewrite Forall_forall in Hx. apply Hx.
    apply last_Some_elem_of in Hc. done.
Qed.

Lemma decodeHashHex_FormatHash h : 0 < len h <= 64 -> decodeHashHex (FormatHash h) = Ok h.
Proof.
  intros Hl. unfold decodeHashHex. rewrite FormatHash_clean by lia. cbv zeta.
  unfold formatGroupedBytes.
  assert (He : len (hex_Encode h) = 2 * len h).
  { unfold len. rewrite length_hex_Encode. lia. }
  rewrite collect_grouped; [|done|unfold hashGroup; lia|apply hex_Encode_hexish|].
  - simpl. rewrite (proj2 (Z.eqb_neq _ 0)) by lia. apply hex_Decode_Encode.
  - rewrite He. unfold len at 1. simpl. lia.
Qed.

Lemma ParseHash_FormatHash h : len h = IdentityLength -> ParseHash (FormatHash h) = Ok h.
Proof.
  intros Hl. unfold ParseHash. unfold IdentityLength in *.
  rewrite decodeHashHex_FormatHash by lia. by rewrite Hl.
Qed.

Lemma ParseHash_length s h : ParseHash s = Ok h -> len h = IdentityLength.
Proof.
  unfold ParseHash. destruct (decodeHashHex s); [|done].
  destruct (_ =? _) eqn:E; [|done]. intros [= <-]. by bool_hyps.
Qed.

(** A hash that [ParseHash] accepts, in any of its spellings, is 16 bytes
    long, and its displayed form parses back to it. *)
Theorem hash_text_roundtrip s h : ParseHash s = Ok h ->
  len h = IdentityLength /\ ParseHash (FormatHash h) = Ok h.
Proof. intros H%ParseHash_length. split; [done|by apply ParseHash_FormatHash]. Qed.

Lemma hash_text_roundtrip_witness :
  let s := lit "<0123:4567-89AB cdef 0123 4567 89ab cdef>" in
  match ParseHash s with Ok h => ParseHash (FormatHash h) = Ok h | Err _ => False end.
Proof.
  destruct (ParseHash (lit "<0123:4567-89AB cdef 0123 4567 89ab cdef>")) as [h|e] eqn:E;
    cbv zeta; rewrite E.
  - exact (proj2 (hash_text_roundtrip _ h E)).
  - vm_compute in E. discriminate.
Defined.
