(* ===== verification/Mf.v ===== *)
(** * MF: the compact native message format ([pkg/mf])

    Messages are a 16-byte sender hash followed by text, with an optional
    group hash marked by a flag byte.  The file models [mf.go] (validation,
    packing, unpacking, the messenger's send paths) and [hash.go]; identities,
    destinations and the transport belong to Reticulum and are the parameters
    of the [Messenger] section. *)

From stdpp Require Import base tactics list strings.
From Stdlib Require Import ZArith Lia.
From S2P Require Import Prelude GoText HexHash.

Definition SenderHashLength : Z := 16.
Definition MaxMessageSize : Z := 420.
Definition groupFlagPresent : byte := x01.

Inductive mf_error :=
| ErrInvalidHashLength (want got : Z)
| ErrInvalidHash (e : hash_error)
| ErrRecall
| ErrMessageTooShort
| ErrMessageTooLong (max got : Z)
| ErrNet (e : Z).

Record Message := mkMessage { SenderHash : bytes; GroupHash : bytes; Text : bytes }.

#[export] Instance Message_eq_dec : EqDecision Message.
Proof. solve_decision. Defined.

(** ** Messages *)

Definition Validate (m : Message) : res mf_error unit :=
  if negb (len (SenderHash m) =? SenderHashLength)
  then Err (ErrInvalidHashLength SenderHashLength (len (SenderHash m)))
  else if (0 <? len (GroupHash m)) && negb (len (GroupHash m) =? SenderHashLength)
  then Err (ErrInvalidHashLength SenderHashLength (len (GroupHash m)))
  else if MaxMessageSize <? len (Text m)
  then Err (ErrMessageTooLong MaxMessageSize (len (Text m)))
  else Ok tt.

Definition newMessageOwned (senderHash groupHash text : bytes) : res mf_error Message :=
  let m := mkMessage senderHash groupHash text in
  _ ← Validate m; Ok m.

Definition cloneBytes (b : bytes) : bytes :=
  if len b =? 0 then [] else copy_range 0 (len b) b (make_bytes (len b)).

Definition NewMessageWithGroup (senderHash groupHash text : bytes) : res mf_error Message :=
  let gh := if 0 <? len groupHash then cloneBytes groupHash else [] in
  newMessageOwned (cloneBytes senderHash) gh text.

Definition NewMessage (senderHash text : bytes) : res mf_error Message :=
  NewMessageWithGroup senderHash [] text.

Definition NewMessageFromHex (senderHashHex text : bytes) : res mf_error Message :=
  match ParseHash senderHashHex with
  | Err e => Err (ErrInvalidHash e)
  | Ok hash => NewMessage hash text
  end.

Definition Len (m : Message) : Z :=
  if 0 <? len (GroupHash m)
  then SenderHashLength + 1 + SenderHashLength + len (Text m)
  else SenderHashLength + len (Text m).

Definition FormatSenderHash (m : Message) : bytes := hex_Encode (SenderHash m).

Definition Equal (m : Message) (other : option Message) : bool :=
  match other with
  | None => false
  | Some o =>
      bool_decide (Text m = Text o) && bool_decide (SenderHash m = SenderHash o)
      && bool_decide (GroupHash m = GroupHash o)
  end.

Definition Pack (m : Message) : res mf_error bytes :=
  _ ← Validate m;
  if 0 <? len (GroupHash m) then
    let payload := make_bytes (Len m) in
    let payload := copy_range 0 SenderHashLength (SenderHash m) payload in
    let payload := <[Z.to_nat SenderHashLength := groupFlagPresent]> payload in
    let payload :=
      copy_range (SenderHashLength + 1) (SenderHashLength + 1 + SenderHashLength)
        (GroupHash m) payload in
    Ok (copy_range (SenderHashLength + 1 + SenderHashLength) (len payload) (Text m) payload)
  else
    let payload := make_bytes (Len m) in
    let payload := copy_range 0 SenderHashLength (SenderHash m) payload in
    Ok (copy_range SenderHashLength (len payload) (Text m) payload).

Definition Unpack (data : bytes) : res mf_error Message :=
  if len data <? SenderHashLength then Err ErrMessageTooShort
  else
    let senderHash := ztake SenderHashLength data in
    let rest := zdrop SenderHashLength data in
    if (0 <? len rest) && bool_decide (head rest = Some groupFlagPresent) then
      if len rest <? 1 + SenderHashLength then Err ErrMessageTooShort
      else
        let groupHash := ztake SenderHashLength (zdrop 1 rest) in
        newMessageOwned senderHash groupHash (zdrop (1 + SenderHashLength) rest)
    else newMessageOwned senderHash [] rest.

Definition ValidateSenderHash (hash : bytes) : res mf_error unit :=
  if len hash =? SenderHashLength then Ok tt
  else Err (ErrInvalidHashLength SenderHashLength (len hash)).

Record Peer := mkPeer { PeerHash : bytes; AppData : bytes }.

Definition PeerValidate (p : Peer) : res mf_error unit :=
  if len (PeerHash p) =? SenderHashLength then Ok tt
  else Err (ErrInvalidHashLength SenderHashLength (len (PeerHash p))).

(** ** The messenger *)

Section Messenger.
(** Reticulum's side: an identity store, outbound destinations with their
    encryption, packet packing and the transport. *)
Context {Identity Destination : Type}.
Context (Recall : bytes -> res Z (option Identity)).
Context (FromHash : bytes -> option Identity -> res Z Destination).
Context (Encrypt : Destination -> bytes -> res Z bytes).
Context (PacketPack : bytes -> bytes -> res Z bytes).
Context (SendPacket : bytes -> res Z unit).

(** The local inbound destination's hash. *)
Context (destHashLocal : bytes).

Definition net {A} (r : res Z A) : res mf_error A :=
  match r with Ok a => Ok a | Err e => Err (ErrNet e) end.

(** The result and the raw packets handed to the transport. *)
Definition sendPacked (destHash : bytes) (target : Destination) (msg : Message)
  : res mf_error unit * list bytes :=
  match (payload ← Pack msg; encrypted ← net (Encrypt target payload);
         net (PacketPack destHash encrypted)) with
  | Err e => (Err e, [])
  | Ok raw => (net (SendPacket raw), [raw])
  end.

Definition SendMessage (destHash text : bytes) : res mf_error unit * list bytes :=
  if negb (len destHash =? SenderHashLength)
  then (Err (ErrInvalidHashLength SenderHashLength (len destHash)), [])
  else
    match (remote ← net (Recall destHash); target ← net (FromHash destHash remote);
           msg ← NewMessage destHashLocal text; Ok (target, msg)) with
    | Err e => (Err e, [])
    | Ok (target, msg) => sendPacked destHash target msg
    end.

Definition SendGroupMessage (destHash groupHash text : bytes) : res mf_error unit * list bytes :=
  if negb (len destHash =? SenderHashLength)
  then (Err (ErrInvalidHashLength SenderHashLength (len destHash)), [])
  else if negb (len groupHash =? SenderHashLength)
  then (Err (ErrInvalidHashLength SenderHashLength (len groupHash)), [])
  else
    match (remote ← net (Recall destHash); target ← net (FromHash destHash remote);
           msg ← NewMessageWithGroup destHashLocal groupHash text; Ok (target, msg)) with
    | Err e => (Err e, [])
    | Ok (target, msg) => sendPacked destHash target msg
    end.

(** The polling loop of [sendHash]: [poll i] is what the [i]-th call of
    [identity.Recall] returns and [expired i] whether the deadline has passed
    after it.  [None] is a run that used up its fuel. *)
Fixpoint recall_loop (fuel : nat) (poll : nat -> res Z (option Identity))
    (expired : nat -> bool) (i : nat) : option (res mf_error unit) :=
  match fuel with
  | O => None
  | S fuel =>
      match poll i with
      | Ok (Some _) => Some (Ok tt)
      | _ => if expired i then Some (Err ErrRecall) else recall_loop fuel poll expired (S i)
      end
  end.

Definition sendHash (fuel : nat) (poll : nat -> res Z (option Identity)) (expired : nat -> bool)
    (destHex text : bytes) : option (res mf_error unit * list bytes) :=
  match ParseHash destHex with
  | Err e => Some (Err (ErrInvalidHash e), [])
  | Ok destHash =>
      match recall_loop fuel poll expired 0 with
      | None => None
      | Some (Err e) => Some (Err e, [])
      | Some (Ok _) => Some (SendMessage destHash text)
      end
  end.
End Messenger.

(** ** Packing *)

Lemma Validate_Ok m : Validate m = Ok tt <->
  len (SenderHash m) = SenderHashLength
  /\ (GroupHash m = [] \/ len (GroupHash m) = SenderHashLength)
  /\ len (Text m) <= MaxMessageSize.
Proof.
  unfold Validate. pose proof (len_nonneg (GroupHash m)).
  rewrite <- (len_0_nil (GroupHash m)). unfold SenderHashLength, MaxMessageSize in *.
  destruct (len (SenderHash m) =? 16) eqn:?, (0 <? len (GroupHash m)) eqn:?,
    (len (GroupHash m) =? 16) eqn:?, (420 <? len (Text m)) eqn:?;
    simpl; bool_hyps; split; intros; try done; lia.
Qed.

Lemma cloneBytes_id b : cloneBytes b = b.
Proof.
  unfold cloneBytes. destruct (len b =? 0) eqn:E; bool_hyps.
  { symmetry. by apply len_0_nil. }
  pose proof (len_nonneg b).
  rewrite <- (app_nil_l (make_bytes _)), <- (app_nil_r (make_bytes _)).
  rewrite copy_range_block; [by rewrite app_nil_r|done|by apply len_make_bytes|lia].
Qed.

(** What the block copies of [Pack] assemble. *)
Lemma Pack_layout m d : Pack m = Ok d <->
  Validate m = Ok tt /\
  d = if 0 <? len (GroupHash m) then SenderHash m ++ groupFlagPresent :: GroupHash m ++ Text m
      else SenderHash m ++ Text m.
Proof.
  unfold Pack. destruct (Validate m) as [[]|e] eqn:V; [|simpl; naive_solver].
  apply Validate_Ok in V as (Hs & Hg & Ht). simpl.
  pose proof (len_nonneg (Text m)).
  unfold Len, SenderHashLength in *. destruct (0 <? len (GroupHash m)) eqn:E; bool_hyps.
  - destruct Hg as [Hg|Hg]; [rewrite Hg in E; done|].
    rewrite !make_bytes_app by lia.
    rewrite <- !app_assoc, <- (app_nil_l (make_bytes 16 ++ _)).
    rewrite copy_range_block by (rewrite ?len_make_bytes; done || lia). cbn [app].
    rewrite insert_app_r_alt by (unfold len in *; lia).
    replace (Z.to_nat 16 - length (SenderHash m))%nat with 0%nat by (unfold len in *; lia).
    change (<[0%nat := groupFlagPresent]> (make_bytes 1 ++ ?l)) with ([groupFlagPresent] ++ l).
    rewrite app_assoc, copy_range_block;
      [|rewrite len_app, Hs; done|rewrite len_make_bytes; lia|lia].
    rewrite !app_assoc, <- (app_nil_r (make_bytes _)), copy_range_block;
      [|rewrite !len_app, Hs, Hg; done|rewrite len_make_bytes; lia
       |len_lia].
    rewrite app_nil_r, <- !app_assoc. simpl. naive_solver.
  - rewrite make_bytes_app by lia.
    rewrite <- (app_nil_l (make_bytes 16 ++ _)).
    rewrite copy_range_block by (rewrite ?len_make_bytes; done || lia). cbn [app].
    rewrite <- (app_nil_r (make_bytes (len (Text m)))), copy_range_block;
      [|done|rewrite len_make_bytes; lia
       |len_lia].
    rewrite app_nil_r. naive_solver.
Qed.

Lemma Unpack_plain s t : len s = SenderHashLength -> len t <= MaxMessageSize ->
  head t <> Some groupFlagPresent -> Unpack (s ++ t) = Ok (mkMessage s [] t).
Proof.
  intros Hs Ht Hh. pose proof (len_nonneg t). unfold Unpack.
  rewrite (proj2 (Z.ltb_ge _ _)) by (rewrite len_app; lia).
  rewrite zdrop_app, ztake_app by done. cbv zeta.
  rewrite (bool_decide_eq_false_2 _ Hh), andb_false_r. unfold newMessageOwned.
  rewrite (proj2 (Validate_Ok _)); [done|]. simpl. auto.
Qed.

(** A flag byte after the sender hash is always read as the group marker. *)
Lemma Unpack_flagged s t : len s = SenderHashLength ->
  Unpack (s ++ groupFlagPresent :: t) =
  if len t <? SenderHashLength then Err ErrMessageTooShort
  else newMessageOwned s (ztake SenderHashLength t) (zdrop SenderHashLength t).
Proof.
  intros Hs. pose proof (len_nonneg t). unfold Unpack. unfold SenderHashLength in *.
  rewrite (proj2 (Z.ltb_ge _ 16)) by len_lia.
  rewrite zdrop_app, ztake_app by done. cbv zeta. cbn [head].
  rewrite (proj2 (Z.ltb_lt 0 _)) by len_lia.
  rewrite bool_decide_eq_true_2 by done. cbn [andb].
  change (zdrop 1 (groupFlagPresent :: t)) with t.
  change (zdrop (1 + 16) (groupFlagPresent :: t)) with (zdrop 16 t).
  rewrite len_cons.
  destruct (1 + len t <? 1 + 16) eqn:?, (len t <? 16) eqn:?; bool_hyps; done || lia.
Qed.

Lemma Unpack_group s g t : len s = SenderHashLength -> len g = SenderHashLength ->
  len t <= MaxMessageSize -> Unpack (s ++ groupFlagPresent :: g ++ t) = Ok (mkMessage s g t).
Proof.
  intros Hs Hg Ht. rewrite Unpack_flagged by done. pose proof (len_nonneg t).
  rewrite (proj2 (Z.ltb_ge _ _)) by len_lia. rewrite ztake_app, zdrop_app by done.
  unfold newMessageOwned. rewrite (proj2 (Validate_Ok _)); [done|]. simpl. auto.
Qed.

Lemma Unpack_Ok d m : Unpack d = Ok m ->
  Validate m = Ok tt /\
  d = if 0 <? len (GroupHash m) then SenderHash m ++ groupFlagPresent :: GroupHash m ++ Text m
      else SenderHash m ++ Text m.
Proof.
  unfold Unpack, newMessageOwned. intros H.
  destruct (len d <? SenderHashLength) eqn:E; [done|]. cbv zeta in H. bool_hyps.
  unfold SenderHashLength in *. pose proof (len_zdrop 16 d ltac:(lia)) as Hd.
  destruct ((0 <? _) && _) eqn:F in H.
  - bool_hyps. destruct (_ <? 1 + 16) eqn:G in H; [done|]. bool_hyps. res_inv.
    split; [by destruct x|]. cbn [GroupHash SenderHash Text].
    destruct (zdrop 16 d) as [|b rest] eqn:R; [done|]. simpl in *. simplify_eq.
    rewrite len_cons in G. change (zdrop 1 (groupFlagPresent :: rest)) with rest.
    rewrite len_ztake by lia. cbn [Z.ltb Z.compare].
    change (zdrop (1 + 16) (groupFlagPresent :: rest)) with (zdrop 16 rest).
    by rewrite ztake_zdrop, <- R, ztake_zdrop.
  - res_inv. split; [by destruct x|]. cbn. by rewrite ztake_zdrop.
Qed.

(** ** Properties *)

(** C30: unpacking what [Pack] wrote gives the message back exactly when the
    message carries a group hash or its text does not begin with the group
    flag byte 0x01. *)
Theorem mf_roundtrip m d : Pack m = Ok d ->
  (Unpack d = Ok m <-> 0 < len (GroupHash m) \/ head (Text m) <> Some groupFlagPresent).
Proof.
  rewrite Pack_layout. intros [V ->]. apply Validate_Ok in V as (Hs & Hg & Ht).
  destruct m as [s g t]; simpl in *. destruct (0 <? len g) eqn:E; bool_hyps.
  - destruct Hg as [->|Hg]; [done|]. rewrite Unpack_group by done. naive_solver.
  - pose proof (len_nonneg g). assert (g = []) as -> by (apply len_0_nil; lia).
    split; [|intros [?|?]; [lia|by apply Unpack_plain]].
    intros HU. right. destruct t as [|c t]; [done|]. intros [= ->].
    rewrite Unpack_flagged in HU by done.
    destruct (len t <? _) eqn:F; [done|]. bool_hyps. unfold newMessageOwned in HU. res_inv.
    assert (Ht' : len (ztake SenderHashLength t) = 16) by (by apply len_ztake).
    assert (Hz : ztake SenderHashLength t = []) by congruence. by rewrite Hz in Ht'.
Qed.

Lemma mf_roundtrip_witness :
  Unpack (replicate 16 x07 ++ lit "hello") = Ok (mkMessage (replicate 16 x07) [] (lit "hello")).
Proof.
  apply (mf_roundtrip (mkMessage (replicate 16 x07) [] (lit "hello"))); [reflexivity|].
  right. vm_compute. discriminate.
Defined.

(** A message without a group whose text begins with the byte 0x01 packs
    without an error and is never read back: the receiver either reports a
    truncated group payload or delivers a group message whose group hash is
    the next sixteen bytes of the text. *)
Theorem mf_flag_text_misread s t : len s = SenderHashLength -> len t < MaxMessageSize ->
  Pack (mkMessage s [] (groupFlagPresent :: t)) = Ok (s ++ groupFlagPresent :: t)
  /\ Unpack (s ++ groupFlagPresent :: t) =
     if len t <? SenderHashLength then Err ErrMessageTooShort
     else Ok (mkMessage s (ztake SenderHashLength t) (zdrop SenderHashLength t)).
Proof.
  intros Hs Ht. unfold MaxMessageSize, SenderHashLength in *. split.
  - apply Pack_layout. simpl. split; [|done]. apply Validate_Ok. simpl.
    unfold MaxMessageSize. repeat split; [done|by left|len_lia].
  - rewrite Unpack_flagged by done. unfold SenderHashLength.
    destruct (len t <? 16) eqn:E; [done|]. bool_hyps.
    unfold newMessageOwned. rewrite (proj2 (Validate_Ok _)); [done|]. simpl.
    unfold MaxMessageSize. rewrite len_ztake, len_zdrop by lia. repeat split; auto; lia.
Qed.

Lemma mf_flag_text_misread_witness :
  Unpack (replicate 16 x07 ++ groupFlagPresent :: replicate 20 x41)
  = Ok (mkMessage (replicate 16 x07) (replicate 16 x41) (replicate 4 x41)).
Proof.
  exact (proj2 (mf_flag_text_misread (replicate 16 x07) (replicate 20 x41)
                  eq_refl eq_refl)).
Defined.

(** [Unpack] accepts only canonical encodings: what it returns is a valid
    message, and packing that message gives the same bytes again. *)
Theorem mf_unpack_canonical d m : Unpack d = Ok m -> Validate m = Ok tt /\ Pack m = Ok d.
Proof. intros H. apply Unpack_Ok in H as [V ->]. split; [done|]. by apply Pack_layout. Qed.

Lemma mf_unpack_canonical_witness :
  Pack (mkMessage (replicate 16 x02) (replicate 16 x03) (lit "hi"))
  = Ok (replicate 16 x02 ++ groupFlagPresent :: replicate 16 x03 ++ lit "hi").
Proof.
  apply (mf_unpack_canonical
           (replicate 16 x02 ++ groupFlagPresent :: replicate 16 x03 ++ lit "hi")).
  reflexivity.
Defined.

(** A packed message has the length [Len] announces; without a group it
    fits the 436 bytes (500 - 64) that [MaxMessageSize] is derived from, and
    with a group it does exactly when the text has at most 403 bytes, although
    [Validate] admits 420. *)
Theorem mf_packed_size m d : Pack m = Ok d ->
  len d = Len m /\ Len m <= 453
  /\ (Len m <= 500 - 64 <-> GroupHash m = [] \/ len (Text m) <= 403).
Proof.
  rewrite Pack_layout. intros [V ->]. apply Validate_Ok in V as (Hs & Hg & Ht).
  unfold Len, SenderHashLength, MaxMessageSize in *.
  destruct (0 <? len (GroupHash m)) eqn:E; bool_hyps.
  - destruct Hg as [Hg|Hg]; [by rewrite Hg in E|]. split; [len_lia|]. split; [lia|].
    split; [intros; right; lia|]. intros [Hn|?]; [by rewrite Hn in E|lia].
  - split; [len_lia|]. split; [lia|]. split; [|lia]. intros. left. apply len_0_nil.
    pose proof (len_nonneg (GroupHash m)). lia.
Qed.

Lemma mf_packed_size_witness :
  len (replicate 16 x02 ++ groupFlagPresent :: replicate 16 x03 ++ replicate 420 x41) = 453.
Proof.
  exact (proj1 (mf_packed_size (mkMessage (replicate 16 x02) (replicate 16 x03) (replicate 420 x41))
    _ eq_refl)).
Defined.

Section MessengerProps.
Context {Identity Destination : Type}.
Context (Recall : bytes -> res Z (option Identity)).
Context (FromHash : bytes -> option Identity -> res Z Destination).
Context (Encrypt : Destination -> bytes -> res Z bytes).
Context (PacketPack : bytes -> bytes -> res Z bytes).
Context (SendPacket : bytes -> res Z unit).
Context (destHashLocal : bytes).

Lemma net_Ok {A} (r : res Z A) a : net r = Ok a <-> r = Ok a.
Proof. destruct r; simpl; split; congruence. Qed.

Lemma sendPacked_sent destHash target msg r raw :
  sendPacked Encrypt PacketPack SendPacket destHash target msg = (r, raw) ->
  (raw = [] /\ is_ok r = false) \/
  exists p enc pkt, Pack msg = Ok p /\ Encrypt target p = Ok enc
    /\ PacketPack destHash enc = Ok pkt /\ raw = [pkt] /\ r = net (SendPacket pkt).
Proof.
  unfold sendPacked. destruct (_ ≫= _) as [pkt|e] eqn:E; intros [= <- <-]; [|by left].
  right. res_inv. rewrite !net_Ok in *. naive_solver.
Qed.

(** A message the messenger hands to the transport is the encryption, for
    the destination recalled from the requested hash, of a payload that the
    receiver unpacks to the local destination hash and the given text (unless
    the text begins with the group flag); a failing send hands over nothing
    unless the transport itself failed. *)
Theorem mf_send_delivers destHash text r sent :
  SendMessage Recall FromHash Encrypt PacketPack SendPacket destHashLocal destHash text = (r, sent) ->
  head text <> Some groupFlagPresent ->
  (sent = [] /\ is_ok r = false) \/
  exists ident target payload enc pkt,
    len destHash = SenderHashLength /\ Recall destHash = Ok ident
    /\ FromHash destHash ident = Ok target
    /\ Unpack payload = Ok (mkMessage destHashLocal [] text)
    /\ Encrypt target payload = Ok enc /\ PacketPack destHash enc = Ok pkt
    /\ sent = [pkt] /\ r = net (SendPacket pkt).
Proof.
  unfold SendMessage. destruct (negb _) eqn:E; [intros [= <- <-]; by left|]. bool_hyps.
  destruct (_ ≫= _) as [[target msg]|e] eqn:F; [|intros [= <- <-]; by left].
  intros [[-> ?]|(p & enc & pkt & Hp & He & Hk & -> & ->)]%sendPacked_sent Ht; [by left|right].
  res_inv. rewrite !net_Ok in *. simplify_eq.
  unfold NewMessage, NewMessageWithGroup, newMessageOwned in *. res_inv.
  rewrite cloneBytes_id in *.
  eexists _, _, p, enc, pkt.
  do 3 (split; [eassumption|]). split; [|by auto].
  apply Pack_layout in Hp as [V ->]. apply Validate_Ok in V as (? & _ & ?). simpl in *.
  by apply Unpack_plain.
Qed.

Lemma recall_loop_poll fuel poll expired i n : (n < fuel)%nat ->
  (forall k, (k < n)%nat -> expired (i + k)%nat = false /\ forall x, poll (i + k)%nat <> Ok (Some x)) ->
  (exists x, poll (i + n)%nat = Ok (Some x)) \/ expired (i + n)%nat = true ->
  @recall_loop Identity fuel poll expired i =
  Some (match poll (i + n)%nat with Ok (Some _) => Ok tt | _ => Err ErrRecall end).
Proof.
  revert i n. induction fuel as [|fuel IH]; intros i n Hn Hbefore Hat; [lia|]. simpl.
  destruct n as [|n].
  - rewrite Nat.add_0_r in *. destruct (poll i) as [[x|]|e]; [done| |];
      (destruct Hat as [[? [=]]| ->]; done).
  - destruct (Hbefore 0%nat ltac:(lia)) as [He Hp]. rewrite Nat.add_0_r in *. rewrite He.
    rewrite <- Nat.add_succ_comm.
    transitivity (recall_loop fuel poll expired (S i)).
    { destruct (poll i) as [[x|]|e]; [by destruct (Hp x)|done|done]. }
    apply IH; [lia| |by rewrite Nat.add_succ_comm].
    intros k Hk. rewrite Nat.add_succ_comm. apply Hbefore. lia.
Qed.

End MessengerProps.

(** A network in which every identity is known and encryption is the
    identity function, to exercise the send paths. *)
Definition demo_send :=
  SendMessage (fun _ => Ok (Some tt)) (fun _ _ => Ok tt) (fun _ p => Ok p)
    (fun _ p => Ok p) (fun _ => Ok tt) (replicate 16 x0a).

Lemma mf_send_delivers_witness : exists payload,
  Unpack payload = Ok (mkMessage (replicate 16 x0a) [] (lit "hey"))
  /\ demo_send (replicate 16 x0b) (lit "hey") = (Ok tt, [payload]).
Proof.
  destruct (mf_send_delivers (fun _ => Ok (Some tt)) (fun _ _ => Ok tt) (fun _ p => Ok p)
    (fun _ p => Ok p) (fun _ => Ok tt) (replicate 16 x0a) (replicate 16 x0b) (lit "hey")
    (Ok tt) [replicate 16 x0a ++ lit "hey"])
    as [[[=] _]|(_ & _ & p & e & k & _ & _ & _ & Hu & [= <-] & [= <-] & [= <-] & _)];
    [vm_compute; reflexivity|vm_compute; discriminate|].
  eexists. split; [exact Hu|vm_compute; reflexivity].
Defined.

