(* ===== verification/Cbor.v ===== *)
(** * Dynamic values and the CBOR codec interface

    The envelopes of [pkg/rrc] and [pkg/rnv] are CBOR maps with unsigned
    integer keys, read into and written from Go values of type [any].  This
    file models those values, the conversions the packages apply to them, and,
    as the class [Cbor] with the laws [CborLaws], what the packages rely on of
    the CBOR library (github.com/fxamacker/cbor): encoding a map and decoding
    the bytes gives the same map, up to the Go types the decoder picks for an
    [any].  [CborRef.v] has an executable instance. *)

From stdpp Require Import base tactics list strings.
From Stdlib Require Import ZArith Lia.
From S2P Require Import Prelude GoText.

(** ** Values of type [any] *)

(** The dynamic types the code distinguishes.  Maps are association lists in
    iteration order; [AOther] stands for a value of any other type (a CBOR tag,
    a big integer, a channel, ...). *)
Inductive any : Type :=
| ANil
| ABool (b : bool)
| AU64 (z : Z) | AU32 (z : Z) | AU16 (z : Z) | AU8 (z : Z) | AUint (z : Z)
| AI64 (z : Z) | AI32 (z : Z) | AInt (z : Z)
| AFloat (bits : Z)
| AStr (s : bytes)
| ABytes (b : bytes)
| AArr (l : list any)
| AMapU (l : list (Z * any))
| AMapA (l : list (any * any))
| AOther (tag : Z).

Section any_ind.
Context (P : any -> Prop).
Context (Hscalar : forall v, match v with AArr _ | AMapU _ | AMapA _ => True | _ => P v end).
Context (Harr : forall l, Forall P l -> P (AArr l)).
Context (HmapU : forall l, Forall (fun kv => P kv.2) l -> P (AMapU l)).
Context (HmapA : forall l, Forall (fun kv => P kv.1 /\ P kv.2) l -> P (AMapA l)).

(** Induction that reaches into arrays and maps. *)
Fixpoint any_nested_ind (v : any) : P v.
Proof.
  destruct v.
  all: try match goal with |- P ?v => exact (Hscalar v) end.
  - apply Harr. induction l; constructor; [apply any_nested_ind|assumption].
  - apply HmapU. induction l; constructor; [apply any_nested_ind|assumption].
  - apply HmapA. induction l; constructor; [split; apply any_nested_ind|assumption].
Qed.
End any_ind.

(** ** Maps keyed by [uint64] *)

Abbreviation umap := (list (Z * any)).

(** [v, ok := m[k]]. *)
Fixpoint uget (m : umap) (k : Z) : option any :=
  match m with
  | [] => None
  | (k', v) :: m => if k =? k' then Some v else uget m k
  end.

(** [m[k]] without the presence bit: [nil] when absent. *)
Definition uget_nil (m : umap) (k : Z) : any :=
  match uget m k with Some v => v | None => ANil end.

(** [m[k] = v]. *)
Fixpoint uput (m : umap) (k : Z) (v : any) : umap :=
  match m with
  | [] => [(k, v)]
  | (k', w) :: m => if k =? k' then (k, v) :: m else (k', w) :: uput m k v
  end.

Lemma uget_uput m k v k' : uget (uput m k v) k' = if k' =? k then Some v else uget m k'.
Proof.
  induction m as [|[j w] m IH]; simpl; [done|].
  destruct (k =? j) eqn:E; simpl; bool_hyps; subst.
  - by destruct (k' =? j).
  - rewrite IH. destruct (k' =? j) eqn:F, (k' =? k) eqn:G; bool_hyps; subst; done.
Qed.

Lemma uget_map_snd (f : any -> any) m k :
  uget (map (fun kv => (kv.1, f kv.2)) m) k = f <$> uget m k.
Proof. induction m as [|[j w] m IH]; simpl; [done|]. by destruct (k =? j). Qed.

(** ** Conversions shared by the packages *)

(** [asUint64] of [pkg/rrc/envelope.go]. *)
Definition asUint64 (v : any) : option Z :=
  match v with
  | AU64 n | AU32 n | AU16 n | AU8 n | AUint n => Some n
  | AI64 n | AI32 n | AInt n => if n <? 0 then None else Some (u64 n)
  | _ => None
  end.

Definition asBytes (v : any) : option bytes :=
  match v with ABytes b => Some b | _ => None end.

Definition asString (v : any) : option bytes :=
  match v with AStr s => Some s | _ => None end.

(** ** The codec *)

(** [cbor.DecOptions] as the packages set them. *)
Record DecLimits := mkLimits
  { MaxNestedLevels : Z; MaxArrayElements : Z; MaxMapPairs : Z }.

Definition valid_utf8 (s : bytes) : bool :=
  forallb (fun u => match u with R _ => true | B _ => false end) (decode s).

(** A value the decoder accepts under [lim] when it stands at nesting depth
    [d]: integers in the range of their type, text in UTF-8, containers within
    the limits. *)
Fixpoint fits (lim : DecLimits) (d : Z) (v : any) : bool :=
  match v with
  | ANil | ABool _ => true
  | AU64 z | AUint z => between 0 z max_u64
  | AU32 z => between 0 z (2 ^ 32 - 1)
  | AU16 z => between 0 z (2 ^ 16 - 1)
  | AU8 z => between 0 z (2 ^ 8 - 1)
  | AI64 z | AInt z => between (- 2 ^ 63) z (2 ^ 63 - 1)
  | AI32 z => between (- 2 ^ 31) z (2 ^ 31 - 1)
  | AFloat bits => between 0 bits max_u64
  | AStr s => valid_utf8 s && (len s <? 2 ^ 64)
  | ABytes b => len b <? 2 ^ 64
  | AArr l =>
      (d <? MaxNestedLevels lim) && (len l <=? MaxArrayElements lim) && forallb (fits lim (d + 1)) l
  | AMapU l =>
      (d <? MaxNestedLevels lim) && (len l <=? MaxMapPairs lim)
      && forallb (fun kv => between 0 kv.1 max_u64 && fits lim (d + 1) kv.2) l
  | AMapA l =>
      (d <? MaxNestedLevels lim) && (len l <=? MaxMapPairs lim)
      && forallb (fun kv =>
           match kv.1 with AU64 z => between 0 z max_u64 | AStr s => valid_utf8 s && (len s <? 2 ^ 64)
                      | _ => false end && fits lim (d + 1) kv.2) l
  | AOther _ => false
  end.

Definition wire_int (z : Z) : any := if z <? 0 then AI64 z else AU64 z.

(** What decoding into an [any] makes of an encoded value: unsigned integers
    are [uint64], negative ones [int64], maps [map[any]any]. *)
Fixpoint wire (v : any) : any :=
  match v with
  | AU64 z | AU32 z | AU16 z | AU8 z | AUint z => AU64 z
  | AI64 z | AI32 z | AInt z => wire_int z
  | AArr l => AArr (map wire l)
  | AMapU l => AMapA (map (fun kv => (AU64 kv.1, wire kv.2)) l)
  | AMapA l => AMapA (map (fun kv => (wire kv.1, wire kv.2)) l)
  | v => v
  end.

(** [cbor_Marshal] is [cbor.Marshal] ([None]: an encoding error) and
    [cbor_Unmarshal] is [envelopeDec.Unmarshal(data, &m)] for an [m] of type
    [map[uint64]any]. *)
Class Cbor := {
  cbor_Marshal : any -> option bytes;
  cbor_Unmarshal : bytes -> option umap;
}.

Class CborLaws (C : Cbor) (lim : DecLimits) : Prop := {
  cbor_encodes : forall v, fits lim 0 v = true ->
    exists bs, cbor_Marshal v = Some bs /\ bs <> [];
  cbor_decodes : forall m bs, NoDup (map fst m) -> fits lim 0 (AMapU m) = true ->
    cbor_Marshal (AMapU m) = Some bs ->
    exists m', cbor_Unmarshal bs = Some m' /\ forall k, uget m' k = wire <$> uget m k;
}.

(** ** What [wire] keeps *)

Lemma asUint64_wire v lim d n : fits lim d v = true -> asUint64 v = Some n ->
  asUint64 (wire v) = Some n.
Proof.
  destruct v; simpl; try done; unfold wire_int, between; intros Hf H;
    destruct (z <? 0) eqn:E; try done; bool_hyps; by rewrite u64_small in H by lia.
Qed.

Lemma asString_wire v : asString (wire v) = asString v.
Proof. destruct v; simpl; unfold wire_int; by try case_match. Qed.

Lemma asBytes_wire v : asBytes (wire v) = asBytes v.
Proof. destruct v; simpl; unfold wire_int; by try case_match. Qed.

Lemma wire_wire v : wire (wire v) = wire v.
Proof.
  revert v. apply any_nested_ind.
  - intros v. destruct v; simpl; try exact I; try done; unfold wire_int;
      destruct (z <? 0) eqn:E; simpl; unfold wire_int; by rewrite ?E.
  - intros l H. simpl. f_equal. rewrite map_map. by apply map_ext_Forall.
  - intros l H. simpl. f_equal. rewrite map_map. apply map_ext_Forall.
    eapply Forall_impl; [exact H|]. intros [k v] Hv. simpl in *. by rewrite Hv.
  - intros l H. simpl. f_equal. rewrite map_map. apply map_ext_Forall.
    eapply Forall_impl; [exact H|]. intros [k v] [Hk Hv]. simpl in *. by rewrite Hk, Hv.
Qed.

(** ** Maps over the wire *)

Definition wire_map (m : umap) : umap := map (fun kv => (kv.1, wire kv.2)) m.

Lemma uget_wire_map m k : uget (wire_map m) k = wire <$> uget m k.
Proof. apply uget_map_snd. Qed.

Lemma uput_fresh m k v : k ∉ map fst m -> uput m k v = m ++ [(k, v)].
Proof.
  induction m as [|[j w] m IH]; simpl; [done|]. intros Hk.
  rewrite not_elem_of_cons in Hk. destruct Hk as [Hj Hk].
  rewrite (proj2 (Z.eqb_neq k j)) by done. by rewrite IH.
Qed.
