(* ===== verification/CborRef.v ===== *)
(** * An executable CBOR codec satisfying the codec interface

    The definite-length subset of RFC 8949 the packages put on the wire:
    integers, byte and text strings, arrays, maps, booleans, null and doubles,
    with shortest-form heads.  Its purpose is to show that the laws assumed of
    the CBOR library can hold, and to let the examples and witnesses of the
    protocol files run on real encodings. *)

From stdpp Require Import base tactics list sets strings.
From Stdlib Require Import ZArith Lia.
From S2P Require Import Prelude GoText Cbor.

(** ** Encoding *)

Definition put_head (m n : Z) : bytes :=
  if n <? 24 then [Zb (m * 32 + n)]
  else if n <? 2 ^ 8 then Zb (m * 32 + 24) :: be_put 1 n
  else if n <? 2 ^ 16 then Zb (m * 32 + 25) :: be_put 2 n
  else if n <? 2 ^ 32 then Zb (m * 32 + 26) :: be_put 4 n
  else Zb (m * 32 + 27) :: be_put 8 n.

Definition enc_int (z : Z) : bytes := if z <? 0 then put_head 1 (-1 - z) else put_head 0 z.

Fixpoint enc (v : any) : bytes :=
  match v with
  | ANil => [xf6]
  | ABool false => [xf4]
  | ABool true => [xf5]
  | AU64 z | AU32 z | AU16 z | AU8 z | AUint z => put_head 0 z
  | AI64 z | AI32 z | AInt z => enc_int z
  | AFloat bits => xfb :: be_put 8 bits
  | ABytes b => put_head 2 (len b) ++ b
  | AStr s => put_head 3 (len s) ++ s
  | AArr l => put_head 4 (len l) ++ concat (map enc l)
  | AMapU l => put_head 5 (len l) ++ concat (map (fun kv => put_head 0 kv.1 ++ enc kv.2) l)
  | AMapA l => put_head 5 (len l) ++ concat (map (fun kv => enc kv.1 ++ enc kv.2) l)
  | AOther _ => []
  end.

Fixpoint encodable (v : any) : bool :=
  match v with
  | AOther _ => false
  | AArr l => forallb encodable l
  | AMapU l => forallb (fun kv => encodable kv.2) l
  | AMapA l => forallb (fun kv => encodable kv.1 && encodable kv.2) l
  | _ => true
  end.

(** ** Decoding *)

(** Major type, additional information, argument, rest. *)
Definition get_head (bs : bytes) : option (Z * Z * Z * bytes) :=
  match bs with
  | [] => None
  | b :: r =>
      let m := bZ b / 32 in
      let i := bZ b mod 32 in
      let arg (n : Z) :=
        if len r <? n then None else Some (m, i, be_get (ztake n r), zdrop n r) in
      if i <? 24 then Some (m, i, i, r)
      else if i =? 24 then arg 1 else if i =? 25 then arg 2
      else if i =? 26 then arg 4 else if i =? 27 then arg 8 else None
  end.

Section items.
Context (f : bytes -> option (any * bytes)).

Fixpoint get_items (n : nat) (bs : bytes) : option (list any * bytes) :=
  match n with
  | O => Some ([], bs)
  | S n =>
      match f bs with
      | None => None
      | Some (v, r) =>
          match get_items n r with None => None | Some (vs, r') => Some (v :: vs, r') end
      end
  end.
End items.

Fixpoint pairs (l : list any) : list (any * any) :=
  match l with k :: v :: l => (k, v) :: pairs l | _ => [] end.

Fixpoint dec (fuel : nat) (bs : bytes) : option (any * bytes) :=
  match fuel with
  | O => None
  | S fuel =>
      match get_head bs with
      | None => None
      | Some (m, i, n, r) =>
          if m =? 0 then Some (AU64 n, r)
          else if m =? 1 then Some (AI64 (-1 - n), r)
          else if m =? 2 then
            if len r <? n then None else Some (ABytes (ztake n r), zdrop n r)
          else if m =? 3 then
            if len r <? n then None else Some (AStr (ztake n r), zdrop n r)
          else if m =? 4 then
            if len r <? n then None
            else match get_items (dec fuel) (Z.to_nat n) r with
                 | None => None | Some (vs, r') => Some (AArr vs, r') end
          else if m =? 5 then
            if len r <? n then None
            else match get_items (dec fuel) (2 * Z.to_nat n) r with
                 | None => None | Some (vs, r') => Some (AMapA (pairs vs), r') end
          else if (m =? 7) && (i =? 20) then Some (ABool false, r)
          else if (m =? 7) && (i =? 21) then Some (ABool true, r)
          else if (m =? 7) && (i =? 22) then Some (ANil, r)
          else if (m =? 7) && (i =? 27) then Some (AFloat n, r)
          else None
      end
  end.

(** Keys that are not unsigned integers are a type error; of equal keys the
    last one counts. *)
Fixpoint to_umap (l : list (any * any)) (acc : umap) : option umap :=
  match l with
  | [] => Some acc
  | (AU64 k, v) :: l => to_umap l (uput acc k v)
  | _ => None
  end.

Definition ref_cbor : Cbor := {|
  cbor_Marshal v := if encodable v then Some (enc v) else None;
  cbor_Unmarshal bs :=
    match dec (S (length bs)) bs with
    | Some (AMapA l, []) => to_umap l []
    | _ => None
    end;
|}.

(** ** The laws *)

Lemma bZ_Zb_head m i : 0 <= m < 8 -> 0 <= i < 32 ->
  bZ (Zb (m * 32 + i)) / 32 = m /\ bZ (Zb (m * 32 + i)) mod 32 = i.
Proof. intros. rewrite bZ_Zb_small by lia. dlia. Qed.

Lemma get_head_arg m i k n rest : 0 <= m < 8 ->
  In (i, k) [(24, 1%nat); (25, 2%nat); (26, 4%nat); (27, 8%nat)] ->
  0 <= n < 256 ^ Z.of_nat k ->
  get_head (Zb (m * 32 + i) :: be_put k n ++ rest) = Some (m, i, n, rest).
Proof.
  intros Hm Hk Hn. assert (24 <= i < 28) as Hi by (simpl in Hk; naive_solver lia).
  unfold get_head. destruct (bZ_Zb_head m i) as [-> ->]; [lia|lia|]. cbv zeta.
  assert (Hp : len (be_put k n) = Z.of_nat k) by (unfold len; by rewrite length_be_put).
  assert (Ha : (if len (be_put k n ++ rest) <? Z.of_nat k then None
                else Some (m, i, be_get (ztake (Z.of_nat k) (be_put k n ++ rest)),
                           zdrop (Z.of_nat k) (be_put k n ++ rest)))
               = Some (m, i, n, rest)).
  { rewrite (proj2 (Z.ltb_ge _ _)) by (rewrite len_app; pose proof (len_nonneg rest); lia).
    rewrite ztake_app, zdrop_app by done. by rewrite be_get_put, Z.mod_small. }
  rewrite (proj2 (Z.ltb_ge i 24)) by lia.
  simpl in Hk. destruct Hk as [[= <- <-]|[[= <- <-]|[[= <- <-]|[[= <- <-]|[]]]]]; exact Ha.
Qed.

Lemma get_put_head m n rest : 0 <= m < 8 -> 0 <= n <= max_u64 ->
  exists i, get_head (put_head m n ++ rest) = Some (m, i, n, rest).
Proof.
  intros Hm Hn. unfold max_u64 in Hn. unfold put_head.
  destruct (n <? 24) eqn:?; bool_hyps.
  { exists n. simpl. destruct (bZ_Zb_head m n) as [-> ->]; [lia|lia|].
    by rewrite (proj2 (Z.ltb_lt n 24)). }
  destruct (n <? 2 ^ 8) eqn:?; [|destruct (n <? 2 ^ 16) eqn:?; [|destruct (n <? 2 ^ 32) eqn:?]];
    bool_hyps; eexists; rewrite <- app_comm_cons; apply get_head_arg; try done;
    simpl; naive_solver lia.
Qed.

Lemma put_head_length m n : (1 <= length (put_head m n))%nat.
Proof. unfold put_head. repeat case_match; simpl; lia. Qed.

Lemma enc_length v : encodable v = true -> (1 <= length (enc v))%nat.
Proof.
  intros Hv. destruct v as [|[]| | | | | | | | | | | | | | |]; try done; simpl; unfold enc_int;
    try (case_match; apply put_head_length); try apply put_head_length;
    rewrite ?length_app; try (pose proof (put_head_length 2 (len b)); lia);
    try (pose proof (put_head_length 3 (len s)); lia);
    try (pose proof (put_head_length 4 (len l)); lia);
    try (pose proof (put_head_length 5 (len l)); lia); lia.
Qed.

Fixpoint depth (v : any) : nat :=
  match v with
  | AArr l => S (list_max (map depth l))
  | AMapU l => S (list_max (map (fun kv => depth kv.2) l))
  | AMapA l => S (list_max (map (fun kv => Nat.max (depth kv.1) (depth kv.2)) l))
  | _ => O
  end.

(** The nesting depth of a value is at most the length of its encoding. *)
Lemma list_max_concat {A} (d : A -> nat) (e : A -> bytes) l :
  Forall (fun x => (d x <= length (e x))%nat) l ->
  (list_max (map d l) <= length (concat (map e l)))%nat.
Proof. induction 1; simpl; [lia|]. rewrite length_app. lia. Qed.

Lemma depth_enc v : (depth v <= length (enc v))%nat.
Proof.
  revert v. apply any_nested_ind.
  - intros v. destruct v; simpl; try exact I; lia.
  - intros l H. simpl. rewrite length_app. pose proof (put_head_length 4 (len l)).
    apply list_max_concat in H. lia.
  - intros l H. simpl. rewrite length_app. pose proof (put_head_length 5 (len l)).
    cut (list_max (map (fun kv => depth kv.2) l)
         <= length (concat (map (fun kv => put_head 0 kv.1 ++ enc kv.2) l)))%nat; [lia|].
    apply list_max_concat. eapply Forall_impl; [exact H|]. simpl. intros [k v] Hv.
    simpl in *. rewrite length_app. lia.
  - intros l H. simpl. rewrite length_app. pose proof (put_head_length 5 (len l)).
    cut (list_max (map (fun kv => Nat.max (depth kv.1) (depth kv.2)) l)
         <= length (concat (map (fun kv => enc kv.1 ++ enc kv.2) l)))%nat; [lia|].
    apply list_max_concat. eapply Forall_impl; [exact H|]. simpl. intros [k v] [Hk Hv].
    simpl in *. rewrite length_app. lia.
Qed.

Lemma fits_encodable lim v : forall d, fits lim d v = true -> encodable v = true.
Proof.
  revert v. apply (any_nested_ind (fun v => forall d, fits lim d v = true -> encodable v = true)).
  - intros v. destruct v; simpl; try exact I; done.
  - intros l H d Hf. simpl in *. bool_hyps. rewrite forallb_forall in *. intros v Hv.
    rewrite List.Forall_forall in H. eauto.
  - intros l H d Hf. simpl in *. bool_hyps. rewrite forallb_forall in *. intros kv Hv.
    rewrite List.Forall_forall in H. specialize (H1 _ Hv). bool_hyps. eauto.
  - intros l H d Hf. simpl in *. bool_hyps. rewrite forallb_forall in *. intros kv Hv.
    rewrite List.Forall_forall in H. specialize (H1 _ Hv). destruct (H _ Hv) as [_ Hs].
    bool_hyps. apply andb_true_iff. split; [|eauto]. by destruct kv.1.
Qed.

(** Reading back a sequence of encodings. *)
Lemma get_items_concat {A} (f : bytes -> option (any * bytes)) (e : A -> bytes) (w : A -> any) l rest :
  Forall (fun x => forall rest, f (e x ++ rest) = Some (w x, rest)) l ->
  get_items f (length l) (concat (map e l) ++ rest) = Some (map w l, rest).
Proof.
  induction 1 as [|x l Hx _ IH]; [done|]. simpl. rewrite <- app_assoc, Hx.
  by rewrite IH.
Qed.

Lemma get_items_pairs {A} (f : bytes -> option (any * bytes)) (e1 e2 : A -> bytes)
    (w1 w2 : A -> any) l rest :
  Forall (fun x => forall rest, f (e1 x ++ rest) = Some (w1 x, rest)
                             /\ f (e2 x ++ rest) = Some (w2 x, rest)) l ->
  exists vs, get_items f (2 * length l) (concat (map (fun x => e1 x ++ e2 x) l) ++ rest)
             = Some (vs, rest)
    /\ pairs vs = map (fun x => (w1 x, w2 x)) l.
Proof.
  induction 1 as [|x l Hx _ (vs & IH & Hp)]; [by exists []|].
  exists (w1 x :: w2 x :: vs). split; [|simpl; by rewrite Hp].
  replace (2 * length (x :: l))%nat with (S (S (2 * length l))) by (simpl; lia).
  cbn [get_items map concat]. rewrite <- !app_assoc.
  rewrite (proj1 (Hx _)), (proj2 (Hx _)), IH. done.
Qed.

Lemma length_concat_ge {A} (e : A -> bytes) l :
  Forall (fun x => (1 <= length (e x))%nat) l -> (length l <= length (concat (map e l)))%nat.
Proof. induction 1; simpl; [lia|]. rewrite length_app. lia. Qed.

(** One step of [dec] on a head written by [put_head]. *)
Ltac dec_head m n :=
  let i := fresh "i" in let Hi := fresh "Hi" in
  match goal with
  | |- context [get_head (put_head m n ++ ?r)] =>
      destruct (get_put_head m n r) as [i Hi]; [lia | unfold max_u64 in *; lia |]; rewrite Hi; clear Hi
  end.

Lemma dec_head_int z rest fuel : 0 <= z <= max_u64 ->
  dec (S fuel) (put_head 0 z ++ rest) = Some (AU64 z, rest).
Proof. intros. cbn [dec]. dec_head 0 z. done. Qed.

Lemma dec_enc_int z rest fuel : - 2 ^ 63 <= z < 2 ^ 63 ->
  dec (S fuel) (enc_int z ++ rest) = Some (wire_int z, rest).
Proof.
  intros. unfold enc_int, wire_int. destruct (z <? 0) eqn:E; bool_hyps.
  - cbn [dec]. dec_head 1 (-1 - z). simpl. repeat f_equal. lia.
  - apply dec_head_int. unfold max_u64. lia.
Qed.

Lemma dec_enc_str (m : Z) (k : bytes -> any) s rest fuel :
  (m = 2 /\ k = ABytes \/ m = 3 /\ k = AStr) -> len s < 2 ^ 64 ->
  dec (S fuel) ((put_head m (len s) ++ s) ++ rest) = Some (k s, rest).
Proof.
  intros Hm Hl. pose proof (len_nonneg s). pose proof (len_nonneg rest).
  rewrite <- app_assoc. cbn [dec].
  destruct Hm as [[-> ->]|[-> ->]];
    [dec_head 2 (len s)|dec_head 3 (len s)]; simpl;
    rewrite (proj2 (Z.ltb_ge _ _)) by (rewrite len_app; lia);
    by rewrite ztake_app, zdrop_app.
Qed.

Lemma dec_arr {A} (e : A -> bytes) (w : A -> any) (l : list A) fuel rest :
  len l < 2 ^ 64 -> Forall (fun x => (1 <= length (e x))%nat) l ->
  Forall (fun x => forall rest, dec fuel (e x ++ rest) = Some (w x, rest)) l ->
  dec (S fuel) ((put_head 4 (len l) ++ concat (map e l)) ++ rest) = Some (AArr (map w l), rest).
Proof.
  intros Hl He Hd. rewrite <- app_assoc. cbn [dec]. apply length_concat_ge in He.
  pose proof (len_nonneg l). pose proof (len_nonneg rest). dec_head 4 (len l). cbn [Z.eqb Pos.eqb].
  rewrite (proj2 (Z.ltb_ge _ _)) by (rewrite len_app; unfold len in *; lia).
  replace (Z.to_nat (len l)) with (length l) by (unfold len; lia).
  by rewrite (get_items_concat _ e w).
Qed.

Lemma dec_map {A} (e1 e2 : A -> bytes) (w1 w2 : A -> any) (l : list A) fuel rest :
  len l < 2 ^ 64 -> Forall (fun x => (1 <= length (e1 x))%nat) l ->
  Forall (fun x => forall rest, dec fuel (e1 x ++ rest) = Some (w1 x, rest)
                             /\ dec fuel (e2 x ++ rest) = Some (w2 x, rest)) l ->
  dec (S fuel) ((put_head 5 (len l) ++ concat (map (fun x => e1 x ++ e2 x) l)) ++ rest)
  = Some (AMapA (map (fun x => (w1 x, w2 x)) l), rest).
Proof.
  intros Hl He Hd. rewrite <- app_assoc. cbn [dec].
  assert (length l <= length (concat (map (fun x => e1 x ++ e2 x) l)))%nat.
  { apply length_concat_ge. eapply Forall_impl; [exact He|]. intros x Hx. simpl in *. rewrite length_app. lia. }
  pose proof (len_nonneg l). pose proof (len_nonneg rest). dec_head 5 (len l). cbn [Z.eqb Pos.eqb].
  rewrite (proj2 (Z.ltb_ge _ _)) by (rewrite len_app; unfold len in *; lia).
  replace (Z.to_nat (len l)) with (length l) by (unfold len; lia).
  destruct (get_items_pairs (dec fuel) e1 e2 w1 w2 l rest Hd) as (vs & Hg & Hp).
  by rewrite Hg, Hp.
Qed.

Lemma list_max_In {A} (d : A -> nat) x l : In x l -> (d x <= list_max (map d l))%nat.
Proof.
  intros H. pose proof (proj1 (list_max_le (map d l) (list_max (map d l))) (le_n _)) as F.
  rewrite List.Forall_forall in F. by apply F, in_map.
Qed.

(** [v] is read back as the decoder's view of it, whatever follows. *)
Definition decodes_back (lim : DecLimits) (v : any) : Prop :=
  forall d fuel rest, fits lim d v = true -> (depth v < fuel)%nat ->
  dec fuel (enc v ++ rest) = Some (wire v, rest).

Section laws.
Context (lim : DecLimits).
Context (La : MaxArrayElements lim < 2 ^ 64) (Lp : MaxMapPairs lim < 2 ^ 64).

Lemma dec_enc_scalar v : match v with AArr _ | AMapU _ | AMapA _ => True | _ => decodes_back lim v end.
Proof.
  destruct v as [|[]| | | | | | | | | | | | | | |]; try exact I;
    intros d fuel rest Hf Hd; (destruct fuel as [|fuel]; [lia|]);
    cbn [fits] in Hf; unfold between, max_u64 in Hf; bool_hyps; try done; cbn [enc wire];
    try (apply dec_head_int; unfold max_u64; lia); try (apply dec_enc_int; lia);
    try (apply dec_enc_str; auto; lia).
  change (xfb :: be_put 8 bits) with (Zb (7 * 32 + 27) :: be_put 8 bits).
  rewrite <- app_comm_cons. cbn [dec].
  rewrite get_head_arg; [done|lia|simpl; tauto|lia].
Qed.

Lemma dec_enc v : decodes_back lim v.
Proof.
  revert v. apply any_nested_ind; [exact dec_enc_scalar|..];
    intros l H d fuel rest Hf Hd; cbn [fits] in Hf; bool_hyps; cbn [depth] in Hd;
    (destruct fuel as [|fuel]; [lia|]); cbn [enc wire];
    rewrite forallb_forall in *; rewrite List.Forall_forall in H.
  - apply dec_arr; [lia|..]; apply List.Forall_forall; intros x Hx.
    + eapply enc_length, fits_encodable; eauto.
    + intros r. eapply H; eauto. pose proof (list_max_In depth _ _ Hx). lia.
  - apply dec_map; [lia|..]; apply List.Forall_forall; intros kv Hx.
    + apply put_head_length.
    + intros r. specialize (H1 _ Hx). unfold between in H1. bool_hyps.
      pose proof (list_max_In (fun kv : Z * any => depth kv.2) _ _ Hx).
      destruct fuel as [|fuel]; [lia|]. split; [apply dec_head_int; lia|].
      eapply H; eauto. simpl in *. lia.
  - apply dec_map; [lia|..]; apply List.Forall_forall; intros kv Hx;
      specialize (H1 _ Hx); bool_hyps.
    + apply enc_length. by destruct kv.1.
    + intros r. pose proof (list_max_In
        (fun kv : any * any => Nat.max (depth kv.1) (depth kv.2)) _ _ Hx) as Hm. simpl in Hm.
      destruct (H _ Hx) as [Hk Hv]. split; [eapply (Hk d)|eapply Hv]; eauto; try lia.
      by destruct kv.1.
Qed.

Lemma to_umap_get l acc : NoDup (map fst l) ->
  exists m', to_umap (map (fun kv => (AU64 kv.1, wire kv.2)) l) acc = Some m' /\
    forall k, uget m' k = match wire <$> uget l k with Some v => Some v | None => uget acc k end.
Proof.
  revert acc. induction l as [|[j v] l IH]; intros acc Hn; [by exists acc|].
  inversion Hn as [|? ? Hj Hl]; subst. destruct (IH (uput acc j (wire v)) Hl) as (m' & Hm & Hg).
  exists m'. split; [done|]. intros k. rewrite Hg, uget_uput. simpl.
  destruct (k =? j) eqn:E; [|done]. bool_hyps. subst.
  assert (uget l j = None) as ->; [|done].
  clear -Hj. induction l as [|[i w] l IH]; [done|]. simpl in *.
  rewrite (proj2 (Z.eqb_neq j i)) by set_solver. set_solver.
Qed.

Lemma ref_cbor_laws : CborLaws ref_cbor lim.
Proof.
  split.
  - intros v Hf. apply fits_encodable in Hf. exists (enc v). simpl. rewrite Hf. split; [done|].
    apply enc_length in Hf. intros E. rewrite E in Hf. simpl in Hf. lia.
  - intros m bs Hn Hf. unfold cbor_Marshal, ref_cbor.
    rewrite (fits_encodable _ _ _ Hf). intros Hb.
    assert (bs = enc (AMapU m)) as -> by congruence. clear Hb.
    pose proof (dec_enc (AMapU m) 0 (S (length (enc (AMapU m)))) [] Hf) as Hd.
    rewrite app_nil_r in Hd. unfold cbor_Unmarshal, ref_cbor.
    rewrite Hd by (pose proof (depth_enc (AMapU m)); lia). cbn [wire].
    destruct (to_umap_get m [] Hn) as (m' & -> & Hg). exists m'. split; [done|].
    intros k. rewrite Hg. by destruct (uget m k).
Qed.
End laws.
