(* ===== verification/RrcRoom.v ===== *)
(** * RRC room names and nicknames ([pkg/rrc/room.go])

    Rooms are keyed by their trimmed, lower-cased name; nicknames are trimmed
    and stripped of control characters. *)

From stdpp Require Import base tactics list strings.
From Stdlib Require Import ZArith Lia.
From S2P Require Import Prelude GoText.

(** ** Operations *)

Definition NormalizeRoom (name : bytes) : bytes := ToLower (TrimSpace name).

Definition stripped_rune (r : Z) : bool := (r =? 0) || (r =? 10) || (r =? 13) || isControl r.

(** The [WriteRune] loop over [range nick]. *)
Definition stripNickControls (nick : bytes) : bytes :=
  encode (map R (List.filter (fun r => negb (stripped_rune r)) (map rune_of (decode nick)))).

Definition SanitizeNick (nick : bytes) : bytes :=
  let nick := TrimSpace nick in
  if bool_decide (nick = []) then []
  else if existsb stripped_rune (map rune_of (decode nick)) then stripNickControls nick
  else nick.

(** The key of the hub's nickname index: [strings.ToLower(strings.TrimSpace(nick))]. *)
Definition nickKey (nick : bytes) : bytes := ToLower (TrimSpace nick).

Example ex_room : NormalizeRoom (lit "  #Lobby	") = lit "#lobby".
Proof. reflexivity. Qed.

(** ** Lemmas *)

Definition control_free (s : bytes) : Prop :=
  Forall (fun r => stripped_rune r = false) (map rune_of (decode s)).

Lemma NormalizeRoom_idemp s : NormalizeRoom (NormalizeRoom s) = NormalizeRoom s.
Proof. unfold NormalizeRoom. by rewrite TrimSpace_ToLower_TrimSpace, ToLower_idemp. Qed.

Lemma decode_stripNickControls s :
  decode (stripNickControls s) =
  map R (List.filter (fun r => negb (stripped_rune r)) (map rune_of (decode s))).
Proof.
  unfold stripNickControls. apply decode_encode_runes. apply List.Forall_forall. intros r Hr.
  apply List.filter_In in Hr as [Hr _]. apply in_map_iff in Hr as (u & <- & Hu).
  pose proof (decode_valid s) as Hv. rewrite List.Forall_forall in Hv.
  by apply rune_of_valid, Hv.
Qed.

Lemma stripNickControls_free s : control_free (stripNickControls s).
Proof.
  unfold control_free. rewrite decode_stripNickControls, map_map, map_id.
  apply List.Forall_forall. intros r Hr. apply List.filter_In in Hr as [_ Hr]. by bool_hyps.
Qed.

Lemma SanitizeNick_free s : control_free (SanitizeNick s).
Proof.
  unfold SanitizeNick. cbv zeta. case_bool_decide; [constructor|].
  destruct (existsb _ _) eqn:E; [apply stripNickControls_free|].
  apply List.Forall_forall. intros r Hr. destruct (stripped_rune r) eqn:F; [|done].
  assert (existsb stripped_rune (map rune_of (decode (TrimSpace s))) = true); [|congruence].
  apply existsb_exists. by exists r.
Qed.

Lemma control_free_trim s : control_free s -> control_free (TrimSpace s).
Proof.
  unfold control_free. rewrite decode_TrimSpace.
  destruct (trim_units_infix (decode s)) as (ps & qs & H). rewrite H at 1.
  rewrite !map_app, !Forall_app. tauto.
Qed.

(** On a nickname without control characters, sanitising is trimming. *)
Lemma SanitizeNick_control_free s : control_free s -> SanitizeNick s = TrimSpace s.
Proof.
  intros H. apply control_free_trim in H. unfold SanitizeNick. cbv zeta.
  case_bool_decide as E; [by rewrite E|].
  destruct (existsb _ _) eqn:F; [|done]. apply existsb_exists in F as (r & Hr & F).
  unfold control_free in H. rewrite List.Forall_forall in H. by rewrite H in F.
Qed.

(** Sanitising twice gives a nickname with the same index key as sanitising
    once, although it may differ from it: stripping a control character can
    expose a space. *)
Lemma nickKey_sanitize_twice s : nickKey (SanitizeNick (SanitizeNick s)) = nickKey (SanitizeNick s).
Proof.
  rewrite (SanitizeNick_control_free (SanitizeNick s)) by apply SanitizeNick_free.
  unfold nickKey. by rewrite TrimSpace_idemp.
Qed.

Example sanitize_not_idempotent :
  SanitizeNick (x01 :: lit " a") = lit " a" /\ SanitizeNick (lit " a") = lit "a".
Proof. split; reflexivity. Qed.

(** ** Properties *)

(** A room key is stable: normalising a normalised name changes nothing,
    its first and last runes are not white space, and lower-casing or trimming
    a name first does not change its key. *)
Theorem room_key_stable s :
  NormalizeRoom (NormalizeRoom s) = NormalizeRoom s
  /\ no_space_ends (decode (NormalizeRoom s))
  /\ NormalizeRoom (ToLower s) = NormalizeRoom s
  /\ NormalizeRoom (TrimSpace s) = NormalizeRoom s.
Proof.
  split; [apply NormalizeRoom_idemp|]. unfold NormalizeRoom. split; [|split].
  - rewrite decode_ToLower, decode_TrimSpace. apply lower_no_space_ends, trim_units_ends.
  - by rewrite TrimSpace_ToLower, ToLower_idemp.
  - by rewrite TrimSpace_idemp.
Qed.

(** A sanitised nickname contains no control character, and sanitising it
    again leaves its key in the nickname index unchanged. *)
Theorem nick_sanitized s :
  Forall (fun r => isControl r = false) (map rune_of (decode (SanitizeNick s)))
  /\ nickKey (SanitizeNick (SanitizeNick s)) = nickKey (SanitizeNick s).
Proof.
  split; [|apply nickKey_sanitize_twice].
  eapply Forall_impl; [apply SanitizeNick_free|]. intros r. unfold stripped_rune. simpl.
  intros. by bool_hyps.
Qed.
