(* ===== verification/RrcEnvelope.v ===== *)
(** * RRC envelopes ([pkg/rrc/constants.go], [errors.go], [envelope.go])

    The top-level CBOR map of the RRC protocol: its field keys and message
    types, the checks of [Marshal] and [UnmarshalEnvelope], and the round trip
    between them relative to the CBOR interface of [Cbor.v]. *)

From stdpp Require Import base tactics list strings.
From Stdlib Require Import ZArith Lia.
From S2P Require Import Prelude GoText Cbor CborRef HexHash.

(** ** Constants *)

Definition ProtocolVersion : Z := 1.
Definition MessageIDLength : Z := 8.
Definition MaxEnvelopeBytes : Z := 65536.

Definition KeyVersion : Z := 0.
Definition KeyType : Z := 1.
Definition KeyMsgID : Z := 2.
Definition KeyTimestamp : Z := 3.
Definition KeySender : Z := 4.
Definition KeyRoom : Z := 5.
Definition KeyBody : Z := 6.
Definition KeyNick : Z := 7.
Definition KeyDestination : Z := 8.

Definition TypeHello : Z := 1.
Definition TypeWelcome : Z := 2.
Definition TypeJoin : Z := 10.
Definition TypeJoined : Z := 11.
Definition TypePart : Z := 12.
Definition TypeParted : Z := 13.
Definition TypeMsg : Z := 20.
Definition TypeNotice : Z := 21.
Definition TypeAction : Z := 22.
Definition TypePing : Z := 30.
Definition TypePong : Z := 31.
Definition TypeError : Z := 40.
Definition TypeResourceEnvelope : Z := 50.

(** The decoder options set in [init]. *)
Definition envelope_limits : DecLimits :=
  {| MaxNestedLevels := 8; MaxArrayElements := 1024; MaxMapPairs := 256 |}.

Inductive env_field :=
| FVersion | FType | FMsgID | FTimestamp | FSender | FRoom | FNick | FDestination | FBody | FDecode.

(** The sentinel errors of the package, with the field they are wrapped with. *)
Inductive rrc_error :=
| ErrInvalidEnvelope (f : env_field)
| ErrEnvelopeTooLarge
| ErrWrongVersion
| ErrMissingField (f : env_field)
| ErrBadFieldLength (f : env_field)
| ErrNotWelcome
| ErrNotMember
| ErrSessionClosed
| ErrLinkInactive
| ErrNilArgument
| ErrEncoding
| ErrRand
| ErrSend
| ErrDialTimeout
| ErrWelcomeTimeout
| ErrInvalidHash (e : hash_error)
| ErrNet (code : Z)
| ErrHub (body : any).

(** ** Envelopes *)

Record Envelope := mkEnvelope {
  Version : Z; Type_ : Z; MsgID : bytes; Timestamp : Z; Sender : bytes;
  Room : bytes; Body : any; Nick : bytes; Destination : bytes;
  HasRoom : bool; HasBody : bool; HasNick : bool; HasDestination : bool;
}.

Definition cloneBytes (b : bytes) : bytes :=
  if len b =? 0 then [] else copy_range 0 (len b) b (make_bytes (len b)).

Definition bare_envelope (msgType : Z) (sender msgID : bytes) (ts : Z) : Envelope :=
  mkEnvelope ProtocolVersion msgType msgID ts sender [] ANil [] [] false false false false.

(** [rand] is what [rand.Read] delivered, [now] the clock in milliseconds. *)
Definition NewEnvelope (rand : option bytes) (now : Z) (msgType : Z) (sender : bytes)
  : res rrc_error Envelope :=
  if negb (len sender =? IdentityLength) then Err (ErrBadFieldLength FSender)
  else match rand with
       | None => Err ErrRand
       | Some id => Ok (bare_envelope msgType (cloneBytes sender) id (u64 now))
       end.

Definition envelopeFrom (msgType : Z) (sender msgID : bytes) (ts : Z) : res rrc_error Envelope :=
  if negb (len sender =? IdentityLength) then Err (ErrBadFieldLength FSender)
  else if negb (len msgID =? MessageIDLength) then Err (ErrBadFieldLength FMsgID)
  else Ok (bare_envelope msgType (cloneBytes sender) (cloneBytes msgID) ts).

(** The map [Marshal] builds. *)
Definition envelope_map (e : Envelope) : umap :=
  let m := uput [] KeyVersion (AU64 (Version e)) in
  let m := uput m KeyType (AU64 (Type_ e)) in
  let m := uput m KeyMsgID (ABytes (MsgID e)) in
  let m := uput m KeyTimestamp (AU64 (Timestamp e)) in
  let m := uput m KeySender (ABytes (Sender e)) in
  let m := if HasRoom e then uput m KeyRoom (AStr (Room e)) else m in
  let m := if HasBody e then uput m KeyBody (Body e) else m in
  let m := if HasNick e then uput m KeyNick (AStr (Nick e)) else m in
  if HasDestination e then uput m KeyDestination (ABytes (Destination e)) else m.

Section codec.
Context `{C : Cbor}.

Definition Marshal (p : option Envelope) : res rrc_error bytes :=
  match p with
  | None => Err ErrNilArgument
  | Some e =>
      if negb (Version e =? ProtocolVersion) then Err ErrWrongVersion
      else if negb (len (MsgID e) =? MessageIDLength) then Err (ErrBadFieldLength FMsgID)
      else if negb (len (Sender e) =? IdentityLength) then Err (ErrBadFieldLength FSender)
      else if HasDestination e && negb (len (Destination e) =? IdentityLength)
      then Err (ErrBadFieldLength FDestination)
      else match cbor_Marshal (AMapU (envelope_map e)) with
           | None => Err ErrEncoding
           | Some out => Ok out
           end
  end.

Definition need {A} (f : env_field) (o : option A) : res rrc_error A :=
  match o with Some a => Ok a | None => Err (ErrMissingField f) end.

(** An optional text field: absent, or present and a string. *)
Definition opt_string (f : env_field) (o : option any) : res rrc_error (bytes * bool) :=
  match o with
  | None => Ok ([], false)
  | Some v => match asString v with Some s => Ok (s, true) | None => Err (ErrInvalidEnvelope f) end
  end.

Definition opt_destination (o : option any) : res rrc_error (bytes * bool) :=
  match o with
  | None => Ok ([], false)
  | Some v =>
      match asBytes v with
      | None => Err (ErrInvalidEnvelope FDestination)
      | Some dst => if len dst =? IdentityLength then Ok (dst, true)
                    else Err (ErrBadFieldLength FDestination)
      end
  end.

(** The field checks of [UnmarshalEnvelope] on the decoded map. *)
Definition envelope_of_map (raw : umap) : res rrc_error Envelope :=
  ver ← need FVersion (asUint64 (uget_nil raw KeyVersion));
  if negb (ver =? ProtocolVersion) then Err ErrWrongVersion else
  typ ← need FType (asUint64 (uget_nil raw KeyType));
  msgID ← need FMsgID (asBytes (uget_nil raw KeyMsgID));
  if negb (len msgID =? MessageIDLength) then Err (ErrBadFieldLength FMsgID) else
  ts ← need FTimestamp (asUint64 (uget_nil raw KeyTimestamp));
  sender ← need FSender (asBytes (uget_nil raw KeySender));
  if negb (len sender =? IdentityLength) then Err (ErrBadFieldLength FSender) else
  room ← opt_string FRoom (uget raw KeyRoom);
  let body := match uget raw KeyBody with Some v => (v, true) | None => (ANil, false) end in
  nick ← opt_string FNick (uget raw KeyNick);
  dst ← opt_destination (uget raw KeyDestination);
  Ok (mkEnvelope ver typ msgID ts sender room.1 body.1 nick.1 dst.1 room.2 body.2 nick.2 dst.2).

Definition UnmarshalEnvelope (data : bytes) : res rrc_error Envelope :=
  if len data =? 0 then Err (ErrInvalidEnvelope FDecode)
  else if MaxEnvelopeBytes <? len data then Err ErrEnvelopeTooLarge
  else match cbor_Unmarshal data with
       | None => Err (ErrInvalidEnvelope FDecode)
       | Some raw => envelope_of_map raw
       end.
End codec.

(** ** Well-formed envelopes *)

(** What every decoded envelope satisfies. *)
Definition wf_envelope (e : Envelope) : Prop :=
  Version e = ProtocolVersion /\ len (MsgID e) = MessageIDLength
  /\ len (Sender e) = IdentityLength
  /\ (HasRoom e = false -> Room e = []) /\ (HasBody e = false -> Body e = ANil)
  /\ (HasNick e = false -> Nick e = [])
  /\ (if HasDestination e then len (Destination e) = IdentityLength else Destination e = []).

(** What can be put on the wire: values in the range of their Go types and of
    the decoder's limits. *)
Definition wire_ready (e : Envelope) : Prop :=
  between 0 (Type_ e) max_u64 = true /\ between 0 (Timestamp e) max_u64 = true
  /\ valid_utf8 (Room e) = true /\ len (Room e) < 2 ^ 64
  /\ valid_utf8 (Nick e) = true /\ len (Nick e) < 2 ^ 64
  /\ fits envelope_limits 1 (Body e) = true.

(** The envelope as the receiver sees it: the body has the decoder's types. *)
Definition received (e : Envelope) : Envelope :=
  mkEnvelope (Version e) (Type_ e) (MsgID e) (Timestamp e) (Sender e) (Room e) (wire (Body e))
    (Nick e) (Destination e) (HasRoom e) (HasBody e) (HasNick e) (HasDestination e).

Lemma clone_envelope_bytes b : cloneBytes b = b.
Proof.
  unfold cloneBytes. destruct (len b =? 0) eqn:E; bool_hyps.
  { symmetry. by apply len_0_nil. }
  pose proof (len_nonneg b).
  rewrite <- (app_nil_l (make_bytes _)), <- (app_nil_r (make_bytes _)).
  rewrite copy_range_block; [by rewrite app_nil_r|done|by apply len_make_bytes|lia].
Qed.

(** The map of an envelope has distinct keys and is within the limits. *)
Lemma envelope_map_keys e : NoDup (map fst (envelope_map e)).
Proof.
  unfold envelope_map. destruct (HasRoom e), (HasBody e), (HasNick e), (HasDestination e);
    apply (bool_decide_unpack _); vm_compute; exact I.
Qed.

Lemma envelope_map_fits e : wf_envelope e -> wire_ready e ->
  fits envelope_limits 0 (AMapU (envelope_map e)) = true.
Proof.
  intros (Hv & Hm & Hs & _ & _ & _ & Hd) (Ht & Hts & Hr & Hrl & Hn & Hnl & Hb).
  unfold envelope_map, IdentityLength, MessageIDLength in *.
  destruct (HasRoom e), (HasBody e), (HasNick e), (HasDestination e);
    cbn -[between len fits max_u64 Z.pow]; rewrite ?Hv;
    cbn [fits forallb fst snd MaxNestedLevels MaxMapPairs envelope_limits];
    change (0 + 1) with 1; rewrite ?Ht, ?Hts, ?Hm, ?Hs, ?Hd, ?Hr, ?Hn, ?Hb, ?(proj2 (Z.ltb_lt _ _) Hrl),
      ?(proj2 (Z.ltb_lt _ _) Hnl); reflexivity.
Qed.

Lemma uget_envelope_map e : wf_envelope e ->
  uget (envelope_map e) KeyVersion = Some (AU64 1)
  /\ uget (envelope_map e) KeyType = Some (AU64 (Type_ e))
  /\ uget (envelope_map e) KeyMsgID = Some (ABytes (MsgID e))
  /\ uget (envelope_map e) KeyTimestamp = Some (AU64 (Timestamp e))
  /\ uget (envelope_map e) KeySender = Some (ABytes (Sender e))
  /\ uget (envelope_map e) KeyRoom = (if HasRoom e then Some (AStr (Room e)) else None)
  /\ uget (envelope_map e) KeyBody = (if HasBody e then Some (Body e) else None)
  /\ uget (envelope_map e) KeyNick = (if HasNick e then Some (AStr (Nick e)) else None)
  /\ uget (envelope_map e) KeyDestination
     = (if HasDestination e then Some (ABytes (Destination e)) else None).
Proof.
  intros (Hv & _). unfold envelope_map. rewrite Hv.
  destruct (HasRoom e), (HasBody e), (HasNick e), (HasDestination e); repeat split; reflexivity.
Qed.

Lemma envelope_of_map_received e raw : wf_envelope e ->
  (forall k, uget raw k = wire <$> uget (envelope_map e) k) ->
  envelope_of_map raw = Ok (received e).
Proof.
  intros Hwf Hg. destruct (uget_envelope_map e Hwf) as (H0 & H1 & H2 & H3 & H4 & H5 & H6 & H7 & H8).
  destruct Hwf as (Hv & Hm & Hs & Hr & Hb & Hn & Hd).
  unfold envelope_of_map, uget_nil. rewrite !Hg, H0, H1, H2, H3, H4, H5, H6, H7, H8.
  simpl. rewrite Hm, Hs. simpl. unfold received. rewrite Hv.
  destruct e as [ver ty id ts snd room body nick dst hr hb hn hd]; simpl in *.
  destruct hr, hb, hn, hd; simpl; rewrite ?Hd, ?Hr, ?Hb, ?Hn by done; reflexivity.
Qed.

Section marshal_props.
Context `{C : Cbor} `{!CborLaws C envelope_limits}.

Lemma Marshal_Ok e : wf_envelope e -> wire_ready e ->
  exists raw, Marshal (Some e) = Ok raw /\ cbor_Marshal (AMapU (envelope_map e)) = Some raw
    /\ raw <> [].
Proof.
  intros Hwf Hw. destruct (cbor_encodes _ (envelope_map_fits e Hwf Hw)) as (raw & Hr & Hne).
  exists raw. split; [|done]. destruct Hwf as (Hv & Hm & Hs & _ & _ & _ & Hd).
  unfold Marshal. rewrite Hv, Hm, Hs, Hr. simpl.
  destruct (HasDestination e); [by rewrite Hd|done].
Qed.

Lemma Unmarshal_Marshal e raw : wf_envelope e -> wire_ready e ->
  Marshal (Some e) = Ok raw -> len raw <= MaxEnvelopeBytes ->
  UnmarshalEnvelope raw = Ok (received e).
Proof.
  intros Hwf Hw Hr Hl. destruct (Marshal_Ok e Hwf Hw) as (raw' & Hr' & Hc & Hne).
  assert (raw' = raw) as -> by congruence.
  destruct (cbor_decodes _ _ (envelope_map_keys e) (envelope_map_fits e Hwf Hw) Hc) as (m & Hm & Hg).
  unfold UnmarshalEnvelope. rewrite (proj2 (Z.eqb_neq _ _)) by (by rewrite len_0_nil).
  rewrite (proj2 (Z.ltb_ge _ _)) by lia. rewrite Hm. by apply envelope_of_map_received.
Qed.
End marshal_props.

Lemma need_Ok {A} f (o : option A) a : need f o = Ok a <-> o = Some a.
Proof. destruct o; simpl; split; congruence. Qed.

Lemma opt_string_Ok f o s b : opt_string f o = Ok (s, b) -> b = false -> s = [].
Proof. unfold opt_string. destruct o as [v|]; [destruct (asString v)|]; naive_solver. Qed.

Lemma opt_destination_Ok o d b : opt_destination o = Ok (d, b) ->
  if b then len d = IdentityLength else d = [].
Proof.
  unfold opt_destination. destruct o as [v|]; [|naive_solver].
  destruct (asBytes v) as [x|]; [|done]. destruct (len x =? _) eqn:E; [|done].
  intros [= <- <-]. by bool_hyps.
Qed.

Lemma envelope_of_map_wf raw e : envelope_of_map raw = Ok e -> wf_envelope e.
Proof.
  unfold envelope_of_map. intros H. res_inv.
  destruct (negb (x =? _)) eqn:E1; [done|]. res_inv.
  destruct (negb (len x1 =? _)) eqn:E2; [done|]. res_inv.
  destruct (negb (len x3 =? _)) eqn:E3; [done|]. res_inv. bool_hyps.
  destruct x4 as [room hr], x5 as [nick hn], x6 as [dst hd]. unfold wf_envelope; simpl.
  repeat split; try done.
  - eapply opt_string_Ok; eauto.
  - by destruct (uget raw KeyBody).
  - eapply opt_string_Ok; eauto.
  - eapply opt_destination_Ok; eauto.
Qed.

Lemma envelope_of_map_ext m1 m2 : (forall k, 0 <= k <= 8 -> uget m1 k = uget m2 k) ->
  envelope_of_map m1 = envelope_of_map m2.
Proof.
  intros H. unfold envelope_of_map, uget_nil, KeyVersion, KeyType, KeyMsgID, KeyTimestamp,
    KeySender, KeyRoom, KeyBody, KeyNick, KeyDestination.
  by rewrite !H by lia.
Qed.

(** ** Properties *)

Section props.
Context `{C : Cbor} `{!CborLaws C envelope_limits}.

End props.

Definition sample_envelope : Envelope :=
  mkEnvelope 1 TypeMsg (replicate 8 x01) 1700000000000 (replicate 16 x02) (lit "#lobby")
    (AStr (lit "hello")) (lit "alice") [] true true true false.


(** C39: whatever [UnmarshalEnvelope] accepts is non-empty and at most 64 KiB
    long and carries protocol version 1, an 8-byte message id, a 16-byte sender
    and, if present, a 16-byte destination; absent optional fields are at their
    zero values. *)
Theorem unmarshal_well_formed `{C : Cbor} data e : UnmarshalEnvelope data = Ok e ->
  wf_envelope e /\ 0 < len data <= MaxEnvelopeBytes.
Proof.
  unfold UnmarshalEnvelope. destruct (len data =? 0) eqn:E; [done|].
  destruct (_ <? len data) eqn:F; [done|]. bool_hyps. pose proof (len_nonneg data).
  destruct (cbor_Unmarshal data) as [raw|]; [|done].
  intros He%envelope_of_map_wf. split; [done|lia].
Qed.

Lemma unmarshal_well_formed_witness :
  match @Marshal ref_cbor (Some sample_envelope) with
  | Ok raw => 0 < len raw <= MaxEnvelopeBytes | Err _ => False end.
Proof.
  destruct (@Marshal ref_cbor (Some sample_envelope)) as [raw|] eqn:E;
    [|vm_compute in E; discriminate].
  apply (@unmarshal_well_formed ref_cbor raw sample_envelope).
  vm_compute in E. injection E as <-. vm_compute. reflexivity.
Defined.

(** Unknown keys do not matter: two inputs whose decoded maps agree on the
    keys 0 to 8 unmarshal to the same result. *)
Theorem unmarshal_ignores_unknown_keys `{C : Cbor} d1 d2 m1 m2 :
  0 < len d1 <= MaxEnvelopeBytes -> 0 < len d2 <= MaxEnvelopeBytes ->
  cbor_Unmarshal d1 = Some m1 -> cbor_Unmarshal d2 = Some m2 ->
  (forall k, 0 <= k <= 8 -> uget m1 k = uget m2 k) ->
  UnmarshalEnvelope d1 = UnmarshalEnvelope d2.
Proof.
  intros H1 H2 E1 E2 Hk. unfold UnmarshalEnvelope.
  rewrite !(proj2 (Z.eqb_neq _ 0)) by lia. rewrite !(proj2 (Z.ltb_ge _ _)) by lia.
  rewrite E1, E2. by apply envelope_of_map_ext.
Qed.

(** The sample envelope with an extra entry under key 99. *)
Definition sample_extra : bytes := enc (AMapU (uput (envelope_map sample_envelope) 99 (ABool true))).

Lemma unmarshal_ignores_unknown_keys_witness :
  @UnmarshalEnvelope ref_cbor (enc (AMapU (envelope_map sample_envelope)))
  = @UnmarshalEnvelope ref_cbor sample_extra.
Proof.
  eapply (@unmarshal_ignores_unknown_keys ref_cbor).
  - vm_compute. split; [reflexivity|discriminate].
  - vm_compute. split; [reflexivity|discriminate].
  - vm_compute. reflexivity.
  - vm_compute. reflexivity.
  - intros k Hk.
    assert (k = 0 \/ k = 1 \/ k = 2 \/ k = 3 \/ k = 4 \/ k = 5 \/ k = 6 \/ k = 7 \/ k = 8)
      as Hc by lia.
    destruct Hc as [->|[->|[->|[->|[->|[->|[->|[->| ->]]]]]]]]; reflexivity.
Defined.
