(* ===== verification/RrcBodies.v ===== *)
(** * RRC message bodies ([pkg/rrc/bodies.go])

    The HELLO, WELCOME and RESOURCE_ENVELOPE body maps with their encoders and
    parsers, the advertised hub limits, member lists, and the size a body
    counts for.  Parsing what the encoder produced, after it went over the
    wire, gives the body back. *)

From stdpp Require Import base tactics list strings.
From Stdlib Require Import ZArith Lia.
From S2P Require Import Prelude GoText Cbor CborRef HexHash RrcEnvelope.

(** ** Constants *)

Definition HelloKeyClientName : Z := 0.
Definition HelloKeyClientVersion : Z := 1.
Definition HelloKeyCapabilities : Z := 2.
Definition HelloKeyNickLegacy : Z := 64.

Definition WelcomeKeyHubName : Z := 0.
Definition WelcomeKeyHubVersion : Z := 1.
Definition WelcomeKeyCapabilities : Z := 2.
Definition WelcomeKeyHubLimits : Z := 3.

Definition LimitMaxNickBytes : Z := 0.
Definition LimitMaxRoomNameBytes : Z := 1.
Definition LimitMaxMsgBodyBytes : Z := 2.
Definition LimitMaxRoomsPerSession : Z := 3.
Definition LimitRateLimitMsgsPerMinute : Z := 4.

Definition CapResourceEnvelope : Z := 0.
Definition CapAction : Z := 1.
Definition CapDirectNotice : Z := 2.

Definition ResourceKeyID : Z := 0.
Definition ResourceKeyKind : Z := 1.
Definition ResourceKeySize : Z := 2.
Definition ResourceKeySHA256 : Z := 3.
Definition ResourceKeyEncoding : Z := 4.

(** ** Maps from [any] *)

(** The loop of [coerceUintMap] over a [map[any]any]. *)
Fixpoint coerce_pairs (m : list (any * any)) (out : umap) : umap :=
  match m with
  | [] => out
  | (k, v) :: m =>
      match asUint64 k with
      | None => coerce_pairs m out
      | Some uk => coerce_pairs m (uput out uk v)
      end
  end.

Definition coerceUintMap (v : any) : res rrc_error umap :=
  match v with
  | AMapU m => Ok m
  | AMapA m => Ok (coerce_pairs m [])
  | _ => Err (ErrInvalidEnvelope FBody)
  end.

(** [if v, ok := raw[k]; ok { if s, ok := asString(v); ok { ... } }]. *)
Definition get_as {A} (conv : any -> option A) (raw : umap) (k : Z) : option A :=
  match uget raw k with None => None | Some v => conv v end.

Definition as_map (v : any) : option umap :=
  match coerceUintMap v with Ok m => Some m | Err _ => None end.

Definition present {A} (o : option A) : bool := match o with Some _ => true | None => false end.

Definition nil_if_empty (m : umap) : option umap := match m with [] => None | _ => Some m end.

Definition put_if (c : bool) (k : Z) (v : any) (m : umap) : umap := if c then uput m k v else m.

(** ** HELLO *)

Record HelloBody := mkHello {
  ClientName : bytes; ClientVersion : bytes; HelloCapabilities : option umap;
  HelloHasName : bool; HelloHasVersion : bool; HelloHasCaps : bool;
}.

Definition caps_any (c : option umap) : any := match c with Some m => AMapU m | None => ANil end.

Definition HelloToMap (p : option HelloBody) : option umap :=
  match p with
  | None => None
  | Some h =>
      let m := put_if (HelloHasName h) HelloKeyClientName (AStr (ClientName h)) [] in
      let m := put_if (HelloHasVersion h) HelloKeyClientVersion (AStr (ClientVersion h)) m in
      let m := put_if (HelloHasCaps h && present (HelloCapabilities h)) HelloKeyCapabilities
                 (caps_any (HelloCapabilities h)) m in
      nil_if_empty m
  end.

Definition or_empty (o : option bytes) : bytes := match o with Some s => s | None => [] end.

Definition hello_of_map (raw : umap) : HelloBody :=
  let name := get_as asString raw HelloKeyClientName in
  let ver := get_as asString raw HelloKeyClientVersion in
  let caps := get_as as_map raw HelloKeyCapabilities in
  mkHello (or_empty name) (or_empty ver) caps (present name) (present ver) (present caps).

(** [if body == nil { return zero }; raw, err := coerceUintMap(body); ...]. *)
Definition parse_body {A} (zero : A) (of_map : umap -> A) (body : any) : res rrc_error A :=
  match body with
  | ANil => Ok zero
  | _ =>
      match coerceUintMap body with
      | Err _ => Err (ErrInvalidEnvelope FBody)
      | Ok raw => Ok (of_map raw)
      end
  end.

Definition ParseHelloBody : any -> res rrc_error HelloBody :=
  parse_body (mkHello [] [] None false false false) hello_of_map.

Definition HelloLegacyNick (body : any) : bytes :=
  match coerceUintMap body with
  | Err _ => []
  | Ok raw => or_empty (get_as asString raw HelloKeyNickLegacy)
  end.

(** ** Hub limits and WELCOME *)

Record HubLimits := mkLimitsHub {
  MaxNickBytes : Z; MaxRoomsPerSession : Z; MaxRoomNameBytes : Z; MaxMsgBodyBytes : Z;
  RateLimitMsgsPerMinute : Z;
}.

Definition LimitsToMap (l : HubLimits) : umap :=
  [(LimitMaxNickBytes, AU64 (MaxNickBytes l)); (LimitMaxRoomNameBytes, AU64 (MaxRoomNameBytes l));
   (LimitMaxMsgBodyBytes, AU64 (MaxMsgBodyBytes l));
   (LimitMaxRoomsPerSession, AU64 (MaxRoomsPerSession l));
   (LimitRateLimitMsgsPerMinute, AU64 (RateLimitMsgsPerMinute l))].

Definition or_zero (o : option Z) : Z := match o with Some n => n | None => 0 end.

Definition ParseHubLimits (v : any) : option HubLimits :=
  match coerceUintMap v with
  | Err _ => None
  | Ok raw =>
      let n k := or_zero (asUint64 (uget_nil raw k)) in
      Some (mkLimitsHub (n LimitMaxNickBytes) (n LimitMaxRoomsPerSession) (n LimitMaxRoomNameBytes)
              (n LimitMaxMsgBodyBytes) (n LimitRateLimitMsgsPerMinute))
  end.

Definition zero_limits : HubLimits := mkLimitsHub 0 0 0 0 0.

Record WelcomeBody := mkWelcome {
  HubName : bytes; HubVersion : bytes; WelcomeCapabilities : option umap; Limits : HubLimits;
  WelcomeHasName : bool; WelcomeHasVersion : bool; WelcomeHasCaps : bool; HasLimits : bool;
}.

Definition WelcomeToMap (p : option WelcomeBody) : option umap :=
  match p with
  | None => None
  | Some w =>
      let m := put_if (WelcomeHasName w) WelcomeKeyHubName (AStr (HubName w)) [] in
      let m := put_if (WelcomeHasVersion w) WelcomeKeyHubVersion (AStr (HubVersion w)) m in
      let m := put_if (WelcomeHasCaps w && present (WelcomeCapabilities w)) WelcomeKeyCapabilities
                 (caps_any (WelcomeCapabilities w)) m in
      let m := put_if (HasLimits w) WelcomeKeyHubLimits (AMapU (LimitsToMap (Limits w))) m in
      nil_if_empty m
  end.

Definition welcome_of_map (raw : umap) : WelcomeBody :=
  let name := get_as asString raw WelcomeKeyHubName in
  let ver := get_as asString raw WelcomeKeyHubVersion in
  let caps := get_as as_map raw WelcomeKeyCapabilities in
  let lim := get_as ParseHubLimits raw WelcomeKeyHubLimits in
  mkWelcome (or_empty name) (or_empty ver) caps (default zero_limits lim)
    (present name) (present ver) (present caps) (present lim).

Definition ParseWelcomeBody : any -> res rrc_error WelcomeBody :=
  parse_body (mkWelcome [] [] None zero_limits false false false false) welcome_of_map.

(** ** JOINED member lists *)

Fixpoint joined_members (arr : list any) : list bytes :=
  match arr with
  | [] => []
  | item :: arr =>
      match asBytes item with
      | Some b => if len b =? IdentityLength then b :: joined_members arr else joined_members arr
      | None => joined_members arr
      end
  end.

Definition ParseJoinedMembers (body : any) : list bytes :=
  match body with AArr arr => joined_members arr | _ => [] end.

Definition BodyAsString (body : any) : option bytes := asString body.

Definition DefaultHubCapabilities (resourceEnvelope : bool) : umap :=
  let caps := [(CapAction, ABool true); (CapDirectNotice, ABool true)] in
  put_if resourceEnvelope CapResourceEnvelope (ABool true) caps.

(** ** RESOURCE_ENVELOPE *)

Record ResourceEnvelopeBody := mkResource {
  ResID : bytes; ResKind : bytes; ResSize : Z; ResSHA256 : bytes; ResEncoding : bytes;
  HasID : bool; HasKind : bool; HasSize : bool; HasHash : bool; HasEnc : bool;
}.

Definition ResourceToMap (p : option ResourceEnvelopeBody) : option umap :=
  match p with
  | None => None
  | Some r =>
      let m := put_if (HasID r) ResourceKeyID (ABytes (ResID r)) [] in
      let m := put_if (HasKind r) ResourceKeyKind (AStr (ResKind r)) m in
      let m := put_if (HasSize r) ResourceKeySize (AU64 (ResSize r)) m in
      let m := put_if (HasHash r) ResourceKeySHA256 (ABytes (ResSHA256 r)) m in
      let m := put_if (HasEnc r) ResourceKeyEncoding (AStr (ResEncoding r)) m in
      nil_if_empty m
  end.

Definition resource_of_map (raw : umap) : ResourceEnvelopeBody :=
  let id := get_as asBytes raw ResourceKeyID in
  let kind := get_as asString raw ResourceKeyKind in
  let size := get_as asUint64 raw ResourceKeySize in
  let sha := get_as asBytes raw ResourceKeySHA256 in
  let enc := get_as asString raw ResourceKeyEncoding in
  mkResource (or_empty id) (or_empty kind) (or_zero size) (or_empty sha) (or_empty enc)
    (present id) (present kind) (present size) (present sha) (present enc).

Definition ParseResourceEnvelopeBody : any -> res rrc_error ResourceEnvelopeBody :=
  parse_body (mkResource [] [] 0 [] [] false false false false false) resource_of_map.

Definition msg_invalid_body : bytes := lit "invalid resource envelope body".
Definition msg_missing_id : bytes := lit "resource envelope missing id".
Definition msg_missing_kind : bytes := lit "resource envelope missing kind".
Definition msg_invalid_size : bytes := lit "resource envelope invalid size".
Definition msg_invalid_sha : bytes := lit "resource envelope invalid sha256".

(** A key that is present with a value of the wrong type. *)
Definition mistyped {A} (conv : any -> option A) (raw : umap) (k : Z) : bool :=
  match uget raw k with None => false | Some v => negb (present (conv v)) end.

Definition mistyped_non_nil {A} (conv : any -> option A) (raw : umap) (k : Z) : bool :=
  match uget raw k with None | Some ANil => false | Some v => negb (present (conv v)) end.

(** The parsed body, when there is one, and the reason for a refusal (empty
    when the body is valid). *)
Definition ValidateResourceEnvelopeBody (body : any) : option ResourceEnvelopeBody * bytes :=
  match coerceUintMap body with
  | Err _ => (None, msg_invalid_body)
  | Ok raw =>
      if mistyped asBytes raw ResourceKeyID then (None, msg_missing_id)
      else if mistyped asString raw ResourceKeyKind then (None, msg_missing_kind)
      else if mistyped asUint64 raw ResourceKeySize then (None, msg_invalid_size)
      else if mistyped_non_nil asBytes raw ResourceKeySHA256 then (None, msg_invalid_sha)
      else
        match ParseResourceEnvelopeBody body with
        | Err _ => (None, msg_invalid_body)
        | Ok parsed =>
            if negb (HasID parsed) || (len (ResID parsed) =? 0) then (Some parsed, msg_missing_id)
            else if negb (HasKind parsed) || bool_decide (ResKind parsed = [])
            then (Some parsed, msg_missing_kind)
            else if negb (HasSize parsed) then (Some parsed, msg_invalid_size)
            else (Some parsed, [])
        end
  end.

(** ** Body size *)

Definition sizeAsUint64 (n : Z) : Z := if n <? 0 then max_u64 else n.

Definition BodySizeBytes `{C : Cbor} (body : any) : Z :=
  match body with
  | ANil => 0
  | AStr b => sizeAsUint64 (len b)
  | ABytes b => sizeAsUint64 (len b)
  | b => match cbor_Marshal b with None => max_u64 | Some raw => sizeAsUint64 (len raw) end
  end.

(** ** Maps over the wire *)

Lemma coerce_pairs_wire m out : NoDup (map fst (out ++ m)) ->
  coerce_pairs (map (fun kv => (AU64 kv.1, wire kv.2)) m) out = out ++ wire_map m.
Proof.
  revert out. induction m as [|[k v] m IH]; intros out Hn; simpl; [by rewrite app_nil_r|].
  rewrite map_app in Hn. simpl in Hn.
  rewrite uput_fresh.
  - rewrite IH; [by rewrite <- app_assoc|]. rewrite !map_app in *. simpl.
    by rewrite <- app_assoc.
  - apply NoDup_app in Hn as (_ & Hd & _). intros Hk. by apply (Hd k Hk), elem_of_cons; left.
Qed.

Lemma coerceUintMap_wire m : NoDup (map fst m) ->
  coerceUintMap (wire (AMapU m)) = Ok (wire_map m).
Proof. intros. simpl. by rewrite coerce_pairs_wire. Qed.

Lemma get_as_wire {A} (conv : any -> option A) m k :
  get_as conv (wire_map m) k = match uget m k with None => None | Some v => conv (wire v) end.
Proof. unfold get_as. rewrite uget_wire_map. by destruct (uget m k). Qed.

Lemma as_map_wire c : match c with Some m => NoDup (map fst m) | None => True end ->
  as_map (wire (caps_any c)) = wire_map <$> c.
Proof. destruct c as [m|]; [|done]. intros Hn. unfold as_map, caps_any. by rewrite coerceUintMap_wire. Qed.

Definition u64_limits (l : HubLimits) : bool :=
  between 0 (MaxNickBytes l) max_u64 && between 0 (MaxRoomsPerSession l) max_u64
  && between 0 (MaxRoomNameBytes l) max_u64 && between 0 (MaxMsgBodyBytes l) max_u64
  && between 0 (RateLimitMsgsPerMinute l) max_u64.

Lemma ParseHubLimits_wire l : ParseHubLimits (wire (AMapU (LimitsToMap l))) = Some l.
Proof. destruct l. reflexivity. Qed.

(** A body as it is after decoding: text only where the flag is set, and
    capability values with the decoder's types. *)
Definition when {A} (c : bool) (a d : A) : A := if c then a else d.

Definition wire_caps (c : bool) (o : option umap) : option umap :=
  if c then wire_map <$> o else None.

Definition distinct_caps (o : option umap) : Prop :=
  match o with Some m => NoDup (map fst m) | None => True end.

Lemma nil_if_empty_Some m m' : nil_if_empty m = Some m' -> m' = m /\ m <> [].
Proof. destruct m; simpl; [done|]. intros [= <-]. done. Qed.

Lemma parse_body_wire {A} (zero : A) of_map m : NoDup (map fst m) ->
  parse_body zero of_map (wire (AMapU m)) = Ok (of_map (wire_map m)).
Proof.
  intros Hn. pose proof (coerceUintMap_wire m Hn) as H. unfold parse_body.
  simpl in H |- *. congruence.
Qed.

Lemma parse_body_Ok {A} (zero : A) of_map body raw : coerceUintMap body = Ok raw ->
  parse_body zero of_map body = Ok (of_map raw).
Proof. unfold parse_body. intros H. destruct body; simpl in *; congruence. Qed.

(** Discharges distinctness of a few literal keys. *)
Ltac distinct_keys := apply (bool_decide_unpack _); vm_compute; exact I.

Lemma asBytes_Some v b : asBytes v = Some b <-> v = ABytes b.
Proof. destruct v; simpl; split; congruence. Qed.

Lemma asString_Some v s : asString v = Some s <-> v = AStr s.
Proof. destruct v; simpl; split; congruence. Qed.

(** ** Properties *)

(** The bodies as the peer reads them: the fields whose flag was set. *)
Definition welcome_read (w : WelcomeBody) : WelcomeBody := mkWelcome
  (when (WelcomeHasName w) (HubName w) []) (when (WelcomeHasVersion w) (HubVersion w) [])
  (wire_caps (WelcomeHasCaps w) (WelcomeCapabilities w))
  (when (HasLimits w) (Limits w) zero_limits)
  (WelcomeHasName w) (WelcomeHasVersion w)
  (WelcomeHasCaps w && present (WelcomeCapabilities w)) (HasLimits w).

Definition hello_read (h : HelloBody) : HelloBody := mkHello
  (when (HelloHasName h) (ClientName h) []) (when (HelloHasVersion h) (ClientVersion h) [])
  (wire_caps (HelloHasCaps h) (HelloCapabilities h))
  (HelloHasName h) (HelloHasVersion h) (HelloHasCaps h && present (HelloCapabilities h)).

Definition resource_read (r : ResourceEnvelopeBody) : ResourceEnvelopeBody := mkResource
  (when (HasID r) (ResID r) []) (when (HasKind r) (ResKind r) []) (when (HasSize r) (ResSize r) 0)
  (when (HasHash r) (ResSHA256 r) []) (when (HasEnc r) (ResEncoding r) [])
  (HasID r) (HasKind r) (HasSize r) (HasHash r) (HasEnc r).

Lemma welcome_body_wire w m :
  WelcomeToMap (Some w) = Some m -> distinct_caps (WelcomeCapabilities w) ->
  ParseWelcomeBody (wire (AMapU m)) = Ok (welcome_read w).
Proof.
  intros Hm Hc. apply nil_if_empty_Some in Hm as [-> _].
  destruct w as [name ver caps lim hn hv hc hl]; simpl in Hc.
  apply as_map_wire in Hc. unfold ParseWelcomeBody.
  pose proof (ParseHubLimits_wire lim) as Hl.
  destruct hn, hv, hc, hl, caps as [caps|]; (rewrite parse_body_wire; [|distinct_keys]);
    unfold welcome_of_map; rewrite !get_as_wire; cbn -[wire ParseHubLimits as_map LimitsToMap];
    cbn [caps_any] in Hc; rewrite ?Hc, ?Hl; reflexivity.
Qed.

Lemma hello_body_wire h m :
  HelloToMap (Some h) = Some m -> distinct_caps (HelloCapabilities h) ->
  ParseHelloBody (wire (AMapU m)) = Ok (hello_read h).
Proof.
  intros Hm Hc. apply nil_if_empty_Some in Hm as [-> _].
  destruct h as [name ver caps hn hv hc]; simpl in Hc.
  apply as_map_wire in Hc. unfold ParseHelloBody.
  destruct hn, hv, hc, caps as [caps|]; (rewrite parse_body_wire; [|distinct_keys]);
    unfold hello_of_map; rewrite !get_as_wire; cbn -[wire as_map];
    cbn [caps_any] in Hc; rewrite ?Hc; reflexivity.
Qed.

Lemma resource_body_wire r m :
  ResourceToMap (Some r) = Some m ->
  ParseResourceEnvelopeBody (wire (AMapU m)) = Ok (resource_read r).
Proof.
  intros Hm. apply nil_if_empty_Some in Hm as [-> _].
  destruct r as [id kind size sha enc h1 h2 h3 h4 h5].
  unfold ParseResourceEnvelopeBody.
  destruct h1, h2, h3, h4, h5; (rewrite parse_body_wire; [|distinct_keys]); reflexivity.
Qed.

(** Parsing a WELCOME, HELLO or RESOURCE_ENVELOPE body that [ToMap] built,
    after the wire, gives its fields back (names, versions, limits,
    capabilities, ids, sizes and hashes), each exactly when its flag was set. *)
Theorem rrc_bodies_roundtrip :
  (forall w m, WelcomeToMap (Some w) = Some m -> distinct_caps (WelcomeCapabilities w) ->
     ParseWelcomeBody (wire (AMapU m)) = Ok (welcome_read w))
  /\ (forall h m, HelloToMap (Some h) = Some m -> distinct_caps (HelloCapabilities h) ->
     ParseHelloBody (wire (AMapU m)) = Ok (hello_read h))
  /\ (forall r m, ResourceToMap (Some r) = Some m ->
     ParseResourceEnvelopeBody (wire (AMapU m)) = Ok (resource_read r)).
Proof. split; [|split]; eauto using welcome_body_wire, hello_body_wire, resource_body_wire. Qed.

(** What makes a RESOURCE_ENVELOPE body acceptable. *)
Definition valid_resource (raw : umap) : Prop :=
  (exists id, uget raw ResourceKeyID = Some (ABytes id) /\ id <> [])
  /\ (exists kind, uget raw ResourceKeyKind = Some (AStr kind) /\ kind <> [])
  /\ (exists v n, uget raw ResourceKeySize = Some v /\ asUint64 v = Some n)
  /\ match uget raw ResourceKeySHA256 with
     | None | Some ANil | Some (ABytes _) => True | Some _ => False end.

(** A resource envelope is accepted (the reason is empty) exactly when its
    body is a map with a non-empty byte-string id, a non-empty text kind, an
    unsigned size, and no hash, a null hash or a byte-string hash. *)
Theorem resource_validation_iff body :
  (ValidateResourceEnvelopeBody body).2 = [] <->
  exists raw, coerceUintMap body = Ok raw /\ valid_resource raw.
Proof.
  unfold ValidateResourceEnvelopeBody, ParseResourceEnvelopeBody, valid_resource.
  destruct (coerceUintMap body) as [raw|e] eqn:E; [|split; [done|naive_solver]].
  rewrite (parse_body_Ok _ _ _ raw E). unfold resource_of_map, get_as, mistyped, mistyped_non_nil.
  cbn [HasID ResID HasKind ResKind HasSize].
  assert (Hex : forall P : umap -> Prop, (exists r, Ok raw = @Ok rrc_error _ r /\ P r) <-> P raw)
    by naive_solver.
  rewrite Hex. clear Hex E.
  destruct (uget raw ResourceKeyID) as [v|]; [|cbn; case_tests; naive_solver].
  destruct (asBytes v) as [id|] eqn:Ei; cbn;
    [apply asBytes_Some in Ei; subst|destruct v; naive_solver].
  destruct (uget raw ResourceKeyKind) as [v|]; [|cbn; case_tests; naive_solver].
  destruct (asString v) as [kind|] eqn:Ek; cbn;
    [apply asString_Some in Ek; subst|destruct v; naive_solver].
  destruct (uget raw ResourceKeySize) as [v|]; [|cbn; case_tests; naive_solver].
  destruct (asUint64 v) as [n|] eqn:En; cbn; [|naive_solver].
  destruct (len id =? 0) eqn:El, (bool_decide (kind = [])) eqn:Eb;
    rewrite ?Z.eqb_eq, ?Z.eqb_neq, ?len_0_nil in El; bool_hyps; subst;
    destruct (uget raw ResourceKeySHA256) as [[]|]; cbn; naive_solver.
Qed.

Lemma rrc_bodies_roundtrip_witness :
  ParseWelcomeBody (wire (AMapU [(0, AStr (lit "hub")); (1, AStr (lit "0.1.0"));
     (2, AMapU (DefaultHubCapabilities true)); (3, AMapU (LimitsToMap (mkLimitsHub 32 32 64 350 60)))]))
  = Ok (mkWelcome (lit "hub") (lit "0.1.0") (Some (DefaultHubCapabilities true))
          (mkLimitsHub 32 32 64 350 60) true true true true)
  /\ ParseHelloBody (wire (AMapU [(0, AStr (lit "cli"))]))
     = Ok (mkHello (lit "cli") [] None true false false)
  /\ ParseResourceEnvelopeBody (wire (AMapU [(0, ABytes [x01]); (2, AU64 7)]))
     = Ok (mkResource [x01] [] 7 [] [] true false true false false).
Proof.
  destruct rrc_bodies_roundtrip as (Hw & Hh & Hr). split; [|split].
  - exact (Hw (mkWelcome (lit "hub") (lit "0.1.0")
      (Some (DefaultHubCapabilities true)) (mkLimitsHub 32 32 64 350 60) true true true true)
      _ eq_refl ltac:(distinct_keys)).
  - exact (Hh (mkHello (lit "cli") [] None true false false) _ eq_refl I).
  - exact (Hr (mkResource [x01] [] 7 [] [] true false true false false) _ eq_refl).
Defined.
