(* ===== verification/GoFloat.v ===== *)
(** * float64 and time.Duration

    IEEE 754 binary64 as the Standard Library specifies it ([SpecFloat] with a
    53-bit significand), with the conversions the rate limiters use.  Each
    operation rounds separately: the model has no fused multiply-add. *)

From Stdlib Require Import ZArith Lia.
From Stdlib Require Import SpecFloat.
From S2P Require Import Prelude.

Definition f64 : Type := spec_float.

Definition f_of_Z (z : Z) : f64 := binary_normalize 53 1024 z 0 false.
Definition fadd : f64 -> f64 -> f64 := SFadd 53 1024.
Definition fsub : f64 -> f64 -> f64 := SFsub 53 1024.
Definition fmul : f64 -> f64 -> f64 := SFmul 53 1024.
Definition fdiv : f64 -> f64 -> f64 := SFdiv 53 1024.
Definition fltb : f64 -> f64 -> bool := SFltb.

Definition Second : Z := 1000000000.
Definition Millisecond : Z := 1000000.

(** [t.Sub(u)] on nanosecond instants saturates at the range of [Duration]. *)
Definition time_Sub (t u : Z) : Z := Z.max (- 2 ^ 63) (Z.min (2 ^ 63 - 1) (t - u)).

(** [d.Seconds()]. *)
Definition duration_Seconds (d : Z) : f64 :=
  fadd (f_of_Z (Z.quot d Second)) (fdiv (f_of_Z (Z.rem d Second)) (f_of_Z Second)).

Example half_second : duration_Seconds 500000000 = fdiv (f_of_Z 1) (f_of_Z 2).
Proof. reflexivity. Qed.

(** [int(math.Ceil(f))] for a finite [f] in the range of [int]; the language
    leaves the other conversions open. *)
Definition ceil_int (f : f64) : option Z :=
  match f with
  | S754_zero _ => Some 0
  | S754_finite s m e =>
      let v := cond_Zopp s (Z.pos m) in
      Some (if 0 <=? e then v * 2 ^ e else - (- v / 2 ^ (- e)))
  | _ => None
  end.

(** [int(f)] under the same conditions: towards zero. *)
Definition trunc_int (f : f64) : option Z :=
  match f with
  | S754_zero _ => Some 0
  | S754_finite s m e =>
      let v := if 0 <=? e then Z.pos m * 2 ^ e else Z.pos m / 2 ^ (- e) in
      Some (cond_Zopp s v)
  | _ => None
  end.

(** [math.Max] and [math.Min], with their special cases. *)
Definition f_nan (f : f64) : bool := match f with S754_nan => true | _ => false end.
Definition f_inf (sign : bool) (f : f64) : bool :=
  match f with S754_infinity s => Bool.eqb s sign | _ => false end.
Definition f_sign (f : f64) : bool :=
  match f with S754_zero s => s | S754_infinity s => s | S754_finite s _ _ => s | S754_nan => false end.
Definition f_zero (f : f64) : bool := match f with S754_zero _ => true | _ => false end.

Definition fmax (x y : f64) : f64 :=
  if (f_inf false x || f_inf false y)%bool then S754_infinity false
  else if (f_nan x || f_nan y)%bool then S754_nan
  else if (f_zero x && f_zero y)%bool then (if f_sign x then y else x)
  else if fltb y x then x else y.

Definition fmin (x y : f64) : f64 :=
  if (f_inf true x || f_inf true y)%bool then S754_infinity true
  else if (f_nan x || f_nan y)%bool then S754_nan
  else if (f_zero x && f_zero y)%bool then (if f_sign x then x else y)
  else if fltb x y then x else y.

(** A decimal constant [n/d] of the source, rounded to nearest. *)
Definition f_const (n d : Z) : f64 := fdiv (f_of_Z n) (f_of_Z d).

Example ceil_up : ceil_int (f_const 5 2) = Some 3 /\ ceil_int (f_const (-5) 2) = Some (-2) /\ ceil_int (f_const 1 10) = Some 1.
Proof. repeat split. Qed.

(** [math.Float64frombits] and [math.Float64bits]. *)
Definition f64_of_bits (b : Z) : f64 :=
  let s := Z.testbit b 63 in
  let ex := Z.land (Z.shiftr b 52) 0x7ff in
  let fr := Z.land b (2 ^ 52 - 1) in
  if ex =? 0x7ff then (if fr =? 0 then S754_infinity s else S754_nan)
  else if ex =? 0 then (if fr =? 0 then S754_zero s else S754_finite s (Z.to_pos fr) (-1074))
  else S754_finite s (Z.to_pos (2 ^ 52 + fr)) (ex - 1075).

Definition bits_of_f64 (f : f64) : Z :=
  let sign (s : bool) := if s then 2 ^ 63 else 0 in
  match f with
  | S754_zero s => sign s
  | S754_infinity s => sign s + Z.shiftl 0x7ff 52
  | S754_nan => Z.shiftl 0x7ff 52 + 1
  | S754_finite s m e =>
      u64 (if Z.pos m <? 2 ^ 52 then sign s + Z.pos m
           else sign s + Z.shiftl (e + 1075) 52 + (Z.pos m - 2 ^ 52))
  end.
