(* ===== verification/RrcHub.v ===== *)
(** * The RRC hub ([pkg/rrc/hub.go], [hub_ops.go], [session.go], [policy.go])

    State and operations of the hub that accepts links, tracks rooms and
    relays messages.  Peers are Go pointers: the heap of [hubPeer]s is explicit,
    indexed by the link that created them, and the maps of the hub hold
    indices.  Each operation is the whole handler as a function on the hub;
    the handlers run under the hub's mutex or on one link's delivery
    goroutine, and the model takes them one at a time.

    Links, the clock and the random source belong to the environment: the
    state records which links are active, what identity each has shown and the
    current time; [rand_read] and [send_ok] say what the random source and the
    link layer answer.  Go iterates over maps in an unspecified order; the
    model uses [elements], and no theorem depends on the order. *)

From stdpp Require Import base tactics list gmap strings.
From Stdlib Require Import ZArith Lia.
From Stdlib Require Import SpecFloat DecimalString.
From S2P Require Import Prelude GoText HexHash Cbor RrcRoom RrcEnvelope RrcBodies GoFloat.

(** ** Configuration *)

Definition DefaultMaxNickBytes : Z := 32.
Definition DefaultMaxRoomsPerSession : Z := 32.
Definition DefaultMaxRoomNameBytes : Z := 64.
Definition DefaultMaxMsgBodyBytes : Z := 350.
Definition DefaultRateLimitMsgsPerMinute : Z := 60.
Definition DefaultMaxResourceBytes : Z := 262144.

Record HubConfig := mkConfig {
  Name : bytes; HubVersionText : bytes; CfgLimits : HubLimits; IncludeMemberList : bool;
  EnableResourceTransfer : bool; MaxResourceBytes : Z; Capabilities : option umap;
}.

Definition or_default (z d : Z) : Z := if z =? 0 then d else z.

Definition applyDefaults (c : HubConfig) : HubConfig :=
  let l := CfgLimits c in
  {| Name := if bool_decide (Name c = []) then lit "reticulum-go-protocols" else Name c;
     HubVersionText := if bool_decide (HubVersionText c = []) then lit "0.1.0" else HubVersionText c;
     CfgLimits := {| MaxNickBytes := or_default (MaxNickBytes l) DefaultMaxNickBytes;
                     MaxRoomsPerSession := or_default (MaxRoomsPerSession l) DefaultMaxRoomsPerSession;
                     MaxRoomNameBytes := or_default (MaxRoomNameBytes l) DefaultMaxRoomNameBytes;
                     MaxMsgBodyBytes := or_default (MaxMsgBodyBytes l) DefaultMaxMsgBodyBytes;
                     RateLimitMsgsPerMinute :=
                       or_default (RateLimitMsgsPerMinute l) DefaultRateLimitMsgsPerMinute |};
     IncludeMemberList := IncludeMemberList c;
     EnableResourceTransfer := EnableResourceTransfer c;
     MaxResourceBytes := or_default (MaxResourceBytes c) DefaultMaxResourceBytes;
     Capabilities := Capabilities c |}.

(** ** State *)

(** A [hubPeer] together with its [session]: the link is the heap index. *)
Record hubPeer := mkPeer {
  peerHash : bytes; active : bool; p_rooms : gset bytes; tokens : f64; lastRefill : Z;
  pendingHello : option Envelope; registered : bool;
  sess_nick : bytes; sess_closed : bool;
}.

(** Callbacks the application observes. *)
Inductive hub_event :=
| EvInboundBytes (n : Z)
| EvBadPacket (e : rrc_error)
| EvRateLimited
| EvHello (peer : bytes) (body : option HelloBody) (env : Envelope)
| EvJoin (peer room : bytes) (env : Envelope)
| EvPart (peer room : bytes) (env : Envelope)
| EvMsg (peer : bytes) (env : Envelope)
| EvResource (peer : bytes) (env : Envelope)
| EvClose (peer : bytes).

Record Hub {PS : Type} := mkHub {
  cfg : HubConfig;
  h_sender : bytes;
  peers : gmap bytes nat;
  rooms : gmap bytes (gset bytes);
  nickIndex : gmap bytes (gset bytes);
  started : bool;
  (** the objects the maps point to *)
  heap : gmap nat hubPeer;
  (** environment: active links, the identity each has shown, the clock in
      nanoseconds, draws from the random source, packets tried on a link *)
  link_active : gset nat;
  link_identity : gmap nat bytes;
  clock : Z;
  draws : nat;
  tried : nat;
  (** packets accepted by a link, and callbacks made, oldest first *)
  sent : list (nat * bytes);
  events : list hub_event;
  (** state of the policy object *)
  pol_state : PS;
}.
Arguments Hub : clear implicits.

(** [HubPolicy]: a hook acts on the hub through its public operations.  An
    error is the text sent to the peer. *)
Record HubPolicy {PS : Type} := mkPolicy {
  OnLink : nat -> Hub PS -> Hub PS;
  OnIdentified : bytes -> Hub PS -> Hub PS * option bytes;
  AfterWelcome : bytes -> Hub PS -> Hub PS;
  AllowJoin : bytes -> bytes -> any -> Hub PS -> Hub PS * option bytes;
  AfterJoin : bytes -> bytes -> Hub PS -> Hub PS;
  AfterPart : bytes -> bytes -> Hub PS -> Hub PS;
  AllowContent : bytes -> Envelope -> Hub PS -> Hub PS * option bytes;
  Intercept : bytes -> Envelope -> Hub PS -> Hub PS * bool;
  OnPong : bytes -> Hub PS -> Hub PS;
  OnResourceEnvelope : bytes -> Envelope -> Hub PS -> Hub PS * option bytes;
}.
Arguments HubPolicy : clear implicits.

(** Functional updates. *)
Section updates.
Context {PS : Type}.
Implicit Types h : Hub PS.

Definition set_peers x h := mkHub PS (cfg h) (h_sender h) x (rooms h) (nickIndex h) (started h) (heap h)
  (link_active h) (link_identity h) (clock h) (draws h) (tried h) (sent h) (events h) (pol_state h).
Definition set_rooms x h := mkHub PS (cfg h) (h_sender h) (peers h) x (nickIndex h) (started h) (heap h)
  (link_active h) (link_identity h) (clock h) (draws h) (tried h) (sent h) (events h) (pol_state h).
Definition set_nickIndex x h := mkHub PS (cfg h) (h_sender h) (peers h) (rooms h) x (started h) (heap h)
  (link_active h) (link_identity h) (clock h) (draws h) (tried h) (sent h) (events h) (pol_state h).
Definition set_heap x h := mkHub PS (cfg h) (h_sender h) (peers h) (rooms h) (nickIndex h) (started h) x
  (link_active h) (link_identity h) (clock h) (draws h) (tried h) (sent h) (events h) (pol_state h).
Definition set_links x h := mkHub PS (cfg h) (h_sender h) (peers h) (rooms h) (nickIndex h) (started h) (heap h)
  x (link_identity h) (clock h) (draws h) (tried h) (sent h) (events h) (pol_state h).
Definition set_cfg x h := mkHub PS x (h_sender h) (peers h) (rooms h) (nickIndex h) (started h) (heap h)
  (link_active h) (link_identity h) (clock h) (draws h) (tried h) (sent h) (events h) (pol_state h).
Definition set_started x h := mkHub PS (cfg h) (h_sender h) (peers h) (rooms h) (nickIndex h) x (heap h)
  (link_active h) (link_identity h) (clock h) (draws h) (tried h) (sent h) (events h) (pol_state h).
Definition set_env lnks ids clk h := mkHub PS (cfg h) (h_sender h) (peers h) (rooms h) (nickIndex h)
  (started h) (heap h) lnks ids clk (draws h) (tried h) (sent h) (events h) (pol_state h).
Definition draw h := mkHub PS (cfg h) (h_sender h) (peers h) (rooms h) (nickIndex h) (started h) (heap h)
  (link_active h) (link_identity h) (clock h) (S (draws h)) (tried h) (sent h) (events h) (pol_state h).
Definition log_send (out : list (nat * bytes)) h :=
  mkHub PS (cfg h) (h_sender h) (peers h) (rooms h) (nickIndex h) (started h) (heap h)
  (link_active h) (link_identity h) (clock h) (draws h) (S (tried h)) (sent h ++ out) (events h) (pol_state h).
Definition event e h := mkHub PS (cfg h) (h_sender h) (peers h) (rooms h) (nickIndex h) (started h) (heap h)
  (link_active h) (link_identity h) (clock h) (draws h) (tried h) (sent h) (events h ++ [e]) (pol_state h).

Definition upd_peer (pid : nat) (f : hubPeer -> hubPeer) h := set_heap (alter f pid (heap h)) h.
End updates.

Definition set_hash x p := mkPeer x (active p) (p_rooms p) (tokens p) (lastRefill p) (pendingHello p)
  true (sess_nick p) (sess_closed p).
Definition set_active x p := mkPeer (peerHash p) x (p_rooms p) (tokens p) (lastRefill p) (pendingHello p)
  (registered p) (sess_nick p) (sess_closed p).
Definition set_prooms x p := mkPeer (peerHash p) (active p) x (tokens p) (lastRefill p) (pendingHello p)
  (registered p) (sess_nick p) (sess_closed p).
Definition set_bucket t l p := mkPeer (peerHash p) (active p) (p_rooms p) t l (pendingHello p)
  (registered p) (sess_nick p) (sess_closed p).
Definition set_pending x p := mkPeer (peerHash p) (active p) (p_rooms p) (tokens p) (lastRefill p) x
  (registered p) (sess_nick p) (sess_closed p).
Definition set_nick x p := mkPeer (peerHash p) (active p) (p_rooms p) (tokens p) (lastRefill p)
  (pendingHello p) (registered p) x (sess_closed p).
Definition set_closed p := mkPeer (peerHash p) (active p) (p_rooms p) (tokens p) (lastRefill p)
  (pendingHello p) (registered p) (sess_nick p) true.

Definition zero_key : bytes := make_bytes IdentityLength.

Definition peerKey (hash : bytes) : bytes := if len hash =? IdentityLength then hash else zero_key.

(** [takeToken] on the bucket of one peer: refill for the time elapsed, cap,
    and spend one token if there is one. *)
Definition take_token (limit : Z) (now : Z) (tok : f64) (last : Z) : bool * f64 * Z :=
  if limit =? 0 then (true, tok, last)
  else
    let elapsed := duration_Seconds (time_Sub now last) in
    let elapsed := if fltb elapsed (f_of_Z 0) then f_of_Z 0 else elapsed in
    let tokenCap := f_of_Z limit in
    let tok := fadd tok (fmul elapsed (fdiv tokenCap (f_of_Z 60))) in
    let tok := if fltb tokenCap tok then tokenCap else tok in
    if fltb tok (f_of_Z 1) then (false, tok, now) else (true, fsub tok (f_of_Z 1), now).

Section hub.
Context `{C : Cbor} {PS : Type}.
(** What the random source and the link layer answer. *)
Context (rand_read : nat -> option bytes) (send_ok : nat -> bool).
Context (policy : option (HubPolicy PS)).
Implicit Types h : Hub PS.

Definition NewHub (c : HubConfig) (identity : bytes) (ps : PS) : Hub PS :=
  mkHub PS (applyDefaults c) identity ∅ ∅ ∅ false ∅ ∅ ∅ 0 0 0 [] [] ps.

Definition Start h : Hub PS := if started h then h else set_started true h.

Definition rate_limit h : Z := RateLimitMsgsPerMinute (CfgLimits (cfg h)).

(** *** Sessions *)

Definition getNick (pid : nat) h : bytes :=
  match heap h !! pid with Some p => sess_nick p | None => [] end.

Definition setNick (pid : nat) (nick : bytes) h : Hub PS :=
  upd_peer pid (set_nick (SanitizeNick nick)) h.

Definition sendRaw (pid : nat) (raw : bytes) h : Hub PS * res rrc_error unit :=
  match heap h !! pid with
  | None => (h, Err ErrSessionClosed)
  | Some p =>
      if sess_closed p || negb (bool_decide (pid ∈ link_active h)) then (h, Err ErrLinkInactive)
      else if send_ok (tried h) then (log_send [(pid, raw)] h, Ok tt)
      else (log_send [] h, Err ErrSend)
  end.

Definition sendEnvelope (pid : nat) (env : Envelope) h : Hub PS * res rrc_error unit :=
  match Marshal (Some env) with
  | Err e => (h, Err e)
  | Ok raw => sendRaw pid raw h
  end.

(** The envelope [marshalType] fills in: optional fields are present when
    their arguments are not empty. *)
Definition fill (env : Envelope) (room : bytes) (body : any) (nick : bytes) : Envelope :=
  let has_room := negb (bool_decide (room = [])) in
  let has_body := match body with ANil => false | _ => true end in
  let has_nick := negb (bool_decide (nick = [])) in
  mkEnvelope (Version env) (Type_ env) (MsgID env) (Timestamp env) (Sender env)
    (if has_room then room else Room env) (if has_body then body else Body env)
    (if has_nick then nick else Nick env) (Destination env)
    (if has_room then true else HasRoom env) (if has_body then true else HasBody env)
    (if has_nick then true else HasNick env) (HasDestination env).

Definition marshalType (sender : bytes) (msgType : Z) (room : bytes) (body : any) (nick : bytes) h
  : Hub PS * res rrc_error bytes :=
  if negb (len sender =? IdentityLength) then (h, Err (ErrBadFieldLength FSender))
  else
    match NewEnvelope (rand_read (draws h)) (clock h / Millisecond) msgType sender with
    | Err e => (draw h, Err e)
    | Ok env => (draw h, Marshal (Some (fill env room body nick)))
    end.

Definition sendType (pid : nat) (msgType : Z) (room : bytes) (body : any) (nick : bytes) h
  : Hub PS * res rrc_error unit :=
  let '(h, r) := marshalType (h_sender h) msgType room body nick h in
  match r with
  | Err e => (h, Err e)
  | Ok raw => sendRaw pid raw h
  end.

(** [_ = other.sess.sendRaw(raw)] for each of a list of peers. *)
Definition sendRawAll (pids : list nat) (raw : bytes) h : Hub PS :=
  foldl (fun h pid => (sendRaw pid raw h).1) h pids.

Definition replyError (pid : nat) (msg : bytes) h : Hub PS :=
  (sendType pid TypeError [] (AStr msg) [] h).1.

(** *** Index maintenance *)

Definition remove_member (room key : bytes) (rs : gmap bytes (gset bytes)) : gmap bytes (gset bytes) :=
  match rs !! room with
  | None => rs
  | Some members =>
      let members := members ∖ {[key]} in
      if bool_decide (members = ∅) then delete room rs else <[room := members]> rs
  end.

Definition add_member (room key : bytes) (rs : gmap bytes (gset bytes)) : gmap bytes (gset bytes) :=
  <[room := {[key]} ∪ default ∅ (rs !! room)]> rs.

Definition unindexNickLocked (id nick : bytes) h : Hub PS :=
  let n := nickKey nick in
  if bool_decide (n = []) then h else set_nickIndex (remove_member n id (nickIndex h)) h.

Definition reindexNick (id oldNick newNick : bytes) h : Hub PS :=
  let h := unindexNickLocked id oldNick h in
  let n := nickKey newNick in
  if bool_decide (n = []) then h else set_nickIndex (add_member n id (nickIndex h)) h.

Definition is_active h (pid : nat) : bool :=
  match heap h !! pid with Some p => active p | None => false end.

Definition peer_hash h (pid : nat) : bytes :=
  match heap h !! pid with Some p => peerHash p | None => [] end.

(** The peers of [room] known to the hub, welcomed, except [exceptKey]. *)
Definition roomPeersLocked (room exceptKey : bytes) h : list nat :=
  omap (fun pk =>
    if bool_decide (pk = exceptKey) then None
    else match peers h !! pk with
         | Some pid => if is_active h pid then Some pid else None
         | None => None
         end)
  (elements (default ∅ (rooms h !! room))).

Definition room_members h (room : bytes) : list nat :=
  omap (fun pk => match peers h !! pk with
                  | Some pid => if is_active h pid then Some pid else None
                  | None => None
                  end) (elements (default ∅ (rooms h !! room))).

(** *** Closing *)

Definition presence_body h (peer : bytes) : any :=
  if IncludeMemberList (cfg h) then AArr [ABytes peer] else ANil.

(** Leaving one room while a peer is dropped: who is to be told. *)
Definition drop_room (key : bytes) (acc : Hub PS * list (bytes * list nat)) (room : bytes)
  : Hub PS * list (bytes * list nat) :=
  let '(h, notes) := acc in
  let others := roomPeersLocked room key h in
  (set_rooms (remove_member room key (rooms h)) h, notes ++ [(room, others)]).

Definition notify_parted (body : any) (nick : bytes) h (note : bytes * list nat) : Hub PS :=
  let '(h, r) := marshalType (h_sender h) TypeParted note.1 body nick h in
  match r with
  | Err _ => h
  | Ok raw => sendRawAll note.2 raw h
  end.

Definition dropPeerIf (pid : nat) h : Hub PS :=
  match heap h !! pid with
  | None => h
  | Some p =>
      if len (peerHash p) =? 0 then h
      else
        let key := peerKey (peerHash p) in
        match peers h !! key with
        | Some cur =>
            if negb (Nat.eqb cur pid) then h
            else
              let nick := sess_nick p in
              let h := set_peers (delete key (peers h)) h in
              let h := unindexNickLocked key nick h in
              let '(h, notes) := foldl (drop_room key) (h, []) (elements (p_rooms p)) in
              let h := upd_peer pid (set_prooms ∅) h in
              let h := foldl (notify_parted (presence_body h (peerHash p)) nick) h notes in
              event (EvClose (peerHash p)) h
        | None => h
        end
  end.

Definition close_session (pid : nat) h : Hub PS :=
  match heap h !! pid with
  | None => h
  | Some p =>
      if sess_closed p then h
      else
        let h := upd_peer pid set_closed h in
        let h := set_links (link_active h ∖ {[pid]}) h in
        dropPeerIf pid h
  end.

(** *** Message handlers *)

Definition applyInboundNick (pid : nat) (nick : bytes) h : Hub PS * bool :=
  let nick := SanitizeNick nick in
  if bool_decide (nick = []) then (h, true)
  else if MaxNickBytes (CfgLimits (cfg h)) <? len nick then (h, false)
  else
    let old := getNick pid h in
    if bool_decide (nick = old) then (h, true)
    else
      let h := setNick pid nick h in
      let hash := peer_hash h pid in
      if len hash =? IdentityLength then (reindexNick (peerKey hash) old nick h, true)
      else (h, true).

Definition takeToken (pid : nat) h : Hub PS * bool :=
  match heap h !! pid with
  | None => (h, true)
  | Some p =>
      let '(ok, tok, last) := take_token (rate_limit h) (clock h) (tokens p) (lastRefill p) in
      (upd_peer pid (set_bucket tok last) h, ok)
  end.

Definition welcome_body h : WelcomeBody :=
  let caps := match Capabilities (cfg h) with
              | Some c => c
              | None => DefaultHubCapabilities (EnableResourceTransfer (cfg h))
              end in
  mkWelcome (Name (cfg h)) (HubVersionText (cfg h)) (Some caps) (CfgLimits (cfg h)) true true true true.

Definition run_hook (f : HubPolicy PS -> Hub PS -> Hub PS) h : Hub PS :=
  match policy with Some pol => f pol h | None => h end.

Definition ask_policy (f : HubPolicy PS -> Hub PS -> Hub PS * option bytes) h : Hub PS * option bytes :=
  match policy with Some pol => f pol h | None => (h, None) end.

Definition onHello (pid : nat) (env : Envelope) h : Hub PS :=
  let body := match ParseHelloBody (Body env) with Ok b => Some b | Err _ => None end in
  let h := upd_peer pid (set_active true) h in
  let wb := match WelcomeToMap (Some (welcome_body h)) with Some m => AMapU m | None => ANil end in
  let '(h, r) := sendType pid TypeWelcome [] wb [] h in
  match r with
  | Err _ => close_session pid h
  | Ok _ =>
      let h := event (EvHello (peer_hash h pid) body env) h in
      run_hook (fun pol => AfterWelcome pol (peer_hash h pid)) h
  end.

(** The advisory member list of a JOINED reply. *)
Definition member_list h (room : bytes) : list any :=
  omap (fun pk => match peers h !! pk with
                  | Some q => Some (ABytes (peer_hash h q))
                  | None => None
                  end) (elements (default ∅ (rooms h !! room))).

Definition broadcast (msgType : Z) (room : bytes) (body : any) (nick : bytes) (others : list nat) h : Hub PS :=
  match others with
  | [] => h
  | _ =>
      let '(h, r) := marshalType (h_sender h) msgType room body nick h in
      match r with Ok raw => sendRawAll others raw h | Err _ => h end
  end.

Definition in_room h (pid : nat) (room : bytes) : bool :=
  match heap h !! pid with Some p => bool_decide (room ∈ p_rooms p) | None => false end.

Definition room_count h (pid : nat) : Z :=
  match heap h !! pid with Some p => Z.of_nat (size (p_rooms p)) | None => 0 end.

(** The membership update of [onJoin]: [None] when the room limit is hit. *)
Definition enter_room (pid : nat) (room : bytes) h : option (Hub PS) :=
  if in_room h pid room then Some h
  else if MaxRoomsPerSession (CfgLimits (cfg h)) <=? room_count h pid then None
  else
    let key := peerKey (peer_hash h pid) in
    let h := upd_peer pid (fun p => set_prooms ({[room]} ∪ p_rooms p) p) h in
    Some (set_rooms (add_member room key (rooms h)) h).

Definition onJoin (pid : nat) (env : Envelope) h : Hub PS :=
  let room := NormalizeRoom (Room env) in
  if bool_decide (room = []) then replyError pid (lit "missing room") h
  else if MaxRoomNameBytes (CfgLimits (cfg h)) <? len room
  then replyError pid (lit "room name too long") h
  else
    let '(h, refused) := ask_policy (fun pol => AllowJoin pol (peer_hash h pid) room (Body env)) h in
    match refused with
    | Some msg => replyError pid msg h
    | None =>
        match enter_room pid room h with
        | None => replyError pid (lit "room limit exceeded") h
        | Some h =>
            let key := peerKey (peer_hash h pid) in
            let memberList := if IncludeMemberList (cfg h) then member_list h room else [] in
            let others := roomPeersLocked room key h in
            let nick := getNick pid h in
            let body := match memberList with [] => ANil | _ => AArr memberList end in
            let h := broadcast TypeJoined room (presence_body h (peer_hash h pid)) nick others h in
            let h := (sendType pid TypeJoined room body [] h).1 in
            let h := event (EvJoin (peer_hash h pid) room env) h in
            run_hook (fun pol => AfterJoin pol (peer_hash h pid) room) h
        end
    end.

(** The membership update of [onPart] and [RemoveFromRoom]. *)
Definition leave_room (pid : nat) (room : bytes) h : Hub PS :=
  let key := peerKey (peer_hash h pid) in
  let h := upd_peer pid (fun p => set_prooms (p_rooms p ∖ {[room]}) p) h in
  set_rooms (remove_member room key (rooms h)) h.

Definition onPart (pid : nat) (env : Envelope) h : Hub PS :=
  let room := NormalizeRoom (Room env) in
  if bool_decide (room = []) then h
  else if negb (in_room h pid room) then h
  else
    let h := leave_room pid room h in
    let others := roomPeersLocked room (peerKey (peer_hash h pid)) h in
    let nick := getNick pid h in
    let body := presence_body h (peer_hash h pid) in
    let h := broadcast TypeParted room body nick others h in
    let h := (sendType pid TypeParted room body [] h).1 in
    let h := event (EvPart (peer_hash h pid) room env) h in
    run_hook (fun pol => AfterPart pol (peer_hash h pid) room) h.

Definition tryIntercept (pid : nat) (env : Envelope) h : Hub PS * bool :=
  match policy with
  | Some pol => Intercept pol (peer_hash h pid) env h
  | None => (h, false)
  end.

(** The forwarded envelope: always stamped with the authenticated peer. *)
Definition forward (env : Envelope) (typ : Z) (sender nick : bytes) (set_target : Envelope -> Envelope)
  : res rrc_error Envelope :=
  fwd ← envelopeFrom typ sender (MsgID env) (Timestamp env);
  let fwd := set_target fwd in
  Ok (mkEnvelope (Version fwd) (Type_ fwd) (MsgID fwd) (Timestamp fwd) (Sender fwd) (Room fwd)
        (if HasBody env then Body env else Body fwd)
        (if bool_decide (nick = []) then Nick fwd else nick) (Destination fwd)
        (HasRoom fwd) (HasBody env || HasBody fwd)
        (negb (bool_decide (nick = [])) || HasNick fwd) (HasDestination fwd)).

Definition to_room (room : bytes) (e : Envelope) : Envelope :=
  mkEnvelope (Version e) (Type_ e) (MsgID e) (Timestamp e) (Sender e) room (Body e) (Nick e)
    (Destination e) true (HasBody e) (HasNick e) (HasDestination e).

Definition to_destination (dst : bytes) (e : Envelope) : Envelope :=
  mkEnvelope (Version e) (Type_ e) (MsgID e) (Timestamp e) (Sender e) (Room e) (Body e) (Nick e)
    (cloneBytes dst) (HasRoom e) (HasBody e) (HasNick e) true.

Definition onRoomContent (pid : nat) (env : Envelope) h : Hub PS :=
  let room := NormalizeRoom (Room env) in
  if bool_decide (room = []) then replyError pid (lit "missing room") h
  else if HasBody env && (MaxMsgBodyBytes (CfgLimits (cfg h)) <? BodySizeBytes (Body env))
  then replyError pid (lit "message body too large") h
  else if negb (in_room h pid room) && negb (present policy)
  then replyError pid (lit "not a member of room") h
  else
    let members := room_members h room in
    match (fwd ← forward env (Type_ env) (peer_hash h pid) (getNick pid h) (to_room room);
           Marshal (Some fwd)) with
    | Err _ => h
    | Ok raw => event (EvMsg (peer_hash h pid) env) (sendRawAll members raw h)
    end.

Definition dispatchContent (pid : nat) (env : Envelope) h : Hub PS :=
  let '(h, refused) := ask_policy (fun pol => AllowContent pol (peer_hash h pid) env) h in
  match refused with
  | Some msg => replyError pid msg h
  | None => onRoomContent pid env h
  end.

Definition onDirectNotice (pid : nat) (env : Envelope) h : Hub PS :=
  if HasRoom env then replyError pid (lit "direct notice must not include room") h
  else if negb (HasDestination env) || negb (len (Destination env) =? IdentityLength)
  then replyError pid (lit "direct notice requires destination identity") h
  else if HasBody env && (MaxMsgBodyBytes (CfgLimits (cfg h)) <? BodySizeBytes (Body env))
  then replyError pid (lit "message body too large") h
  else
    match peers h !! peerKey (Destination env) with
    | Some target =>
        if negb (is_active h target) then replyError pid (lit "destination not connected") h
        else
          match forward env TypeNotice (peer_hash h pid) (getNick pid h)
                  (to_destination (Destination env)) with
          | Err _ => h
          | Ok fwd => event (EvMsg (peer_hash h pid) env) (sendEnvelope target fwd h).1
          end
    | None => replyError pid (lit "destination not connected") h
    end.

Definition onPing (pid : nat) (env : Envelope) h : Hub PS :=
  (sendType pid TypePong [] (if HasBody env then Body env else ANil) [] h).1.

(** The decimal text of a number, for the size message. *)
Definition decimal (n : Z) : bytes :=
  lit (DecimalString.NilEmpty.string_of_int (Z.to_int n)).

Definition onResourceEnvelope (pid : nat) (env : Envelope) h : Hub PS :=
  if negb (EnableResourceTransfer (cfg h)) then replyError pid (lit "resource transfer disabled") h
  else
    let '(body, reason) := ValidateResourceEnvelopeBody (Body env) in
    if negb (bool_decide (reason = [])) then replyError pid reason h
    else
      let size := match body with Some b => ResSize b | None => 0 end in
      if MaxResourceBytes (cfg h) <? size
      then replyError pid (lit "resource too large: " ++ decimal size ++ lit " > "
                           ++ decimal (MaxResourceBytes (cfg h))) h
      else
        let '(h, refused) := ask_policy (fun pol => OnResourceEnvelope pol (peer_hash h pid) env) h in
        match refused with
        | Some msg => replyError pid msg h
        | None => event (EvResource (peer_hash h pid) env) h
        end.

Definition part_envelope (room : bytes) : Envelope :=
  mkEnvelope 0 0 [] 0 [] room ANil [] [] true false false false.

Definition reHello (pid : nat) (env : Envelope) h : Hub PS :=
  let rs := match heap h !! pid with Some p => elements (p_rooms p) | None => [] end in
  let h := foldl (fun h room => onPart pid (part_envelope room) h) h rs in
  let h := upd_peer pid (set_active false) h in
  onHello pid env h.

(** The dispatch of [handlePeer] for a welcomed peer. *)
Definition handleActive (pid : nat) (env : Envelope) h : Hub PS :=
  let t := Type_ env in
  if t =? TypeHello then reHello pid env h
  else if t =? TypeJoin then onJoin pid env h
  else if t =? TypePart then onPart pid env h
  else if t =? TypeNotice then
    let '(h, done) := tryIntercept pid env h in
    if done then h
    else if HasDestination env then onDirectNotice pid env h
    else dispatchContent pid env h
  else if t =? TypeMsg then
    let '(h, done) := tryIntercept pid env h in
    if done then h else dispatchContent pid env h
  else if t =? TypeAction then dispatchContent pid env h
  else if t =? TypeResourceEnvelope then onResourceEnvelope pid env h
  else if t =? TypePing then onPing pid env h
  else h.

(** The nickname part of [handlePeer]: the new hub and whether to go on. *)
Definition handleNick (pid : nat) (env : Envelope) (was_active : bool) h : Hub PS * bool :=
  if HasNick env then
    let '(h, ok) := applyInboundNick pid (Nick env) h in
    if ok then (h, true)
    else
      let h := replyError pid (lit "nickname too long") h in
      ((if was_active then h else close_session pid h), false)
  else if Type_ env =? TypeHello then
    let n := HelloLegacyNick (Body env) in
    if bool_decide (n = []) then (h, true)
    else
      let '(h, ok) := applyInboundNick pid n h in
      if ok then (h, true)
      else
        let h := replyError pid (lit "nickname too long") h in
        if was_active then (h, true) else (close_session pid h, false)
  else (h, true).

Definition handlePeer (pid : nat) (env : Envelope) h : Hub PS :=
  let '(h, ok) := takeToken pid h in
  if negb ok then replyError pid (lit "Rate limit exceeded. Try again later.") (event EvRateLimited h)
  else
    let was_active := is_active h pid in
    let '(h, go) := handleNick pid env was_active h in
    if negb go then h
    else if Type_ env =? TypePong then run_hook (fun pol => OnPong pol (peer_hash h pid)) h
    else if negb was_active then
      if negb (Type_ env =? TypeHello) then replyError pid (lit "send HELLO first") h
      else onHello pid env h
    else handleActive pid env h.

(** *** Links *)

(** The part of [register] under [registerOnce]: take the key over from a
    previous session of the same identity. *)
Definition register_once (pid : nat) (hash : bytes) h : Hub PS * option nat :=
  match heap h !! pid with
  | None => (h, None)
  | Some p =>
      if registered p then (h, None)
      else
        let h := upd_peer pid (set_hash hash) h in
        let key := peerKey hash in
        let '(h, old) :=
          match peers h !! key with
          | Some prev =>
              if Nat.eqb prev pid then (h, None)
              else
                let rs := match heap h !! prev with Some q => elements (p_rooms q) | None => [] end in
                (set_rooms (foldl (fun acc room => remove_member room key acc) (rooms h) rs) h,
                 Some prev)
          | None => (h, None)
          end in
        (set_peers (<[key := pid]> (peers h)) h, old)
  end.

Definition register (pid : nat) (hash : bytes) h : Hub PS :=
  if negb (len hash =? IdentityLength) then h
  else
    let '(h, old) := register_once pid hash h in
    let h := match old with Some o => close_session o h | None => h end in
    let '(h, refused) := ask_policy (fun pol => OnIdentified pol hash) h in
    match refused with
    | Some msg => close_session pid (sendType pid TypeError [] (AStr msg) [] h).1
    | None =>
        match heap h !! pid with
        | None => h
        | Some p =>
            let h := upd_peer pid (set_pending None) h in
            match pendingHello p with
            | Some env => if len (peerHash p) =? IdentityLength then handlePeer pid env h else h
            | None => h
            end
        end
    end.

Definition register_remote (pid : nat) h : Hub PS :=
  match link_identity h !! pid with Some hash => register pid hash h | None => h end.

(** The session's message callback. *)
Definition onMessage (pid : nat) (env : Envelope) h : Hub PS :=
  let h := register_remote pid h in
  if len (peer_hash h pid) =? IdentityLength then handlePeer pid env h
  else
    let h := if Type_ env =? TypeHello then upd_peer pid (set_pending (Some env)) h else h in
    register_remote pid h.

(** [session.handleInbound] with the hub's callbacks. *)
Definition handleInbound (pid : nat) (data : bytes) h : Hub PS :=
  let h := event (EvInboundBytes (len data)) h in
  match UnmarshalEnvelope data with
  | Err e => replyError pid (lit "bad message") (event (EvBadPacket e) h)
  | Ok env => onMessage pid env h
  end.

Definition fresh_peer h : hubPeer :=
  mkPeer [] false ∅ (f_of_Z (rate_limit h)) (clock h) None false [] false.

Definition acceptLink (pid : nat) h : Hub PS :=
  let h := set_heap (<[pid := fresh_peer h]> (heap h)) h in
  let h := register_remote pid h in
  run_hook (fun pol => OnLink pol pid) h.

(** *** Public operations ([hub_ops.go]) *)

Definition peerLocked h (hash : bytes) : option nat :=
  match peers h !! peerKey hash with
  | Some pid => if is_active h pid then Some pid else None
  | None => None
  end.

Definition ApplyRuntime (name version : bytes) (includeMembers enableRes : bool) (maxRes : Z)
    (limits : HubLimits) h : Hub PS :=
  let c := cfg h in
  set_cfg {| Name := if bool_decide (name = []) then Name c else name;
             HubVersionText := if bool_decide (version = []) then HubVersionText c else version;
             CfgLimits := limits;
             IncludeMemberList := includeMembers;
             EnableResourceTransfer := enableRes;
             MaxResourceBytes := if 0 <? maxRes then maxRes else MaxResourceBytes c;
             Capabilities := Capabilities c |} h.

Definition send_to (peer : bytes) (msgType : Z) (room : bytes) (body : any) h
  : Hub PS * res rrc_error unit :=
  match peerLocked h peer with
  | None => (h, Err ErrSessionClosed)
  | Some pid => sendType pid msgType room body [] h
  end.

Definition SendNotice (peer room text : bytes) h := send_to peer TypeNotice room (AStr text) h.
Definition SendError (peer room text : bytes) h := send_to peer TypeError room (AStr text) h.
Definition SendPing (peer : bytes) (body : any) h := send_to peer TypePing [] body h.

Definition BroadcastNotice (room text : bytes) h : Hub PS :=
  let room := NormalizeRoom room in
  broadcast TypeNotice room (AStr text) [] (roomPeersLocked room zero_key h) h.

Definition RemoveFromRoom (peer room : bytes) h : Hub PS * res rrc_error unit :=
  let room := NormalizeRoom room in
  match peers h !! peerKey peer with
  | None => (h, Err ErrSessionClosed)
  | Some pid =>
      if negb (in_room h pid room) then (h, Err ErrNotMember)
      else
        let h := upd_peer pid (fun p => set_prooms (p_rooms p ∖ {[room]}) p) h in
        (set_rooms (remove_member room (peerKey peer) (rooms h)) h, Ok tt)
  end.

Definition Disconnect (peer : bytes) h : Hub PS :=
  match peers h !! peerKey peer with Some pid => close_session pid h | None => h end.

Definition Close h : Hub PS :=
  let pids := (map_to_list (peers h)).*2 in
  let h := set_nickIndex ∅ (set_rooms ∅ (set_peers ∅ h)) in
  foldl (fun h pid => close_session pid h) h pids.

Definition PeerCount h : nat := size (peers h).
Definition HasPeer h (hash : bytes) : bool := bool_decide (is_Some (peers h !! peerKey hash)).
Definition PeerLink h (hash : bytes) : option nat := peers h !! peerKey hash.

Definition HubNick h (peer : bytes) : bytes :=
  match peers h !! peerKey peer with Some pid => getNick pid h | None => [] end.

Definition IsMember h (peer room : bytes) : bool :=
  match peers h !! peerKey peer with
  | Some pid => in_room h pid (NormalizeRoom room)
  | None => false
  end.

Definition RoomMembers h (room : bytes) : list bytes :=
  omap (fun pk => peer_hash h <$> peers h !! pk) (elements (default ∅ (rooms h !! NormalizeRoom room))).

Definition RoomMemberInfo h (room : bytes) : list (bytes * bytes) :=
  omap (fun pk => (fun pid => (peer_hash h pid, getNick pid h)) <$> peers h !! pk)
    (elements (default ∅ (rooms h !! NormalizeRoom room))).

Definition AllPeers h : list (bytes * bytes) :=
  map (fun kp => (peer_hash h kp.2, getNick kp.2 h)) (map_to_list (peers h)).

Definition WelcomedCount h : nat :=
  length (List.filter (fun kp => is_active h kp.2) (map_to_list (peers h))).

Definition OccupiedRooms h : list (bytes * nat) :=
  map (fun rm => (rm.1, size rm.2)) (map_to_list (rooms h)).

Definition LookupNick h (nick : bytes) : list bytes :=
  omap (fun id => peer_hash h <$> peers h !! id) (elements (default ∅ (nickIndex h !! nickKey nick))).

Fixpoint bytesHasPrefix (b prefix : bytes) : bool :=
  match prefix, b with
  | [], _ => true
  | _, [] => false
  | x :: prefix, y :: b => bool_decide (y = x) && bytesHasPrefix b prefix
  end.

Definition LookupHashPrefix h (prefix : bytes) : list bytes :=
  if len prefix =? 0 then []
  else omap (fun kp => if (len prefix <=? IdentityLength) && bytesHasPrefix kp.1 prefix
                       then Some (peer_hash h kp.2) else None) (map_to_list (peers h)).

Definition ActivePeerHashes h : list bytes :=
  omap (fun kp => if is_active h kp.2 then Some (peer_hash h kp.2) else None) (map_to_list (peers h)).

Definition FormatError (env : option Envelope) : option bytes :=
  match env with
  | None => Some []
  | Some e => BodyAsString (Body e)
  end.

(** *** Steps

    What can happen to a hub: the environment moves (time passes, a link's peer
    identifies itself, a link goes down), a link is accepted, a link delivers a
    packet, or the application calls a public operation.  A link that was torn
    down delivers nothing. *)
Inductive hub_step : Hub PS -> Hub PS -> Prop :=
| step_time h t : clock h <= t ->
    hub_step h (set_env (link_active h) (link_identity h) t h)
| step_link_down h pid :
    hub_step h (set_env (link_active h ∖ {[pid]}) (link_identity h) (clock h) h)
| step_accept h pid : heap h !! pid = None ->
    hub_step h (acceptLink pid
      (set_env ({[pid]} ∪ link_active h) (link_identity h) (clock h) h))
| step_identified h pid p hash : heap h !! pid = Some p -> sess_closed p = false ->
    link_identity h !! pid = None ->
    hub_step h (register pid hash
      (set_env (link_active h) (<[pid := hash]> (link_identity h)) (clock h) h))
| step_deliver h pid p data : heap h !! pid = Some p -> sess_closed p = false ->
    hub_step h (handleInbound pid data h)
| step_runtime h name version im er mr lim :
    hub_step h (ApplyRuntime name version im er mr lim h)
| step_send h peer t room body : hub_step h (send_to peer t room body h).1
| step_broadcast h room text : hub_step h (BroadcastNotice room text h)
| step_remove h peer room : hub_step h (RemoveFromRoom peer room h).1
| step_disconnect h peer : hub_step h (Disconnect peer h)
| step_close h : hub_step h (Close h).

Definition reachable (h0 h : Hub PS) : Prop := rtc hub_step h0 h.

End hub.
