(* ===== verification/RrcHubInv.v ===== *)
(** * The invariant of the RRC hub

    Between steps the three indexes of the hub agree with the sessions: the
    peer table holds exactly the open identified sessions, the room table is
    the inverse of the sessions' room sets, and the nickname index covers every
    connected nickname.  Every step of [RrcHub.hub_step] preserves this, for
    any policy whose hooks do. *)

From stdpp Require Import base tactics list gmap sets strings.
From Stdlib Require Import ZArith Lia.
From S2P Require Import Prelude GoText HexHash Cbor RrcRoom RrcEnvelope RrcBodies GoFloat RrcHub.

(** ** Tables of sets *)

Definition members (rs : gmap bytes (gset bytes)) (room : bytes) : gset bytes := default ∅ (rs !! room).

Definition no_empty (rs : gmap bytes (gset bytes)) : Prop :=
  forall r ms, rs !! r = Some ms -> ms <> ∅.

Lemma members_remove rs room key r :
  members (remove_member room key rs) r =
  if decide (r = room) then members rs room ∖ {[key]} else members rs r.
Proof.
  unfold members, remove_member. destruct (rs !! room) as [ms|] eqn:E.
  - case_bool_decide as Hm; case_decide as Hr; subst; rewrite ?E; simpl.
    + by rewrite lookup_delete_eq, Hm.
    + by rewrite lookup_delete_ne.
    + by rewrite lookup_insert_eq.
    + by rewrite lookup_insert_ne.
  - case_decide; subst; [|done]. rewrite E. simpl. set_solver.
Qed.

Lemma members_add rs room key r :
  members (add_member room key rs) r =
  if decide (r = room) then {[key]} ∪ members rs room else members rs r.
Proof.
  unfold members, add_member. case_decide; subst; [by rewrite lookup_insert_eq|].
  by rewrite lookup_insert_ne.
Qed.

Lemma no_empty_remove rs room key : no_empty rs -> no_empty (remove_member room key rs).
Proof.
  unfold no_empty, remove_member. intros H r ms. destruct (rs !! room) as [x|]; [|by apply H].
  case_bool_decide as Hm; intros Hr.
  - apply lookup_delete_Some in Hr as [_ Hr]. by eapply H.
  - apply lookup_insert_Some in Hr as [[-> <-]|[_ Hr]]; [done|by eapply H].
Qed.

Lemma no_empty_add rs room key : no_empty rs -> no_empty (add_member room key rs).
Proof.
  unfold no_empty, add_member. intros H r ms Hr.
  apply lookup_insert_Some in Hr as [[-> <-]|[_ Hr]]; [set_solver|by eapply H].
Qed.

Lemma members_remove_all rs key l r :
  members (foldl (fun acc room => remove_member room key acc) rs l) r =
  if decide (r ∈ l) then members rs r ∖ {[key]} else members rs r.
Proof.
  revert rs. induction l as [|x l IH]; intros rs; cbn [foldl].
  - by rewrite decide_False by apply not_elem_of_nil.
  - rewrite IH, members_remove. repeat case_decide; subst; set_solver.
Qed.

Lemma no_empty_remove_all rs key l : no_empty rs ->
  no_empty (foldl (fun acc room => remove_member room key acc) rs l).
Proof. revert rs. induction l as [|x l IH]; intros rs H; simpl; [done|]. by apply IH, no_empty_remove. Qed.

(** ** The part of a session the indexes depend on *)

Record pview := mkView
  { v_hash : bytes; v_rooms : gset bytes; v_nick : bytes; v_closed : bool; v_reg : bool;
    v_pend : bool }.

Definition view (p : hubPeer) : pview :=
  mkView (peerHash p) (p_rooms p) (sess_nick p) (sess_closed p) (registered p)
    (present (pendingHello p)).

Section inv.
Context {PS : Type}.
Implicit Types h : Hub PS.

Definition hv h (pid : nat) : option pview := view <$> heap h !! pid.

Record hub_inv h : Prop := {
  (** the peer table points to open sessions of the right identity *)
  inv_peers : forall key pid, peers h !! key = Some pid ->
    exists v, hv h pid = Some v /\ v_hash v = key /\ len key = IdentityLength /\ v_closed v = false;
  (** and to every open session that has one *)
  inv_live : forall pid v, hv h pid = Some v -> v_closed v = false -> v_hash v <> [] ->
    peers h !! v_hash v = Some pid;
  inv_reg : forall pid v, hv h pid = Some v -> v_reg v = false -> v_hash v = [];
  inv_unreg : forall pid v, hv h pid = Some v -> v_hash v = [] ->
    v_reg v = false /\ v_rooms v = ∅ /\ v_nick v = [];
  inv_rooms : no_empty (rooms h);
  (** the room table is the inverse of the sessions' room sets *)
  inv_member : forall room key, key ∈ members (rooms h) room <->
    exists pid v, peers h !! key = Some pid /\ hv h pid = Some v /\ room ∈ v_rooms v;
  (** rooms are under normalised, non-empty names *)
  inv_names : forall pid v room, hv h pid = Some v -> room ∈ v_rooms v ->
    room <> [] /\ NormalizeRoom room = room;
  (** every connected nickname is indexed *)
  inv_nick : forall key pid v, peers h !! key = Some pid -> hv h pid = Some v ->
    nickKey (v_nick v) <> [] -> key ∈ members (nickIndex h) (nickKey (v_nick v));
  inv_nonempty_nicks : no_empty (nickIndex h);
}.

(** The identity a link has shown. *)
Definition shown h (pid : nat) : bytes :=
  match link_identity h !! pid with Some hash => if len hash =? IdentityLength then hash else [] | None => [] end.

(** An open session has the identity its link has shown, and no other. *)
Definition link_at h (pid : nat) : Prop := forall v, hv h pid = Some v -> v_closed v = false -> v_hash v = shown h pid.

(** No HELLO waits on an open session that is registered. *)
Definition pend_at h (pid : nat) : Prop := forall v, hv h pid = Some v -> v_closed v = false ->
  v_hash v <> [] -> v_pend v = false.

Definition ident_at h (pid : nat) : Prop := link_at h pid /\ pend_at h pid.

(** A session is live while it is open and identified, and gone once it is
    closed with its rooms left. *)
Definition live h (pid : nat) : Prop :=
  exists v, hv h pid = Some v /\ v_closed v = false /\ len (v_hash v) = IdentityLength.
Definition gone h (pid : nat) : Prop :=
  exists v, hv h pid = Some v /\ v_closed v = true /\ v_rooms v = ∅.
Definition settled h (pid : nat) : Prop := live h pid \/ gone h pid.

(** *** The abstract hub

    What the hub promises about membership: a table from connected identities
    to the rooms each has joined, and the moves on it.  [abs] reads the table
    off a hub. *)
Notation table := (gmap bytes (gset bytes)).

Inductive member_step (lim : HubLimits) : table -> table -> Prop :=
| m_connect a key : len key = IdentityLength -> member_step lim a (<[key := ∅]> a)
| m_drop a key : is_Some (a !! key) -> member_step lim a (delete key a)
| m_join a key rs room : a !! key = Some rs -> room ∉ rs ->
    room <> [] -> NormalizeRoom room = room -> len room <= MaxRoomNameBytes lim ->
    Z.of_nat (size rs) < MaxRoomsPerSession lim ->
    member_step lim a (<[key := {[room]} ∪ rs]> a)
| m_part a key rs room : a !! key = Some rs -> room ∈ rs ->
    member_step lim a (<[key := rs ∖ {[room]}]> a)
| m_close a : member_step lim a ∅.

Definition rooms_of h (pid : nat) : gset bytes :=
  match hv h pid with Some v => v_rooms v | None => ∅ end.

Definition abs h : table := rooms_of h <$> peers h.

(** [h'] follows [h] by moves of the abstract hub. *)
Definition sim h h' : Prop :=
  cfg h' = cfg h /\ rtc (member_step (CfgLimits (cfg h))) (abs h) (abs h').

#[export] Instance sim_preorder : PreOrder sim.
Proof.
  split; [by intros h|]. intros h1 h2 h3 [E1 R1] [E2 R2]. split; [congruence|].
  rewrite E1 in R2. by transitivity (abs h2).
Qed.

(** Changes that keep the invariant, leave no session dangling and follow the
    abstract hub. *)
Definition ok h h' : Prop := hub_inv h ->
  hub_inv h' /\ (forall q, settled h q -> settled h' q)
  /\ (forall q, (link_at h q -> link_at h' q) /\ (pend_at h q -> pend_at h' q)) /\ sim h h'.

#[export] Instance ok_preorder : PreOrder ok.
Proof.
  split; [by intros h Hi|]. intros h1 h2 h3 H12 H23 Hi.
  destruct (H12 Hi) as (Hi2 & ? & Ha & ?). destruct (H23 Hi2) as (? & ? & Hb & ?).
  split; [done|]. split; [auto|]. split; [intros q; destruct (Ha q), (Hb q); auto|]. by transitivity h2.
Qed.

(** Equality up to what the invariant does not see. *)
Definition view_eq h h' : Prop :=
  peers h' = peers h /\ rooms h' = rooms h /\ nickIndex h' = nickIndex h
  /\ link_identity h' = link_identity h /\ (forall pid, hv h' pid = hv h pid) /\ cfg h' = cfg h.

#[export] Instance view_eq_equiv : Equivalence view_eq.
Proof.
  split.
  - intros h. by repeat split.
  - intros h h' (H1 & H2 & H3 & H4 & H5 & H6). repeat split; congruence.
  - intros h1 h2 h3 (?&?&?&?&?&?) (?&?&?&?&?&?). repeat split; congruence.
Qed.

#[export] Instance hub_inv_proper : Proper (view_eq ==> iff) hub_inv.
Proof.
  assert (Himp : forall h h', view_eq h h' -> hub_inv h -> hub_inv h').
  { intros h h' (Hp & Hr & Hn & Hd & Hv & _) [].
    split; rewrite ?Hp, ?Hr, ?Hn; intros *; rewrite ?Hv; eauto.
    rewrite inv_member0. by setoid_rewrite Hv. }
  intros h h' H. split; [by apply Himp|]. apply Himp. by symmetry.
Qed.

#[export] Instance live_proper : Proper (view_eq ==> eq ==> iff) live.
Proof. intros h h' (_&_&_&_&H&_) pid _ <-. unfold live. by rewrite H. Qed.

#[export] Instance gone_proper : Proper (view_eq ==> eq ==> iff) gone.
Proof. intros h h' (_&_&_&_&H&_) pid _ <-. unfold gone. by rewrite H. Qed.

#[export] Instance settled_proper : Proper (view_eq ==> eq ==> iff) settled.
Proof. intros h h' H pid _ <-. unfold settled. by rewrite H. Qed.

#[export] Instance link_proper : Proper (view_eq ==> eq ==> iff) link_at.
Proof. intros h h' (_&_&_&Hd&H&_) pid _ <-. unfold link_at, shown. by rewrite H, Hd. Qed.

#[export] Instance pend_proper : Proper (view_eq ==> eq ==> iff) pend_at.
Proof. intros h h' (_&_&_&_&H&_) pid _ <-. unfold pend_at. by rewrite H. Qed.

#[export] Instance ident_proper : Proper (view_eq ==> eq ==> iff) ident_at.
Proof. intros h h' H pid _ <-. unfold ident_at. by rewrite H. Qed.

Lemma ident_kept h h' q : (link_at h q -> link_at h' q) /\ (pend_at h q -> pend_at h' q) -> ident_at h q -> ident_at h' q.
Proof. unfold ident_at. tauto. Qed.

Lemma sim_same h h' : cfg h' = cfg h -> abs h' = abs h -> sim h h'.
Proof. intros Hc Ha. split; [done|]. by rewrite Ha. Qed.

Lemma abs_ext h h' : peers h' = peers h ->
  (forall key q, peers h !! key = Some q -> rooms_of h' q = rooms_of h q) -> abs h' = abs h.
Proof.
  intros Hp Hr. apply map_eq. intros key. unfold abs. rewrite !lookup_fmap, Hp.
  destruct (peers h !! key) as [q|] eqn:Hk; [|done]. simpl. by rewrite (Hr key q).
Qed.

Lemma abs_view h h' : view_eq h h' -> abs h' = abs h.
Proof.
  intros (Hp & _ & _ & _ & Hv & _). apply abs_ext; [done|]. intros key q _. unfold rooms_of. by rewrite Hv.
Qed.

Lemma sim_view h h' : view_eq h h' -> sim h h'.
Proof. intros H. apply sim_same; [apply H|by apply abs_view]. Qed.

Lemma ok_view h h' : view_eq h h' -> ok h h'.
Proof.
  intros H Hi. split; [by rewrite <- H|]. split; [intros q; by rewrite <- H|].
  split; [intros q; by rewrite <- H|by apply sim_view].
Qed.

Lemma hv_upd pid f h q : hv (upd_peer pid f h) q =
  if decide (q = pid) then (fun p => view (f p)) <$> heap h !! pid else hv h q.
Proof.
  unfold hv, upd_peer, set_heap. simpl. destruct (decide (q = pid)) as [->|Hne].
  - rewrite lookup_alter_eq. by destruct (heap h !! pid).
  - by rewrite lookup_alter_ne.
Qed.

Lemma hv_set_rooms x h q : hv (set_rooms x h) q = hv h q.
Proof. done. Qed.

(** Updates of fields the indexes do not depend on. *)
Lemma view_upd_at pid f h : (forall p, heap h !! pid = Some p -> view (f p) = view p) ->
  view_eq h (upd_peer pid f h).
Proof.
  intros Hf. repeat split; try done. intros q. rewrite hv_upd. case_decide; [|done]. subst.
  unfold hv. destruct (heap h !! pid); simpl; [|done]. by rewrite Hf.
Qed.

Lemma view_upd pid f h : (forall p, view (f p) = view p) -> view_eq h (upd_peer pid f h).
Proof. intros Hf. by apply view_upd_at. Qed.

Lemma view_event e h : view_eq h (event e h). Proof. by repeat split. Qed.
Lemma view_draw h : view_eq h (draw h). Proof. by repeat split. Qed.
Lemma view_log l h : view_eq h (log_send l h). Proof. by repeat split. Qed.
Lemma view_links x h : view_eq h (set_links x h). Proof. by repeat split. Qed.
Lemma view_env a c h : view_eq h (set_env a (link_identity h) c h). Proof. by repeat split. Qed.
End inv.

Create HintDb hubview.
#[export] Hint Resolve view_event view_draw view_log view_links view_env : hubview.

(** ** Sending leaves the indexes alone *)

Section sends.
Context `{C : Cbor} {PS : Type}.
Context (rand_read : nat -> option bytes) (send_ok : nat -> bool).
Implicit Types h : Hub PS.

Lemma view_sendRaw pid raw h : view_eq h (sendRaw send_ok pid raw h).1.
Proof. unfold sendRaw. repeat case_match; simpl; auto with hubview; reflexivity. Qed.

Lemma view_sendEnvelope pid env h : view_eq h (sendEnvelope send_ok pid env h).1.
Proof. unfold sendEnvelope. case_match; [apply view_sendRaw|reflexivity]. Qed.

Lemma view_marshalType s t r b n h : view_eq h (marshalType rand_read s t r b n h).1.
Proof. unfold marshalType. repeat case_match; simpl; auto with hubview; reflexivity. Qed.

Lemma view_sendType pid t r b n h : view_eq h (sendType rand_read send_ok pid t r b n h).1.
Proof.
  unfold sendType. pose proof (view_marshalType (h_sender h) t r b n h) as H.
  destruct (marshalType _ _ _ _ _ _ _) as [h' [raw|e]]; cbn [fst] in *; [|done].
  etransitivity; [exact H|apply view_sendRaw].
Qed.

Lemma view_sendRawAll pids raw h : view_eq h (sendRawAll send_ok pids raw h).
Proof.
  unfold sendRawAll. revert h. induction pids as [|pid pids IH]; intros h; simpl; [reflexivity|].
  etransitivity; [apply view_sendRaw|apply IH].
Qed.

Lemma view_replyError pid msg h : view_eq h (replyError rand_read send_ok pid msg h).
Proof. apply view_sendType. Qed.

Lemma view_broadcast t r b n l h : view_eq h (broadcast rand_read send_ok t r b n l h).
Proof.
  unfold broadcast. destruct l; [reflexivity|].
  pose proof (view_marshalType (h_sender h) t r b n h) as H.
  destruct (marshalType _ _ _ _ _ _ _) as [h' [raw|e]]; cbn [fst] in *; [|done].
  etransitivity; [exact H|apply view_sendRawAll].
Qed.

Lemma view_notify b n h note : view_eq h (notify_parted rand_read send_ok b n h note).
Proof.
  unfold notify_parted. pose proof (view_marshalType (h_sender h) TypeParted note.1 b n h) as H.
  destruct (marshalType _ _ _ _ _ _ _) as [h' [raw|e]]; cbn [fst] in *; [|done].
  etransitivity; [exact H|apply view_sendRawAll].
Qed.

Lemma view_notify_all b n notes h :
  view_eq h (foldl (notify_parted rand_read send_ok b n) h notes).
Proof.
  revert h. induction notes as [|x notes IH]; intros h; simpl; [reflexivity|].
  etransitivity; [apply view_notify|apply IH].
Qed.

Lemma view_takeToken pid h : view_eq h (takeToken pid h).1.
Proof.
  unfold takeToken. destruct (heap h !! pid) as [p|]; [|reflexivity].
  destruct (take_token _ _ _ _) as [[ok tok] last]. simpl. by apply view_upd.
Qed.
End sends.

#[export] Hint Resolve view_sendRaw view_sendEnvelope view_marshalType view_sendType view_sendRawAll
  view_replyError view_broadcast view_notify view_notify_all view_takeToken : hubview.

(** ** Changes of the indexes *)

Section changes.
Context {PS : Type}.
Implicit Types h : Hub PS.

Lemma live_registered h pid : hub_inv h -> live h pid ->
  exists v, hv h pid = Some v /\ v_closed v = false /\ len (v_hash v) = IdentityLength
    /\ v_reg v = true /\ peers h !! v_hash v = Some pid.
Proof.
  intros Hi (v & Hv & Hc & Hl). exists v. repeat split; try done.
  - destruct (v_reg v) eqn:E; [done|]. apply (inv_reg h Hi pid) in E; [|done].
    by rewrite E in Hl.
  - apply (inv_live h Hi); try done. intros E. by rewrite E in Hl.
Qed.

Lemma peerKey_id hash : len hash = IdentityLength -> peerKey hash = hash.
Proof. intros H. unfold peerKey. by rewrite H. Qed.

Lemma hv_peer_hash h pid v : hv h pid = Some v -> peer_hash h pid = v_hash v.
Proof. unfold hv, peer_hash. destruct (heap h !! pid); [|done]. by intros [= <-]. Qed.

Lemma hv_in_room h pid v room : hv h pid = Some v ->
  in_room h pid room = bool_decide (room ∈ v_rooms v).
Proof. unfold hv, in_room. destruct (heap h !! pid); [|done]. by intros [= <-]. Qed.

Lemma hv_getNick h pid v : hv h pid = Some v -> getNick pid h = v_nick v.
Proof. unfold hv, getNick. destruct (heap h !! pid); [|done]. by intros [= <-]. Qed.

(** One open session changes its rooms or its nickname, and the tables with
    it. *)
Section one_session.
Context (h h' : Hub PS) (pid : nat) (v : pview) (rs' : gset bytes) (nk' : bytes).
Hypothesis Hi : hub_inv h.
Hypothesis Hl : live h pid.
Hypothesis Hv : hv h pid = Some v.
Hypothesis Hp : peers h' = peers h.
Hypothesis Hd : link_identity h' = link_identity h.
Hypothesis Hhv : forall q, hv h' q = if decide (q = pid)
  then Some (mkView (v_hash v) rs' nk' (v_closed v) (v_reg v) (v_pend v)) else hv h q.

Lemma one_session_back q w : hv h' q = Some w -> exists w0, hv h q = Some w0
  /\ v_hash w = v_hash w0 /\ v_closed w = v_closed w0 /\ v_reg w = v_reg w0 /\ v_pend w = v_pend w0
  /\ (q <> pid -> w = w0).
Proof.
  rewrite Hhv. case_decide; [|naive_solver]. subst. intros [= <-]. exists v. naive_solver.
Qed.

Lemma one_session_hash : peers h !! v_hash v = Some pid /\ v_closed v = false
  /\ len (v_hash v) = IdentityLength.
Proof.
  destruct (live_registered h pid Hi Hl) as (w & Hw & ? & ? & _ & ?). assert (w = v) as -> by congruence. done.
Qed.

Lemma one_session_live q : live h q -> live h' q.
Proof.
  intros (w & Hw & ? & ?). unfold live. rewrite Hhv. case_decide; [|by exists w].
  eexists. split; [done|]. simpl. split; congruence.
Qed.

Lemma one_session_settled q : settled h q -> settled h' q.
Proof.
  intros [Hq|(w & Hw & Hcw & Hrw)]; [left; by apply one_session_live|right].
  exists w. rewrite Hhv. case_decide; [|done]. subst. destruct one_session_hash as (_ & ? & _). congruence.
Qed.

Lemma one_session_ident q : (link_at h q -> link_at h' q) /\ (pend_at h q -> pend_at h' q).
Proof.
  split; intros H w Hw Hc; destruct (one_session_back _ _ Hw) as (w0 & Hw0 & E1 & E2 & _ & E4 & _).
  - unfold shown. rewrite Hd, E1. apply (H w0); congruence.
  - rewrite E1, E4. apply (H w0); congruence.
Qed.

Hypothesis Hrooms : no_empty (rooms h').
Hypothesis Hnicks : no_empty (nickIndex h').
Hypothesis Hnames : forall room, room ∈ rs' -> room <> [] /\ NormalizeRoom room = room.
Hypothesis Hm : forall room key, key ∈ members (rooms h') room <->
  if decide (key = v_hash v) then room ∈ rs' else key ∈ members (rooms h) room.
Hypothesis Hn : forall key n, key <> v_hash v ->
  key ∈ members (nickIndex h) n -> key ∈ members (nickIndex h') n.
Hypothesis Hn' : nickKey nk' <> [] -> v_hash v ∈ members (nickIndex h') (nickKey nk').

Lemma one_session_member room key : key ∈ members (rooms h') room <->
  exists q w, peers h' !! key = Some q /\ hv h' q = Some w /\ room ∈ v_rooms w.
Proof.
  destruct one_session_hash as (Hpk & _ & _). rewrite Hm, Hp. case_decide as Hk.
  - subst. split.
    + intros Hr. exists pid. eexists. rewrite Hhv, decide_True by done. done.
    + intros (q & w & Hq & Hw & Hr). assert (q = pid) as -> by congruence.
      rewrite Hhv, decide_True in Hw by done. by simplify_eq.
  - rewrite (inv_member h Hi). split; intros (q & w & Hq & Hw & Hr); exists q, w; (split; [done|]);
      (split; [|done]); rewrite Hhv in *;
      (case_decide; [subst; destruct (inv_peers h Hi _ _ Hq) as (w' & ? & ? & _); congruence|done]).
Qed.

Lemma one_session_nick key q w : peers h' !! key = Some q -> hv h' q = Some w ->
  nickKey (v_nick w) <> [] -> key ∈ members (nickIndex h') (nickKey (v_nick w)).
Proof.
  rewrite Hp, Hhv. intros Hq Hw Hk. destruct (inv_peers h Hi _ _ Hq) as (w0 & Hw0 & <- & _).
  destruct one_session_hash as (Hpk & _ & _). case_decide; simplify_eq/=; [by apply Hn'|].
  apply Hn; [congruence|]. by eapply (inv_nick h Hi).
Qed.

Lemma one_session_inv : hub_inv h'.
Proof.
  destruct one_session_hash as (Hpk & Hc & Hlen). split; try done.
  - rewrite Hp. intros key q Hq. destruct (inv_peers h Hi _ _ Hq) as (w & Hw & E1 & E2 & E3).
    rewrite Hhv. case_decide; [|by exists w]. subst. eexists. split; [done|]. by simplify_eq/=.
  - rewrite Hp. intros q w Hw Hcw Hhw. destruct (one_session_back _ _ Hw) as (w0 & Hw0 & E1 & E2 & _).
    rewrite E1. apply (inv_live h Hi); congruence.
  - intros q w Hw Hrw. destruct (one_session_back _ _ Hw) as (w0 & Hw0 & E1 & _ & E3 & _).
    rewrite E1. apply (inv_reg h Hi q); congruence.
  - intros q w Hw Hh. destruct (decide (q = pid)) as [->|Hq].
    + rewrite Hhv, decide_True in Hw by done. simplify_eq. simpl in Hh. by rewrite Hh in Hlen.
    + destruct (one_session_back _ _ Hw) as (w0 & Hw0 & _ & _ & _ & _ & E). rewrite (E Hq) in *.
      by apply (inv_unreg h Hi q).
  - apply one_session_member.
  - intros q w room. rewrite Hhv. case_decide; [|apply (inv_names h Hi)]. intros [= <-]. apply Hnames.
  - apply one_session_nick.
Qed.

Lemma one_session_abs : abs h' = <[v_hash v := rs']> (abs h).
Proof.
  destruct one_session_hash as (Hpk & _ & _). apply map_eq. intros key. unfold abs.
  rewrite lookup_fmap, Hp. destruct (decide (key = v_hash v)) as [->|Hk].
  - rewrite lookup_insert_eq, Hpk. simpl. unfold rooms_of. by rewrite Hhv, decide_True.
  - rewrite lookup_insert_ne, lookup_fmap by done. destruct (peers h !! key) as [q|] eqn:Hq; [|done].
    simpl. unfold rooms_of. rewrite Hhv, decide_False; [done|]. intros ->.
    destruct (inv_peers h Hi _ _ Hq) as (w & ? & ? & _). congruence.
Qed.

Hypothesis Hcfg : cfg h' = cfg h.
Hypothesis Hmove : rtc (member_step (CfgLimits (cfg h))) (abs h) (<[v_hash v := rs']> (abs h)).

Lemma one_session_ok : ok h h' /\ forall q, live h q -> live h' q.
Proof.
  split; [|apply one_session_live]. intros _. split; [apply one_session_inv|].
  split; [apply one_session_settled|]. split; [apply one_session_ident|].
  split; [done|]. by rewrite one_session_abs.
Qed.
End one_session.

Lemma live_member h pid v : hub_inv h -> live h pid -> hv h pid = Some v ->
  forall r, v_hash v ∈ members (rooms h) r <-> r ∈ v_rooms v.
Proof.
  intros Hi Hl Hv r. destruct (live_registered h pid Hi Hl) as (v' & ? & _ & _ & _ & ?).
  assert (v' = v) as -> by congruence. rewrite (inv_member h Hi). split.
  - intros (q & w & Hq & Hw & Hx). congruence.
  - intros Hr. by exists pid, v.
Qed.

Lemma live_nick h pid v : hub_inv h -> live h pid -> hv h pid = Some v ->
  nickKey (v_nick v) <> [] -> v_hash v ∈ members (nickIndex h) (nickKey (v_nick v)).
Proof.
  intros Hi Hl Hv. destruct (live_registered h pid Hi Hl) as (v' & ? & _ & _ & _ & ?).
  assert (v' = v) as -> by congruence. by apply (inv_nick h Hi _ pid).
Qed.

Lemma live_abs h pid v : hub_inv h -> live h pid -> hv h pid = Some v ->
  abs h !! v_hash v = Some (v_rooms v).
Proof.
  intros Hi Hl Hv. destruct (live_registered h pid Hi Hl) as (v' & ? & _ & _ & _ & Hk).
  assert (v' = v) as -> by congruence. unfold abs. rewrite lookup_fmap, Hk. simpl.
  unfold rooms_of. by rewrite Hv.
Qed.

Lemma live_abs_same h pid v : hub_inv h -> live h pid -> hv h pid = Some v ->
  <[v_hash v := v_rooms v]> (abs h) = abs h.
Proof. intros Hi Hl Hv. apply insert_id. by apply (live_abs h pid). Qed.

(** Joining a room. *)
Lemma enter_room_ok h h' pid room : hub_inv h -> live h pid ->
  room <> [] -> NormalizeRoom room = room -> len room <= MaxRoomNameBytes (CfgLimits (cfg h)) -> enter_room pid room h = Some h' ->
  ok h h' /\ forall q, live h q -> live h' q.
Proof.
  intros Hi Hl Hne Hno Hlen'. destruct (live_registered h pid Hi Hl) as (v & Hv & Hc & Hlen & _ & _).
  unfold enter_room. rewrite (hv_in_room h pid v room Hv), (hv_peer_hash h pid v Hv).
  rewrite peerKey_id by done. case_bool_decide as Hin; [by intros [= <-]|].
  destruct (MaxRoomsPerSession (CfgLimits (cfg h)) <=? room_count h pid) eqn:Hmax; [done|]. intros [= <-].
  apply (one_session_ok h _ pid v ({[room]} ∪ v_rooms v) (v_nick v)); try done; simpl.
  - intros q. rewrite hv_set_rooms, hv_upd. case_decide; [|done]. unfold hv in Hv.
    destruct (heap h !! pid); [|done]. by simplify_eq/=.
  - apply no_empty_add, (inv_rooms h Hi).
  - apply (inv_nonempty_nicks h Hi).
  - intros r. rewrite elem_of_union, elem_of_singleton. intros [->|Hr]; [done|].
    by apply (inv_names h Hi pid v).
  - intros r key. rewrite members_add. pose proof (live_member h pid v Hi Hl Hv) as Hmem.
    destruct (decide (r = room)) as [->|], (decide (key = v_hash v)) as [->|];
      rewrite ?elem_of_union, ?elem_of_singleton, ?Hmem; set_solver.
  - apply (live_nick h pid v Hi Hl Hv).
  - apply rtc_once, m_join; try done; [by apply (live_abs h pid)|].
    bool_hyps. unfold room_count in Hmax. unfold hv in Hv. destruct (heap h !! pid); [|done]. by simplify_eq/=.
Qed.

(** Leaving a room. *)
Lemma leave_room_ok h pid room : hub_inv h -> live h pid -> in_room h pid room = true ->
  ok h (leave_room pid room h) /\ forall q, live h q -> live (leave_room pid room h) q.
Proof.
  intros Hi Hl. destruct (live_registered h pid Hi Hl) as (v & Hv & Hc & Hlen & _ & _).
  pose proof (live_member h pid v Hi Hl Hv) as Hmem.
  rewrite (hv_in_room h pid v room Hv), bool_decide_eq_true. intros Hin. unfold leave_room. rewrite (hv_peer_hash h pid v Hv), peerKey_id by done.
  apply (one_session_ok h _ pid v (v_rooms v ∖ {[room]}) (v_nick v)); try done; simpl.
  - intros q. rewrite hv_set_rooms, hv_upd. case_decide; [|done]. unfold hv in Hv.
    destruct (heap h !! pid); [|done]. by simplify_eq/=.
  - apply no_empty_remove, (inv_rooms h Hi).
  - apply (inv_nonempty_nicks h Hi).
  - intros r. rewrite elem_of_difference. intros [Hr _]. by apply (inv_names h Hi pid v).
  - intros r key. rewrite members_remove.
    destruct (decide (r = room)) as [->|], (decide (key = v_hash v)) as [->|];
      rewrite ?elem_of_difference, ?elem_of_singleton, ?Hmem; set_solver.
  - apply (live_nick h pid v Hi Hl Hv).
  - apply rtc_once, m_part; [by apply (live_abs h pid)|done].
Qed.
End changes.

(** ** Nicknames and closing *)

Section closing.
Context {PS : Type}.
Implicit Types h : Hub PS.

Lemma members_unindex id nick h n key : key <> id ->
  key ∈ members (nickIndex h) n -> key ∈ members (nickIndex (unindexNickLocked id nick h)) n.
Proof.
  intros Hk Hm. unfold unindexNickLocked. case_bool_decide; [done|]. simpl.
  rewrite members_remove. case_decide; subst; set_solver.
Qed.

Lemma members_reindex id old new h n key : key <> id ->
  key ∈ members (nickIndex h) n -> key ∈ members (nickIndex (reindexNick id old new h)) n.
Proof.
  intros Hk Hm. apply (members_unindex id old) in Hm; [|done]. unfold reindexNick.
  case_bool_decide; [done|]. simpl. rewrite members_add. case_decide; subst; set_solver.
Qed.

Lemma members_reindexed id old new h : nickKey new <> [] ->
  id ∈ members (nickIndex (reindexNick id old new h)) (nickKey new).
Proof.
  intros Hk. unfold reindexNick. rewrite bool_decide_false by done. simpl.
  rewrite members_add, decide_True by done. set_solver.
Qed.

Lemma no_empty_unindex id nick h : no_empty (nickIndex h) -> no_empty (nickIndex (unindexNickLocked id nick h)).
Proof. intros H. unfold unindexNickLocked. case_bool_decide; [done|]. simpl. by apply no_empty_remove. Qed.

Lemma no_empty_reindex id old new h :
  no_empty (nickIndex h) -> no_empty (nickIndex (reindexNick id old new h)).
Proof.
  intros H. unfold reindexNick. apply (no_empty_unindex id old) in H. case_bool_decide; [done|].
  simpl. by apply no_empty_add.
Qed.

Lemma reindex_frame id old new h : peers (reindexNick id old new h) = peers h
  /\ rooms (reindexNick id old new h) = rooms h /\ heap (reindexNick id old new h) = heap h
  /\ link_identity (reindexNick id old new h) = link_identity h.
Proof. unfold reindexNick, unindexNickLocked. by repeat case_bool_decide. Qed.

Lemma unindex_frame id old h : peers (unindexNickLocked id old h) = peers h
  /\ rooms (unindexNickLocked id old h) = rooms h /\ heap (unindexNickLocked id old h) = heap h
  /\ link_identity (unindexNickLocked id old h) = link_identity h.
Proof. unfold unindexNickLocked. by repeat case_bool_decide. Qed.

Lemma applyInboundNick_ok h pid nick : hub_inv h -> live h pid ->
  ok h (applyInboundNick pid nick h).1 /\ forall q, live h q -> live (applyInboundNick pid nick h).1 q.
Proof.
  intros Hi Hl. destruct (live_registered h pid Hi Hl) as (v & Hv & Hc & Hlen & _ & _).
  assert (Hrefl : ok h h /\ forall q, live h q -> live h q) by (split; [reflexivity|done]).
  unfold applyInboundNick. repeat case_match; cbn [fst]; try exact Hrefl.
  all: assert (Hset : hv (setNick pid (SanitizeNick nick) h) pid
      = Some (mkView (v_hash v) (v_rooms v) (SanitizeNick (SanitizeNick nick))
               (v_closed v) (v_reg v) (v_pend v))) by
    (unfold setNick; rewrite hv_upd, decide_True by done; unfold hv in Hv;
     destruct (heap h !! pid); [|done]; by simplify_eq/=).
  all: rewrite (hv_peer_hash _ _ _ Hset) in *; cbn [v_hash] in *.
  2: { bool_hyps. lia. }
  rewrite peerKey_id by done.
  set (old := getNick pid h). set (h1 := setNick pid (SanitizeNick nick) h).
  destruct (reindex_frame (v_hash v) old (SanitizeNick nick) h1) as (E1 & E2 & E3 & E4).
  apply (one_session_ok h _ pid v (v_rooms v) (SanitizeNick (SanitizeNick nick))); try done.
  - intros q. transitivity (hv h1 q); [unfold hv; by rewrite E3|].
    destruct (decide (q = pid)) as [->|Hq]; [done|]. unfold h1, setNick. by rewrite hv_upd, decide_False.
  - rewrite E2. apply (inv_rooms h Hi).
  - apply no_empty_reindex, (inv_nonempty_nicks h Hi).
  - intros room. by apply (inv_names h Hi pid v).
  - intros room key. rewrite E2. destruct (decide (key = v_hash v)) as [->|]; [|done].
    by apply (live_member h pid v).
  - intros key n Hk. by apply (members_reindex _ _ _ h1).
  - rewrite nickKey_sanitize_twice. apply members_reindexed.
  - unfold reindexNick, unindexNickLocked. by repeat case_bool_decide.
  - by rewrite (live_abs_same h pid).
Qed.

(** What [drop_room] does to the room table. *)
Lemma drop_rooms_frame key l h notes :
  exists notes', foldl (drop_room key) (h, notes) l =
    (set_rooms (foldl (fun acc room => remove_member room key acc) (rooms h) l) h, notes').
Proof.
  revert h notes. induction l as [|room l IH]; intros h notes; cbn [foldl].
  - exists notes. f_equal. by destruct h.
  - cbn [drop_room]. destruct (IH (set_rooms (remove_member room key (rooms h)) h)
      (notes ++ [(room, roomPeersLocked room key h)])) as [notes' ->]. by exists notes'.
Qed.

(** The hub after a session is closed, up to what is sent. *)
Definition dropped (pid : nat) (p : hubPeer) h : Hub PS :=
  set_rooms (foldl (fun acc room => remove_member room (peerHash p) acc) (rooms h) (elements (p_rooms p)))
    (upd_peer pid (fun p => set_prooms ∅ (set_closed p))
      (unindexNickLocked (peerHash p) (sess_nick p) (set_peers (delete (peerHash p) (peers h)) h))).

(** Changes of the peer table: a session takes a key over or gives it up, and
    the keys that keep their session keep their rooms and nickname. *)
Definition newcomer h h' (key : bytes) (q : nat) : Prop :=
  peers h' !! key = Some q /\ peers h !! key <> Some q /\ exists v, hv h' q = Some v /\ v_hash v = key
  /\ len key = IdentityLength /\ v_closed v = false /\ v_reg v = true /\ v_rooms v = ∅ /\ v_nick v = [].

Definition blank (v : pview) : Prop :=
  v_hash v = [] /\ v_reg v = false /\ v_rooms v = ∅ /\ v_nick v = [].

Definition kept h h' (key : bytes) : Prop := exists q, peers h !! key = Some q /\ peers h' !! key = Some q.

Record transfer h h' : Prop := {
  tr_peers : forall key q, peers h' !! key = Some q ->
    peers h !! key = Some q /\ hv h' q = hv h q \/ newcomer h h' key q;
  tr_sess : forall q v', hv h' q = Some v' ->
    (v_closed v' = true /\ exists v, hv h q = Some v /\ v_hash v' = v_hash v /\ v_reg v' = v_reg v
       /\ v_rooms v' ⊆ v_rooms v /\ v_nick v' = v_nick v)
    \/ (hv h q = Some v' /\ (v_closed v' = false -> v_hash v' <> [] -> peers h' !! v_hash v' = Some q))
    \/ newcomer h h' (v_hash v') q
    \/ blank v';
  tr_rooms : no_empty (rooms h');
  tr_nicks : no_empty (nickIndex h');
  tr_member : forall room key, key ∈ members (rooms h') room <->
    key ∈ members (rooms h) room /\ kept h h' key;
  tr_nick : forall n key, kept h h' key -> key ∈ members (nickIndex h) n -> key ∈ members (nickIndex h') n;
}.

Lemma transfer_member h h' room key : hub_inv h -> transfer h h' ->
  key ∈ members (rooms h') room <->
  exists q w, peers h' !! key = Some q /\ hv h' q = Some w /\ room ∈ v_rooms w.
Proof.
  intros Hi Ht. rewrite (tr_member _ _ Ht), (inv_member h Hi). split.
  - intros [(q & w & Hq & Hw & Hr) (q' & Hq1 & Hq2)]. assert (q' = q) as -> by congruence.
    exists q, w. split; [done|]. split; [|done].
    destruct (tr_peers _ _ Ht _ _ Hq2) as [[_ ->]|(_ & ? & _)]; [done|congruence].
  - intros (q & w & Hq & Hw & Hr). destruct (tr_peers _ _ Ht _ _ Hq) as [[Hq0 E]|Hnew].
    + split; [exists q, w; by rewrite <- E|by exists q].
    + destruct Hnew as (_ & _ & v & Hv & _ & _ & _ & _ & Hrooms & _). simplify_eq. set_solver.
Qed.

Lemma transfer_inv h h' : hub_inv h -> transfer h h' -> hub_inv h'.
Proof.
  intros Hi Ht. split; [| | | |apply (tr_rooms _ _ Ht)|by intros; apply (transfer_member h)| | |apply (tr_nicks _ _ Ht)].
  - intros key q Hq. destruct (tr_peers _ _ Ht _ _ Hq) as [[Hq0 E]|Hnew].
    + rewrite E. by apply (inv_peers h Hi).
    + destruct Hnew as (_ & _ & v & Hv & ? & ? & ? & _). by exists v.
  - intros q v' Hv' Hc Hne. destruct (tr_sess _ _ Ht _ _ Hv') as [[? _]|[[_ H]|[H|H]]].
    + congruence.
    + by apply H.
    + by destruct H.
    + by destruct H.
  - intros q v' Hv' Hr. destruct (tr_sess _ _ Ht _ _ Hv') as [(_ & v & Hv & E & Er & _)|[[Hv _]|[H|H]]].
    + rewrite E. apply (inv_reg h Hi q v); congruence.
    + by apply (inv_reg h Hi q v').
    + destruct H as (_ & _ & v & ? & _ & _ & _ & ? & _). congruence.
    + by destruct H.
  - intros q v' Hv' Hh. destruct (tr_sess _ _ Ht _ _ Hv') as [(_ & v & Hv & E & Er & Es & En)|[[Hv _]|[H|H]]].
    + rewrite E in Hh. destruct (inv_unreg h Hi q v Hv Hh) as (E1 & E2 & E3).
      rewrite Er, En. split; [done|]. split; [|done]. rewrite E2 in Es. set_solver.
    + by apply (inv_unreg h Hi q).
    + destruct H as (_ & _ & v & _ & E & Hl & _). rewrite Hh in Hl. done.
    + by destruct H as (_ & ? & ? & ?).
  - intros q v' room Hv' Hr. destruct (tr_sess _ _ Ht _ _ Hv') as [(_ & v & Hv & _ & _ & Es & _)|[[Hv _]|[H|H]]].
    + by apply (inv_names h Hi q v room), Es.
    + by apply (inv_names h Hi q v' room).
    + destruct H as (_ & _ & v & Hv & _ & _ & _ & _ & E & _). simplify_eq. set_solver.
    + destruct H as (_ & _ & E & _). set_solver.
  - intros key q v' Hq Hv' Hn. destruct (tr_peers _ _ Ht _ _ Hq) as [[Hq0 E]|Hnew].
    + apply (tr_nick _ _ Ht); [by exists q|]. apply (inv_nick h Hi key q); congruence.
    + destruct Hnew as (_ & _ & v & Hv & _ & _ & _ & _ & _ & E). simplify_eq. by rewrite E in Hn.
Qed.

(** Marking a session closed that no table points to. *)
Definition closed_view (v : pview) : pview :=
  mkView (v_hash v) (v_rooms v) (v_nick v) true (v_reg v) (v_pend v).

Lemma hv_mark h pid q : hv (upd_peer pid set_closed h) q =
  if decide (q = pid) then closed_view <$> hv h pid else hv h q.
Proof.
  rewrite hv_upd. destruct (decide (q = pid)); [|done]. unfold hv. by destruct (heap h !! pid).
Qed.

Lemma mark_transfer h pid : hub_inv h -> (forall key, peers h !! key <> Some pid) ->
  transfer h (upd_peer pid set_closed h).
Proof.
  intros Hi Hnone. split; [| |apply (inv_rooms h Hi)|apply (inv_nonempty_nicks h Hi)| |]; simpl.
  - intros key q Hq. left. rewrite hv_mark, decide_False by (intros ->; by eapply Hnone). done.
  - intros q v'. rewrite hv_mark. destruct (decide (q = pid)) as [->|Hq].
    + destruct (hv h pid) as [v|]; [|done]. intros [= <-]. left. split; [done|]. by exists v.
    + intros Hv'. right. left. split; [done|]. by apply (inv_live h Hi).
  - intros room key. split; [|tauto]. intros Hm. split; [done|].
    apply (inv_member h Hi) in Hm as (q & _ & Hq & _). by exists q.
  - done.
Qed.

(** Dropping a connected session. *)
Lemma hv_dropped h pid p q : heap h !! pid = Some p -> hv (dropped pid p h) q =
  if decide (q = pid) then Some (mkView (peerHash p) ∅ (sess_nick p) true (registered p) (present (pendingHello p)))
  else hv h q.
Proof.
  intros Hp. unfold dropped, hv. cbn [heap set_rooms upd_peer set_heap].
  destruct (unindex_frame (peerHash p) (sess_nick p) (set_peers (delete (peerHash p) (peers h)) h)) as (_&_&->&_).
  cbn [heap set_peers]. destruct (decide (q = pid)) as [->|Hq].
  - by rewrite lookup_alter_eq, Hp.
  - by rewrite lookup_alter_ne.
Qed.

Lemma dropped_transfer h pid p : hub_inv h -> heap h !! pid = Some p ->
  peers h !! peerHash p = Some pid -> transfer h (dropped pid p h).
Proof.
  intros Hi Hp Hpk. set (h1 := set_peers (delete (peerHash p) (peers h)) h).
  destruct (unindex_frame (peerHash p) (sess_nick p) h1) as (U1 & U2 & _ & _).
  assert (Hpe : peers (dropped pid p h) = delete (peerHash p) (peers h)) by exact U1.
  assert (Hv : hv h pid = Some (view p)) by (unfold hv; by rewrite Hp).
  destruct (inv_peers h Hi _ _ Hpk) as (v & Hv' & Hh & Hlen & Hc).
  assert (Hl : live h pid) by (exists v; split; [done|]; split; [done|]; by rewrite Hh).
  assert (Hkept : forall key, kept h (dropped pid p h) key <-> key <> peerHash p /\ is_Some (peers h !! key)).
  { intros key. unfold kept. rewrite Hpe. split.
    - intros (q & Hq & [Hne _]%lookup_delete_Some). split; [congruence|by exists q].
    - intros [Hne [q Hq]]. exists q. by rewrite lookup_delete_ne by congruence. }
  split.
  - rewrite Hpe. intros key q [Hk Hq]%lookup_delete_Some. left. split; [done|].
    rewrite (hv_dropped h pid p q Hp), decide_False; [done|]. intros ->.
    destruct (inv_peers h Hi _ _ Hq) as (w & Hw & ? & _). by simplify_eq/=.
  - intros q v'. rewrite (hv_dropped h pid p q Hp). destruct (decide (q = pid)) as [->|Hq].
    + intros [= <-]. left. split; [done|]. exists (view p). split; [done|]. by repeat split.
    + intros Hv1. right. left. split; [done|]. intros Hc1 Hne. rewrite Hpe, lookup_delete_ne.
      * by apply (inv_live h Hi).
      * intros E. pose proof (inv_live h Hi _ _ Hv1 Hc1 Hne). congruence.
  - unfold dropped. simpl. apply no_empty_remove_all, (inv_rooms h Hi).
  - unfold dropped. simpl. apply no_empty_unindex, (inv_nonempty_nicks h Hi).
  - intros room key. rewrite Hkept. unfold dropped. simpl. rewrite members_remove_all.
    pose proof (live_member h pid (view p) Hi Hl Hv room) as Hm. cbn [v_hash v_rooms view] in Hm.
    assert (Hs : key ∈ members (rooms h) room -> is_Some (peers h !! key))
      by (intros (q & _ & Hq & _)%(inv_member h Hi); by exists q).
    destruct (decide (room ∈ elements (p_rooms p))) as [Hr|Hr]; rewrite elem_of_elements in Hr;
      [rewrite elem_of_difference, elem_of_singleton; naive_solver|].
    split; [|tauto]. intros Hkm. split; [done|]. split; [|auto]. intros ->. tauto.
  - intros n key [Hk _]%Hkept Hm. unfold dropped. simpl. by apply members_unindex.
Qed.

(** Closing, seen by the abstract hub. *)
Lemma sim_mark h pid : sim h (upd_peer pid set_closed h).
Proof.
  apply sim_same; [done|]. apply abs_ext; [done|]. intros key q _. unfold rooms_of. rewrite hv_mark.
  destruct (decide (q = pid)) as [->|]; [|done]. by destruct (hv h pid).
Qed.

Lemma abs_dropped h pid p : hub_inv h -> heap h !! pid = Some p -> peers h !! peerHash p = Some pid ->
  abs (dropped pid p h) = delete (peerHash p) (abs h).
Proof.
  intros Hi Hp Hpk. set (h1 := set_peers (delete (peerHash p) (peers h)) h).
  destruct (unindex_frame (peerHash p) (sess_nick p) h1) as (U1 & _).
  apply map_eq. intros key. unfold abs at 1. rewrite lookup_fmap.
  change (peers (dropped pid p h)) with (peers (unindexNickLocked (peerHash p) (sess_nick p) h1)).
  rewrite U1. simpl. destruct (decide (key = peerHash p)) as [->|Hk]; [by rewrite !lookup_delete_eq|].
  rewrite !lookup_delete_ne by done. unfold abs. rewrite lookup_fmap.
  destruct (peers h !! key) as [q|] eqn:Hq; [|done]. simpl. unfold rooms_of.
  rewrite (hv_dropped h pid p q Hp), decide_False; [done|]. intros ->.
  destruct (inv_peers h Hi _ _ Hq) as (w & Hw & ? & _). unfold hv in Hw. rewrite Hp in Hw. by simplify_eq/=.
Qed.

Lemma sim_dropped h pid p : hub_inv h -> heap h !! pid = Some p -> peers h !! peerHash p = Some pid ->
  sim h (dropped pid p h).
Proof.
  intros Hi Hp Hpk. split; [unfold dropped, unindexNickLocked; by case_bool_decide|].
  rewrite abs_dropped by done. apply rtc_once, m_drop. unfold abs. rewrite lookup_fmap, Hpk. by eexists.
Qed.

Context `{C : Cbor} (rand_read : nat -> option bytes) (send_ok : nat -> bool).

Lemma close_session_open h pid p : hub_inv h -> heap h !! pid = Some p -> sess_closed p = false ->
  view_eq (if decide (peerHash p = []) then upd_peer pid set_closed h else dropped pid p h)
    (close_session rand_read send_ok pid h).
Proof.
  intros Hi Hp Hc. assert (Hv : hv h pid = Some (view p)) by (unfold hv; by rewrite Hp).
  unfold close_session. rewrite Hp, Hc. unfold dropPeerIf. cbn [heap set_links upd_peer set_heap].
  rewrite lookup_alter_eq, Hp. cbn [fmap option_fmap option_map peerHash set_closed sess_nick p_rooms].
  destruct (decide (peerHash p = [])) as [E|E].
  - rewrite E. simpl. etransitivity; [|apply view_links]. reflexivity.
  - pose proof (inv_live h Hi pid _ Hv Hc E) as Hpk. cbn [v_hash view] in Hpk.
    destruct (inv_peers h Hi _ _ Hpk) as (w & Hw & E1 & Hlen & _).
    replace (len (peerHash p) =? 0) with false by (symmetry; apply Z.eqb_neq; rewrite Hlen; done).
    rewrite peerKey_id by done. cbn [peers set_links upd_peer set_heap]. rewrite Hpk, Nat.eqb_refl.
    cbn [negb]. match goal with |- context [foldl (drop_room _) (?h0, _) _] => set (h1 := h0) end.
    destruct (drop_rooms_frame (peerHash p) (elements (p_rooms p)) h1 []) as [notes ->].
    etransitivity; [|apply view_event]. etransitivity; [|apply view_notify_all].
    destruct (unindex_frame (peerHash p) (sess_nick p) (set_peers (delete (peerHash p) (peers h)) h))
      as (U1 & U2 & U3 & U4).
    unfold h1, dropped, unindexNickLocked. case_bool_decide; (repeat split; try done);
      intros q; unfold hv; cbn [heap set_rooms set_nickIndex set_peers upd_peer set_heap set_links];
      (destruct (decide (q = pid)) as [->|Hq];
       [by rewrite !lookup_alter_eq, Hp|by rewrite !lookup_alter_ne by done]).
Qed.

Lemma close_session_ok h pid : ok h (close_session rand_read send_ok pid h)
  /\ (hub_inv h -> forall q, q <> pid -> live h q -> live (close_session rand_read send_ok pid h) q).
Proof.
  destruct (heap h !! pid) as [p|] eqn:Hp; [|by unfold close_session; rewrite Hp].
  destruct (sess_closed p) eqn:Hc; [by unfold close_session; rewrite Hp, Hc|].
  assert (Hv : hv h pid = Some (view p)) by (unfold hv; by rewrite Hp).
  enough (Hgoal : hub_inv h -> let h' := close_session rand_read send_ok pid h in
    hub_inv h' /\ link_identity h' = link_identity h /\ (forall q, q <> pid -> hv h' q = hv h q) /\
    (exists v, hv h' pid = Some v /\ v_closed v = true /\ v_rooms v = ∅) /\ sim h h').
  { split.
    - intros Hi. destruct (Hgoal Hi) as (Hi' & Hd & Ho & (v & Hv' & Hcv & Hr) & Hsim). split; [done|]. split.
      { intros q Hq. destruct (decide (q = pid)) as [->|Hne]; [right; by exists v|].
        unfold settled, live, gone. by rewrite Ho. }
      split; [|done]. intros q. destruct (decide (q = pid)) as [->|Hne]; [split; intros _ w Hw; congruence|].
      unfold link_at, pend_at, shown. by rewrite Hd, Ho.
    - intros Hi q Hne. destruct (Hgoal Hi) as (_ & _ & Ho & _). unfold live. by rewrite Ho. }
  intros Hi h'. assert (Hve := close_session_open h pid p Hi Hp Hc). fold h' in Hve.
  assert (Hsv := sim_view _ _ Hve).
  destruct (decide (peerHash p = [])) as [E|E]; (split; [rewrite <- Hve|]);
    destruct Hve as (_ & _ & _ & Hd & Hhv & _).
  - apply (transfer_inv h); [done|]. apply mark_transfer; [done|]. intros key Hk.
    destruct (inv_peers h Hi _ _ Hk) as (w & ? & ? & ? & _). simplify_eq/=. by rewrite E in *.
  - split; [done|]. split; [intros q Hq; by rewrite Hhv, hv_mark, decide_False|].
    split; [|etransitivity; [|exact Hsv]; by apply sim_mark].
    rewrite Hhv, hv_mark, decide_True, Hv by done.
    eexists. split; [done|]. split; [done|]. apply (inv_unreg h Hi pid (view p) Hv E).
  - apply (transfer_inv h); [done|]. apply dropped_transfer; try done. by apply (inv_live h Hi pid (view p)).
  - destruct (unindex_frame (peerHash p) (sess_nick p) (set_peers (delete (peerHash p) (peers h)) h)) as (_&_&_&U).
    split; [exact (eq_trans Hd U)|].
    split; [intros q Hq; by rewrite Hhv, (hv_dropped h pid p q Hp), decide_False|].
    split; [rewrite Hhv, (hv_dropped h pid p pid Hp), decide_True by done; by eexists|].
    etransitivity; [|exact Hsv]. apply sim_dropped; try done. by apply (inv_live h Hi pid (view p)).
Qed.
End closing.
