(* ===== verification/RrcHubSafe.v ===== *)
(** * Every step of the RRC hub preserves its invariant

    The policy object is a client of the hub's public operations; the class
    [PolicyOk] says what the hub relies on: every hook keeps the invariant and
    leaves no session half closed, a peer that is admitted or whose join is
    allowed stays connected, and only a message the policy takes for itself may
    change the configuration.  Against that interface each handler, and with it
    each step, preserves [hub_inv] while no connected peer is one the policy
    would refuse ([unrefused]). *)

From stdpp Require Import base tactics list gmap sets strings.
From Stdlib Require Import ZArith Lia.
From S2P Require Import Prelude GoText HexHash Cbor RrcRoom RrcEnvelope RrcBodies GoFloat RrcHub RrcHubInv.

(** Like [ok], for what comes last in a handler: the table moves under the limits
    that were in force before, and the configuration may be another afterwards. *)
Definition late {PS} (h h' : Hub PS) : Prop := hub_inv h ->
  hub_inv h' /\ (forall q, settled h q -> settled h' q)
  /\ (forall q, (link_at h q -> link_at h' q) /\ (pend_at h q -> pend_at h' q)) /\ rtc (member_step (CfgLimits (cfg h))) (abs h) (abs h').

Class PolicyOk {PS : Type} (pol : HubPolicy PS) : Prop := {
  ok_OnLink pid h : ok h (OnLink pol pid h);
  ok_OnIdentified hash h : ok h (OnIdentified pol hash h).1;
  admitted_stays hash h : hub_inv h -> (OnIdentified pol hash h).2 = None ->
    forall pid, live h pid -> live (OnIdentified pol hash h).1 pid;
  ok_AfterWelcome hash h : ok h (AfterWelcome pol hash h);
  ok_AllowJoin hash room key h : ok h (AllowJoin pol hash room key h).1;
  allowed_stays hash room key h : hub_inv h -> (AllowJoin pol hash room key h).2 = None ->
    forall pid, live h pid -> live (AllowJoin pol hash room key h).1 pid;
  ok_AfterJoin hash room h : ok h (AfterJoin pol hash room h);
  ok_AfterPart hash room h : ok h (AfterPart pol hash room h);
  ok_AllowContent hash env h : ok h (AllowContent pol hash env h).1;
  late_Intercept hash env h : late h (Intercept pol hash env h).1;
  ok_Intercept hash env h : (Intercept pol hash env h).2 = false -> ok h (Intercept pol hash env h).1;
  ok_OnPong hash h : ok h (OnPong pol hash h);
  ok_OnResourceEnvelope hash env h : ok h (OnResourceEnvelope pol hash env h).1;
}.

Definition policy_ok {PS} (policy : option (HubPolicy PS)) : Prop :=
  match policy with Some pol => PolicyOk pol | None => True end.

(** ** Tables when a session takes its key over *)

Section tables.
Context {PS : Type}.
Implicit Types h : Hub PS.

(** The hub after a session takes its key over, up to what is sent: the
    previous holder is closed and its rooms are vacated. *)
Definition taken_over (pid : nat) (hash : bytes) h : Hub PS :=
  let h1 := upd_peer pid (set_hash hash) h in
  match peers h !! hash with
  | Some prev =>
      upd_peer prev set_closed
        (set_peers (<[hash := pid]> (peers h))
          (set_rooms (foldl (fun acc room => remove_member room hash acc) (rooms h)
             (match heap h !! prev with Some q => elements (p_rooms q) | None => [] end)) h1))
  | None => set_peers (<[hash := pid]> (peers h)) h1
  end.

Lemma holder_other h pid p prev key : hub_inv h -> heap h !! pid = Some p -> registered p = false ->
  peers h !! key = Some prev -> prev <> pid.
Proof.
  intros Hi Hp Hr Hk ->. destruct (inv_peers h Hi _ _ Hk) as (v & Hv & E & Hl & _).
  unfold hv in Hv. rewrite Hp in Hv. simplify_eq/=.
  assert (Hz : v_hash (view p) = []) by (apply (inv_reg h Hi pid (view p)); [unfold hv; by rewrite Hp|done]).
  cbn [view v_hash] in Hz. by rewrite Hz in Hl.
Qed.

Lemma hv_taken_over h pid p hash q : hub_inv h -> heap h !! pid = Some p -> registered p = false ->
  hv (taken_over pid hash h) q =
  if decide (q = pid) then Some (view (set_hash hash p))
  else if decide (peers h !! hash = Some q) then closed_view <$> hv h q else hv h q.
Proof.
  intros Hi Hp Hr. unfold taken_over. destruct (peers h !! hash) as [prev|] eqn:Hk.
  - pose proof (holder_other h pid p prev hash Hi Hp Hr Hk) as Hne.
    rewrite hv_mark. unfold hv. cbn [heap set_peers set_rooms upd_peer set_heap].
    destruct (decide (q = pid)) as [->|Hq].
    + by rewrite decide_False, lookup_alter_eq, Hp.
    + rewrite !lookup_alter_ne by done. repeat case_decide; simplify_eq; done.
  - unfold hv. cbn [heap set_peers upd_peer set_heap].
    destruct (decide (q = pid)) as [->|Hq]; [by rewrite lookup_alter_eq, Hp|].
    rewrite lookup_alter_ne by done. by rewrite decide_False.
Qed.

Lemma peers_taken_over h pid hash : peers (taken_over pid hash h) = <[hash := pid]> (peers h).
Proof. unfold taken_over. by destruct (peers h !! hash). Qed.

Lemma members_taken_over h pid hash room : hub_inv h ->
  members (rooms (taken_over pid hash h)) room = members (rooms h) room ∖ {[hash]}.
Proof.
  intros Hi. assert (Hm := inv_member h Hi room hash). unfold taken_over.
  destruct (peers h !! hash) as [prev|] eqn:Hk; simpl.
  - rewrite members_remove_all. case_decide as Hr; [done|].
    enough (hash ∉ members (rooms h) room) by set_solver. rewrite Hm. intros (q & w & Hq & Hw & Hin).
    simplify_eq. unfold hv in Hw. destruct (heap h !! q); [|done]. simplify_eq/=. by rewrite elem_of_elements in Hr.
  - enough (hash ∉ members (rooms h) room) by set_solver. rewrite Hm. naive_solver.
Qed.

Lemma taken_over_transfer h pid p hash : hub_inv h -> heap h !! pid = Some p -> registered p = false ->
  sess_closed p = false -> len hash = IdentityLength -> transfer h (taken_over pid hash h).
Proof.
  intros Hi Hp Hr Hc Hlen. pose proof (fun q => hv_taken_over h pid p hash q Hi Hp Hr) as Hhv.
  assert (Hv : hv h pid = Some (view p)) by (unfold hv; by rewrite Hp).
  pose proof (inv_reg h Hi pid _ Hv Hr) as Hz. destruct (inv_unreg h Hi pid _ Hv Hz) as (_ & Hrooms & Hnick).
  assert (Hnew : newcomer h (taken_over pid hash h) hash pid).
  { split; [by rewrite peers_taken_over, lookup_insert_eq|]. split.
    - intros Hk. by apply (holder_other h pid p pid hash).
    - eexists. rewrite Hhv, decide_True by done. split; [done|]. by repeat split. }
  assert (Hkept : forall key, kept h (taken_over pid hash h) key <-> key <> hash /\ is_Some (peers h !! key)).
  { intros key. unfold kept. rewrite peers_taken_over. split.
    - intros (q & Hq & Hq'). split; [|by exists q]. intros ->. rewrite lookup_insert_eq in Hq'. simplify_eq.
      by apply (holder_other h q p q hash).
    - intros [Hne [q Hq]]. exists q. by rewrite lookup_insert_ne by congruence. }
  split.
  - rewrite peers_taken_over. intros key q [[<- <-]|[Hk Hq]]%lookup_insert_Some; [by right|left].
    split; [done|]. destruct (inv_peers h Hi _ _ Hq) as (w & Hw & E & _). rewrite Hhv, !decide_False; [done| |].
    + intros Hk'. destruct (inv_peers h Hi _ _ Hk') as (w' & Hw' & E' & _). congruence.
    + intros ->. by apply (holder_other h pid p pid key).
  - intros q v'. rewrite Hhv. destruct (decide (q = pid)) as [->|Hq].
    { intros [= <-]. by right; right; left. }
    destruct (decide (peers h !! hash = Some q)) as [Hk|Hk].
    { destruct (hv h q) as [v|] eqn:Hvq; [|done]. intros [= <-]. left. split; [done|]. by exists v. }
    intros Hv'. right; left. split; [done|]. intros Hc' Hne. rewrite peers_taken_over, lookup_insert_ne.
    + by apply (inv_live h Hi).
    + intros E. pose proof (inv_live h Hi _ _ Hv' Hc' Hne). congruence.
  - unfold taken_over. destruct (peers h !! hash); simpl; [apply no_empty_remove_all|]; apply (inv_rooms h Hi).
  - unfold taken_over. destruct (peers h !! hash); simpl; apply (inv_nonempty_nicks h Hi).
  - intros room key. rewrite members_taken_over, Hkept, elem_of_difference, elem_of_singleton by done.
    split; [|tauto]. intros [Hm Hne]. split; [done|]. split; [done|].
    apply (inv_member h Hi) in Hm as (q & _ & Hq & _). by exists q.
  - intros n key _. unfold taken_over. by destruct (peers h !! hash).
Qed.

Lemma ident_taken_over h pid p hash q : hub_inv h -> heap h !! pid = Some p -> registered p = false ->
  q <> pid -> ident_at h q -> ident_at (taken_over pid hash h) q.
Proof.
  intros Hi Hp Hr Hne Hq. unfold ident_at, link_at, pend_at, shown.
  replace (link_identity (taken_over pid hash h)) with (link_identity h)
    by (unfold taken_over; by destruct (peers h !! hash)).
  rewrite (hv_taken_over h pid p), decide_False by done. case_decide; [|exact Hq].
  destruct (hv h q); [|by split]. split; by intros w [= <-].
Qed.

Lemma view_pending pid x p q h : heap h !! pid = Some p -> hv (upd_peer pid (set_pending x) h) q =
  if decide (q = pid) then Some (mkView (peerHash p) (p_rooms p) (sess_nick p) (sess_closed p) (registered p) (present x))
  else hv h q.
Proof. intros Hp. rewrite hv_upd. by rewrite Hp. Qed.

Lemma sim_pending pid x h : sim h (upd_peer pid (set_pending x) h).
Proof.
  apply sim_same; [done|]. apply abs_ext; [done|]. intros key q _. unfold rooms_of. rewrite hv_upd.
  destruct (decide (q = pid)) as [->|]; [|done]. unfold hv. by destruct (heap h !! pid).
Qed.

Lemma abs_taken_over h pid p hash : hub_inv h -> heap h !! pid = Some p -> registered p = false ->
  abs (taken_over pid hash h) = <[hash := ∅]> (abs h).
Proof.
  intros Hi Hp Hr. assert (Hv : hv h pid = Some (view p)) by (unfold hv; by rewrite Hp).
  destruct (inv_unreg h Hi pid _ Hv (inv_reg h Hi pid _ Hv Hr)) as (_ & Hrooms & _). simpl in Hrooms.
  apply map_eq. intros key. unfold abs at 1. rewrite lookup_fmap, peers_taken_over.
  destruct (decide (key = hash)) as [->|Hk].
  - rewrite !lookup_insert_eq. simpl. unfold rooms_of. rewrite (hv_taken_over h pid p), decide_True by done.
    simpl. by rewrite Hrooms.
  - rewrite !lookup_insert_ne by done. unfold abs. rewrite lookup_fmap.
    destruct (peers h !! key) as [q|] eqn:Hq; [|done]. simpl. unfold rooms_of.
    rewrite (hv_taken_over h pid p), decide_False by (done || by apply (holder_other h pid p q key)).
    case_decide; [|done]. by destruct (hv h q).
Qed.

Lemma sim_taken_over h pid p hash : hub_inv h -> heap h !! pid = Some p -> registered p = false ->
  len hash = IdentityLength -> sim h (taken_over pid hash h).
Proof.
  intros Hi Hp Hr Hl. split; [unfold taken_over; by destruct (peers h !! hash)|].
  rewrite (abs_taken_over h pid p) by done. by apply rtc_once, m_connect.
Qed.

(** Changing what waits leaves the tables alone. *)
Lemma pending_inv pid x h : hub_inv h -> hub_inv (upd_peer pid (set_pending x) h)
  /\ (forall q, live h q -> live (upd_peer pid (set_pending x) h) q)
  /\ (forall q, link_at h q -> link_at (upd_peer pid (set_pending x) h) q)
  /\ (forall q, q <> pid -> ident_at h q -> ident_at (upd_peer pid (set_pending x) h) q).
Proof.
  intros Hi. destruct (heap h !! pid) as [p|] eqn:Hp.
  2: { assert (view_eq h (upd_peer pid (set_pending x) h)) as Hve.
       { repeat split. intros q. rewrite hv_upd, Hp. case_decide; [subst; unfold hv; by rewrite Hp|done]. }
       rewrite <- Hve. split; [done|]. split; [|split]; intros q; by rewrite <- Hve. }
  assert (Hb : forall q w, hv (upd_peer pid (set_pending x) h) q = Some w -> exists w0, hv h q = Some w0
    /\ v_hash w = v_hash w0 /\ v_closed w = v_closed w0 /\ v_reg w = v_reg w0 /\ v_rooms w = v_rooms w0
    /\ v_nick w = v_nick w0).
  { intros q w. rewrite (view_pending pid x p q h Hp). case_decide; [|naive_solver]. subst.
    intros [= <-]. exists (view p). split; [unfold hv; by rewrite Hp|done]. }
  assert (Hf : forall q w0, hv h q = Some w0 -> exists w, hv (upd_peer pid (set_pending x) h) q = Some w
    /\ v_hash w = v_hash w0 /\ v_closed w = v_closed w0 /\ v_rooms w = v_rooms w0).
  { intros q w0. rewrite (view_pending pid x p q h Hp). case_decide; [|naive_solver]. subst.
    unfold hv. rewrite Hp. intros [= <-]. by eexists. }
  split; [split; simpl|split; [|split]].
  - intros key q Hq. destruct (inv_peers h Hi _ _ Hq) as (w0 & Hw0 & <- & Hl & Hc).
    destruct (Hf _ _ Hw0) as (w & Hw & E1 & E2 & _). exists w. by rewrite E1, E2.
  - intros q w Hw. destruct (Hb _ _ Hw) as (w0 & Hw0 & -> & -> & _). by apply (inv_live h Hi).
  - intros q w Hw. destruct (Hb _ _ Hw) as (w0 & Hw0 & -> & _ & -> & _). by apply (inv_reg h Hi q).
  - intros q w Hw. destruct (Hb _ _ Hw) as (w0 & Hw0 & -> & _ & -> & -> & ->). by apply (inv_unreg h Hi q).
  - apply (inv_rooms h Hi).
  - intros room key. rewrite (inv_member h Hi). split; intros (q & w & Hq & Hw & Hr).
    + destruct (Hf _ _ Hw) as (w' & Hw' & _ & _ & E). exists q, w'. by rewrite E.
    + destruct (Hb _ _ Hw) as (w0 & Hw0 & _ & _ & _ & E & _). exists q, w0. by rewrite <- E.
  - intros q w room Hw. destruct (Hb _ _ Hw) as (w0 & Hw0 & _ & _ & _ & -> & _). by apply (inv_names h Hi q).
  - intros key q w Hq Hw. destruct (Hb _ _ Hw) as (w0 & Hw0 & _ & _ & _ & _ & ->). by apply (inv_nick h Hi key q).
  - apply (inv_nonempty_nicks h Hi).
  - intros q (w0 & Hw0 & Hc & Hl). destruct (Hf _ _ Hw0) as (w & Hw & E1 & E2 & _). exists w. by rewrite E1, E2.
  - intros q Hl w Hw Hc. destruct (Hb _ _ Hw) as (w0 & Hw0 & -> & E & _). apply (Hl w0); [done|congruence].
  - intros q Hq Hid. unfold ident_at, link_at, pend_at. rewrite (view_pending pid x p q h Hp), decide_False by done. exact Hid.
Qed.

(** A link is accepted. *)
Lemma fresh_transfer h pid : hub_inv h -> heap h !! pid = None ->
  transfer h (set_heap (<[pid := fresh_peer h]> (heap h)) h).
Proof.
  intros Hi Hp. set (h' := set_heap (<[pid := fresh_peer h]> (heap h)) h).
  assert (Hhv : forall q, q <> pid -> hv h' q = hv h q).
  { intros q Hq. unfold hv, h'. simpl. by rewrite lookup_insert_ne. }
  assert (Hnp : forall key q, peers h !! key = Some q -> q <> pid).
  { intros key q Hq ->. destruct (inv_peers h Hi _ _ Hq) as (v & Hv & _). unfold hv in Hv. by rewrite Hp in Hv. }
  split; [| |apply (inv_rooms h Hi)|apply (inv_nonempty_nicks h Hi)| |by intros].
  - intros key q Hq. left. split; [done|]. apply Hhv. by eapply Hnp.
  - intros q v' Hv'. destruct (decide (q = pid)) as [->|Hq].
    + right; right; right. unfold hv, h' in Hv'. simpl in Hv'. rewrite lookup_insert_eq in Hv'. by simplify_eq/=.
    + rewrite Hhv in Hv' by done. right; left. split; [done|]. by apply (inv_live h Hi).
  - intros room key. split; [|tauto]. intros Hm. split; [done|].
    apply (inv_member h Hi) in Hm as (q & _ & Hq & _). by exists q.
Qed.

Lemma sim_env a i c h : sim h (set_env a i c h).
Proof. apply sim_same; [done|]. by apply abs_ext. Qed.
End tables.

Section handlers.
Context `{C : Cbor} {PS : Type}.
Context (rand_read : nat -> option bytes) (send_ok : nat -> bool) (policy : option (HubPolicy PS)).
Context (Hpol : policy_ok policy).
Implicit Types h : Hub PS.

Notation onHello := (onHello rand_read send_ok policy).
Notation onJoin := (onJoin rand_read send_ok policy).
Notation onPart := (onPart rand_read send_ok policy).
Notation close_session := (close_session rand_read send_ok).
Notation handlePeer := (handlePeer rand_read send_ok policy).
Notation register := (register rand_read send_ok policy).

Lemma ok_bind h h1 h2 : ok h h1 -> (hub_inv h1 -> ok h1 h2) -> ok h h2.
Proof. intros H1 H2 Hi. destruct (H1 Hi) as (Hi1 & _). by apply (transitivity H1 (H2 Hi1)). Qed.

Lemma ok_inv h h' : ok h h' -> hub_inv h -> hub_inv h'.
Proof. intros H Hi. by destruct (H Hi). Qed.

Lemma late_ok h h' : ok h h' -> late h h'.
Proof. intros H Hi. destruct (H Hi) as (? & ? & ? & _ & ?). by split. Qed.

Lemma late_after h h1 h2 : ok h h1 -> late h1 h2 -> late h h2.
Proof.
  intros H1 H2 Hi. destruct (H1 Hi) as (Hi1 & ? & Ha & Ec & R1). destruct (H2 Hi1) as (? & ? & Hb & R2).
  split; [done|]. split; [auto|]. split; [intros q; destruct (Ha q), (Hb q); auto|]. rewrite Ec in R2. by transitivity (abs h1).
Qed.

Lemma ok_hook f h : (forall pol, PolicyOk pol -> ok h (f pol h)) -> ok h (run_hook policy f h).
Proof. revert Hpol. unfold run_hook, policy_ok. destruct policy; [auto|reflexivity]. Qed.

Lemma ok_ask f h : (forall pol, PolicyOk pol -> ok h (f pol h).1) -> ok h (ask_policy policy f h).1.
Proof. revert Hpol. unfold ask_policy, policy_ok. destruct policy; [auto|reflexivity]. Qed.

Lemma ok_onHello pid env h : ok h (onHello pid env h).
Proof.
  unfold RrcHub.onHello. set (h1 := upd_peer pid (set_active true) h).
  assert (H1 : view_eq h h1) by by apply view_upd.
  pose proof (view_sendType rand_read send_ok pid TypeWelcome []
    match WelcomeToMap (Some (welcome_body h1)) with Some m => AMapU m | None => ANil end [] h1) as H2.
  destruct (sendType _ _ _ _ _ _ _ _) as [h2 r]. cbn [fst] in H2.
  transitivity h2; [apply ok_view; by transitivity h1|]. destruct r; [|apply close_session_ok].
  etransitivity; [apply ok_view, view_event|]. apply ok_hook. intros pol Hp. apply ok_AfterWelcome.
Qed.

Lemma view_onRoomContent pid env h : view_eq h (onRoomContent rand_read send_ok policy pid env h).
Proof.
  unfold onRoomContent.
  repeat (match goal with |- context [if ?b then replyError _ _ _ _ _ else _] => destruct b end;
    [apply view_replyError|]).
  match goal with |- context [match ?x with Ok _ => _ | Err _ => _ end] => destruct x end; [|reflexivity].
  etransitivity; [apply view_sendRawAll|apply view_event].
Qed.

Lemma view_onDirectNotice pid env h : view_eq h (onDirectNotice rand_read send_ok pid env h).
Proof.
  unfold onDirectNotice. repeat case_match; try apply view_replyError; try reflexivity.
  all: etransitivity; [apply view_sendEnvelope|apply view_event].
Qed.

Lemma ok_dispatchContent pid env h : ok h (dispatchContent rand_read send_ok policy pid env h).
Proof.
  unfold dispatchContent.
  pose proof (ok_ask (fun pol => AllowContent pol (peer_hash h pid) env) h
    (fun pol Hp => ok_AllowContent (PolicyOk := Hp) _ _ h)) as Ha.
  destruct (ask_policy _ _ _) as [h1 r]. etransitivity; [exact Ha|]. apply ok_view.
  destruct r; [apply view_replyError|apply view_onRoomContent].
Qed.

Lemma ok_onResourceEnvelope pid env h : ok h (onResourceEnvelope rand_read send_ok policy pid env h).
Proof.
  unfold onResourceEnvelope. case_match; [apply ok_view, view_replyError|].
  destruct (ValidateResourceEnvelopeBody (Body env)) as [body reason].
  repeat (match goal with |- context [if ?b then replyError _ _ _ _ _ else _] => destruct b end;
    [apply ok_view, view_replyError|]).
  pose proof (ok_ask (fun pol => OnResourceEnvelope pol (peer_hash h pid) env) h
    (fun pol Hp => ok_OnResourceEnvelope (PolicyOk := Hp) _ _ h)) as Ha.
  destruct (ask_policy _ _ _) as [h1 r]. etransitivity; [exact Ha|]. apply ok_view.
  destruct r; [apply view_replyError|apply view_event].
Qed.

(** What follows the membership update of a join or a part. *)
Lemma view_announced t pid room others body1 body2 nick e h :
  view_eq h (event e (sendType rand_read send_ok pid t room body2 []
    (broadcast rand_read send_ok t room body1 nick others h)).1).
Proof. etransitivity; [apply view_broadcast|]. etransitivity; [apply view_sendType|apply view_event]. Qed.

Lemma ok_onJoin pid env h : hub_inv h -> live h pid -> ok h (onJoin pid env h).
Proof.
  intros Hi Hl. unfold RrcHub.onJoin. set (room := NormalizeRoom (Room env)).
  case_bool_decide as Hr; [apply ok_view, view_replyError|].
  destruct (MaxRoomNameBytes (CfgLimits (cfg h)) <? len room) eqn:Hn; [apply ok_view, view_replyError|].
  bool_hyps. pose proof (ok_ask (fun pol => AllowJoin pol (peer_hash h pid) room (Body env)) h
    (fun pol Hp => ok_AllowJoin (PolicyOk := Hp) _ _ _ h)) as Ha.
  assert (Hs : (ask_policy policy (fun pol => AllowJoin pol (peer_hash h pid) room (Body env)) h).2 = None ->
    live (ask_policy policy (fun pol => AllowJoin pol (peer_hash h pid) room (Body env)) h).1 pid).
  { revert Hpol. unfold ask_policy, policy_ok. destruct policy as [pol|]; [|done]. intros Hpo HN. by apply allowed_stays. }
  destruct (ask_policy _ _ _) as [h1 r]. cbn [fst snd] in *. etransitivity; [exact Ha|].
  destruct r; [apply ok_view, view_replyError|]. specialize (Hs eq_refl).
  assert (Hcfg : cfg h1 = cfg h) by (destruct (Ha Hi) as (_ & _ & _ & ? & _); done).
  apply (ok_inv _ _ Ha) in Hi. destruct (enter_room pid room h1) as [h2|] eqn:He;
    [|apply ok_view, view_replyError].
  destruct (enter_room_ok h1 h2 pid room) as [H2 _]; try done; [by apply NormalizeRoom_idemp|by rewrite Hcfg|].
  etransitivity; [exact H2|]. etransitivity; [apply ok_view, view_announced|].
  apply ok_hook. intros pol Hp. apply ok_AfterJoin.
Qed.

Lemma ok_onPart pid env h : hub_inv h -> settled h pid -> ok h (onPart pid env h).
Proof.
  intros Hi Hs. unfold RrcHub.onPart. set (room := NormalizeRoom (Room env)).
  case_bool_decide as Hr; [reflexivity|]. destruct (in_room h pid room) eqn:Hin; cbn [negb]; [|reflexivity].
  destruct Hs as [Hl|(v & Hv & _ & Hrs)].
  2: { rewrite (hv_in_room h pid v room Hv), Hrs in Hin. apply bool_decide_eq_true in Hin. set_solver. }
  destruct (leave_room_ok h pid room Hi Hl Hin) as [Ho _]. etransitivity; [exact Ho|].
  etransitivity; [apply ok_view, view_announced|]. apply ok_hook. intros pol Hp. apply ok_AfterPart.
Qed.

Lemma ok_partAll pid rs h : hub_inv h -> settled h pid ->
  ok h (foldl (fun h room => onPart pid (part_envelope room) h) h rs).
Proof.
  revert h. induction rs as [|r rs IH]; intros h Hi Hs; cbn [foldl]; [reflexivity|].
  pose proof (ok_onPart pid (part_envelope r) h Hi Hs) as H1. etransitivity; [exact H1|].
  destruct (H1 Hi) as (Hi1 & Hs1 & _). apply IH; auto.
Qed.

Lemma intercept_ok pid env h : late h (tryIntercept policy pid env h).1
  /\ ((tryIntercept policy pid env h).2 = false -> ok h (tryIntercept policy pid env h).1).
Proof.
  revert Hpol. unfold tryIntercept, policy_ok. destruct policy as [pol|].
  - intros Hpo. split; [apply late_Intercept|apply ok_Intercept].
  - intros _. split; [by apply late_ok|done].
Qed.

Lemma late_handleActive pid env h : hub_inv h -> live h pid ->
  late h (handleActive rand_read send_ok policy pid env h).
Proof.
  intros Hi Hl. unfold handleActive. destruct (intercept_ok pid env h) as [Ht Hf].
  repeat (match goal with |- context [if ?a =? ?b then _ else _] => destruct (a =? b) end).
  - apply late_ok. unfold reHello. etransitivity; [apply ok_partAll; [done|by left]|].
    etransitivity; [by apply ok_view, (view_upd pid (set_active false))|apply ok_onHello].
  - by apply late_ok, ok_onJoin.
  - apply late_ok, ok_onPart; [done|by left].
  - destruct (tryIntercept policy pid env h) as [h1 []]; [exact Ht|]. apply late_ok.
    etransitivity; [by apply Hf|]. case_match; [apply ok_view, view_onDirectNotice|apply ok_dispatchContent].
  - destruct (tryIntercept policy pid env h) as [h1 []]; [exact Ht|]. apply late_ok.
    etransitivity; [by apply Hf|]. apply ok_dispatchContent.
  - apply late_ok, ok_dispatchContent.
  - apply late_ok, ok_onResourceEnvelope.
  - apply late_ok, ok_view, view_sendType.
  - by apply late_ok.
Qed.

Lemma handleNick_ok pid env wa h : hub_inv h -> live h pid ->
  ok h (handleNick rand_read send_ok pid env wa h).1
  /\ ((handleNick rand_read send_ok pid env wa h).2 = true ->
      live (handleNick rand_read send_ok pid env wa h).1 pid).
Proof.
  intros Hi Hl. unfold handleNick.
  assert (Hn : forall n, ok h (applyInboundNick pid n h).1 /\ live (applyInboundNick pid n h).1 pid).
  { intros n. destruct (applyInboundNick_ok h pid n Hi Hl). auto. }
  repeat case_match; simplify_eq/=; try (by split; [reflexivity|]);
    match goal with H : applyInboundNick pid ?n h = (?h1, _) |- _ =>
      destruct (Hn n) as [Ho Hl1]; rewrite H in Ho, Hl1; cbn [fst] in Ho, Hl1 end;
    (split; [etransitivity; [exact Ho|]|]); try done; try reflexivity;
    try apply ok_view, view_replyError; try by intros _; rewrite <- view_replyError.
  all: etransitivity; [apply ok_view, view_replyError|apply close_session_ok].
Qed.

Lemma late_handlePeer pid env h : hub_inv h -> live h pid -> late h (handlePeer pid env h).
Proof.
  intros Hi Hl. unfold RrcHub.handlePeer. pose proof (view_takeToken pid h) as Hv.
  destruct (takeToken pid h) as [h1 tok]. cbn [fst] in Hv.
  eapply late_after; [apply ok_view, Hv|]. rewrite Hv in Hi, Hl. destruct tok; cbn [negb].
  2: { apply late_ok, ok_view. etransitivity; [apply view_event|apply view_replyError]. }
  destruct (handleNick_ok pid env (is_active h1 pid) h1 Hi Hl) as [Hn Hl2].
  destruct (handleNick _ _ _ _ _ _) as [h2 go]. cbn [fst snd] in *. eapply late_after; [exact Hn|].
  apply (ok_inv _ _ Hn) in Hi. destruct go; cbn [negb]; [|by apply late_ok].
  repeat case_match; try apply late_ok, ok_onHello; try apply late_ok, ok_view, view_replyError.
  - apply late_ok, ok_hook. intros pol Hp. apply ok_OnPong.
  - apply late_handleActive; auto.
Qed.

(** ** Registering *)

Definition after_once (pid : nat) (hash : bytes) h : Hub PS :=
  let '(h1, old) := register_once pid hash h in
  match old with Some o => close_session o h1 | None => h1 end.

(** A session whose key belongs to another, or to none, is only marked. *)
Lemma close_session_stale h pid p : heap h !! pid = Some p -> sess_closed p = false ->
  (peerHash p <> [] -> peers h !! peerKey (peerHash p) <> Some pid) ->
  view_eq (upd_peer pid set_closed h) (close_session pid h).
Proof.
  intros Hp Hc Hk. unfold RrcHub.close_session. rewrite Hp, Hc. unfold dropPeerIf.
  cbn [heap set_links upd_peer set_heap peers]. rewrite lookup_alter_eq, Hp.
  cbn [fmap option_fmap option_map peerHash set_closed].
  destruct (len (peerHash p) =? 0) eqn:Hl; [apply view_links|].
  assert (Hne : peerHash p <> []) by (intros E; by rewrite E in Hl).
  destruct (peers h !! peerKey (peerHash p)) as [q|] eqn:Hq; [|apply view_links].
  rewrite (proj2 (Nat.eqb_neq q pid)) by (intros ->; by apply Hk). apply view_links.
Qed.

Lemma after_once_view h pid p hash : hub_inv h -> heap h !! pid = Some p -> registered p = false ->
  len hash = IdentityLength -> view_eq (taken_over pid hash h) (after_once pid hash h).
Proof.
  intros Hi Hp Hr Hlen. unfold after_once, register_once, taken_over. rewrite Hp, Hr.
  rewrite peerKey_id by done. change (peers (upd_peer pid (set_hash hash) h)) with (peers h).
  destruct (peers h !! hash) as [prev|] eqn:Hk; [|reflexivity].
  pose proof (holder_other h pid p prev hash Hi Hp Hr Hk) as Hne.
  destruct (inv_peers h Hi _ _ Hk) as (v & Hv & E & _ & Hc). unfold hv in Hv.
  destruct (heap h !! prev) as [q|] eqn:Hq; [|done].
  assert (v = view q) as -> by by simplify_eq/=. cbn [view v_hash v_closed] in *.
  assert (Hq1 : heap (upd_peer pid (set_hash hash) h) !! prev = Some q) by (simpl; by rewrite lookup_alter_ne).
  rewrite (proj2 (Nat.eqb_neq prev pid) Hne), Hq1.
  apply close_session_stale with (p := q); [exact Hq1|exact Hc|]. intros _. rewrite E, peerKey_id by done.
  simpl. rewrite lookup_insert_eq. congruence.
Qed.

(** Asking the policy about an identified peer. *)
Notation verdict hash := (ask_policy policy (fun pol => OnIdentified pol hash)).

Lemma identified_ok hash h : hub_inv h ->
  ok h (verdict hash h).1 /\ ((verdict hash h).2 = None -> forall q, live h q -> live (verdict hash h).1 q).
Proof.
  intros Hi. split; [apply ok_ask; intros pol Hp; apply ok_OnIdentified|].
  revert Hpol. unfold ask_policy, policy_ok. destruct policy as [pol|]; [|done]. intros Hpo.
  by apply admitted_stays.
Qed.

(** No connected peer is one the policy would refuse, were it asked as the next
    packet comes in. *)
Definition unrefused h : Prop := forall pid v hash n, hv h pid = Some v -> v_closed v = false -> v_hash v <> [] ->
  link_identity h !! pid = Some hash -> len hash = IdentityLength ->
  (verdict hash (event (EvInboundBytes n) h)).2 = None.

(** A session is closed afterwards. *)
Lemma close_session_closed h pid v : hub_inv h -> hv (close_session pid h) pid = Some v -> v_closed v = true.
Proof.
  intros Hi. destruct (heap h !! pid) as [p|] eqn:Hp.
  2: { unfold RrcHub.close_session, hv. rewrite Hp. by rewrite Hp. }
  destruct (sess_closed p) eqn:Hc.
  { unfold RrcHub.close_session, hv. rewrite Hp, Hc, Hp. by intros [= <-]. }
  destruct (close_session_open rand_read send_ok h pid p Hi Hp Hc) as (_ & _ & _ & _ & -> & _). case_decide.
  - rewrite hv_mark, decide_True by done. destruct (hv h pid); [|done]. by intros [= <-].
  - rewrite (hv_dropped h pid p pid Hp), decide_True by done. by intros [= <-].
Qed.

(** The invariant with the identities. *)
Definition safe h : Prop := hub_inv h /\ forall q, ident_at h q.

#[local] Instance safe_proper : Proper (view_eq ==> iff) safe.
Proof.
  intros h h' Hve. unfold safe. rewrite Hve. split; intros [Hi Hd]; (split; [done|]); intros q;
    [rewrite <- Hve|rewrite Hve]; apply Hd.
Qed.

(** [h'] is safe and follows [h]. *)
Definition reaches h h' : Prop := safe h' /\ sim h h'.

Lemma reaches_ok h h1 h2 : reaches h h1 -> ok h1 h2 -> reaches h h2.
Proof.
  intros [[Hi Hd] Hs] H. destruct (H Hi) as (? & _ & Hk & ?). split; [|by transitivity h1].
  split; [done|]. intros q. by apply (ident_kept h1).
Qed.

Lemma reaches_ok' h h' : safe h -> ok h h' -> reaches h h'.
Proof. intros Hs. apply reaches_ok. split; [done|reflexivity]. Qed.

(** The same for what comes last. *)
Definition ends h h' : Prop := safe h' /\ rtc (member_step (CfgLimits (cfg h))) (abs h) (abs h').

Lemma ends_late h h1 h2 : reaches h h1 -> late h1 h2 -> ends h h2.
Proof.
  intros [[Hi Hd] [Ec R]] H. destruct (H Hi) as (? & _ & Hk & R2).
  split; [split; [done|]; intros q; by apply (ident_kept h1)|]. rewrite Ec in R2. by transitivity (abs h1).
Qed.

Lemma ends_reaches h h1 h2 : sim h h1 -> ends h1 h2 -> ends h h2.
Proof. intros [Ec R] [Hs R2]. split; [done|]. rewrite Ec in R2. by transitivity (abs h1). Qed.

Lemma reaches_ends h h' : reaches h h' -> ends h h'.
Proof. intros [? []]. by split. Qed.

(** The end of [register]: a waiting HELLO is handled now. *)
Definition take_pending (pid : nat) h : Hub PS :=
  match heap h !! pid with
  | None => h
  | Some p =>
      let h := upd_peer pid (set_pending None) h in
      match pendingHello p with
      | Some env => if len (peerHash p) =? IdentityLength then handlePeer pid env h else h
      | None => h
      end
  end.

Lemma take_pending_ok pid h : hub_inv h -> live h pid -> link_at h pid -> (forall q, q <> pid -> ident_at h q) ->
  ends h (take_pending pid h).
Proof.
  intros Hi Hl Hk Hd. destruct (pending_inv pid None h Hi) as (Hi1 & Hl1 & Hk1 & Hd1).
  assert (Hs : reaches h (upd_peer pid (set_pending None) h)).
  { split; [|apply sim_pending]. split; [done|]. intros q. destruct (decide (q = pid)) as [->|]; [|auto].
    split; [by apply Hk1|]. intros w Hw _ _. rewrite hv_upd, decide_True in Hw by done. destruct (heap h !! pid); [|done]. by simplify_eq/=. }
  unfold take_pending. destruct (heap h !! pid) as [p|] eqn:Hp.
  2: { destruct Hl as (v & Hv & _). unfold hv in Hv. by rewrite Hp in Hv. }
  repeat case_match; try by apply reaches_ends. eapply ends_late; [exact Hs|]. apply late_handlePeer; auto.
Qed.

Lemma register_cases pid hash h : len hash = IdentityLength ->
  let h1 := verdict hash (after_once pid hash h) in
  register pid hash h = match h1.2 with
                        | Some msg => close_session pid (sendType rand_read send_ok pid TypeError [] (AStr msg) [] h1.1).1
                        | None => take_pending pid h1.1
                        end.
Proof.
  intros Hl. unfold RrcHub.register. rewrite Hl. cbn [Z.eqb negb]. unfold after_once.
  destruct (register_once pid hash h) as [h1 old]. cbv zeta. by destruct (ask_policy _ _ _) as [h2 [msg|]].
Qed.

Lemma register_eq pid hash h : len hash = IdentityLength -> (verdict hash (after_once pid hash h)).2 = None ->
  register pid hash h = take_pending pid (verdict hash (after_once pid hash h)).1.
Proof. intros Hl Hn. rewrite register_cases by done. cbv zeta. by rewrite Hn. Qed.

(** With nothing waiting, the end of [register] changes nothing. *)
Lemma take_pending_none h pid v : hv h pid = Some v -> v_pend v = false -> view_eq h (take_pending pid h).
Proof.
  unfold take_pending, hv. destruct (heap h !! pid) as [q|] eqn:Hq; [|done]. intros [= <-]. simpl.
  destruct (pendingHello q) eqn:Hq2; [done|]. intros _. apply view_upd_at. intros p Hp. simplify_eq.
  unfold view. simpl. by rewrite Hq2.
Qed.

(** The session that registers is live, with what waited still waiting. *)
Lemma after_once_ok pid p hash h : hub_inv h -> heap h !! pid = Some p -> sess_closed p = false -> registered p = false ->
  (forall q, q <> pid -> ident_at h q) -> link_identity h !! pid = Some hash -> len hash = IdentityLength ->
  hub_inv (after_once pid hash h) /\ (forall q, q <> pid -> ident_at (after_once pid hash h) q)
  /\ sim h (after_once pid hash h) /\ live (after_once pid hash h) pid /\ link_at (after_once pid hash h) pid
  /\ exists v, hv (after_once pid hash h) pid = Some v /\ v_pend v = present (pendingHello p).
Proof.
  intros Hi Hp Hc Hr Hd Hid Hl. pose proof (after_once_view h pid p hash Hi Hp Hr Hl) as Hve.
  assert (Hw : hv (after_once pid hash h) pid = Some (view (set_hash hash p))).
  { destruct Hve as (_ & _ & _ & _ & -> & _). by rewrite (hv_taken_over h pid p), decide_True. }
  split; [rewrite <- Hve; apply (transfer_inv h); [done|by apply (taken_over_transfer h pid p)]|].
  split; [intros q Hq; rewrite <- Hve; apply (ident_taken_over h pid p); auto|].
  split; [etransitivity; [by apply (sim_taken_over h pid p)|by apply sim_view]|].
  split; [eexists; (split; [exact Hw|done])|]. split; [|eexists; (split; [exact Hw|done])].
  intros v Hv _. unfold shown. destruct Hve as (_ & _ & _ & -> & _).
  replace (link_identity (taken_over pid hash h)) with (link_identity h)
    by (unfold taken_over; by destruct (peers h !! hash)).
  rewrite Hid, Hl. rewrite Hw in Hv. by injection Hv as <-.
Qed.

(** A peer the policy refuses is closed. *)
Lemma refused_safe pid msg h : hub_inv h -> (forall q, q <> pid -> ident_at h q) ->
  reaches h (close_session pid (sendType rand_read send_ok pid TypeError [] (AStr msg) [] h).1).
Proof.
  intros Hi Hd. pose proof (view_sendType rand_read send_ok pid TypeError [] (AStr msg) [] h) as Hve.
  set (h1 := (sendType _ _ _ _ _ _ _ _).1) in *. assert (Hi1 : hub_inv h1) by by rewrite <- Hve.
  destruct (close_session_ok rand_read send_ok h1 pid) as [Ho _]. destruct (Ho Hi1) as (Hi2 & _ & Hd2 & Hs2).
  split; [split; [done|]|etransitivity; [by apply sim_view|done]]. intros q.
  destruct (decide (q = pid)) as [->|Hq]; [|apply (ident_kept h1); [done|]; rewrite <- Hve; auto].
  split; intros v Hv Hc; by rewrite (close_session_closed h1 pid v Hi1 Hv) in Hc.
Qed.

(** Registering an open session of an identified link. *)
Lemma register_safe pid p hash h : hub_inv h -> heap h !! pid = Some p -> sess_closed p = false -> registered p = false ->
  (forall q, q <> pid -> ident_at h q) -> link_identity h !! pid = Some hash ->
  ends h (register pid hash h) /\ (pendingHello p = None -> reaches h (register pid hash h)).
Proof.
  intros Hi Hp Hc Hr Hd Hid. destruct (decide (len hash = IdentityLength)) as [Hl|Hl].
  2: { enough (reaches h (register pid hash h)) by (split; [by apply reaches_ends|done]).
       assert (Hv : hv h pid = Some (view p)) by (unfold hv; by rewrite Hp).
       pose proof (inv_reg h Hi pid _ Hv Hr) as Hz.
       unfold RrcHub.register. rewrite (proj2 (Z.eqb_neq _ _) Hl). cbn [negb].
       split; [|reflexivity]. split; [done|]. intros q. destruct (decide (q = pid)) as [->|]; [|auto].
       unfold ident_at, link_at, pend_at, shown. rewrite Hv, Hid, (proj2 (Z.eqb_neq _ _) Hl).
       split; by intros v [= <-]. }
  destruct (after_once_ok pid p hash h Hi Hp Hc Hr Hd Hid Hl) as (Hi1 & Hd1 & Hs1 & Hl1 & Hk1 & v & Hv & Hpend).
  destruct (identified_ok hash _ Hi1) as (Ho & Hlive). destruct (Ho Hi1) as (Hi2 & _ & Hd2 & Hs2).
  rewrite register_cases by done. cbv zeta. set (h2 := (verdict hash (after_once pid hash h)).1) in *.
  assert (Hs : sim h h2) by by etransitivity.
  assert (Hd3 : forall q, q <> pid -> ident_at h2 q) by (intros q Hq; by eapply ident_kept; auto).
  assert (Hk2 : link_at h2 pid) by by apply Hd2.
  destruct (verdict hash (after_once pid hash h)).2 as [msg|].
  - assert (Hr2 : reaches h2 (close_session pid (sendType rand_read send_ok pid TypeError [] (AStr msg) [] h2).1))
      by (apply refused_safe; auto).
    enough (Hr' : reaches h (close_session pid (sendType rand_read send_ok pid TypeError [] (AStr msg) [] h2).1))
      by (split; [by apply reaches_ends|done]).
    split; [apply Hr2|]. etransitivity; [exact Hs|apply Hr2].
  - specialize (Hlive eq_refl). split.
    + eapply ends_reaches; [exact Hs|]. apply take_pending_ok; auto.
    + intros Hnone. destruct (Hlive pid Hl1) as (w & Hw & Hcw & Hlw).
      assert (Hp1 : pend_at (after_once pid hash h) pid).
      { intros v' Hv' _ _. assert (v' = v) as -> by congruence. by rewrite Hpend, Hnone. }
      assert (Hp2 : pend_at h2 pid) by by apply Hd2.
      pose proof (take_pending_none h2 pid w Hw (Hp2 w Hw Hcw ltac:(intros E; by rewrite E in Hlw))) as Hve.
      split; [|etransitivity; [exact Hs|by apply sim_view]]. rewrite <- Hve. split; [done|]. intros q.
      destruct (decide (q = pid)) as [->|]; [by split|auto].
Qed.

(** An open session with a key is live. *)
Lemma open_live h pid v : hub_inv h -> hv h pid = Some v -> v_closed v = false -> v_hash v <> [] -> live h pid.
Proof.
  intros Hi Hv Hc Hne. exists v. split; [done|]. split; [done|].
  by destruct (inv_peers h Hi _ _ (inv_live h Hi pid v Hv Hc Hne)) as (w & _ & _ & ? & _).
Qed.

(** Registering again leaves a live session live. *)
Lemma register_again h pid p hash : safe h -> heap h !! pid = Some p -> sess_closed p = false ->
  peerHash p <> [] -> len hash = IdentityLength -> (verdict hash h).2 = None ->
  reaches h (register pid hash h) /\ live (register pid hash h) pid.
Proof.
  intros [Hi Hd] Hp Hc Hne Hl Hn. assert (Hv : hv h pid = Some (view p)) by (unfold hv; by rewrite Hp).
  assert (Hreg : registered p = true).
  { destruct (registered p) eqn:E; [done|]. by pose proof (inv_reg h Hi pid _ Hv E). }
  assert (Hone : after_once pid hash h = h) by (unfold after_once, register_once; by rewrite Hp, Hreg).
  destruct (identified_ok hash h Hi) as (Ho & Hkeep).
  rewrite register_eq, Hone by (done || by rewrite Hone).
  destruct (Ho Hi) as (Hi1 & _ & Hd1 & Hs1). pose proof (Hkeep Hn pid (open_live h pid _ Hi Hv Hc Hne)) as Hl1.
  destruct Hl1 as (v & Hv1 & Hc1 & Hlen1). destruct (ident_kept _ _ _ (Hd1 pid) (Hd pid)) as [_ Hpend].
  assert (Htp := take_pending_none _ pid v Hv1 (Hpend v Hv1 Hc1 ltac:(intros E; by rewrite E in Hlen1))).
  split; [|rewrite <- Htp; by exists v]. split; [|etransitivity; [exact Hs1|by apply sim_view]].
  rewrite <- Htp. split; [done|]. intros q. by apply (ident_kept h).
Qed.

(** A message on an open session. *)
Lemma onMessage_safe pid p env h : safe h -> heap h !! pid = Some p -> sess_closed p = false ->
  (forall hash, peerHash p <> [] -> link_identity h !! pid = Some hash -> len hash = IdentityLength ->
     (verdict hash h).2 = None) ->
  ends h (onMessage rand_read send_ok policy pid env h).
Proof.
  intros Hs Hp Hc Hun. assert (Hv : hv h pid = Some (view p)) by (unfold hv; by rewrite Hp).
  destruct Hs as [Hi Hd]. destruct (Hd pid) as [Hident _]. specialize (Hident _ Hv Hc).
  unfold onMessage. destruct (decide (peerHash p = [])) as [E|E].
  - assert (Hsame : forall h', link_identity h' = link_identity h ->
      register_remote rand_read send_ok policy pid h' = h').
    { intros h' Hh. unfold register_remote. rewrite Hh. destruct (link_identity h !! pid) as [hash|] eqn:Hh0; [|done].
      unfold RrcHub.register. destruct (Z.eqb_spec (len hash) IdentityLength) as [Hl|]; [|done].
      unfold shown in Hident. rewrite Hh0, Hl in Hident. simpl in Hident. rewrite E in Hident. by rewrite <- Hident in Hl. }
    rewrite (Hsame h), (hv_peer_hash h pid _ Hv) by done. cbn [v_hash view]. rewrite E. simpl.
    rewrite Hsame by by case_match. apply reaches_ends. case_match; [|by split].
    destruct (pending_inv pid (Some env) h Hi) as (Hi1 & _ & Hk1 & Hd1).
    split; [|apply sim_pending]. split; [done|]. intros q.
    destruct (decide (q = pid)) as [->|]; [|auto]. split; [apply Hk1, Hd|]. intros v.
    rewrite (view_pending pid _ p), decide_True by done. intros [= <-] _. simpl. by rewrite E.
  - assert (Hr : reaches h (register_remote rand_read send_ok policy pid h)
      /\ live (register_remote rand_read send_ok policy pid h) pid).
    { pose proof (open_live h pid _ Hi Hv Hc E) as Hl0. unfold register_remote.
      assert (Hrefl : reaches h h) by (split; [by split|reflexivity]).
      destruct (link_identity h !! pid) as [hash|] eqn:Hlid; [|done].
      destruct (decide (len hash = IdentityLength)) as [Hl|Hl].
      - specialize (Hun hash E eq_refl Hl). by apply (register_again h pid p).
      - unfold RrcHub.register. by rewrite (proj2 (Z.eqb_neq _ _) Hl). }
    destruct Hr as [Hs Hl]. pose proof Hl as (v & Hv1 & _ & Hlen).
    rewrite (hv_peer_hash _ pid v Hv1), Hlen. cbn [Z.eqb]. change (IdentityLength =? IdentityLength) with true.
    cbn iota. eapply ends_late; [exact Hs|]. apply late_handlePeer; [apply Hs|done].
Qed.

Lemma acceptLink_safe h pid : safe h -> heap h !! pid = None ->
  reaches h (acceptLink rand_read send_ok policy pid h).
Proof.
  intros [Hi Hd] Hp. unfold acceptLink. set (h1 := set_heap _ _).
  assert (Hi1 : hub_inv h1) by (apply (transfer_inv h); [done|]; by apply fresh_transfer).
  assert (Hd1 : forall q, q <> pid -> ident_at h1 q).
  { intros q Hq. unfold ident_at, link_at, pend_at, hv, h1. simpl. rewrite lookup_insert_ne by done. apply (Hd q). }
  assert (Hs0 : sim h h1).
  { apply sim_same; [done|]. apply abs_ext; [done|]. intros key q Hk. unfold rooms_of, hv, h1. simpl.
    rewrite lookup_insert_ne; [done|]. intros <-. destruct (inv_peers h Hi _ _ Hk) as (v & Hv & _).
    unfold hv in Hv. by rewrite Hp in Hv. }
  assert (Hs : reaches h1 (register_remote rand_read send_ok policy pid h1)).
  { unfold register_remote. change (link_identity h1) with (link_identity h).
    destruct (link_identity h !! pid) as [hash|] eqn:Hid.
    - apply (register_safe pid (fresh_peer h) hash h1); try done. unfold h1. simpl. by rewrite lookup_insert_eq.
    - split; [|reflexivity]. split; [done|]. intros q.
      destruct (decide (q = pid)) as [->|]; [|auto].
      unfold ident_at, link_at, pend_at, shown, hv, h1. simpl. rewrite lookup_insert_eq, Hid. split; by intros v [= <-]. }
  eapply reaches_ok; [split; [apply Hs|]; etransitivity; [exact Hs0|apply Hs]|].
  apply ok_hook. intros pol Hpo. apply ok_OnLink.
Qed.

(** ** Public operations *)

Lemma close_all h l : peers h = ∅ ->
  let h' := foldl (fun h pid => close_session pid h) h l in
  peers h' = ∅ /\ rooms h' = rooms h /\ nickIndex h' = nickIndex h /\ link_identity h' = link_identity h
  /\ cfg h' = cfg h /\ forall q, hv h' q = if decide (q ∈ l) then closed_view <$> hv h q else hv h q.
Proof.
  revert h. induction l as [|pid l IH]; intros h Hp; cbn [foldl].
  - repeat split; try done.
  - assert (Hstep : view_eq (upd_peer pid set_closed h) (close_session pid h)).
    { destruct (heap h !! pid) as [p|] eqn:Hh.
      - destruct (sess_closed p) eqn:Hc.
        + unfold RrcHub.close_session. rewrite Hh, Hc. symmetry. apply view_upd_at. intros p' Hp'.
          simplify_eq. unfold view. simpl. by rewrite Hc.
        + apply (close_session_stale _ pid p); try done. by rewrite Hp, lookup_empty.
      - unfold RrcHub.close_session. rewrite Hh. symmetry. apply view_upd_at. congruence. }
    destruct Hstep as (E1 & E2 & E3 & E4 & E5 & E6). cbn [upd_peer set_heap peers rooms nickIndex link_identity] in *.
    destruct (IH (close_session pid h)) as (H1 & H2 & H3 & H4 & H6 & H5); [congruence|].
    split; [done|]. split; [congruence|]. split; [congruence|]. split; [congruence|].
    split; [cbn [upd_peer set_heap cfg] in E6; congruence|].
    intros q. rewrite H5, E5, hv_mark.
    destruct (decide (q ∈ pid :: l)) as [Hin|Hin]; rewrite elem_of_cons in Hin;
      destruct (decide (q ∈ l)), (decide (q = pid)) as [->|Hq]; try tauto; by destruct (hv h pid).
Qed.

Lemma Close_safe h : safe h -> reaches h (Close rand_read send_ok h).
Proof.
  intros [Hi Hd]. unfold Close. set (h0 := set_nickIndex ∅ (set_rooms ∅ (set_peers ∅ h))).
  set (l := (map_to_list (peers h)).*2).
  destruct (close_all h0 l eq_refl) as (H1 & H2 & H3 & H4 & H6 & H5). set (h' := foldl _ h0 l) in *.
  assert (Hl : forall q, q ∈ l <-> exists key, peers h !! key = Some q).
  { intros q. unfold l. rewrite list_elem_of_fmap. split.
    - intros ([key q'] & -> & Hin). exists key. by apply elem_of_map_to_list.
    - intros [key Hk]. exists (key, q). split; [done|]. by apply elem_of_map_to_list. }
  assert (Hb : forall q v', hv h' q = Some v' -> v_closed v' = false -> hv h q = Some v' /\ q ∉ l).
  { intros q v'. rewrite H5. case_decide as Hq; [|done]. change (hv h0 q) with (hv h q).
    destruct (hv h q); [|done]. by intros [= <-]. }
  split; [split|split; [done|]].
  - apply (transfer_inv h); [done|]. split.
    + rewrite H1. intros key q. by rewrite lookup_empty.
    + intros q v' Hv'. rewrite H5 in Hv'. change (hv h0 q) with (hv h q) in Hv'. case_decide as Hq.
      * destruct (hv h q) as [v|] eqn:Hvq; [|done]. simplify_eq/=. left. split; [done|]. by exists v.
      * right; left. split; [done|]. intros Hc Hne. destruct Hq. apply Hl.
        exists (v_hash v'). by apply (inv_live h Hi).
    + rewrite H2. intros r ms. simpl. by rewrite lookup_empty.
    + rewrite H3. intros r ms. simpl. by rewrite lookup_empty.
    + intros room key. rewrite H2. unfold kept. rewrite H1. unfold members. simpl. rewrite lookup_empty. simpl.
      split; [set_solver|]. intros [_ (q & _ & Hq)]. by rewrite lookup_empty in Hq.
    + intros n key (q & _ & Hq). by rewrite H1, lookup_empty in Hq.
  - intros q. split; intros v Hv Hc; destruct (Hb q v Hv Hc) as [Hv0 _]; [unfold shown; rewrite H4|]; by apply (Hd q).
  - unfold abs at 2. rewrite H1, fmap_empty. apply rtc_once, m_close.
Qed.

Lemma ok_RemoveFromRoom peer room h : ok h (RemoveFromRoom peer room h).1.
Proof.
  unfold RemoveFromRoom. destruct (peers h !! peerKey peer) as [pid|] eqn:Hk; [|reflexivity].
  destruct (in_room h pid (NormalizeRoom room)) eqn:Hin; cbn [negb]; [|reflexivity].
  intros Hi. destruct (inv_peers h Hi _ _ Hk) as (v & Hv & E & Hl & Hc).
  destruct (leave_room_ok h pid (NormalizeRoom room)) as [Ho _]; [done|exists v; by rewrite E|done|].
  unfold leave_room in Ho. rewrite (hv_peer_hash h pid v Hv), E, peerKey_id in Ho by done. by apply Ho.
Qed.

Lemma view_send_to peer t room body h : view_eq h (send_to rand_read send_ok peer t room body h).1.
Proof. unfold send_to. case_match; [apply view_sendType|reflexivity]. Qed.

Lemma reaches_view h h' : safe h -> view_eq h h' -> reaches h h'.
Proof. intros Hs Hv. by apply reaches_ok', ok_view. Qed.

(** Every step keeps the hub safe and follows the abstract hub, which moves
    under the limits in force; a change of the configuration does not move it. *)
Lemma hub_step_safe h h' : hub_step rand_read send_ok policy h h' -> unrefused h -> safe h -> ends h h'.
Proof.
  intros Hstep Hun Hs. pose proof (reaches_ends h) as Hr.
  destruct Hstep.
  - by apply Hr, reaches_view.
  - by apply Hr, reaches_view.
  - set (h1 := set_env _ _ _ h). assert (Hs1 : reaches h h1) by by apply reaches_view.
    destruct (acceptLink_safe h1 pid (proj1 Hs1) H) as [Hs2 Hs3]. apply Hr. split; [done|].
    exact (transitivity (proj2 Hs1) Hs3).
  - destruct Hs as [Hi Hd]. set (h1 := set_env _ _ _ _).
    assert (Hi1 : hub_inv h1) by by split; apply Hi.
    assert (Hv : hv h pid = Some (view p)) by (unfold hv; by rewrite H).
    destruct (register_safe pid p hash h1) as [[Hs1 Hs2] _]; try done.
    + destruct (Hd pid) as [Hk _]. specialize (Hk _ Hv H0). unfold shown in Hk. rewrite H1 in Hk.
      by destruct (inv_unreg h Hi pid _ Hv Hk).
    + intros q Hq. unfold ident_at, link_at, pend_at, shown, h1. simpl. rewrite lookup_insert_ne by done. apply (Hd q).
    + unfold h1. simpl. by rewrite lookup_insert_eq.
  - unfold handleInbound. set (h1 := event _ h).
    assert (Hs1 : reaches h h1) by by apply reaches_view.
    case_match.
    + eapply ends_reaches; [apply Hs1|]. apply (onMessage_safe pid p); [apply Hs1|done|done|].
      intros hash Hne Hlid Hl. apply (Hun pid (view p)); try done. unfold hv. by rewrite H.
    + apply Hr, reaches_view; [done|]. do 2 (etransitivity; [apply view_event|]). apply view_replyError.
  - destruct Hs as [Hi Hd]. split; [split; [by split; apply Hi|done]|].
    by replace (abs (ApplyRuntime name version im er mr lim h)) with (abs h) by by apply abs_ext.
  - apply Hr, reaches_view; [done|]. apply view_send_to.
  - apply Hr, reaches_view; [done|]. apply view_broadcast.
  - apply Hr, reaches_ok'; [done|]. apply ok_RemoveFromRoom.
  - apply Hr. unfold Disconnect. case_match; [apply reaches_ok'; [done|]; apply close_session_ok|by split].
  - by apply Hr, Close_safe.
Qed.

Lemma NewHub_safe c identity ps : safe (NewHub c identity ps).
Proof.
  assert (Hm : forall r, members (∅ : gmap bytes (gset bytes)) r = ∅) by (intros r; unfold members; by rewrite lookup_empty).
  split; [split; simpl; unfold no_empty, hv; simpl; intros *; rewrite ?lookup_empty; try done|].
  - rewrite Hm. split; [set_solver|]. naive_solver.
  - intros q. split; intros v Hv; unfold hv in Hv; simpl in Hv; by rewrite lookup_empty in Hv.
Qed.

(** A run in which the policy never comes to refuse a peer that is connected. *)
Definition orderly_step h h' : Prop := hub_step rand_read send_ok policy h h' /\ unrefused h.
Definition orderly : Hub PS -> Hub PS -> Prop := rtc orderly_step.

Lemma orderly_safe c identity ps h : orderly (NewHub c identity ps) h -> safe h.
Proof.
  intros Hr. assert (H0 := NewHub_safe c identity ps). unfold orderly in Hr.
  induction Hr as [|h1 h2 h3 [Hs Hun] _ IH]; [done|]. by apply IH, (hub_step_safe h1 h2).
Qed.

(** Without a policy, and under one that refuses nobody, every run is such. *)
Lemma open_orderly : (forall hash h, (verdict hash h).2 = None) ->
  forall h h', reachable rand_read send_ok policy h h' -> orderly h h'.
Proof.
  intros Hall h h' Hr. unfold reachable in Hr. induction Hr as [|h1 h2 h3 Hs _ IH]; [constructor|].
  eapply rtc_l; [|exact IH]. split; [done|]. intros pid v hash n _ _ _ _ _. apply Hall.
Qed.
End handlers.
