(* ===== verification/RrcHubProps.v ===== *)
(** * What the RRC hub guarantees

    Theorems about the handlers of [RrcHub] on the states [RrcHubInv] and
    [RrcHubSafe] describe: who receives relayed content and under whose name,
    what a session can do before HELLO, what joining, leaving, re-registering
    and disconnecting do to the tables, and how the rate limit behaves. *)

From stdpp Require Import base tactics list gmap sets strings.
From Stdlib Require Import ZArith Lia.
From Stdlib Require Import SpecFloat.
From S2P Require Import Prelude GoText HexHash Cbor CborRef RrcRoom RrcEnvelope RrcBodies GoFloat RrcHub RrcHubInv RrcHubSafe.

(** ** Where packets go *)

Section packets.
Context `{C : Cbor} {PS : Type}.
Context (rand_read : nat -> option bytes) (send_ok : nat -> bool).
Implicit Types h : Hub PS.

(** [h'] has sent only to sessions in [P] since [h]. *)
Definition only_to (P : nat -> Prop) h h' : Prop :=
  exists out, sent h' = sent h ++ out /\ Forall (fun m => P m.1) out.

#[export] Instance only_to_preorder P : PreOrder (only_to P).
Proof.
  split.
  - intros h. exists []. by rewrite app_nil_r.
  - intros h1 h2 h3 (o1 & E1 & F1) (o2 & E2 & F2). exists (o1 ++ o2). rewrite E2, E1, app_assoc.
    split; [done|]. by apply Forall_app.
Qed.

Lemma only_to_same P h h' : sent h' = sent h -> only_to P h h'.
Proof. intros E. exists []. by rewrite app_nil_r. Qed.

Lemma only_to_sendRaw (P : nat -> Prop) pid raw h : P pid -> only_to P h (sendRaw send_ok pid raw h).1.
Proof.
  intros HP. unfold sendRaw. repeat case_match; cbn [fst]; try reflexivity.
  - exists [(pid, raw)]. split; [done|]. by constructor.
  - exists []. done.
Qed.

Lemma sent_marshalType s t r b n h : sent (marshalType rand_read s t r b n h).1 = sent h.
Proof. unfold marshalType. by repeat case_match. Qed.

Lemma only_to_sendType (P : nat -> Prop) pid t r b n h : P pid ->
  only_to P h (sendType rand_read send_ok pid t r b n h).1.
Proof.
  intros HP. unfold sendType. pose proof (sent_marshalType (h_sender h) t r b n h) as Hm.
  destruct (marshalType _ _ _ _ _ _ _) as [h1 [raw|e]]; cbn [fst] in *; [|by apply only_to_same].
  transitivity h1; [by apply only_to_same|by apply only_to_sendRaw].
Qed.

Lemma only_to_replyError (P : nat -> Prop) pid msg h : P pid ->
  only_to P h (replyError rand_read send_ok pid msg h).
Proof. intros HP. by apply only_to_sendType. Qed.

(** Delivery to a list of open sessions over a network that takes every packet. *)
Lemma sendRawAll_sent l raw h : (forall n, send_ok n = true) ->
  (forall q, q ∈ l -> exists p, heap h !! q = Some p /\ sess_closed p = false) ->
  sent (sendRawAll send_ok l raw h)
  = sent h ++ map (fun q => (q, raw)) (filter (fun q => q ∈ link_active h) l).
Proof.
  intros Hnet. unfold sendRawAll. revert h. induction l as [|q l IH]; intros h Hl; cbn [foldl].
  { simpl. by rewrite app_nil_r. }
  assert (Hq : (sendRaw send_ok q raw h).1 = if decide (q ∈ link_active h) then log_send [(q, raw)] h else h).
  { destruct (Hl q) as (p & Hp & Hc); [by left|]. unfold sendRaw. rewrite Hp, Hc, Hnet.
    by destruct (decide (q ∈ link_active h)) as [Hin|Hin];
      [rewrite bool_decide_true|rewrite bool_decide_false]. }
  rewrite Hq, IH by (intros q' Hq'; destruct (Hl q') as (p & ? & ?); [by right|];
    exists p; by case_decide). rewrite filter_cons.
  destruct (decide (q ∈ link_active h)); cbn [log_send sent link_active map]; by rewrite <- ?app_assoc.
Qed.
End packets.

(** ** Relaying *)

Section relay.
Context `{C : Cbor} {PS : Type}.
Context (rand_read : nat -> option bytes) (send_ok : nat -> bool) (policy : option (HubPolicy PS)).
Implicit Types h : Hub PS.

(** The envelope the members of [room] receive for [env] from the session [p]. *)
Definition relayed (room : bytes) (p : hubPeer) (env : Envelope) : Envelope :=
  let has_nick := negb (bool_decide (sess_nick p = [])) in
  mkEnvelope ProtocolVersion (Type_ env) (MsgID env) (Timestamp env) (peerHash p) room
    (if HasBody env then Body env else ANil) (sess_nick p) [] true (HasBody env) has_nick false.

Lemma forward_relayed room p env : len (MsgID env) = MessageIDLength -> len (peerHash p) = IdentityLength ->
  forward env (Type_ env) (peerHash p) (sess_nick p) (to_room room) = Ok (relayed room p env).
Proof.
  intros Hm Hp. unfold forward, envelopeFrom. rewrite Hm, Hp. simpl. unfold relayed.
  rewrite !clone_envelope_bytes. case_bool_decide as Hn; simpl; rewrite ?Hn;
    by destruct (HasBody env).
Qed.

(** The members of a room, by session. *)
Lemma room_members_spec h room q : hub_inv h ->
  q ∈ room_members h room <-> live h q /\ is_active h q = true /\ in_room h q room = true.
Proof.
  intros Hi. unfold room_members. rewrite list_elem_of_omap. split.
  - intros (pk & Hpk & Hq). rewrite elem_of_elements in Hpk.
    apply (inv_member h Hi) in Hpk as (q' & v & Hk & Hv & Hr). rewrite Hk in Hq.
    destruct (is_active h q') eqn:Ha; [|done]. simplify_eq.
    destruct (inv_peers h Hi _ _ Hk) as (w & Hw & E & Hl & Hc). assert (w = v) as -> by congruence.
    split; [exists v; by rewrite E|]. split; [done|]. rewrite (hv_in_room h q v room Hv).
    by apply bool_decide_eq_true.
  - intros (Hl & Ha & Hin). destruct (live_registered h q Hi Hl) as (v & Hv & _ & _ & _ & Hk).
    exists (v_hash v). rewrite elem_of_elements, Hk, Ha. split; [|done].
    apply (live_member h q v Hi Hl Hv). rewrite (hv_in_room h q v room Hv) in Hin.
    by apply bool_decide_eq_true in Hin.
Qed.

Lemma peers_inj h k1 k2 q : hub_inv h -> peers h !! k1 = Some q -> peers h !! k2 = Some q -> k1 = k2.
Proof.
  intros Hi H1 H2. destruct (inv_peers h Hi _ _ H1) as (v & Hv & E1 & _).
  destruct (inv_peers h Hi _ _ H2) as (w & Hw & E2 & _). congruence.
Qed.

Lemma NoDup_omap_peers h (l : list bytes) : hub_inv h -> NoDup l ->
  NoDup (omap (fun pk => match peers h !! pk with
                  | Some pid => if is_active h pid then Some pid else None
                  | None => None end) l).
Proof.
  intros Hi. induction 1 as [|k l Hk Hnd IH]; [constructor|]. simpl.
  destruct (peers h !! k) as [q|] eqn:Hq; [|done]. destruct (is_active h q); [|done].
  constructor; [|done]. rewrite list_elem_of_omap. intros (k' & Hk' & Hq').
  destruct (peers h !! k') as [q'|] eqn:Hk2; [|done]. destruct (is_active h q'); [|done]. simplify_eq.
  by rewrite (peers_inj h k k' q Hi Hq Hk2) in Hk.
Qed.

Lemma relay_spec h pid p env raw : hub_inv h -> (forall n, send_ok n = true) ->
  heap h !! pid = Some p -> live h pid -> wf_envelope env ->
  let room := NormalizeRoom (Room env) in
  room ∈ p_rooms p ->
  (HasBody env = true -> BodySizeBytes (Body env) <= MaxMsgBodyBytes (CfgLimits (cfg h))) ->
  Marshal (Some (relayed room p env)) = Ok raw ->
  exists targets, NoDup targets
    /\ (forall q, q ∈ targets <-> live h q /\ is_active h q = true /\ in_room h q room = true)
    /\ sent (onRoomContent rand_read send_ok policy pid env h)
       = sent h ++ map (fun q => (q, raw)) (filter (fun q => q ∈ link_active h) targets).
Proof.
  intros Hi Hnet Hp Hl Hwf room Hr Hb Hm.
  assert (Hv : hv h pid = Some (view p)) by (unfold hv; by rewrite Hp).
  exists (room_members h room). split; [apply NoDup_omap_peers; [done|apply NoDup_elements]|].
  split; [intros q; by apply room_members_spec|].
  destruct (inv_names h Hi pid (view p) room Hv Hr) as [Hne _].
  unfold onRoomContent. fold room. rewrite bool_decide_false by done.
  replace (HasBody env && (MaxMsgBodyBytes (CfgLimits (cfg h)) <? BodySizeBytes (Body env))) with false
    by (destruct (HasBody env); [|done]; symmetry; apply Z.ltb_ge; auto).
  rewrite (hv_in_room h pid (view p) room Hv). cbn [v_rooms view]. rewrite bool_decide_true by done.
  cbn [negb andb]. rewrite (hv_peer_hash h pid (view p) Hv), (hv_getNick h pid (view p) Hv).
  cbn [view v_hash v_nick]. rewrite forward_relayed by
    (apply Hwf || (destruct Hl as (v & Hv' & _ & ?); simplify_eq; done)).
  cbn [mbind res_bind]. rewrite Hm. cbn [event sent]. apply sendRawAll_sent; [done|].
  intros q Hq%room_members_spec; [|done]. destruct Hq as ((w & Hw & Hc & _) & _). unfold hv in Hw.
  destruct (heap h !! q) as [x|]; [|done]. exists x. by simplify_eq/=.
Qed.

(** C9: content relayed for a room member goes to exactly the connected,
    welcomed sessions that have joined the room (the sender's own included), once
    each, over the links still up; and whatever sender the incoming envelope
    claims, the relayed one carries the authenticated identity and the
    nickname of the session it came from, with the message id, timestamp and
    body kept and the room in normalised form. *)
Theorem hub_relay h pid p env raw : hub_inv h -> (forall n, send_ok n = true) ->
  heap h !! pid = Some p -> live h pid -> wf_envelope env ->
  let room := NormalizeRoom (Room env) in
  room ∈ p_rooms p ->
  (HasBody env = true -> BodySizeBytes (Body env) <= MaxMsgBodyBytes (CfgLimits (cfg h))) ->
  Marshal (Some (relayed room p env)) = Ok raw ->
  exists targets, NoDup targets
    /\ (forall q, q ∈ targets <-> live h q /\ is_active h q = true /\ in_room h q room = true)
    /\ sent (onRoomContent rand_read send_ok policy pid env h)
       = sent h ++ map (fun q => (q, raw)) (filter (fun q => q ∈ link_active h) targets).
Proof. apply relay_spec. Qed.
End relay.

(** ** Before HELLO *)

Section gate.
Context `{C : Cbor} {PS : Type}.
Context (rand_read : nat -> option bytes) (send_ok : nat -> bool) (policy : option (HubPolicy PS)).
Implicit Types h : Hub PS.

(** Nothing but the session [pid], which stays without rooms and unwelcomed,
    has changed, and packets went to [pid] only. *)
Definition contained pid h h' : Prop :=
  rooms h' = rooms h /\ only_to (fun q => q = pid) h h'
  /\ (forall q, q <> pid -> heap h' !! q = heap h !! q)
  /\ (forall p, heap h !! pid = Some p -> active p = false -> p_rooms p = ∅ ->
      exists p', heap h' !! pid = Some p' /\ active p' = false /\ p_rooms p' = ∅ /\ peerHash p' = peerHash p).

#[local] Instance contained_preorder pid : PreOrder (contained pid).
Proof.
  split.
  - intros h. split; [done|]. split; [reflexivity|]. split; [done|]. intros p. by exists p.
  - intros h1 h2 h3 (R1 & S1 & O1 & P1) (R2 & S2 & O2 & P2). split; [congruence|].
    split; [by transitivity h2|]. split; [intros q Hq; rewrite O2 by done; by apply O1|].
    intros p Hp Ha Hr. destruct (P1 p Hp Ha Hr) as (p1 & Hp1 & Ha1 & Hr1 & E1).
    destruct (P2 p1 Hp1 Ha1 Hr1) as (p2 & ? & ? & ? & E2). exists p2. by rewrite E2.
Qed.

Lemma contained_upd pid f h :
  (forall p, active (f p) = active p /\ p_rooms (f p) = p_rooms p /\ peerHash (f p) = peerHash p) ->
  contained pid h (upd_peer pid f h).
Proof.
  intros Hf. split; [done|]. split; [by apply only_to_same|]. split.
  - intros q Hq. simpl. by rewrite lookup_alter_ne.
  - intros p Hp Ha Hr. exists (f p). simpl. rewrite lookup_alter_eq, Hp. destruct (Hf p) as (E1 & E2 & E3).
    by rewrite E1, E2, E3.
Qed.

Lemma contained_frame pid h h' : rooms h' = rooms h -> heap h' = heap h ->
  only_to (fun q => q = pid) h h' -> contained pid h h'.
Proof.
  intros Hr Hh Ho. split; [done|]. split; [done|]. rewrite Hh. split; [done|]. intros p. by exists p.
Qed.

Lemma sendType_frame pid t r b n h :
  rooms (sendType rand_read send_ok pid t r b n h).1 = rooms h
  /\ heap (sendType rand_read send_ok pid t r b n h).1 = heap h.
Proof. unfold sendType, marshalType, sendRaw. repeat case_match; by simplify_eq/=. Qed.

Lemma contained_reply pid msg h : contained pid h (replyError rand_read send_ok pid msg h).
Proof. apply contained_frame; try apply sendType_frame. by apply only_to_replyError. Qed.

Lemma contained_nickIndex pid x h : contained pid h (set_nickIndex x h).
Proof. by apply contained_frame, only_to_same. Qed.

Lemma contained_unindex pid id old h : contained pid h (unindexNickLocked id old h).
Proof. unfold unindexNickLocked. case_bool_decide; [reflexivity|]. apply contained_nickIndex. Qed.

Lemma contained_reindex pid id old new h : contained pid h (reindexNick id old new h).
Proof.
  unfold reindexNick. etransitivity; [apply (contained_unindex pid id old)|].
  case_bool_decide; [reflexivity|]. apply contained_nickIndex.
Qed.

Lemma contained_nick pid nick h : contained pid h (applyInboundNick pid nick h).1.
Proof.
  unfold applyInboundNick. repeat case_match; cbn [fst]; try reflexivity; try by apply contained_upd.
  etransitivity; [by apply (contained_upd pid (set_nick (SanitizeNick (SanitizeNick nick))))|].
  apply contained_reindex.
Qed.

(** Closing a session that is in no room tells nobody. *)
Lemma contained_close pid p h : heap h !! pid = Some p -> p_rooms p = ∅ ->
  contained pid h (close_session rand_read send_ok pid h).
Proof.
  intros Hp Hr. unfold close_session. rewrite Hp. case_match; [reflexivity|].
  etransitivity; [by apply (contained_upd pid set_closed)|].
  set (h1 := upd_peer pid set_closed h). transitivity (set_links (link_active h1 ∖ {[pid]}) h1).
  { by apply contained_frame, only_to_same. }
  set (h2 := set_links _ h1).
  assert (Hp2 : heap h2 !! pid = Some (set_closed p)) by (simpl; by rewrite lookup_alter_eq, Hp).
  unfold dropPeerIf. rewrite Hp2. cbn [p_rooms set_closed peerHash sess_nick]. rewrite Hr, elements_empty.
  cbn [foldl]. case_match; [reflexivity|]. case_match; [|reflexivity]. case_match; [reflexivity|].
  set (h3 := set_peers _ h2). transitivity h3; [by apply contained_frame, only_to_same|].
  etransitivity; [apply (contained_unindex pid (peerKey (peerHash p)) (sess_nick p))|]. set (h4 := unindexNickLocked _ _ h3).
  assert (Hh4 : heap h4 = heap h2) by (unfold h4; by destruct (unindex_frame (peerKey (peerHash p)) (sess_nick p) h3) as (_&_&->&_)).
  split; [done|]. split; [by apply only_to_same|]. split.
  - intros q Hq. simpl. by rewrite lookup_alter_ne.
  - intros x Hx Ha _. exists (set_prooms ∅ x). simpl. by rewrite lookup_alter_eq, Hx.
Qed.

Lemma contained_handleNick pid p env h : heap h !! pid = Some p -> active p = false -> p_rooms p = ∅ ->
  contained pid h (handleNick rand_read send_ok pid env false h).1.
Proof.
  intros Hp Ha Hr.
  assert (Hclose : forall n, contained pid h
    (close_session rand_read send_ok pid (replyError rand_read send_ok pid (lit "nickname too long")
      (applyInboundNick pid n h).1))).
  { intros n. pose proof (transitivity (contained_nick pid n h)
      (contained_reply pid (lit "nickname too long") (applyInboundNick pid n h).1)) as Hc.
    etransitivity; [exact Hc|]. destruct Hc as (_ & _ & _ & Hk).
    destruct (Hk p Hp Ha Hr) as (p' & Hp' & _ & Hr' & _). by apply (contained_close pid p'). }
  unfold handleNick. repeat case_match; simplify_eq/=; try reflexivity;
    match goal with H : applyInboundNick pid ?n h = (?h1, _) |- _ =>
      pose proof (contained_nick pid n h) as Hn; specialize (Hclose n); rewrite H in Hn, Hclose end;
    done.
Qed.

End gate.

(** ** The invariant and the abstract hub *)

(** What the public queries say, in terms of the abstract table. *)
Lemma queries_abs {PS} (h : Hub PS) key room : hub_inv h -> len key = IdentityLength ->
  (HasPeer h key = true <-> is_Some (abs h !! key))
  /\ (IsMember h key room = true <-> exists rs, abs h !! key = Some rs /\ NormalizeRoom room ∈ rs)
  /\ (key ∈ RoomMembers h room <-> exists rs, abs h !! key = Some rs /\ NormalizeRoom room ∈ rs).
Proof.
  intros Hi Hl. set (r := NormalizeRoom room).
  assert (Hm : key ∈ members (rooms h) r <-> exists rs, abs h !! key = Some rs /\ r ∈ rs).
  { rewrite (inv_member h Hi). unfold abs. rewrite lookup_fmap. split.
    - intros (q & v & Hq & Hv & Hr). exists (v_rooms v). rewrite Hq. simpl. unfold rooms_of. by rewrite Hv.
    - intros (rs & Hrs & Hr). destruct (peers h !! key) as [q|] eqn:Hq; [|done]. simpl in Hrs. simplify_eq.
      unfold rooms_of in Hr. destruct (hv h q) as [v|] eqn:Hv; [|set_solver]. by exists q, v. }
  split; [|split].
  - unfold HasPeer, abs. rewrite peerKey_id, bool_decide_eq_true, lookup_fmap by done. by rewrite fmap_is_Some.
  - unfold IsMember, abs. rewrite peerKey_id, lookup_fmap by done. fold r.
    destruct (peers h !! key) as [q|] eqn:Hq; simpl; [|naive_solver].
    destruct (inv_peers h Hi _ _ Hq) as (v & Hv & _). rewrite (hv_in_room h q v r Hv), bool_decide_eq_true.
    unfold rooms_of. rewrite Hv. naive_solver.
  - rewrite <- Hm. unfold RoomMembers. fold r. rewrite list_elem_of_omap. change (default ∅ (rooms h !! r)) with (members (rooms h) r).
    setoid_rewrite elem_of_elements. split.
    + intros (k & Hk & Hh). destruct (peers h !! k) as [q|] eqn:Hq; [|done]. simpl in Hh. simplify_eq.
      destruct (inv_peers h Hi _ _ Hq) as (v & Hv & E & _). by rewrite (hv_peer_hash h q v Hv), E.
    + intros Hk. exists key. split; [done|]. apply (inv_member h Hi) in Hk as (q & v & Hq & Hv & _).
      rewrite Hq. simpl. destruct (inv_peers h Hi _ _ Hq) as (w & Hw & E & _).
      by rewrite (hv_peer_hash h q w Hw), E.
Qed.

Section reach.
Context `{C : Cbor} {PS : Type}.
Context (rand_read : nat -> option bytes) (send_ok : nat -> bool) (policy : option (HubPolicy PS)).
Implicit Types h : Hub PS.


End reach.

(** ** A small session *)

Module demo.
Definition rand (_ : nat) : option bytes := Some (replicate 8 x55).
Definition net (_ : nat) : bool := true.
Definition config : HubConfig :=
  mkConfig (lit "hub") [] zero_limits false false 0 None.
Definition hub_id : bytes := replicate 16 xff.
Definition alice : bytes := replicate 16 x0a.
Definition bob : bytes := replicate 16 x0b.

(** A packet of type [t] that claims to come from [sender]. *)
Definition packet (t : Z) (sender room : bytes) (body : any) (nick : bytes) : bytes :=
  match @Marshal ref_cbor (Some (fill (bare_envelope t sender (replicate 8 x01) 1000) room body nick)) with
  | Ok raw => raw | Err _ => [] end.

Section run.
Context {PS : Type} (policy : option (HubPolicy PS)).
Definition accept (pid : nat) (h : Hub PS) : Hub PS :=
  acceptLink (C := ref_cbor) rand net policy pid (set_env ({[pid]} ∪ link_active h) (link_identity h) (clock h) h).
Definition identify (pid : nat) (id : bytes) (h : Hub PS) : Hub PS :=
  register (C := ref_cbor) rand net policy pid id
    (set_env (link_active h) (<[pid := id]> (link_identity h)) (clock h) h).
Definition deliver (pid : nat) (data : bytes) (h : Hub PS) : Hub PS :=
  handleInbound (C := ref_cbor) rand net policy pid data h.

(** A link comes up, shows its identity, greets and joins a room. *)
Definition enter (pid : nat) (id nick room : bytes) (h : Hub PS) : Hub PS :=
  deliver pid (packet TypeJoin id room ANil []) (deliver pid (packet TypeHello id [] ANil nick)
    (identify pid id (accept pid h))).
End run.

Definition start : Hub unit := NewHub config hub_id tt.
Definition one : Hub unit := enter None 1 alice (lit "alice") (lit "#Lobby") start.
Definition two : Hub unit := enter None 2 bob (lit "bob") (lit "#lobby") one.

Notation steps := (rtc (hub_step (C := ref_cbor) rand net None)).

Lemma enter_steps pid id nick room (h : Hub unit) p1 p2 p3 : heap h !! pid = None ->
  let h1 := accept None pid h in
  let h2 := identify None pid id h1 in
  let h3 := deliver None pid (packet TypeHello id [] ANil nick) h2 in
  heap h1 !! pid = Some p1 -> sess_closed p1 = false -> link_identity h1 !! pid = None ->
  heap h2 !! pid = Some p2 -> sess_closed p2 = false ->
  heap h3 !! pid = Some p3 -> sess_closed p3 = false -> steps h (enter None pid id nick room h).
Proof.
  intros H0 h1 h2 h3 H1 C1 L1 H2 C2 H3 C3. eapply rtc_l; [by apply step_accept|].
  eapply rtc_l; [by eapply step_identified|]. eapply rtc_l; [by eapply step_deliver|].
  apply rtc_once. by eapply step_deliver.
Qed.

Lemma one_steps : steps start one.
Proof. eapply enter_steps; vm_compute; reflexivity. Qed.

Lemma two_steps : steps start two.
Proof. transitivity one; [apply one_steps|]. eapply enter_steps; vm_compute; reflexivity. Qed.

Lemma steps_orderly (h h' : Hub unit) : steps h h' -> orderly (C := ref_cbor) rand net None h h'.
Proof. by apply open_orderly. Qed.

Lemma two_inv : hub_inv two.
Proof. exact (proj1 (orderly_safe (C := ref_cbor) rand net None I config hub_id tt two (steps_orderly _ _ two_steps))). Qed.

Lemma two_accept_inv : hub_inv (accept None 3 two).
Proof.
  apply (orderly_safe (C := ref_cbor) rand net None I config hub_id tt), steps_orderly.
  eapply rtc_r; [apply two_steps|]. by apply step_accept.
Qed.
End demo.



Definition demo_spoof : Envelope :=
  fill (bare_envelope TypeMsg demo.bob (replicate 8 x01) 1000) (lit " #LOBBY ") (AStr (lit "hi")) [].

Lemma live_intro {PS} (h : Hub PS) pid v : hv h pid = Some v -> v_closed v = false ->
  len (v_hash v) = IdentityLength -> live h pid.
Proof. intros Hv Hc Hl. by exists v. Qed.

(** Alice's session, and what the room gets for the packet that claims to be
    from Bob. *)
Definition demo_peer : hubPeer := default (fresh_peer demo.start) (heap demo.two !! 1%nat).
Definition demo_relayed : Envelope := relayed (NormalizeRoom (Room demo_spoof)) demo_peer demo_spoof.
Definition demo_raw : bytes := match @Marshal ref_cbor (Some demo_relayed) with Ok r => r | Err _ => [] end.

Lemma default_some {A} (d : A) o : bool_decide (is_Some o) = true -> o = Some (default d o).
Proof. destruct o; [done|]. intros H. apply bool_decide_eq_true in H as [? ?]. done. Qed.

Lemma hub_relay_witness : exists targets,
  sent (onRoomContent (C := ref_cbor) demo.rand demo.net None 1 demo_spoof demo.two)
    = sent demo.two ++ map (fun q => (q, demo_raw)) (filter (fun q => q ∈ link_active demo.two) targets)
  /\ @UnmarshalEnvelope ref_cbor demo_raw = Ok demo_relayed /\ Sender demo_relayed = demo.alice
  /\ 2%nat ∈ targets.
Proof.
  destruct (hub_relay (C := ref_cbor) demo.rand demo.net None demo.two 1 demo_peer demo_spoof demo_raw)
    as (targets & _ & Ht & Hs).
  - exact demo.two_inv.
  - reflexivity.
  - apply default_some. vm_compute. reflexivity.
  - eapply live_intro; vm_compute; reflexivity.
  - repeat split; reflexivity || discriminate.
  - apply (bool_decide_unpack _). vm_compute. exact I.
  - intros _. vm_compute. discriminate.
  - vm_compute. reflexivity.
  - exists targets. split; [exact Hs|]. split; [vm_compute; reflexivity|]. split; [vm_compute; reflexivity|].
    apply Ht. split; [eapply live_intro; vm_compute; reflexivity|]. split; vm_compute; reflexivity.
Defined.


(** ** Taking an identity over *)

Section takeover.
Context `{C : Cbor} {PS : Type}.
Context (rand_read : nat -> option bytes) (send_ok : nat -> bool).
Implicit Types h : Hub PS.

Lemma register_view h pid p hash : hub_inv h -> heap h !! pid = Some p -> registered p = false ->
  pendingHello p = None -> len hash = IdentityLength ->
  view_eq (taken_over pid hash h) (register rand_read send_ok None pid hash h).
Proof.
  intros Hi Hp Hr Hpend Hl. pose proof (after_once_view rand_read send_ok h pid p hash Hi Hp Hr Hl) as Hve.
  rewrite register_eq by done. unfold ask_policy. cbn [fst]. etransitivity; [exact Hve|].
  destruct Hve as (_ & _ & _ & _ & Hv & _).
  apply (take_pending_none rand_read send_ok None _ pid (view (set_hash hash p))).
  - by rewrite Hv, (hv_taken_over h pid p), decide_True.
  - simpl. by rewrite Hpend.
Qed.

Lemma LookupNick_elem h key q nick : peers h !! key = Some q -> peer_hash h q = key ->
  key ∈ members (nickIndex h) (nickKey nick) -> key ∈ LookupNick h nick.
Proof.
  intros Hq Hh Hm. unfold LookupNick. rewrite list_elem_of_omap. exists key.
  change (default ∅ (nickIndex h !! nickKey nick)) with (members (nickIndex h) (nickKey nick)).
  rewrite elem_of_elements, Hq. simpl. by rewrite Hh.
Qed.

(** When a second link shows an identity that is already connected, the new
    session takes the identity over: the old one is closed, the identity is in no
    room and every other identity is untouched.  The nickname of the closed
    session stays in the index: [LookupNick] answers with the identity, whose new
    session has no nickname. *)
Theorem hub_takeover h pid p hash prev old : hub_inv h ->
  heap h !! pid = Some p -> registered p = false -> sess_closed p = false -> pendingHello p = None ->
  len hash = IdentityLength -> peers h !! hash = Some prev -> heap h !! prev = Some old ->
  let h' := register rand_read send_ok None pid hash h in
  PeerLink h' hash = Some pid
  /\ (exists q, heap h' !! prev = Some q /\ sess_closed q = true)
  /\ (forall room, IsMember h' hash room = false /\ ~ hash ∈ RoomMembers h' room)
  /\ (forall key, key <> hash -> abs h' !! key = abs h !! key)
  /\ (nickKey (sess_nick old) <> [] -> HubNick h' hash = [] /\ hash ∈ LookupNick h' (sess_nick old)).
Proof.
  intros Hi Hp Hr Hc Hpend Hl Hprev Hold h'.
  pose proof (register_view h pid p hash Hi Hp Hr Hpend Hl) as Hve. fold h' in Hve.
  assert (Hi' : hub_inv h') by (rewrite <- Hve; apply (transfer_inv h); [done|by apply (taken_over_transfer h pid p)]).
  assert (Ha : abs h' = <[hash := ∅]> (abs h)) by (rewrite (abs_view _ _ Hve); by apply (abs_taken_over h pid p)).
  destruct Hve as (Ep & Er & En & _ & Ev & _). rewrite peers_taken_over in Ep.
  assert (Hv' : hv h' pid = Some (view (set_hash hash p))) by by rewrite Ev, (hv_taken_over h pid p), decide_True.
  split; [unfold PeerLink; by rewrite peerKey_id, Ep, lookup_insert_eq|]. split; [|split; [|split]].
  - assert (Hov : hv h' prev = Some (closed_view (view old))).
    { pose proof (holder_other h pid p prev hash Hi Hp Hr Hprev) as Hne.
      rewrite Ev, (hv_taken_over h pid p), decide_False, decide_True by done. unfold hv. by rewrite Hold. }
    unfold hv in Hov. destruct (heap h' !! prev) as [q|]; [|done]. exists q. split; [done|].
    assert (E : Some (sess_closed q) = Some true) by exact (f_equal (option_map v_closed) Hov). by injection E.
  - intros room. destruct (queries_abs h' hash room Hi' Hl) as (_ & Hm & Hin).
    assert (Hno : ~ exists rs, abs h' !! hash = Some rs /\ NormalizeRoom room ∈ rs)
      by (rewrite Ha, lookup_insert_eq; intros (rs & [= <-] & Hr'); by apply not_elem_of_empty in Hr').
    split; [|by rewrite Hin]. destruct (IsMember h' hash room); [|done]. by destruct Hno; apply Hm.
  - intros key Hk. by rewrite Ha, lookup_insert_ne.
  - intros Hn. assert (Hvo : hv h prev = Some (view old)) by (unfold hv; by rewrite Hold). split.
    + unfold HubNick. rewrite peerKey_id, Ep, lookup_insert_eq, (hv_getNick h' pid _ Hv') by done.
      assert (Hv : hv h pid = Some (view p)) by (unfold hv; by rewrite Hp).
      by destruct (inv_unreg h Hi pid _ Hv (inv_reg h Hi pid _ Hv Hr)) as (_ & _ & ?).
    + apply (LookupNick_elem h' hash pid); [by rewrite Ep, lookup_insert_eq|by rewrite (hv_peer_hash h' pid _ Hv')|].
      rewrite En. replace (nickIndex (taken_over pid hash h)) with (nickIndex h)
        by (unfold taken_over; by destruct (peers h !! hash)).
      by apply (inv_nick h Hi hash prev (view old)).
Qed.
End takeover.

Lemma hub_takeover_witness :
  let h := demo.accept None 3 demo.two in
  let h' := register (C := ref_cbor) demo.rand demo.net None 3 demo.alice h in
  PeerLink h' demo.alice = Some 3%nat /\ HubNick h' demo.alice = []
  /\ demo.alice ∈ LookupNick h' (lit "alice").
Proof.
  set (h := demo.accept None 3 demo.two). cbv zeta.
  destruct (hub_takeover (C := ref_cbor) demo.rand demo.net h 3 (fresh_peer demo.two) demo.alice 1
    (default (fresh_peer demo.two) (heap h !! 1%nat))) as (H1 & _ & _ & _ & H2).
  - apply demo.two_accept_inv.
  - vm_compute. reflexivity.
  - reflexivity.
  - reflexivity.
  - reflexivity.
  - reflexivity.
  - vm_compute. reflexivity.
  - apply default_some. vm_compute. reflexivity.
  - split; [exact H1|]. apply H2. vm_compute. discriminate.
Defined.

(** ** Direct notices *)

Section direct.
Context `{C : Cbor} {PS : Type}.
Context (rand_read : nat -> option bytes) (send_ok : nat -> bool).
Implicit Types h : Hub PS.

(** The envelope the destination receives. *)
Definition directed (p : hubPeer) (env : Envelope) : Envelope :=
  let has_nick := negb (bool_decide (sess_nick p = [])) in
  mkEnvelope ProtocolVersion TypeNotice (MsgID env) (Timestamp env) (peerHash p) []
    (if HasBody env then Body env else ANil) (sess_nick p) (Destination env) false (HasBody env) has_nick true.

Lemma forward_directed p env : len (MsgID env) = MessageIDLength -> len (peerHash p) = IdentityLength ->
  forward env TypeNotice (peerHash p) (sess_nick p) (to_destination (Destination env)) = Ok (directed p env).
Proof.
  intros Hm Hp. unfold forward, envelopeFrom. rewrite Hm, Hp. simpl. unfold directed.
  rewrite !clone_envelope_bytes. case_bool_decide as Hn; simpl; rewrite ?Hn; by destruct (HasBody env).
Qed.

Lemma only_to_event (P : nat -> Prop) e h h' : only_to P h h' -> only_to P h (event e h').
Proof. done. Qed.

Lemma view_directNotice pid env h : view_eq h (onDirectNotice rand_read send_ok pid env h).
Proof.
  unfold onDirectNotice. repeat case_match; try apply view_replyError; try reflexivity.
  all: etransitivity; [apply view_sendEnvelope|apply view_event].
Qed.

(** A direct notice reaches nobody but its destination: packets go to the
    session connected under the destination identity or back to the sender, and
    no table changes.  When the notice is well formed and the destination is
    connected and welcomed over a working link, that session receives it,
    stamped with the sender's authenticated identity whatever the envelope
    claims. *)
Theorem hub_direct_notice h pid p env : hub_inv h -> heap h !! pid = Some p -> live h pid -> wf_envelope env ->
  let h' := onDirectNotice rand_read send_ok pid env h in
  view_eq h h'
  /\ only_to (fun q => q = pid \/ PeerLink h (Destination env) = Some q) h h'
  /\ (forall q raw, HasRoom env = false -> HasDestination env = true ->
      (HasBody env = true -> BodySizeBytes (Body env) <= MaxMsgBodyBytes (CfgLimits (cfg h))) ->
      PeerLink h (Destination env) = Some q -> is_active h q = true -> q ∈ link_active h ->
      (forall n, send_ok n = true) -> Marshal (Some (directed p env)) = Ok raw ->
      sent h' = sent h ++ [(q, raw)]).
Proof.
  intros Hi Hp Hl Hwf h'. split; [apply view_directNotice|]. split.
  - unfold h', onDirectNotice, PeerLink.
    repeat (match goal with |- context [if ?b then replyError _ _ _ _ _ else _] => destruct b end;
      [apply only_to_replyError; by left|]).
    destruct (peers h !! peerKey (Destination env)) as [q|] eqn:Hq; [|apply only_to_replyError; by left].
    destruct (is_active h q); cbn [negb]; [|apply only_to_replyError; by left].
    destruct (forward _ _ _ _ _); [|reflexivity]. apply only_to_event. unfold sendEnvelope.
    case_match; [|reflexivity]. apply only_to_sendRaw. by right.
  - intros q raw Hroom Hdst Hb Hq Ha Hlink Hnet Hm. unfold h', onDirectNotice.
    assert (Hv : hv h pid = Some (view p)) by (unfold hv; by rewrite Hp).
    pose proof Hwf as (_ & HmID & _ & _ & _ & _ & Hd). rewrite Hdst in Hd.
    rewrite Hroom, Hdst, Hd. cbn [negb orb]. change (IdentityLength =? IdentityLength) with true. cbn [negb].
    replace (HasBody env && (MaxMsgBodyBytes (CfgLimits (cfg h)) <? BodySizeBytes (Body env))) with false
      by (destruct (HasBody env); [|done]; symmetry; apply Z.ltb_ge; auto).
    unfold PeerLink in Hq. rewrite Hq, Ha. cbn [negb].
    rewrite (hv_peer_hash h pid (view p) Hv), (hv_getNick h pid (view p) Hv). cbn [view v_hash v_nick].
    rewrite forward_directed by (done || (destruct Hl as (v & Hv' & _ & ?); simplify_eq; done)).
    cbn [event sent]. unfold sendEnvelope, sendRaw. rewrite Hm.
    destruct (inv_peers h Hi _ _ Hq) as (w & Hw & _ & _ & Hcw). unfold hv in Hw.
    destruct (heap h !! q) as [x|]; [|done]. simplify_eq/=. rewrite Hcw, bool_decide_true by done. simpl.
    by rewrite Hnet.
Qed.
End direct.

Definition demo_whisper : Envelope :=
  mkEnvelope 1 TypeNotice (replicate 8 x01) 1000 demo.bob [] (AStr (lit "psst")) [] demo.bob false true false true.

Lemma hub_direct_notice_witness :
  let h' := onDirectNotice (C := ref_cbor) demo.rand demo.net 1 demo_whisper demo.two in
  exists raw, sent h' = sent demo.two ++ [(2%nat, raw)]
    /\ @UnmarshalEnvelope ref_cbor raw = Ok (directed demo_peer demo_whisper).
Proof.
  destruct (hub_direct_notice (C := ref_cbor) demo.rand demo.net demo.two 1 demo_peer demo_whisper)
    as (_ & _ & H).
  - exact demo.two_inv.
  - apply default_some. vm_compute. reflexivity.
  - eapply live_intro; vm_compute; reflexivity.
  - repeat split; reflexivity || discriminate.
  - exists (match @Marshal ref_cbor (Some (directed demo_peer demo_whisper)) with Ok r => r | Err _ => [] end).
    split; [apply H|vm_compute; reflexivity].
    + reflexivity.
    + reflexivity.
    + intros _. vm_compute. discriminate.
    + vm_compute. reflexivity.
    + vm_compute. reflexivity.
    + apply (bool_decide_unpack _). vm_compute. exact I.
    + reflexivity.
    + vm_compute. reflexivity.
Defined.

(** ** The rate limit *)

(** How many of [n] messages at one instant a bucket lets through. *)
Fixpoint burst (n : nat) (limit now : Z) (tok : f64) (last : Z) : nat :=
  match n with
  | O => O
  | S n =>
      let '(ok, tok, last) := take_token limit now tok last in
      (if ok then 1 else 0)%nat + burst n limit now tok last
  end%nat.

(** The clock only enters through the elapsed time. *)
Lemma burst_shift n limit now tok : burst n limit now tok now = burst n limit 0 tok 0.
Proof.
  revert tok. assert (Ht : forall tok, take_token limit now tok now =
    let '(ok, tok', last) := take_token limit 0 tok 0 in (ok, tok', now)).
  { intros tok. unfold take_token. replace (time_Sub now now) with (time_Sub 0 0)
      by (unfold time_Sub; by rewrite !Z.sub_diag).
    destruct (limit =? 0); [done|]. by destruct (fltb _ _). }
  assert (Ht0 : forall tok, (take_token limit 0 tok 0).2 = 0).
  { intros tok. unfold take_token. destruct (limit =? 0); [done|]. by destruct (fltb _ (f_of_Z 1)). }
  induction n as [|n IH]; intros tok; simpl; [done|]. rewrite Ht. specialize (Ht0 tok).
  destruct (take_token limit 0 tok 0) as [[ok tok'] last]. simpl in Ht0. subst. by rewrite IH.
Qed.

(** The bucket after [n] messages at one instant. *)
Fixpoint drain (n : nat) (limit : Z) (tok : f64) : f64 :=
  match n with O => tok | S n => drain n limit (take_token limit 0 tok 0).1.2 end.

Lemma take_token_last limit tok : (take_token limit 0 tok 0).2 = 0.
Proof. unfold take_token. destruct (limit =? 0); [done|]. by destruct (fltb _ (f_of_Z 1)). Qed.

Lemma burst_app n m limit tok :
  burst (n + m) limit 0 tok 0 = (burst n limit 0 tok 0 + burst m limit 0 (drain n limit tok) 0)%nat.
Proof.
  revert tok. induction n as [|n IH]; intros tok; simpl; [done|]. pose proof (take_token_last limit tok) as Hl.
  destruct (take_token limit 0 tok 0) as [[ok tok'] last]. simpl in *. subst. rewrite IH. lia.
Qed.

Lemma burst_empty n limit : take_token limit 0 (f_of_Z 0) 0 = (false, f_of_Z 0, 0) ->
  burst n limit 0 (f_of_Z 0) 0 = O.
Proof. intros H. induction n as [|n IH]; cbn [burst]; [done|]. by rewrite H, IH. Qed.

Definition burst_ok (limit : Z) : bool :=
  let n := Z.to_nat limit in
  Nat.eqb (burst n limit 0 (f_of_Z limit) 0) n
  && match drain n limit (f_of_Z limit) with S754_zero false => true | _ => false end
  && match take_token limit 0 (S754_zero false) 0 with (false, S754_zero false, 0) => true | _ => false end.

Lemma burst_ok_spec limit extra : burst_ok limit = true ->
  burst (Z.to_nat limit + extra) limit 0 (f_of_Z limit) 0 = Z.to_nat limit.
Proof.
  unfold burst_ok. intros H. apply andb_true_iff in H as [[H1 H2]%andb_true_iff H3].
  apply Nat.eqb_eq in H1. rewrite burst_app, H1.
  destruct (drain (Z.to_nat limit) limit (f_of_Z limit)) as [[]| | |]; try done.
  change (S754_zero false) with (f_of_Z 0) at 1. rewrite (burst_empty extra limit); [lia|].
  change (f_of_Z 0) with (S754_zero false).
  by destruct (take_token limit 0 (S754_zero false) 0) as [[[] [[]| | |]] []].
Qed.

(** A session that starts with a full bucket gets exactly [limit] messages
    through at one instant, however many it sends, for every limit up to 120
    per minute (the default is 60), in the binary64 arithmetic of the code. *)
Theorem hub_burst limit now extra : 1 <= limit <= 120 ->
  burst (Z.to_nat limit + extra) limit now (f_of_Z limit) now = Z.to_nat limit.
Proof.
  intros Hl. rewrite burst_shift. apply burst_ok_spec.
  assert (Hall : forallb burst_ok (seqZ 1 120) = true) by (vm_compute; reflexivity).
  rewrite forallb_forall in Hall. apply Hall. rewrite <- list_elem_of_In, elem_of_seqZ. lia.
Qed.

Lemma hub_burst_witness : burst 1000 60 1700000000000000000 (f_of_Z 60) 1700000000000000000 = 60%nat.
Proof. apply (hub_burst 60 1700000000000000000 940). lia. Defined.

(** ** A refused peer *)

(** A policy that refuses every identity while its flag is set. *)
Definition ban_policy : HubPolicy bool :=
  let keep (h : Hub bool) := h in
  let allow (h : Hub bool) := (h, @None bytes) in
  mkPolicy bool (fun _ => keep) (fun _ h => (h, if pol_state h then Some (lit "banned") else None))
    (fun _ => keep) (fun _ _ _ => allow) (fun _ _ => keep) (fun _ _ => keep) (fun _ _ => allow)
    (fun _ _ h => (h, false)) (fun _ => keep) (fun _ _ => allow).

Definition set_banned (h : Hub bool) : Hub bool :=
  mkHub bool (cfg h) (h_sender h) (peers h) (rooms h) (nickIndex h) (started h) (heap h) (link_active h)
    (link_identity h) (clock h) (draws h) (tried h) (sent h) (events h) true.

Definition banned_join : Hub bool :=
  demo.deliver (Some ban_policy) 1 (demo.packet TypeJoin demo.alice (lit "#den") ANil [])
    (set_banned (demo.enter (Some ban_policy) 1 demo.alice (lit "alice") (lit "#lobby")
      (NewHub demo.config demo.hub_id false))).

(** The message that makes the policy refuse a connected peer is still
    handled after the peer is dropped: a JOIN leaves the identity in the room
    table although it is not connected, a membership no later disconnect can
    remove. *)
Theorem hub_refused_ghost :
  HasPeer banned_join demo.alice = false
  /\ members (rooms banned_join) (lit "#den") = {[demo.alice]}
  /\ members (rooms banned_join) (lit "#lobby") = ∅
  /\ Disconnect (C := ref_cbor) demo.rand demo.net demo.alice banned_join = banned_join.
Proof.
  split; [vm_compute; reflexivity|]. split; [apply (bool_decide_unpack _); vm_compute; exact I|].
  split; [apply (bool_decide_unpack _); vm_compute; exact I|]. unfold Disconnect.
  replace (peers banned_join !! peerKey demo.alice) with (@None nat) by (vm_compute; reflexivity). done.
Qed.
