(* ===== verification/RrcClient.v ===== *)
(** * The RRC client ([pkg/rrc/client.go], with its [session])

    The client is one state machine over one link: [Dial] brings the link up
    and sends HELLO, packets from the hub move the state, the public calls send
    packets.  The link, the clock and the random source are the environment,
    as for the hub; [c_sent] is what the link accepted and [c_events] the
    callbacks made, oldest first. *)

From stdpp Require Import base tactics list gmap sets strings.
From Stdlib Require Import ZArith Lia.
From S2P Require Import Prelude GoText HexHash Cbor CborRef RrcRoom RrcEnvelope RrcBodies GoFloat RrcHub.

(** ** State *)

Inductive ClientState := ClientConnected | ClientAwaitingWelcome | ClientActive | ClientDisconnected.

#[export] Instance ClientState_eq_dec : EqDecision ClientState.
Proof. solve_decision. Defined.

Record ClientConfig := mkClientConfig {
  cc_nick : bytes; cc_name : bytes; cc_version : bytes; cc_caps : option umap;
}.

(** [ClientHandlers]: the calls made. *)
Inductive client_event :=
| CeWelcome (body : WelcomeBody) (env : Envelope)
| CeJoined (room : bytes) (members : list bytes) (env : Envelope)
| CeParted (room : bytes) (env : Envelope)
| CeMsg (env : Envelope) | CeNotice (env : Envelope) | CeAction (env : Envelope)
| CeError (env : Envelope) | CePong (env : Envelope) | CeResource (env : Envelope)
| CeClose.

Record Client := mkClient {
  c_sender : bytes;
  c_state : ClientState;
  c_nick : bytes; c_closed : bool;
  c_rooms : gset bytes; c_pending : gset bytes;
  c_welcome : option WelcomeBody;
  c_lastErr : option rrc_error;
  (** the channel [Dial] waits on, and whether it still does *)
  welcomeCh : option Envelope; dialing : bool;
  (** environment *)
  link_up : bool; c_clock : Z; c_draws : nat; c_tried : nat;
  c_sent : list bytes; c_events : list client_event;
}.

Definition set_c_state x c := mkClient (c_sender c) x (c_nick c) (c_closed c) (c_rooms c) (c_pending c)
  (c_welcome c) (c_lastErr c) (welcomeCh c) (dialing c) (link_up c) (c_clock c) (c_draws c) (c_tried c) (c_sent c) (c_events c).
Definition set_c_nick x c := mkClient (c_sender c) (c_state c) x (c_closed c) (c_rooms c) (c_pending c)
  (c_welcome c) (c_lastErr c) (welcomeCh c) (dialing c) (link_up c) (c_clock c) (c_draws c) (c_tried c) (c_sent c) (c_events c).
Definition set_c_closed c := mkClient (c_sender c) (c_state c) (c_nick c) true (c_rooms c) (c_pending c)
  (c_welcome c) (c_lastErr c) (welcomeCh c) (dialing c) (link_up c) (c_clock c) (c_draws c) (c_tried c) (c_sent c) (c_events c).
Definition set_c_rooms x y c := mkClient (c_sender c) (c_state c) (c_nick c) (c_closed c) x y
  (c_welcome c) (c_lastErr c) (welcomeCh c) (dialing c) (link_up c) (c_clock c) (c_draws c) (c_tried c) (c_sent c) (c_events c).
Definition set_c_welcome x c := mkClient (c_sender c) (c_state c) (c_nick c) (c_closed c) (c_rooms c) (c_pending c)
  (Some x) (c_lastErr c) (welcomeCh c) (dialing c) (link_up c) (c_clock c) (c_draws c) (c_tried c) (c_sent c) (c_events c).
Definition set_welcomeCh x c := mkClient (c_sender c) (c_state c) (c_nick c) (c_closed c) (c_rooms c) (c_pending c)
  (c_welcome c) (c_lastErr c) x (dialing c) (link_up c) (c_clock c) (c_draws c) (c_tried c) (c_sent c) (c_events c).
Definition dial_done c := mkClient (c_sender c) (c_state c) (c_nick c) (c_closed c) (c_rooms c) (c_pending c)
  (c_welcome c) (c_lastErr c) None false (link_up c) (c_clock c) (c_draws c) (c_tried c) (c_sent c) (c_events c).
Definition setErr e c := mkClient (c_sender c) (c_state c) (c_nick c) (c_closed c) (c_rooms c) (c_pending c)
  (c_welcome c) (Some e) (welcomeCh c) (dialing c) (link_up c) (c_clock c) (c_draws c) (c_tried c) (c_sent c) (c_events c).
Definition set_link_up x t c := mkClient (c_sender c) (c_state c) (c_nick c) (c_closed c) (c_rooms c) (c_pending c)
  (c_welcome c) (c_lastErr c) (welcomeCh c) (dialing c) x t (c_draws c) (c_tried c) (c_sent c) (c_events c).
Definition c_draw c := mkClient (c_sender c) (c_state c) (c_nick c) (c_closed c) (c_rooms c) (c_pending c)
  (c_welcome c) (c_lastErr c) (welcomeCh c) (dialing c) (link_up c) (c_clock c) (S (c_draws c)) (c_tried c) (c_sent c) (c_events c).
Definition c_log out c := mkClient (c_sender c) (c_state c) (c_nick c) (c_closed c) (c_rooms c) (c_pending c)
  (c_welcome c) (c_lastErr c) (welcomeCh c) (dialing c) (link_up c) (c_clock c) (c_draws c) (S (c_tried c)) (c_sent c ++ out) (c_events c).
Definition c_event e c := mkClient (c_sender c) (c_state c) (c_nick c) (c_closed c) (c_rooms c) (c_pending c)
  (c_welcome c) (c_lastErr c) (welcomeCh c) (dialing c) (link_up c) (c_clock c) (c_draws c) (c_tried c) (c_sent c) (c_events c ++ [e]).

Section client.
Context `{C : Cbor}.
Context (rand_read : nat -> option bytes) (send_ok : nat -> bool).

(** ** The session *)

Definition c_sendRaw (raw : bytes) (c : Client) : Client * res rrc_error unit :=
  if c_closed c || negb (link_up c) then (c, Err ErrLinkInactive)
  else if send_ok (c_tried c) then (c_log [raw] c, Ok tt)
  else (c_log [] c, Err ErrSend).

Definition c_sendEnvelope (env : Envelope) (c : Client) : Client * res rrc_error unit :=
  match Marshal (Some env) with
  | Err e => (c, Err e)
  | Ok raw => c_sendRaw raw c
  end.

(** [NewEnvelope] with the client's sender. *)
Definition c_newEnvelope (msgType : Z) (c : Client) : Client * res rrc_error Envelope :=
  if negb (len (c_sender c) =? IdentityLength) then (c, Err (ErrBadFieldLength FSender))
  else (c_draw c, NewEnvelope (rand_read (c_draws c)) (c_clock c / Millisecond) msgType (c_sender c)).

Definition c_sendType (msgType : Z) (room : bytes) (body : any) (nick : bytes) (c : Client)
  : Client * res rrc_error unit :=
  let '(c, r) := c_newEnvelope msgType c in
  match r with
  | Err e => (c, Err e)
  | Ok env => c_sendEnvelope (fill env room body nick) c
  end.

(** ** Packets from the hub *)

Definition onLinkClosed (c : Client) : Client :=
  if decide (c_state c = ClientDisconnected) then c
  else c_event CeClose (set_c_rooms ∅ ∅ (set_c_state ClientDisconnected c)).

Definition dispatch (env : Envelope) (c : Client) : Client :=
  let t := Type_ env in
  if t =? TypeWelcome then
    match c_state c with
    | ClientConnected | ClientAwaitingWelcome =>
        match welcomeCh c with None => set_welcomeCh (Some env) c | Some _ => c end
    | _ => c
    end
  else if t =? TypeJoined then
    let room := NormalizeRoom (Room env) in
    let c := set_c_rooms ({[room]} ∪ c_rooms c) (c_pending c) c in
    c_event (CeJoined room (ParseJoinedMembers (Body env)) env) c
  else if t =? TypeParted then
    let room := NormalizeRoom (Room env) in
    let c := if bool_decide (room ∈ c_pending c)
             then set_c_rooms (c_rooms c ∖ {[room]}) (c_pending c ∖ {[room]}) c else c in
    c_event (CeParted room env) c
  else if t =? TypeMsg then c_event (CeMsg env) c
  else if t =? TypeNotice then c_event (CeNotice env) c
  else if t =? TypeAction then c_event (CeAction env) c
  else if t =? TypeError then c_event (CeError env) (setErr (ErrHub (Body env)) c)
  else if t =? TypePong then c_event (CePong env) c
  else if t =? TypeResourceEnvelope then c_event (CeResource env) c
  else c.

Definition c_handleInbound (data : bytes) (c : Client) : Client :=
  match UnmarshalEnvelope data with
  | Err _ => c
  | Ok env =>
      let c := if Type_ env =? TypePing then (c_sendType TypePong [] (Body env) [] c).1 else c in
      dispatch env c
  end.

(** ** Public calls *)

Definition requireActive (c : Client) : res rrc_error unit :=
  if decide (c_state c = ClientActive) then Ok tt else Err ErrNotWelcome.

(** A call that starts with [requireActive]. *)
Definition when_active (c : Client) (k : Client * res rrc_error unit) : Client * res rrc_error unit :=
  match requireActive c with Err e => (c, Err e) | Ok _ => k end.

Definition JoinKeyed (room key : bytes) (c : Client) : Client * res rrc_error unit :=
  when_active c
    (let room := NormalizeRoom room in
     if bool_decide (room = []) then (c, Err (ErrInvalidEnvelope FRoom))
     else
       let body := if bool_decide (TrimSpace key = []) then ANil else AStr key in
       c_sendType TypeJoin room body (c_nick c) c).

Definition Join (room : bytes) (c : Client) := JoinKeyed room [] c.

Definition SendSlash (cmd : bytes) (c : Client) : Client * res rrc_error unit :=
  when_active c
    (let cmd := TrimSpace cmd in
     if bool_decide (cmd = []) then (c, Err (ErrInvalidEnvelope FBody))
     else c_sendType TypeNotice [] (AStr cmd) (c_nick c) c).

Definition Part (room : bytes) (c : Client) : Client * res rrc_error unit :=
  when_active c
    (let room := NormalizeRoom room in
     let c := set_c_rooms (c_rooms c) ({[room]} ∪ c_pending c) c in
     c_sendType TypePart room ANil (c_nick c) c).

Definition sendRoomContent (msgType : Z) (room text : bytes) (c : Client) : Client * res rrc_error unit :=
  when_active c
    (let room := NormalizeRoom room in
     if negb (bool_decide (room ∈ c_rooms c)) then (c, Err ErrNotMember)
     else c_sendType msgType room (AStr text) (c_nick c) c).

Definition SendMsg := sendRoomContent TypeMsg.
Definition ClientSendNotice := sendRoomContent TypeNotice.
Definition SendAction := sendRoomContent TypeAction.

(** The advisory nickname on an envelope. *)
Definition with_nick (nick : bytes) (e : Envelope) : Envelope := fill e [] ANil nick.

Definition SendDirectNotice (destHash text : bytes) (c : Client) : Client * res rrc_error unit :=
  when_active c
    (if negb (len destHash =? IdentityLength) then (c, Err (ErrBadFieldLength FDestination))
     else
       let '(c, r) := c_newEnvelope TypeNotice c in
       match r with
       | Err e => (c, Err e)
       | Ok env =>
           let env := to_destination destHash env in
           let env := mkEnvelope (Version env) (Type_ env) (MsgID env) (Timestamp env) (Sender env)
             (Room env) (AStr text) (Nick env) (Destination env) (HasRoom env) true (HasNick env)
             (HasDestination env) in
           c_sendEnvelope (with_nick (c_nick c) env) c
       end).

Definition SendResourceEnvelope (room : bytes) (body : option ResourceEnvelopeBody) (c : Client)
  : Client * res rrc_error unit :=
  when_active c
    (let '(c, r) := c_newEnvelope TypeResourceEnvelope c in
     match r with
     | Err e => (c, Err e)
     | Ok env =>
         let env := if bool_decide (room = []) then env else to_room (NormalizeRoom room) env in
         let m := match ResourceToMap body with Some m => AMapU m | None => ANil end in
         c_sendEnvelope (fill env [] m (c_nick c)) c
     end).

Definition Ping (body : any) (c : Client) : Client * res rrc_error unit :=
  when_active c (c_sendType TypePing [] body [] c).

Definition SetNick (nick : bytes) (c : Client) : Client := set_c_nick (SanitizeNick nick) c.

Definition c_close (c : Client) : Client :=
  if c_closed c then c else onLinkClosed (set_link_up false (c_clock c) (set_c_closed c)).

Definition ClientClose (c : Client) : Client := onLinkClosed (c_close c).

(** ** Dialling *)

(** [waitUntil]: [ok i] is the answer of the [i]-th call, [before i] whether
    the deadline is still ahead after the [i]-th tick.  [None] is a run that
    used up its fuel. *)
Fixpoint wait_ticks (fuel : nat) (ok before : nat -> bool) (i : nat) : option bool :=
  match fuel with
  | O => None
  | S fuel =>
      if ok i then Some true
      else if negb (before i) then Some (ok (S i))
      else wait_ticks fuel ok before (S i)
  end.

Definition waitUntil (fuel : nat) (ok before : nat -> bool) : option bool :=
  if ok O then Some true else wait_ticks fuel ok before 1.

Definition sendHello (cfg : ClientConfig) (c : Client) : Client * res rrc_error unit :=
  let nonempty s := negb (bool_decide (s = [])) in
  let body := mkHello (cc_name cfg) (cc_version cfg) (cc_caps cfg)
                (nonempty (cc_name cfg)) (nonempty (cc_version cfg)) (present (cc_caps cfg)) in
  let payload := match HelloToMap (Some body) with Some m => AMapU m | None => ANil end in
  c_sendType TypeHello [] payload (c_nick c) c.

(** What the network answers while a link is set up. *)
Record DialNet := mkDialNet {
  path_known : nat -> bool; path_before : nat -> bool;
  recalled : bool;
  from_hash : res Z unit;
  establish : res Z unit;
  up : nat -> bool; up_before : nat -> bool;
  identify : res Z unit;
}.

Definition net_err (r : res Z unit) : res rrc_error unit :=
  match r with Ok _ => Ok tt | Err e => Err (ErrNet e) end.

Definition new_client (sender : bytes) (now : Z) : Client :=
  mkClient sender ClientConnected [] false ∅ ∅ None None None true false now 0 0 [] [].

(** [Dial] up to the HELLO: the client that waits for WELCOME.  [None] is a
    wait that used up its fuel. *)
Definition Dial (fuel : nat) (net : DialNet) (sender hubHash : bytes) (cfg : ClientConfig) (now : Z)
  : option (res rrc_error Client) :=
  if negb (len hubHash =? IdentityLength) then Some (Err (ErrBadFieldLength FDestination))
  else
    match waitUntil fuel (path_known net) (path_before net) with
    | None => None
    | Some false => Some (Err ErrDialTimeout)
    | Some true =>
        if negb (recalled net) then Some (Err ErrDialTimeout)
        else
          match (_ ← net_err (from_hash net); net_err (establish net)) with
          | Err e => Some (Err e)
          | Ok _ =>
              match waitUntil fuel (up net) (up_before net) with
              | None => None
              | Some false => Some (Err ErrDialTimeout)
              | Some true =>
                  match net_err (identify net) with
                  | Err e => Some (Err e)
                  | Ok _ =>
                      let c := set_link_up true now (new_client sender now) in
                      let c := if bool_decide (cc_nick cfg = []) then c else SetNick (cc_nick cfg) c in
                      let c := set_c_state ClientAwaitingWelcome c in
                      let '(c, r) := sendHello cfg c in
                      Some (match r with Err e => Err e | Ok _ => Ok c end)
                  end
              end
          end
    end.

(** The outcome of the final [select] of [Dial]: the WELCOME taken from the
    channel, the timer, or the link's end. *)
Inductive dial_select := SelWelcome (env : Envelope) | SelTimeout | SelClosed.

Definition dial_finish (sel : dial_select) (c : Client) : Client * res rrc_error unit :=
  let c := dial_done c in
  match sel with
  | SelWelcome env =>
      match ParseWelcomeBody (Body env) with
      | Err e => (onLinkClosed (set_link_up false (c_clock c) c), Err e)
      | Ok body =>
          let c := set_c_state ClientActive (set_c_welcome body c) in
          (c_event (CeWelcome body env) c, Ok tt)
      end
  | SelTimeout => (onLinkClosed (set_link_up false (c_clock c) c), Err ErrWelcomeTimeout)
  | SelClosed => (c, Err ErrSessionClosed)
  end.

(** ** Steps

    After [Dial] has sent HELLO: packets arrive, the link goes down, time
    passes, [Dial] returns from its [select] when one of its cases is ready, or
    the application calls the client. *)
Inductive client_step : Client -> Client -> Prop :=
| cs_time c t : c_clock c <= t -> client_step c (set_link_up (link_up c) t c)
| cs_link_down c : client_step c (onLinkClosed (set_link_up false (c_clock c) c))
| cs_packet c data : link_up c = true -> client_step c (c_handleInbound data c)
| cs_welcome c env : dialing c = true -> welcomeCh c = Some env ->
    client_step c (dial_finish (SelWelcome env) c).1
| cs_timeout c : dialing c = true -> client_step c (dial_finish SelTimeout c).1
| cs_closed c : dialing c = true -> link_up c = false -> client_step c (dial_finish SelClosed c).1
| cs_join c room key : dialing c = false -> client_step c (JoinKeyed room key c).1
| cs_slash c cmd : dialing c = false -> client_step c (SendSlash cmd c).1
| cs_part c room : dialing c = false -> client_step c (Part room c).1
| cs_content c t room text : dialing c = false -> client_step c (sendRoomContent t room text c).1
| cs_direct c dst text : dialing c = false -> client_step c (SendDirectNotice dst text c).1
| cs_resource c room body : dialing c = false -> client_step c (SendResourceEnvelope room body c).1
| cs_ping c body : dialing c = false -> client_step c (Ping body c).1
| cs_nick c nick : dialing c = false -> client_step c (SetNick nick c)
| cs_close c : dialing c = false -> client_step c (ClientClose c).
End client.

(** ** Sending changes no state of the protocol *)

Definition same_core (c c' : Client) : Prop :=
  c_sender c' = c_sender c /\ c_state c' = c_state c /\ c_nick c' = c_nick c /\ c_closed c' = c_closed c
  /\ c_rooms c' = c_rooms c /\ c_pending c' = c_pending c /\ c_welcome c' = c_welcome c
  /\ welcomeCh c' = welcomeCh c /\ dialing c' = dialing c /\ link_up c' = link_up c /\ c_events c' = c_events c.

#[export] Instance same_core_preorder : PreOrder same_core.
Proof.
  split; [by repeat split|]. intros c1 c2 c3 H1 H2. unfold same_core in *. destruct_and!.
  repeat split; congruence.
Qed.

Section sends.
Context `{C : Cbor}.
Context (rand_read : nat -> option bytes) (send_ok : nat -> bool).

Lemma core_sendRaw raw c : same_core c (c_sendRaw send_ok raw c).1.
Proof. unfold c_sendRaw. by repeat case_match. Qed.

Lemma core_sendEnvelope env c : same_core c (c_sendEnvelope send_ok env c).1.
Proof. unfold c_sendEnvelope. case_match; [apply core_sendRaw|reflexivity]. Qed.

Lemma core_newEnvelope t c : same_core c (c_newEnvelope rand_read t c).1.
Proof. unfold c_newEnvelope. by case_match. Qed.

Lemma core_sendType t room body nick c : same_core c (c_sendType rand_read send_ok t room body nick c).1.
Proof.
  unfold c_sendType. pose proof (core_newEnvelope t c) as H.
  destruct (c_newEnvelope rand_read t c) as [c1 [env|e]]; cbn [fst] in *; [|done].
  etransitivity; [exact H|apply core_sendEnvelope].
Qed.

(** A packet that goes out: which envelope it carries. *)
Lemma sendType_sent t room body nick c id raw :
  len (c_sender c) = IdentityLength -> rand_read (c_draws c) = Some id -> c_closed c = false ->
  link_up c = true -> send_ok (c_tried c) = true ->
  Marshal (Some (fill (bare_envelope t (c_sender c) id (u64 (c_clock c / Millisecond))) room body nick)) = Ok raw ->
  exists c', c_sendType rand_read send_ok t room body nick c = (c', Ok tt)
    /\ c_sent c' = c_sent c ++ [raw] /\ same_core c c'.
Proof.
  intros Hl Hr Hc Hu Ho Hm. pose proof (core_sendType t room body nick c) as Hcore.
  unfold c_sendType, c_newEnvelope in *. rewrite Hl in *. cbn [Z.eqb negb] in *.
  change (negb (IdentityLength =? IdentityLength)) with false in *. cbn iota in *.
  unfold NewEnvelope in *. rewrite Hl, Hr, clone_envelope_bytes in *.
  change (negb (IdentityLength =? IdentityLength)) with false in *. cbn iota in *.
  unfold c_sendEnvelope in *. rewrite Hm in *. unfold c_sendRaw in *. cbn [c_closed c_draw link_up c_tried] in *.
  rewrite Hc, Hu, Ho in *. cbn [orb negb] in *. by eexists.
Qed.
End sends.

(** ** The state machine *)

Record client_inv (c : Client) : Prop := {
  ci_active : c_state c = ClientActive -> is_Some (c_welcome c) /\ dialing c = false;
  ci_dialing : dialing c = true -> c_welcome c = None /\ c_pending c = ∅;
  ci_rooms : forall r, r ∈ c_rooms c \/ r ∈ c_pending c -> NormalizeRoom r = r;
  ci_nick : control_free (c_nick c);
  ci_closed : c_closed c = true -> link_up c = false /\ dialing c = false;
}.

Lemma client_inv_core c c' : same_core c c' -> client_inv c -> client_inv c'.
Proof.
  intros H []. unfold same_core in H. destruct_and!.
  split; repeat match goal with E : ?f c' = ?f c |- _ => rewrite E; clear E end; auto.
Qed.

Section machine.
Context `{C : Cbor}.
Context (rand_read : nat -> option bytes) (send_ok : nat -> bool).

Lemma inv_onLinkClosed c : client_inv c -> client_inv (onLinkClosed c).
Proof.
  intros []. unfold onLinkClosed. case_decide; [done|]. split; simpl; auto; try done.
  - intros Hd. split; [by apply ci_dialing0|done].
  - set_solver.
Qed.

Lemma inv_link_down c t : client_inv c -> client_inv (onLinkClosed (set_link_up false t c)).
Proof.
  intros []. apply inv_onLinkClosed. split; simpl; auto. intros Hc. by destruct (ci_closed0 Hc).
Qed.

Lemma inv_dispatch env c : client_inv c -> client_inv (dispatch env c).
Proof.
  intros Hi. unfold dispatch.
  repeat match goal with |- context [if ?a =? ?b then _ else _] => destruct (a =? b) end;
    try done; try (by destruct Hi; split).
  - repeat case_match; try done; by destruct Hi; split.
  - destruct Hi. split; simpl; auto. intros r Hr.
    assert (r = NormalizeRoom (Room env) \/ r ∈ c_rooms c \/ r ∈ c_pending c) as [->|Hr'] by set_solver; auto.
    apply NormalizeRoom_idemp.
  - destruct Hi. case_bool_decide; split; simpl; auto.
    + intros Hd. destruct (ci_dialing0 Hd) as [-> Hp]. set_solver.
    + set_solver.
Qed.

Lemma inv_when_active c k : client_inv c -> (c_state c = ClientActive -> client_inv k.1) ->
  client_inv (when_active c k).1.
Proof. intros Hi Hk. unfold when_active, requireActive. case_decide; [by apply Hk|done]. Qed.

Lemma inv_dial_finish sel c : client_inv c -> dialing c = true -> client_inv (dial_finish sel c).1.
Proof.
  intros Hi Hd. assert (Hdone : client_inv (dial_done c)).
  { destruct Hi. split; simpl; auto; try done.
    - intros Ha. destruct (ci_active0 Ha). congruence.
    - intros Hc. destruct (ci_closed0 Hc). congruence. }
  unfold dial_finish. destruct sel as [env| |]; [|by apply inv_link_down|done].
  case_match; [|by apply inv_link_down]. destruct Hdone. split; simpl; auto; try done.
Qed.

Lemma client_step_inv c c' : client_step rand_read send_ok c c' -> client_inv c -> client_inv c'.
Proof.
  intros Hs Hi. destruct Hs.
  - destruct Hi. by split.
  - by apply inv_link_down.
  - unfold c_handleInbound. case_match; [|done]. apply inv_dispatch. case_match; [|done].
    eapply client_inv_core; [apply core_sendType|done].
  - by apply inv_dial_finish.
  - by apply inv_dial_finish.
  - by apply inv_dial_finish.
  - apply inv_when_active; [done|]. intros _. cbv zeta. destruct (bool_decide (NormalizeRoom room = [])); [done|].
    eapply client_inv_core; [apply core_sendType|done].
  - apply inv_when_active; [done|]. intros _. cbv zeta. case_bool_decide; [done|].
    eapply client_inv_core; [apply core_sendType|done].
  - apply inv_when_active; [done|]. intros _. cbv zeta. eapply client_inv_core; [apply core_sendType|].
    destruct Hi. split; simpl; auto; [congruence|]. intros r Hr.
    assert (r = NormalizeRoom room \/ r ∈ c_rooms c \/ r ∈ c_pending c) as [->|Hr'] by set_solver; auto.
    apply NormalizeRoom_idemp.
  - apply inv_when_active; [done|]. intros _. cbv zeta. case_match; [done|].
    eapply client_inv_core; [apply core_sendType|done].
  - apply inv_when_active; [done|]. intros _. cbv zeta. case_match; [done|].
    pose proof (core_newEnvelope rand_read TypeNotice c) as Hc.
    destruct (c_newEnvelope _ _ _) as [c1 [env|e]]; cbn [fst] in *; [|by eapply client_inv_core].
    eapply client_inv_core; [|done]. etransitivity; [exact Hc|apply core_sendEnvelope].
  - apply inv_when_active; [done|]. intros _. cbv zeta.
    pose proof (core_newEnvelope rand_read TypeResourceEnvelope c) as Hc.
    destruct (c_newEnvelope _ _ _) as [c1 [env|e]]; cbn [fst] in *; [|by eapply client_inv_core].
    eapply client_inv_core; [|done]. etransitivity; [exact Hc|apply core_sendEnvelope].
  - apply inv_when_active; [done|]. intros _. cbv zeta. eapply client_inv_core; [apply core_sendType|done].
  - destruct Hi. split; simpl; auto. apply SanitizeNick_free.
  - unfold ClientClose. apply inv_onLinkClosed. unfold c_close. case_match; [done|]. apply inv_onLinkClosed.
    destruct Hi. by split.
Qed.
End machine.

(** ** Waiting *)

(** A wait whose deadline passes at tick [m] returns by then, and says whether
    some call up to and including the last one succeeded. *)
Lemma wait_ticks_spec ok before m : forall fuel i, before m = false -> (i <= m)%nat ->
  (forall j, (i <= j < m)%nat -> before j = true) -> (m < fuel + i)%nat ->
  exists b, wait_ticks fuel ok before i = Some b
    /\ (b = true <-> exists j, (i <= j <= S m)%nat /\ ok j = true).
Proof.
  induction fuel as [|fuel IH]; intros i Hm Hi Hb Hf; [lia|]. cbn [wait_ticks].
  destruct (ok i) eqn:Ho.
  { exists true. split; [done|]. split; [|done]. intros _. exists i. split; [lia|done]. }
  destruct (decide (i = m)) as [->|Hne].
  - rewrite Hm. cbn [negb]. exists (ok (S m)). split; [done|]. split.
    + intros Hs. exists (S m). split; [lia|done].
    + intros (j & Hj & Hoj). assert (j = m \/ j = S m) as [->| ->] by lia; congruence.
  - rewrite Hb by lia. cbn [negb]. destruct (IH (S i)) as (b & Hw & Hb'); auto; try lia.
    { intros j Hj. apply Hb. lia. }
    exists b. split; [done|]. rewrite Hb'. split; intros (j & Hj & Hoj); exists j; (split; [|done]); [lia|].
    assert (j <> i) by congruence. lia.
Qed.

Lemma waitUntil_spec ok before m fuel : before m = false -> (1 <= m <= fuel)%nat ->
  (forall j, (1 <= j < m)%nat -> before j = true) ->
  exists b, waitUntil fuel ok before = Some b
    /\ (b = true <-> exists j, (j <= S m)%nat /\ ok j = true).
Proof.
  intros Hm Hf Hb. unfold waitUntil. destruct (ok O) eqn:Ho.
  - exists true. split; [done|]. split; [|done]. intros _. exists O. split; [lia|done].
  - destruct (wait_ticks_spec ok before m fuel 1 Hm) as (b & Hw & Hb'); try lia; [done|].
    exists b. split; [done|]. rewrite Hb'. split; intros (j & Hj & Hoj); exists j; (split; [|done]); [lia|].
    assert (j <> O) by congruence. lia.
Qed.

(** ** Properties *)

Section props.
Context `{C : Cbor}.
Context (rand_read : nat -> option bytes) (send_ok : nat -> bool).

(** The client [Dial] has built when it sends HELLO. *)
Lemma dialed_inv sender now nick :
  let c0 := set_link_up true now (new_client sender now) in
  let c := set_c_state ClientAwaitingWelcome (if bool_decide (nick = []) then c0 else SetNick nick c0) in
  client_inv c /\ c_sent c = [] /\ c_sender c = sender /\ c_state c = ClientAwaitingWelcome
  /\ dialing c = true /\ c_nick c = SanitizeNick nick.
Proof.
  intros c0 c. assert (Hn : c_nick c = SanitizeNick nick) by (unfold c; case_bool_decide; by subst).
  split; [|unfold c; by case_bool_decide].
  split; [..|rewrite Hn; apply SanitizeNick_free|]; unfold c; case_bool_decide; simpl; done || set_solver.
Qed.

Lemma Dial_inv fuel net sender hubHash cfg now c : 
  Dial rand_read send_ok fuel net sender hubHash cfg now = Some (Ok c) -> client_inv c.
Proof.
  unfold Dial. pose proof (dialed_inv sender now (cc_nick cfg)) as Hc0. cbv zeta in Hc0.
  set (c0 := set_c_state ClientAwaitingWelcome _) in *. clearbody c0. destruct Hc0 as [Hi _].
  repeat (case_match; try done). intros [= <-].
  match goal with H : sendHello _ _ _ _ = _ |- _ => unfold sendHello in H;
    match type of H with c_sendType ?a ?b ?t ?r ?bd ?nk ?cl = _ =>
      pose proof (core_sendType a b t r bd nk cl) as Hc; rewrite H in Hc end end.
  by eapply client_inv_core.
Qed.

(** [Dial] returns: when the deadlines of its two waits pass at ticks [m]
    and [n], a run with fuel for them ends.  If it succeeds, the path was known
    and the link up at some call up to the deadline, and the client waits for
    WELCOME having sent exactly one packet, the HELLO with its own identity
    and its sanitised nickname. *)
Theorem client_dial fuel net sender hubHash cfg now m n :
  (1 <= m <= fuel)%nat -> path_before net m = false -> (forall j, (1 <= j < m)%nat -> path_before net j = true) ->
  (1 <= n <= fuel)%nat -> up_before net n = false -> (forall j, (1 <= j < n)%nat -> up_before net j = true) ->
  exists r, Dial rand_read send_ok fuel net sender hubHash cfg now = Some r
    /\ forall c, r = Ok c ->
       (exists j, (j <= S m)%nat /\ path_known net j = true) /\ (exists j, (j <= S n)%nat /\ up net j = true)
       /\ c_state c = ClientAwaitingWelcome /\ dialing c = true /\ client_inv c
       /\ exists env raw, c_sent c = [raw] /\ Marshal (Some env) = Ok raw /\ Type_ env = TypeHello
          /\ Sender env = sender /\ Nick env = SanitizeNick (cc_nick cfg).
Proof.
  intros Hm Hpm Hpb Hn Hun Hub.
  destruct (waitUntil_spec (path_known net) (path_before net) m fuel) as (b1 & Hw1 & Hb1); [done..|].
  destruct (waitUntil_spec (up net) (up_before net) n fuel) as (b2 & Hw2 & Hb2); [done..|].
  unfold Dial. rewrite Hw1, Hw2. destruct (negb (len hubHash =? IdentityLength)); [by eexists|].
  destruct b1; [|by eexists]. destruct (negb (recalled net)); [by eexists|].
  match goal with |- context [mbind ?f ?x] => destruct (mbind f x) end; [|by eexists].
  destruct b2; [|by eexists]. destruct (net_err (identify net)); [|by eexists].
  pose proof (dialed_inv sender now (cc_nick cfg)) as Hc0. cbv zeta in Hc0.
  set (c0 := set_c_state ClientAwaitingWelcome _) in *. clearbody c0. destruct Hc0 as (Hi & Hs & Hsnd & Hst & Hd & Hnk). unfold sendHello.
  match goal with |- context [c_sendType ?a ?b ?t ?r ?bd ?nk ?c] =>
    pose proof (core_sendType a b t r bd nk c) as Hcore; set (body := bd) in * end.
  destruct (c_sendType _ _ _ _ _ _ _) as [c1 [[]|e]] eqn:Hsend; eexists; (split; [reflexivity|]); [|done].
  intros c [= <-]. cbn [fst] in Hcore. pose proof (client_inv_core _ _ Hcore Hi) as Hi1.
  unfold same_core in Hcore. destruct_and!. split; [by apply Hb1|]. split; [by apply Hb2|].
  split; [congruence|]. split; [congruence|]. split; [done|].
  unfold c_sendType, c_newEnvelope in Hsend. rewrite Hsnd in Hsend.
  destruct (negb (len sender =? IdentityLength)) eqn:El; [done|]. unfold NewEnvelope in Hsend.
  rewrite El in Hsend. destruct (rand_read (c_draws c0)) as [id|]; [|done].
  set (env := fill _ _ _ _) in Hsend. unfold c_sendEnvelope in Hsend.
  destruct (Marshal (Some env)) as [raw|] eqn:Hmar; [|done]. unfold c_sendRaw in Hsend.
  cbn [c_draw c_closed link_up c_tried] in Hsend. repeat (case_match; [simplify_eq|]); simplify_eq.
  exists env, raw. cbn [c_log c_draw c_sent]. rewrite Hs. split; [done|]. split; [done|].
  unfold env. cbn. rewrite clone_envelope_bytes, Hnk. split; [done|]. split; [done|]. by case_bool_decide.
Qed.


(** A WELCOME that is already in the channel when the link closes can still
    be taken by [Dial]'s select: [Dial] then reports success and the client is
    active for good on a dead link, with its close callback called before its
    welcome callback. *)
Theorem client_welcome_after_close c data env body :
  dialing c = true -> c_state c = ClientAwaitingWelcome -> link_up c = true -> welcomeCh c = None ->
  UnmarshalEnvelope data = Ok env -> Type_ env = TypeWelcome -> ParseWelcomeBody (Body env) = Ok body ->
  exists c', rtc (client_step rand_read send_ok) c c'
    /\ c_state c' = ClientActive /\ link_up c' = false /\ dialing c' = false
    /\ c_events c' = c_events c ++ [CeClose; CeWelcome body env]
    /\ onLinkClosed c' <> c'.
Proof.
  intros Hd Hst Hu Hch Hum Ht Hp.
  set (c1 := c_handleInbound rand_read send_ok data c).
  assert (E1 : c1 = set_welcomeCh (Some env) c).
  { unfold c1, c_handleInbound. rewrite Hum, Ht. unfold dispatch. rewrite Ht. simpl. by rewrite Hst, Hch. }
  set (c2 := onLinkClosed (set_link_up false (c_clock c1) c1)).
  set (c3 := (dial_finish (SelWelcome env) c2).1).
  assert (E2 : c2 = c_event CeClose (set_c_rooms ∅ ∅ (set_c_state ClientDisconnected (set_link_up false (c_clock c1) c1)))).
  { unfold c2, onLinkClosed. rewrite decide_False; [done|]. rewrite E1. simpl. congruence. }
  assert (E3 : c3 = c_event (CeWelcome body env) (set_c_state ClientActive (set_c_welcome body (dial_done c2)))).
  { unfold c3, dial_finish. by rewrite Hp. }
  exists c3. split.
  - eapply rtc_l; [apply (cs_packet _ _ c data Hu)|]. fold c1.
    eapply rtc_l; [apply cs_link_down|]. fold c2. apply rtc_once. unfold c3. apply cs_welcome.
    + by rewrite E2, E1.
    + by rewrite E2, E1.
  - rewrite E3, E2, E1. simpl. rewrite <- app_assoc. repeat split; try done.
Qed.

(** While a part of its own is pending, a client takes another member's
    PARTED for it; if a member then joins the room before the hub's answer to the
    part arrives, the client ends up believing to be in a room it has left. *)
Theorem client_part_misattributed c room e1 e2 e3 :
  NormalizeRoom room ∈ c_pending c ->
  Type_ e1 = TypeParted -> Type_ e2 = TypeJoined -> Type_ e3 = TypeParted ->
  NormalizeRoom (Room e1) = NormalizeRoom room -> NormalizeRoom (Room e2) = NormalizeRoom room ->
  NormalizeRoom (Room e3) = NormalizeRoom room ->
  let c' := dispatch e3 (dispatch e2 (dispatch e1 c)) in
  NormalizeRoom room ∈ c_rooms c' /\ NormalizeRoom room ∉ c_pending c'.
Proof.
  intros Hp T1 T2 T3 R1 R2 R3. set (r := NormalizeRoom room) in *.
  assert (Hparted : forall e c, Type_ e = TypeParted -> NormalizeRoom (Room e) = r ->
    dispatch e c = c_event (CeParted r e) (if bool_decide (r ∈ c_pending c)
      then set_c_rooms (c_rooms c ∖ {[r]}) (c_pending c ∖ {[r]}) c else c)).
  { intros e c0 He Hr. unfold dispatch. rewrite He, Hr. done. }
  assert (Hjoined : forall e c, Type_ e = TypeJoined -> NormalizeRoom (Room e) = r ->
    dispatch e c = c_event (CeJoined r (ParseJoinedMembers (Body e)) e)
      (set_c_rooms ({[r]} ∪ c_rooms c) (c_pending c) c)).
  { intros e c0 He Hr. unfold dispatch. rewrite He, Hr. done. }
  cbv zeta. rewrite (Hparted e1), bool_decide_true, (Hjoined e2), (Hparted e3) by done.
  rewrite bool_decide_false; cbn [c_event set_c_rooms c_rooms c_pending]; set_solver.
Qed.
End props.

(** A client of the hub of [RrcHubProps.demo] sees its WELCOME. *)
Definition demo_rand (_ : nat) : option bytes := Some (replicate 8 x55).
Definition demo_net (_ : nat) : bool := true.
Definition demo_cfg : ClientConfig := mkClientConfig (lit " alice ") (lit "test") [] None.
Definition demo_dial_net : DialNet :=
  mkDialNet (fun i => Nat.leb 3 i) (fun i => Nat.ltb i 5) true (Ok tt) (Ok tt)
    (fun i => Nat.leb 1 i) (fun i => Nat.ltb i 4) (Ok tt).
Definition demo_me : bytes := replicate 16 x0a.
Definition demo_hub : bytes := replicate 16 xff.
Definition demo_client : Client :=
  match Dial (C := ref_cbor) demo_rand demo_net 10 demo_dial_net demo_me demo_hub demo_cfg 1000 with
  | Some (Ok c) => c | _ => new_client [] 0 end.

Lemma ticks_before n : forall j, (1 <= j < n)%nat -> Nat.ltb j n = true.
Proof. intros j Hj. apply Nat.ltb_lt. lia. Qed.

Lemma client_dial_witness : exists c,
  Dial (C := ref_cbor) demo_rand demo_net 10 demo_dial_net demo_me demo_hub demo_cfg 1000 = Some (Ok c)
  /\ c_state c = ClientAwaitingWelcome /\ client_inv c.
Proof.
  destruct (client_dial (C := ref_cbor) demo_rand demo_net 10 demo_dial_net demo_me demo_hub demo_cfg 1000 5 4)
    as (r & Hr & Hok); [lia|reflexivity|apply ticks_before|lia|reflexivity|apply ticks_before|].
  exists demo_client. assert (E : r = Ok demo_client) by (vm_compute in Hr; injection Hr as <-; vm_compute; reflexivity).
  rewrite E in Hr. destruct (Hok demo_client E) as (_ & _ & Hst & _ & Hi & _). repeat split; try apply Hi; done.
Defined.

Lemma demo_dialed :
  Dial (C := ref_cbor) demo_rand demo_net 10 demo_dial_net demo_me demo_hub demo_cfg 1000 = Some (Ok demo_client).
Proof. vm_compute. reflexivity. Qed.


Definition demo_welcome : Envelope :=
  fill (bare_envelope TypeWelcome demo_hub (replicate 8 x01) 1000) [] ANil [].
Definition demo_welcome_raw : bytes :=
  match @Marshal ref_cbor (Some demo_welcome) with Ok raw => raw | Err _ => [] end.

Lemma client_welcome_after_close_witness : exists c',
  rtc (client_step (C := ref_cbor) demo_rand demo_net) demo_client c'
  /\ c_state c' = ClientActive /\ link_up c' = false.
Proof.
  edestruct (client_welcome_after_close (C := ref_cbor) demo_rand demo_net demo_client demo_welcome_raw demo_welcome)
    as (c' & Hr & Hst & Hl & _).
  - vm_compute. reflexivity.
  - vm_compute. reflexivity.
  - vm_compute. reflexivity.
  - vm_compute. reflexivity.
  - vm_compute. reflexivity.
  - reflexivity.
  - reflexivity.
  - exists c'. split; [exact Hr|]. split; [exact Hst|exact Hl].
Defined.

Lemma client_part_misattributed_witness :
  let room := lit "#lobby" in
  let c := set_c_rooms {[room]} {[room]} demo_client in
  let e t := fill (bare_envelope t demo_hub (replicate 8 x01) 1000) room ANil [] in
  room ∈ c_rooms (dispatch (e TypeParted) (dispatch (e TypeJoined) (dispatch (e TypeParted) c))).
Proof.
  intros room c e.
  apply (client_part_misattributed c room (e TypeParted) (e TypeJoined) (e TypeParted));
    reflexivity.
Defined.
