(* ===== verification/RrcDelivery.v ===== *)
(** * A message from client to client

    The client of [RrcClient] and the hub of [RrcHub] put together: what one
    client sends to a room, the hub relays and another client receives. *)

From stdpp Require Import base tactics list gmap sets strings.
From Stdlib Require Import ZArith Lia.
From S2P Require Import Prelude GoText HexHash Cbor CborRef RrcRoom RrcEnvelope RrcBodies GoFloat RrcHub RrcHubInv RrcHubSafe RrcHubProps RrcClient.

Section delivery.
Context `{C : Cbor} `{!CborLaws C envelope_limits} {PS : Type}.
Context (rand_c : nat -> option bytes) (net_c : nat -> bool).
Context (rand_h : nat -> option bytes) (net_h : nat -> bool).
Implicit Types h : Hub PS.

(** A registered session with nothing pending is not changed by the check that
    starts every message. *)
Lemma register_remote_same h pid p : heap h !! pid = Some p -> registered p = true ->
  pendingHello p = None -> register_remote rand_h net_h None pid h = h.
Proof.
  intros Hp Hr Hpend. unfold register_remote. destruct (link_identity h !! pid) as [hash|]; [|done].
  unfold register. case_match; [done|]. unfold register_once. rewrite Hp, Hr. cbn [ask_policy]. rewrite Hp, Hpend.
  unfold upd_peer. replace (alter (set_pending None) pid (heap h)) with (heap h); [by destruct h|].
  symmetry. apply map_eq. intros q. destruct (decide (q = pid)) as [->|Hq].
  - rewrite lookup_alter_eq, Hp. simpl. f_equal. destruct p. simpl in *. by subst.
  - by rewrite lookup_alter_ne.
Qed.

(** The message as the client of [c] puts it on the wire. *)
Definition outgoing (c : Client) (id room text : bytes) : Envelope :=
  fill (bare_envelope TypeMsg (c_sender c) id (u64 (c_clock c / Millisecond))) room (AStr text) [].

Lemma u64_between z : between 0 (u64 z) max_u64 = true.
Proof.
  unfold between, u64, max_u64. pose proof (Z.mod_pos_bound z (2 ^ 64)) as H.
  apply andb_true_iff. split; [apply Z.leb_le|apply Z.leb_le]; lia.
Qed.

Lemma outgoing_wf c id room text : len (c_sender c) = IdentityLength -> len id = MessageIDLength ->
  room <> [] -> wf_envelope (outgoing c id room text).
Proof.
  intros Hs Hid Hr. unfold outgoing, fill, bare_envelope. rewrite bool_decide_false by done.
  repeat split; done.
Qed.

Lemma outgoing_ready c id room text : room <> [] -> valid_utf8 room = true -> len room < 2 ^ 64 ->
  valid_utf8 text = true -> len text < 2 ^ 64 -> wire_ready (outgoing c id room text).
Proof.
  intros Hr Hu Hl Ht Htl. unfold outgoing, fill, bare_envelope. rewrite bool_decide_false by done.
  repeat split; try done; [apply u64_between|]. cbn [Body fits negb]. rewrite Ht. by apply Z.ltb_lt.
Qed.

(** The hub's handling of a MSG from a welcomed session with a token left. *)
Lemma handleInbound_msg h pid p raw env : safe h -> heap h !! pid = Some p -> live h pid -> active p = true ->
  (take_token (rate_limit h) (clock h) (tokens p) (lastRefill p)).1.1 = true ->
  UnmarshalEnvelope raw = Ok env -> Type_ env = TypeMsg -> HasNick env = false ->
  exists tok last, handleInbound rand_h net_h None pid raw h =
    onRoomContent rand_h net_h None pid env
      (upd_peer pid (set_bucket tok last) (event (EvInboundBytes (len raw)) h)).
Proof.
  intros [Hi Hd] Hp Hl Ha Htok Hu Ht Hn. assert (Hv : hv h pid = Some (view p)) by (unfold hv; by rewrite Hp).
  destruct (live_registered h pid Hi Hl) as (v & Hv' & Hc & Hlen & Hreg & _). simplify_eq. cbn in Hlen, Hreg, Hc.
  destruct (Hd pid) as [_ Hpend]. specialize (Hpend _ Hv Hc).
  assert (Hnone : pendingHello p = None).
  { assert (Hne : peerHash p <> []) by (intros E; by rewrite E in Hlen). specialize (Hpend Hne).
    cbn in Hpend. by destruct (pendingHello p). }
  unfold handleInbound. rewrite Hu. set (h1 := event _ h).
  assert (Hp1 : heap h1 !! pid = Some p) by done. unfold onMessage.
  rewrite (register_remote_same h1 pid p) by done.
  assert (Hph : peer_hash h1 pid = peerHash p) by (unfold peer_hash; by rewrite Hp1).
  rewrite Hph, Hlen. change (IdentityLength =? IdentityLength) with true. cbn iota.
  unfold handlePeer, takeToken. rewrite Hp1. change (rate_limit h1) with (rate_limit h). change (clock h1) with (clock h).
  destruct (take_token _ _ _ _) as [[ok tok] last]. cbn [fst] in Htok. rewrite Htok. cbn [negb].
  exists tok, last. set (h2 := upd_peer pid (set_bucket tok last) h1).
  assert (Hact : is_active h2 pid = true) by (unfold is_active; cbn; by rewrite lookup_alter_eq, Hp).
  unfold handleNick. rewrite Hn, Ht. change (TypeMsg =? TypeHello) with false. cbn [negb].
  change (TypeMsg =? TypePong) with false. rewrite Hact. cbn [negb]. unfold handleActive. rewrite Ht. done.
Qed.

End delivery.

(** Alice's client and Bob's in the hub of [RrcHubProps.demo]. *)
Definition alice_client : Client :=
  set_c_rooms {[lit "#lobby"]} ∅ (set_c_state ClientActive (dial_done (set_link_up true 1000 (new_client demo.alice 1000)))).
Definition packet_of (e : Envelope) : bytes := match @Marshal ref_cbor (Some e) with Ok raw => raw | Err _ => [] end.
Definition demo_out : Envelope := outgoing alice_client (replicate 8 x55) (lit "#lobby") (lit "hello").

Lemma two_safe : safe demo.two.
Proof. exact (orderly_safe (C := ref_cbor) demo.rand demo.net None I demo.config demo.hub_id tt demo.two (demo.steps_orderly _ _ demo.two_steps)). Qed.

