(* ===== verification/RnvProto.v ===== *)
(** * The RNV wire protocol ([pkg/rnv/proto], [pkg/rnv/recommend.go])

    Signalling envelopes and their bodies, binary media frames, profiles and
    the validation of stream offers, the codec registry and announce metadata.
    A Go [int] is 64 bits wide: conversions from [uint64] wrap, as the code's
    do.  The CBOR library is a parameter, as in [Cbor.v]. *)

From stdpp Require Import base tactics list gmap sets strings.
From Stdlib Require Import ZArith Lia.
From S2P Require Import Prelude GoText Cbor CborRef.

(** ** Constants *)

Definition ProtocolVersion : Z := 1.
Definition IdentityHashLen : Z := 16.

Definition FieldVersion : Z := 0.
Definition FieldType : Z := 1.
Definition FieldBody : Z := 2.
Definition FieldExtensions : Z := 90.

Definition TypeHello : Z := 1.
Definition TypeReject : Z := 2.
Definition TypeStill : Z := 10.
Definition TypeClipOffer : Z := 20.
Definition TypeClipAccept : Z := 21.
Definition TypeClipDone : Z := 22.
Definition TypeStreamOffer : Z := 30.
Definition TypeStreamAccept : Z := 31.
Definition TypeStreamCtrl : Z := 32.
Definition TypeBye : Z := 40.
Definition TypePrivateMin : Z := 1000.

Definition CodecJPEG : byte := x01.
Definition CodecAVIF : byte := x02.
Definition CodecOpaque : byte := x10.
Definition CodecH264 : byte := x20.
Definition CodecVP8 : byte := x21.
Definition CodecPCM16 : byte := x80.
Definition CodecOpus : byte := x81.
Definition CodecCodec2 : byte := x82.
Definition CodecPrivateMin : byte := xe0.
Definition CodecPrivateMax : byte := xfe.

Definition MagicVideo : byte := xf1.
Definition MagicAudio : byte := xf2.
Definition FlagKeyframe : byte := x01.

Definition TrackVideo : byte := x01.
Definition TrackAudio : byte := x02.

Definition ProfileUltraLow : Z := 16.
Definition ProfileLow : Z := 32.
Definition ProfileMedium : Z := 48.
Definition ProfileHigh : Z := 64.

Definition TransferPacket : Z := 0.
Definition TransferResource : Z := 1.

Definition RejectCapacity : Z := 1.
Definition RejectSize : Z := 2.
Definition RejectUnknown : Z := 3.
Definition RejectPolicy : Z := 4.

Definition HelloKeyMaxStill : Z := 0.
Definition HelloKeyMaxClip : Z := 1.
Definition HelloKeyProfiles : Z := 2.
Definition HelloKeyCodecs : Z := 3.
Definition HelloKeyTracks : Z := 4.
Definition HelloKeyPreferred : Z := 5.
Definition HelloKeyStrictExt : Z := 6.
Definition HelloKeyExtensions : Z := 7.

Definition StillKeyWidth : Z := 0.
Definition StillKeyHeight : Z := 1.
Definition StillKeyCodec : Z := 2.
Definition StillKeySize : Z := 3.
Definition StillKeyTransfer : Z := 4.
Definition StillKeyID : Z := 5.
Definition StillKeyData : Z := 6.

Definition ClipKeyID : Z := 0.
Definition ClipKeySize : Z := 1.
Definition ClipKeyCodec : Z := 2.
Definition ClipKeyMime : Z := 3.
Definition ClipKeySHA256 : Z := 4.

Definition StreamKeyProfile : Z := 0.
Definition StreamKeyTracks : Z := 1.
Definition StreamKeyVideo : Z := 2.
Definition StreamKeyAudio : Z := 3.
Definition StreamKeyMaxFPS : Z := 4.

Definition CtrlKeyBitrate : Z := 0.
Definition CtrlKeyKeyframe : Z := 1.
Definition CtrlKeyPause : Z := 2.

Definition RejectKeyCode : Z := 0.
Definition RejectKeyReason : Z := 1.

Definition AnnounceKeyVersion : Z := 0.
Definition AnnounceKeyCaps : Z := 1.
Definition AnnounceKeyProfile : Z := 2.
Definition AnnounceKeyExtBloom : Z := 3.

Definition CapStill : Z := 1.
Definition CapClip : Z := 2.
Definition CapStream : Z := 4.
Definition CapAudio : Z := 8.

Definition MaxStillBytes : Z := 262144.
Definition MaxClipBytes : Z := 8388608.
Definition MaxStreamFrameBytes : Z := 400.
Definition MaxAudioFrameBytes : Z := 256.
Definition MaxEnvelopeBytes : Z := 4096.
Definition MaxWidth : Z := 4096.
Definition MaxHeight : Z := 4096.
Definition FrameHeaderLen : Z := 5.
Definition MaxAnnounceBytes : Z := 512.

Definition UltraLowStillMax : Z := 32768.
Definition LowStillMax : Z := 131072.
Definition LowClipMax : Z := 1048576.
Definition MediumClipMax : Z := 4194304.
Definition HighClipMax : Z := 8388608.
Definition MediumMaxFPS : Z := 2.
Definition HighMaxFPS : Z := 5.
Definition LinkPacketSoftMax : Z := 400.

(** The decoder options set in [init]. *)
Definition rnv_limits : DecLimits :=
  {| MaxNestedLevels := 8; MaxArrayElements := 256; MaxMapPairs := 128 |}.

Inductive rnv_error :=
| NilEnvelope | WrongVersion (v : Z) | EnvelopeTooLarge | EmptyEnvelope | CborError
| FrameTooLarge | FrameTooShort | BadMagic (m : byte)
| AnnounceTooLarge
| NilRegistry | BuiltinCodec (id : byte) | NoCoder (id : byte).

(** ** Conversions from [any] *)

Definition asUint64 (v : any) : Z :=
  match v with
  | AU64 n | AU32 n | AU16 n | AU8 n => n
  | AI64 n | AInt n | AI32 n => if n <? 0 then 0 else n
  | _ => 0
  end.

(** [out[asUint64(k)] = val] in iteration order. *)
Definition asUint64Map (v : any) : umap :=
  match v with
  | AMapU m => m
  | AMapA m => foldl (fun out kv => uput out (asUint64 kv.1) kv.2) [] m
  | _ => []
  end.

Abbreviation extmap := (gmap Z bytes).

Definition asExtMap (v : any) : extmap :=
  foldl (fun out kv => match kv.2 with ABytes b | AStr b => <[kv.1 := b]> out | _ => out end)
    ∅ (asUint64Map v).

Definition asString (v : any) : bytes := match v with AStr s | ABytes s => s | _ => [] end.

(** [asBytes]: a nil slice and an empty one are not told apart. *)
Definition asBytes (v : any) : bytes := match v with ABytes b | AStr b => b | _ => [] end.

Definition asIntList (v : any) : list Z :=
  match v with AArr a => map (fun x => i64 (asUint64 x)) a | _ => [] end.

Definition asByteList (v : any) : bytes :=
  match v with AArr a => map (fun x => Zb (asUint64 x)) a | ABytes a => a | _ => [] end.

Definition of_exts (e : extmap) : umap := map (fun kv => (kv.1, ABytes kv.2)) (map_to_list e).

Definition put_when (c : bool) (k : Z) (v : any) (m : umap) : umap := if c then uput m k v else m.

(** ** Envelopes *)

Record Envelope := mkEnvelope {
  Version : Z; Type_ : Z; Body : option umap; Extensions : extmap;
}.

Definition NewTyped (typ : Z) (body : option umap) : Envelope := mkEnvelope ProtocolVersion typ body ∅.

Definition envelope_map (e : Envelope) : umap :=
  let m := uput (uput [] FieldVersion (AU64 (Version e))) FieldType (AU64 (Type_ e)) in
  let m := match Body e with Some b => uput m FieldBody (AMapU b) | None => m end in
  put_when (negb (bool_decide (Extensions e = ∅))) FieldExtensions (AMapU (of_exts (Extensions e))) m.

Section codec.
Context `{C : Cbor}.

(** [Pack] also sets a zero version in place: the second component. *)
Definition Pack (p : option Envelope) : res rnv_error bytes * option Envelope :=
  match p with
  | None => (Err NilEnvelope, None)
  | Some e =>
      let e := if Version e =? 0 then mkEnvelope ProtocolVersion (Type_ e) (Body e) (Extensions e) else e in
      if negb (Version e =? ProtocolVersion) then (Err (WrongVersion (Version e)), Some e)
      else
        match cbor_Marshal (AMapU (envelope_map e)) with
        | None => (Err CborError, Some e)
        | Some raw => (if MaxEnvelopeBytes <? len raw then Err EnvelopeTooLarge else Ok raw, Some e)
        end
  end.

Definition UnpackEnvelope (raw : bytes) : res rnv_error Envelope :=
  if len raw =? 0 then Err EmptyEnvelope
  else if MaxEnvelopeBytes <? len raw then Err EnvelopeTooLarge
  else
    match cbor_Unmarshal raw with
    | None => Err CborError
    | Some m =>
        let version := match uget m FieldVersion with Some v => asUint64 v | None => 0 end in
        if negb (version =? ProtocolVersion) then Err (WrongVersion version)
        else
          let typ := match uget m FieldType with Some v => asUint64 v | None => 0 end in
          let body := match uget m FieldBody with Some v => asUint64Map v | None => [] end in
          let ext := match uget m FieldExtensions with Some v => asExtMap v | None => ∅ end in
          Ok (mkEnvelope version typ (Some body) ext)
    end.
End codec.

(** ** Bodies *)

Record Caps := mkCaps {
  MaxStill : Z; MaxClip : Z; Profiles : list Z; Codecs : bytes; Tracks : byte; Preferred : Z;
  StrictExt : bool; CapsExtensions : extmap;
}.

Definition CapsToBody (c : Caps) : umap :=
  let body := [(HelloKeyMaxStill, AU64 (MaxStill c)); (HelloKeyMaxClip, AU64 (MaxClip c));
               (HelloKeyProfiles, AArr (map (fun p => AU64 (u64 p)) (Profiles c)));
               (HelloKeyCodecs, AArr (map (fun co => AU64 (bZ co)) (Codecs c)));
               (HelloKeyTracks, AU64 (bZ (Tracks c))); (HelloKeyPreferred, AU64 (u64 (Preferred c)))] in
  let body := put_when (StrictExt c) HelloKeyStrictExt (ABool true) body in
  put_when (negb (bool_decide (CapsExtensions c = ∅))) HelloKeyExtensions (AMapU (of_exts (CapsExtensions c))) body.

Definition both_tracks : byte := x03.

Definition default_caps : Caps :=
  mkCaps MaxStillBytes MaxClipBytes [] [] both_tracks ProfileLow false ∅.

(** [if v, ok := body[k]; ok { x = f(v) }]. *)
Definition field {A} (body : umap) (k : Z) (f : any -> A) (x : A) : A :=
  match uget body k with Some v => f v | None => x end.

Definition CapsFromBody (body : option umap) : Caps :=
  match body with
  | None => default_caps
  | Some b =>
      mkCaps (field b HelloKeyMaxStill asUint64 MaxStillBytes)
        (field b HelloKeyMaxClip asUint64 MaxClipBytes)
        (field b HelloKeyProfiles asIntList [])
        (field b HelloKeyCodecs asByteList [])
        (field b HelloKeyTracks (fun v => Zb (asUint64 v)) both_tracks)
        (field b HelloKeyPreferred (fun v => i64 (asUint64 v)) ProfileLow)
        (field b HelloKeyStrictExt (fun v => match v with ABool x => x | _ => false end) false)
        (field b HelloKeyExtensions asExtMap ∅)
  end.

Record StillMeta := mkStill {
  Width : Z; Height : Z; StillCodec : byte; StillSize : Z; Transfer : Z; StillID : bytes; StillData : bytes;
}.

Definition nonempty (b : bytes) : bool := negb (bool_decide (b = [])).

Definition StillToBody (s : StillMeta) : umap :=
  let body := [(StillKeyWidth, AU64 (u64 (Width s))); (StillKeyHeight, AU64 (u64 (Height s)));
               (StillKeyCodec, AU64 (bZ (StillCodec s))); (StillKeySize, AU64 (StillSize s));
               (StillKeyTransfer, AU64 (u64 (Transfer s)))] in
  let body := put_when (nonempty (StillID s)) StillKeyID (ABytes (StillID s)) body in
  put_when (nonempty (StillData s)) StillKeyData (ABytes (StillData s)) body.

Definition StillMetaFromBody (body : option umap) : StillMeta :=
  match body with
  | None => mkStill 0 0 CodecJPEG 0 TransferPacket [] []
  | Some b =>
      mkStill (i64 (asUint64 (uget_nil b StillKeyWidth))) (i64 (asUint64 (uget_nil b StillKeyHeight)))
        (Zb (asUint64 (uget_nil b StillKeyCodec))) (asUint64 (uget_nil b StillKeySize))
        (i64 (asUint64 (uget_nil b StillKeyTransfer))) (asBytes (uget_nil b StillKeyID))
        (asBytes (uget_nil b StillKeyData))
  end.

Record ClipMeta := mkClip {
  ClipID : bytes; ClipSize : Z; ClipCodec : byte; Mime : bytes; SHA256 : bytes;
}.

Definition ClipToBody (c : ClipMeta) : umap :=
  let body := [(ClipKeySize, AU64 (ClipSize c)); (ClipKeyCodec, AU64 (bZ (ClipCodec c)))] in
  let body := put_when (nonempty (ClipID c)) ClipKeyID (ABytes (ClipID c)) body in
  let body := put_when (nonempty (Mime c)) ClipKeyMime (AStr (Mime c)) body in
  put_when (nonempty (SHA256 c)) ClipKeySHA256 (ABytes (SHA256 c)) body.

Definition ClipMetaFromBody (body : option umap) : ClipMeta :=
  match body with
  | None => mkClip [] 0 CodecOpaque [] []
  | Some b =>
      mkClip (asBytes (uget_nil b ClipKeyID)) (asUint64 (uget_nil b ClipKeySize))
        (Zb (asUint64 (uget_nil b ClipKeyCodec))) (asString (uget_nil b ClipKeyMime))
        (asBytes (uget_nil b ClipKeySHA256))
  end.

Record StreamOffer := mkOffer {
  OfferProfile : Z; OfferTracks : byte; Video : byte; Audio : byte; MaxFPS : Z;
}.

Definition nonzero (b : byte) : bool := negb (bool_decide (b = x00)).

Definition OfferToBody (s : StreamOffer) : umap :=
  let body := [(StreamKeyProfile, AU64 (u64 (OfferProfile s))); (StreamKeyTracks, AU64 (bZ (OfferTracks s)))] in
  let body := put_when (nonzero (Video s)) StreamKeyVideo (AU64 (bZ (Video s))) body in
  let body := put_when (nonzero (Audio s)) StreamKeyAudio (AU64 (bZ (Audio s))) body in
  put_when (0 <? MaxFPS s) StreamKeyMaxFPS (AU64 (u64 (MaxFPS s))) body.

Definition StreamOfferFromBody (body : option umap) : StreamOffer :=
  match body with
  | None => mkOffer ProfileMedium x00 CodecJPEG CodecOpus 0
  | Some b =>
      mkOffer (i64 (asUint64 (uget_nil b StreamKeyProfile))) (Zb (asUint64 (uget_nil b StreamKeyTracks)))
        (field b StreamKeyVideo (fun v => Zb (asUint64 v)) CodecJPEG)
        (field b StreamKeyAudio (fun v => Zb (asUint64 v)) CodecOpus)
        (field b StreamKeyMaxFPS (fun v => i64 (asUint64 v)) 0)
  end.

Record RejectBody := mkReject { Code : Z; Reason : bytes }.

Definition RejectToBody (r : RejectBody) : umap :=
  put_when (nonempty (Reason r)) RejectKeyReason (AStr (Reason r)) [(RejectKeyCode, AU64 (u64 (Code r)))].

Definition RejectFromBody (body : option umap) : RejectBody :=
  match body with
  | None => mkReject 0 []
  | Some b => mkReject (i64 (asUint64 (uget_nil b RejectKeyCode))) (asString (uget_nil b RejectKeyReason))
  end.

Record CtrlBody := mkCtrl { Bitrate : Z; Keyframe : bool; Pause : bool }.

Definition CtrlToBody (c : CtrlBody) : umap :=
  let body := put_when (0 <? Bitrate c) CtrlKeyBitrate (AU64 (u64 (Bitrate c))) [] in
  let body := put_when (Keyframe c) CtrlKeyKeyframe (ABool true) body in
  put_when (Pause c) CtrlKeyPause (ABool true) body.

Definition as_bool (v : any) : bool := match v with ABool b => b | _ => false end.

Definition CtrlFromBody (body : option umap) : CtrlBody :=
  match body with
  | None => mkCtrl 0 false false
  | Some b => mkCtrl (i64 (asUint64 (uget_nil b CtrlKeyBitrate))) (as_bool (uget_nil b CtrlKeyKeyframe))
                (as_bool (uget_nil b CtrlKeyPause))
  end.

(** ** Media frames *)

Record Frame := mkFrame { Magic : byte; FrameCodec : byte; Flags : byte; Seq : Z; Payload : bytes }.

Definition frame_max (magic : byte) : Z :=
  if bool_decide (magic = MagicAudio) then MaxAudioFrameBytes else MaxStreamFrameBytes.

(** [seq] is a [uint16]. *)
Definition PackFrame (magic codec flags : byte) (seq : Z) (payload : bytes) : res rnv_error bytes :=
  if frame_max magic <? len payload then Err FrameTooLarge
  else Ok ([magic; codec; flags] ++ be_put 2 seq ++ payload).

Definition PackVideo (codec flags : byte) (seq : Z) (payload : bytes) := PackFrame MagicVideo codec flags seq payload.
Definition PackAudio (codec flags : byte) (seq : Z) (payload : bytes) := PackFrame MagicAudio codec flags seq payload.

Definition SplitFrame (raw : bytes) : res rnv_error Frame :=
  match raw with
  | magic :: codec :: flags :: s1 :: s0 :: payload =>
      if negb (bool_decide (magic = MagicVideo)) && negb (bool_decide (magic = MagicAudio))
      then Err (BadMagic magic)
      else if frame_max magic <? len payload then Err FrameTooLarge
      else Ok (mkFrame magic codec flags (be_get [s1; s0]) payload)
  | _ => Err FrameTooShort
  end.

Definition IsMediaFrame (raw : bytes) : bool :=
  match raw with
  | [] => false
  | m :: _ => bool_decide (m = MagicVideo) || bool_decide (m = MagicAudio)
  end.

(** ** Profiles *)

Record ProfileLimits := mkProfileLimits {
  StillMax : Z; ClipMax : Z; AllowVideo : bool; AllowAudio : bool; LimitFPS : Z;
  AudioCodecs : bytes; VideoCodecs : bytes;
}.

Definition low_limits : ProfileLimits :=
  mkProfileLimits LowStillMax LowClipMax false true 0 [CodecCodec2] [CodecJPEG].

Definition LimitsFor (profile : Z) : ProfileLimits :=
  if profile =? ProfileUltraLow then mkProfileLimits UltraLowStillMax 0 false false 0 [] [CodecJPEG]
  else if profile =? ProfileLow then low_limits
  else if profile =? ProfileMedium
  then mkProfileLimits MaxStillBytes MediumClipMax true true MediumMaxFPS [CodecOpus; CodecCodec2] [CodecJPEG]
  else if profile =? ProfileHigh
  then mkProfileLimits MaxStillBytes HighClipMax true true HighMaxFPS [CodecOpus; CodecCodec2] [CodecJPEG]
  else low_limits.

Definition normalizeProfile (p : Z) : Z :=
  if (p =? ProfileUltraLow) || (p =? ProfileLow) || (p =? ProfileMedium) || (p =? ProfileHigh) then p
  else ProfileLow.

Definition MinProfile (a b : Z) : Z :=
  if normalizeProfile a <? normalizeProfile b then normalizeProfile a else normalizeProfile b.

Definition SupportsProfile (caps : Caps) (profile : Z) : bool :=
  let profile := normalizeProfile profile in
  match Profiles caps with
  | [] => true
  | ps => existsb (fun p => normalizeProfile p =? profile) ps
  end.

Definition HasCodec (caps : Caps) (codec : byte) : bool :=
  match Codecs caps with
  | [] => true
  | cs => existsb (fun c => bool_decide (c = codec)) cs
  end.

Definition DefaultCaps : Caps :=
  mkCaps MaxStillBytes MaxClipBytes [ProfileUltraLow; ProfileLow; ProfileMedium; ProfileHigh]
    [CodecJPEG; CodecOpaque; CodecOpus; CodecCodec2] both_tracks ProfileLow false ∅.

(** [mask&track != 0]. *)
Definition has_track (mask track : byte) : bool := negb (Z.land (bZ mask) (bZ track) =? 0).

Inductive profile_error :=
| EmptyTrackMask | ProfileUnsupported
| VideoNotAllowed | VideoNotAdvertised | VideoCodecUnsupported
| AudioNotAllowed | AudioNotAdvertised | LowNeedsCodec2 | AudioCodecUnsupported
| FpsTooHigh.

Definition effective_profile (local remote : Caps) (offer : StreamOffer) : Z :=
  if OfferProfile offer =? 0 then MinProfile (Preferred local) (Preferred remote)
  else normalizeProfile (OfferProfile offer).

Definition check_video (local remote : Caps) (offer : StreamOffer) (lim : ProfileLimits)
  : res profile_error unit :=
  if has_track (OfferTracks offer) TrackVideo then
    if negb (AllowVideo lim) then Err VideoNotAllowed
    else if negb (has_track (Tracks local) TrackVideo) || negb (has_track (Tracks remote) TrackVideo)
    then Err VideoNotAdvertised
    else
      let vid := if bool_decide (Video offer = x00) then CodecJPEG else Video offer in
      if negb (HasCodec local vid) || negb (HasCodec remote vid) then Err VideoCodecUnsupported else Ok tt
  else Ok tt.

Definition check_audio (local remote : Caps) (offer : StreamOffer) (eff : Z) (lim : ProfileLimits)
  : res profile_error unit :=
  if has_track (OfferTracks offer) TrackAudio then
    if negb (AllowAudio lim) then Err AudioNotAllowed
    else if negb (has_track (Tracks local) TrackAudio) || negb (has_track (Tracks remote) TrackAudio)
    then Err AudioNotAdvertised
    else
      let aud := if bool_decide (Audio offer = x00)
                 then (if eff =? ProfileLow then CodecCodec2 else CodecOpus) else Audio offer in
      if (eff =? ProfileLow) && negb (bool_decide (aud = CodecCodec2)) then Err LowNeedsCodec2
      else if negb (HasCodec local aud) || negb (HasCodec remote aud) then Err AudioCodecUnsupported else Ok tt
  else Ok tt.

Definition ValidateStreamOffer (local remote : Caps) (offer : StreamOffer) : res profile_error unit :=
  if bool_decide (OfferTracks offer = x00) then Err EmptyTrackMask
  else
    let eff := effective_profile local remote offer in
    if negb (SupportsProfile local eff) || negb (SupportsProfile remote eff) then Err ProfileUnsupported
    else
      let lim := LimitsFor eff in
      _ ← check_video local remote offer lim;
      _ ← check_audio local remote offer eff lim;
      if (0 <? MaxFPS offer) && (0 <? LimitFPS lim) && (LimitFPS lim <? MaxFPS offer) then Err FpsTooHigh
      else Ok tt.

(** ** The codec registry *)

Abbreviation CodecFunc := (bytes -> res rnv_error bytes).

Record CodecRegistry := mkRegistry { encode : gmap Z CodecFunc; decode : gmap Z CodecFunc }.

Definition NewCodecRegistry : CodecRegistry := mkRegistry ∅ ∅.

Definition builtin (id : byte) : bool :=
  bool_decide (id = CodecJPEG) || bool_decide (id = CodecOpus) || bool_decide (id = CodecCodec2)
  || bool_decide (id = CodecOpaque).

Definition put_coder (id : byte) (f : option CodecFunc) (m : gmap Z CodecFunc) : gmap Z CodecFunc :=
  match f with Some f => <[bZ id := f]> m | None => m end.

Definition Register (r : option CodecRegistry) (id : byte) (enc dec : option CodecFunc)
  : res rnv_error CodecRegistry :=
  match r with
  | None => Err NilRegistry
  | Some r =>
      if ((bZ id <? bZ CodecPrivateMin) || (bZ CodecPrivateMax <? bZ id)) && builtin id
      then Err (BuiltinCodec id)
      else Ok (mkRegistry (put_coder id enc (encode r)) (put_coder id dec (decode r)))
  end.

Definition run_coder (m : gmap Z CodecFunc) (id : byte) (input : bytes) : res rnv_error bytes :=
  match m !! bZ id with None => Err (NoCoder id) | Some f => f input end.

Definition Encode (r : CodecRegistry) := run_coder (encode r).
Definition Decode (r : CodecRegistry) := run_coder (decode r).

Definition Has (r : CodecRegistry) (id : byte) : bool :=
  bool_decide (is_Some (encode r !! bZ id)) || bool_decide (is_Some (decode r !! bZ id)).

Definition KnownBuiltin (id : byte) : bool :=
  bool_decide (id = CodecJPEG) || bool_decide (id = CodecOpaque) || bool_decide (id = CodecOpus)
  || bool_decide (id = CodecCodec2) || bool_decide (id = CodecPCM16).

(** ** Announces *)

Record AnnounceAppData := mkAnnounce {
  AnnVersion : Z; AnnCaps : Z; AnnProfile : Z; ExtBloom : bytes;
}.

Definition announce_map (a : AnnounceAppData) : umap :=
  let version := if AnnVersion a =? 0 then ProtocolVersion else AnnVersion a in
  put_when (nonempty (ExtBloom a)) AnnounceKeyExtBloom (ABytes (ExtBloom a))
    [(AnnounceKeyVersion, AU64 version); (AnnounceKeyCaps, AU64 (AnnCaps a));
     (AnnounceKeyProfile, AU64 (u64 (AnnProfile a)))].

Section announce.
Context `{C : Cbor}.

Definition EncodeAnnounceAppData (a : AnnounceAppData) : res rnv_error bytes :=
  match cbor_Marshal (AMapU (announce_map a)) with
  | None => Err CborError
  | Some raw => if MaxAnnounceBytes <? len raw then Err AnnounceTooLarge else Ok raw
  end.

Definition DecodeAnnounceAppData (raw : bytes) : res rnv_error AnnounceAppData :=
  if len raw =? 0 then Ok (mkAnnounce ProtocolVersion 0 ProfileLow [])
  else
    match cbor_Unmarshal raw with
    | None => Err CborError
    | Some m =>
        Ok (mkAnnounce (field m AnnounceKeyVersion asUint64 ProtocolVersion)
              (field m AnnounceKeyCaps asUint64 0)
              (field m AnnounceKeyProfile (fun v => i64 (asUint64 v)) ProfileLow)
              (field m AnnounceKeyExtBloom asBytes []))
    end.
End announce.

Definition bit_if (c : bool) (bit b : Z) : Z := if c then Z.lor b bit else b.

Definition CapsBitmap (c : Caps) : Z :=
  let b := Z.lor 0 CapStill in
  let b := bit_if (0 <? MaxClip c) CapClip b in
  let b := foldl (fun b p => let lim := LimitsFor p in
                             bit_if (AllowAudio lim) CapAudio (bit_if (AllowVideo lim) CapStream b))
             b (Profiles c) in
  let b := bit_if (has_track (Tracks c) TrackAudio) CapAudio b in
  bit_if (has_track (Tracks c) TrackVideo) CapStream b.

(** ** Recommendations and bounds ([recommend.go]) *)

Inductive UseCase := UseCaseVoiceOnly | UseCaseAV | UseCaseStills | UseCaseClips.
Inductive Stack := StackLXST | StackRNV.

Definition RecommendStack (u : UseCase) : Stack :=
  match u with UseCaseVoiceOnly => StackLXST | _ => StackRNV end.

(** [errors.go], with the text of each error. *)
Inductive rnv_sentinel :=
| ErrNilArgument | ErrBadFieldLength | ErrWrongVersion | ErrPacketTooLarge | ErrEnvelopeTooLarge
| ErrStillTooLarge | ErrClipTooLarge | ErrFrameTooLarge | ErrBadDimensions | ErrCapacity
| ErrRejected | ErrSessionClosed | ErrLinkInactive | ErrDialTimeout | ErrHelloTimeout
| ErrNotHandshaken | ErrStreamNotOpen | ErrStreamAlreadyOpen | ErrClipNotAccepted
| ErrProgressRequired | ErrParallelLXST | ErrUnknownExtension | ErrUnknownCodec
| ErrVideoTrackDenied | ErrAudioTrackDenied | ErrInvalidOffer | ErrResourceFailed
| ErrResourceTimeout | ErrRateLimited.

Definition error_text (e : rnv_sentinel) : bytes :=
  lit match e with
  | ErrNilArgument => "rnv: nil argument"
  | ErrBadFieldLength => "rnv: bad field length"
  | ErrWrongVersion => "rnv: wrong protocol version"
  | ErrPacketTooLarge => "rnv: packet too large"
  | ErrEnvelopeTooLarge => "rnv: envelope too large"
  | ErrStillTooLarge => "rnv: still exceeds size limit"
  | ErrClipTooLarge => "rnv: clip exceeds size limit"
  | ErrFrameTooLarge => "rnv: frame exceeds size limit"
  | ErrBadDimensions => "rnv: dimensions exceed limits"
  | ErrCapacity => "rnv: peer or profile cannot sustain offer"
  | ErrRejected => "rnv: peer rejected"
  | ErrSessionClosed => "rnv: session closed"
  | ErrLinkInactive => "rnv: link inactive"
  | ErrDialTimeout => "rnv: dial timeout"
  | ErrHelloTimeout => "rnv: hello timeout"
  | ErrNotHandshaken => "rnv: handshake incomplete"
  | ErrStreamNotOpen => "rnv: stream not open"
  | ErrStreamAlreadyOpen => "rnv: stream already open"
  | ErrClipNotAccepted => "rnv: clip not accepted"
  | ErrProgressRequired => "rnv: progress callback required for large clip"
  | ErrParallelLXST => "rnv: parallel LXST call blocked (set AllowParallelLXST)"
  | ErrUnknownExtension => "rnv: unknown extension in strict mode"
  | ErrUnknownCodec => "rnv: unknown codec"
  | ErrVideoTrackDenied => "rnv: video track not allowed at this profile"
  | ErrAudioTrackDenied => "rnv: audio track not allowed at this profile"
  | ErrInvalidOffer => "rnv: invalid offer"
  | ErrResourceFailed => "rnv: resource transfer failed"
  | ErrResourceTimeout => "rnv: resource transfer timeout"
  | ErrRateLimited => "rnv: rate limited"
  end.

Definition ValidateOffer (local remote : Caps) (offer : StreamOffer) : res rnv_sentinel unit :=
  match ValidateStreamOffer local remote offer with Ok _ => Ok tt | Err _ => Err ErrInvalidOffer end.

Definition ValidateStillMeta (meta : StillMeta) (maxBytes : Z) : res rnv_sentinel unit :=
  if (Width meta <? 0) || (Height meta <? 0) || (MaxWidth <? Width meta) || (MaxHeight <? Height meta)
  then Err ErrBadDimensions
  else
    let maxBytes := if maxBytes =? 0 then MaxStillBytes else maxBytes in
    if (maxBytes <? StillSize meta) || (MaxStillBytes <? StillSize meta) then Err ErrStillTooLarge else Ok tt.

Definition ValidateClipMeta (meta : ClipMeta) (maxBytes : Z) : res rnv_sentinel unit :=
  let maxBytes := if maxBytes =? 0 then MaxClipBytes else maxBytes in
  if (maxBytes <? ClipSize meta) || (MaxClipBytes <? ClipSize meta) then Err ErrClipTooLarge else Ok tt.

(** * Properties *)

Lemma i64_u64 z : - 2 ^ 63 <= z < 2 ^ 63 -> i64 (u64 z) = z.
Proof.
  intros H. rewrite <- (i64_small z H) at 2. unfold i64, sint, u64. by rewrite Z.mod_mod by lia.
Qed.

Lemma u64_range z : between 0 (u64 z) max_u64 = true.
Proof. unfold between, u64, max_u64. pose proof (Z.mod_pos_bound z (2 ^ 64)). lia. Qed.

(** ** Maps and extensions over the wire *)

Lemma asUint64Map_wire m : NoDup (map fst m) -> asUint64Map (wire (AMapU m)) = wire_map m.
Proof.
  intros H. simpl.
  assert (forall out, NoDup (map fst (out ++ m)) ->
    foldl (fun out kv => uput out (asUint64 kv.1) kv.2) out (map (fun kv => (AU64 kv.1, wire kv.2)) m)
    = out ++ wire_map m) as Hg; [|by rewrite Hg].
  clear H. induction m as [|[k v] m IH]; intros out Hn; simpl; [by rewrite app_nil_r|].
  rewrite map_app in Hn. simpl in Hn. apply NoDup_app in Hn as (Ho & Hd & Hm).
  rewrite uput_fresh by (intros Hk; eapply Hd; [exact Hk|left]).
  rewrite IH; [by rewrite <- app_assoc|]. rewrite !map_app, <- app_assoc. simpl.
  by apply NoDup_app.
Qed.

Lemma foldl_insert_exts l (out : extmap) : NoDup (l.*1) ->
  foldl (fun out kv => match kv.2 with ABytes b | AStr b => <[kv.1 := b]> out | _ => out end) out
    (wire_map (map (fun kv => (kv.1, ABytes kv.2)) l)) = list_to_map l ∪ out.
Proof.
  revert out. induction l as [|[k v] l IH]; intros out H; simpl in *; [by rewrite map_empty_union|].
  apply NoDup_cons in H as [Hk H]. rewrite IH by done. rewrite <- insert_union_l.
  rewrite insert_union_r; [done|]. by apply not_elem_of_list_to_map.
Qed.

Lemma of_exts_keys e : map fst (of_exts e) = (map_to_list e).*1.
Proof. unfold of_exts. by rewrite map_map. Qed.

Lemma NoDup_of_exts e : NoDup (map fst (of_exts e)).
Proof. rewrite of_exts_keys. apply NoDup_fst_map_to_list. Qed.

Lemma asExtMap_wire e : asExtMap (wire (AMapU (of_exts e))) = e.
Proof.
  unfold asExtMap. rewrite asUint64Map_wire by apply NoDup_of_exts. unfold of_exts.
  rewrite foldl_insert_exts by apply NoDup_fst_map_to_list.
  by rewrite list_to_map_to_list, map_union_empty.
Qed.

(** Extensions whose keys and values are in range and number at most 128. *)
Definition exts_ok (d : Z) (e : extmap) : bool := fits rnv_limits d (AMapU (of_exts e)).

(** A body the decoder accepts below an envelope's own map. *)
Definition body_ok (b : umap) : Prop := NoDup (map fst b) /\ fits rnv_limits 1 (AMapU b) = true.

(** What the peer reads of a sent envelope: an absent body is empty, the
    others have the decoder's types. *)
Definition delivered (e : Envelope) : Envelope :=
  mkEnvelope (Version e) (Type_ e) (Some (wire_map (default [] (Body e)))) (Extensions e).

Definition sendable (e : Envelope) : Prop :=
  Version e = ProtocolVersion /\ between 0 (Type_ e) max_u64 = true
  /\ match Body e with Some b => body_ok b | None => True end /\ exts_ok 1 (Extensions e) = true.

Lemma envelope_map_ok e : sendable e ->
  NoDup (map fst (envelope_map e)) /\ fits rnv_limits 0 (AMapU (envelope_map e)) = true.
Proof.
  intros (Hv & Ht & Hb & Hx). unfold envelope_map, put_when. rewrite Hv.
  assert (exts_ok (0 + 1) (Extensions e) = true) as Hx' by done. unfold exts_ok in Hx'.
  assert (fits rnv_limits (0 + 1) (AU64 ProtocolVersion) = true) as Hp by done.
  change (fits rnv_limits (0 + 1) (AU64 (Type_ e)) = true) in Ht.
  destruct (Body e) as [b|]; [destruct Hb as [_ Hb]; change (fits rnv_limits (0 + 1) (AMapU b) = true) in Hb|];
    destruct (negb _); (split; [apply (bool_decide_unpack _); vm_compute; exact I|]);
    cbn -[between fits max_u64 of_exts Z.add ProtocolVersion];
    unfold fits at 1; fold fits; cbn -[between fits max_u64 of_exts Z.add ProtocolVersion];
    rewrite ?Hb, ?Hx', ?Ht, ?Hp; reflexivity.
Qed.


Section wire.
Context `{C : Cbor} `{!CborLaws C rnv_limits}.

(** An envelope in range either is refused for its size or arrives as
    [delivered]. *)
Lemma Unpack_Pack e : sendable e ->
  match (Pack (Some e)).1 with
  | Ok raw => UnpackEnvelope raw = Ok (delivered e) /\ 0 < len raw <= MaxEnvelopeBytes
  | Err x => x = EnvelopeTooLarge
  end.
Proof.
  intros He. destruct (envelope_map_ok e He) as [Hk Hf].
  destruct (cbor_encodes _ Hf) as (bs & Hbs & Hne).
  destruct (cbor_decodes _ _ Hk Hf Hbs) as (m & Hm & Hg).
  destruct He as (Hv & Ht & Hb & Hx).
  unfold Pack. rewrite Hv. change (ProtocolVersion =? 0) with false. cbv iota.
  rewrite Hv, Z.eqb_refl, Hbs. simpl negb. cbv iota.
  destruct (MaxEnvelopeBytes <? len bs) eqn:El; [done|]. simpl fst. cbv iota.
  assert (len bs =? 0 = false) as Hz by (apply Z.eqb_neq; by rewrite len_0_nil).
  split; [|bool_hyps; pose proof (len_nonneg bs); lia].
  unfold UnpackEnvelope. rewrite Hz, El, Hm, !Hg. unfold envelope_map, put_when, delivered.
  destruct (Body e) as [b|]; [destruct Hb as [Hn _]|];
    destruct (bool_decide (Extensions e = ∅)) eqn:Ee; bool_hyps; simpl negb; cbv iota;
    rewrite !uget_uput; cbn -[wire asUint64Map asExtMap ProtocolVersion uget]; rewrite Hv; simpl negb; cbv iota.
  all: rewrite ?asUint64Map_wire, ?asExtMap_wire by done; by rewrite ?Ee.
Qed.

(** A body sent in a typed envelope: the peer's parser gets it with [P]. *)
Definition crosses (typ : Z) (body : umap) (P : option umap -> Prop) : Prop :=
  match (Pack (Some (NewTyped typ (Some body)))).1 with
  | Ok raw => exists e, UnpackEnvelope raw = Ok e /\ Type_ e = typ /\ P (Body e)
  | Err x => x = EnvelopeTooLarge
  end.

Lemma crosses_intro typ body (P : option umap -> Prop) : between 0 typ max_u64 = true -> body_ok body ->
  P (Some (wire_map body)) -> crosses typ body P.
Proof.
  intros Ht Hb HP. unfold crosses. pose proof (Unpack_Pack (NewTyped typ (Some body))) as Hu.
  destruct (Pack _).1; [|by apply Hu]. destruct Hu as [Hu _]; [done|]. eauto.
Qed.
End wire.

(** ** Bodies over the wire *)

Definition is_int (z : Z) : Prop := - 2 ^ 63 <= z < 2 ^ 63.
Definition is_u64 (z : Z) : Prop := between 0 z max_u64 = true.

Lemma bZ_u64 b : between 0 (bZ b) max_u64 = true.
Proof. pose proof (bZ_range b). unfold between, max_u64. lia. Qed.

Lemma between_wide (a z b c : Z) : between a z b = true -> b <= c -> between a z c = true.
Proof. unfold between. lia. Qed.

(** Unfold the containers of a body and discharge its fields. *)
Ltac fits_body :=
  repeat match goal with |- fits rnv_limits ?d (AMapU ?l) = true =>
    change (fits rnv_limits d (AMapU l)) with
      ((d <? 8) && (len l <=? 128)
       && forallb (fun kv => between 0 kv.1 max_u64 && fits rnv_limits (d + 1) kv.2) l) end;
  rewrite ?andb_true_iff; repeat split; try done;
  cbn [forallb fst snd]; rewrite ?andb_true_iff; repeat split; try done;
  first [ apply u64_range | apply bZ_u64 | idtac ].

Lemma fits_bytes lim d b : len b < 2 ^ 64 -> fits lim d (ABytes b) = true.
Proof. intros. simpl. by apply Z.ltb_lt. Qed.

Lemma fits_text lim d s : valid_utf8 s = true -> len s < 2 ^ 64 -> fits lim d (AStr s) = true.
Proof. intros H ?. simpl. rewrite H. by apply Z.ltb_lt. Qed.

Record wf_caps (c : Caps) : Prop := {
  wf_max_still : is_u64 (MaxStill c);
  wf_max_clip : is_u64 (MaxClip c);
  wf_profiles : Forall is_int (Profiles c);
  wf_profiles_len : len (Profiles c) <= 256;
  wf_codecs_len : len (Codecs c) <= 256;
  wf_preferred : is_int (Preferred c);
  wf_exts : exts_ok 2 (CapsExtensions c) = true;
}.

Definition wf_still (s : StillMeta) : Prop :=
  is_int (Width s) /\ is_int (Height s) /\ is_u64 (StillSize s) /\ is_int (Transfer s)
  /\ len (StillID s) < 2 ^ 64 /\ len (StillData s) < 2 ^ 64.

Definition wf_clip (c : ClipMeta) : Prop :=
  is_u64 (ClipSize c) /\ len (ClipID c) < 2 ^ 64 /\ valid_utf8 (Mime c) = true /\ len (Mime c) < 2 ^ 64
  /\ len (SHA256 c) < 2 ^ 64.

Definition wf_reject (r : RejectBody) : Prop :=
  is_int (Code r) /\ valid_utf8 (Reason r) = true /\ len (Reason r) < 2 ^ 64.

Lemma fits_AArr d {A} (f : A -> any) l : d < 8 -> len l <= 256 ->
  Forall (fun x => fits rnv_limits (d + 1) (f x) = true) l -> fits rnv_limits d (AArr (map f l)) = true.
Proof.
  intros Hd Hl Hf. change (fits rnv_limits d (AArr (map f l))) with
    ((d <? 8) && (len (map f l) <=? 256) && forallb (fits rnv_limits (d + 1)) (map f l)).
  rewrite !andb_true_iff. unfold len in *. rewrite length_map. repeat split; try lia.
  apply forallb_forall. intros v (x & <- & Hx)%in_map_iff.
  rewrite Forall_forall in Hf. apply Hf. by apply list_elem_of_In.
Qed.

Lemma CapsToBody_ok c : wf_caps c -> body_ok (CapsToBody c).
Proof.
  intros H. unfold CapsToBody, put_when. split.
  { destruct (StrictExt c), (negb _); apply (bool_decide_unpack _); vm_compute; exact I. }
  pose proof (wf_max_still c H) as H1. pose proof (wf_max_clip c H) as H2.
  assert (fits rnv_limits 2 (AArr (map (fun p => AU64 (u64 p)) (Profiles c))) = true) as H3.
  { apply fits_AArr; [lia|by apply H|]. apply Forall_true. intros. apply u64_range. }
  assert (fits rnv_limits 2 (AArr (map (fun co => AU64 (bZ co)) (Codecs c))) = true) as H4.
  { apply fits_AArr; [lia|by apply H|]. apply Forall_true. intros. apply bZ_u64. }
  pose proof (wf_exts c H) as H5. unfold exts_ok in H5.
  pose proof (bZ_u64 (Tracks c)) as H6. pose proof (u64_range (Preferred c)) as H7.
  destruct (StrictExt c), (negb _); cbn [uput Z.eqb HelloKeyMaxStill HelloKeyMaxClip HelloKeyProfiles
    HelloKeyCodecs HelloKeyTracks HelloKeyPreferred HelloKeyStrictExt HelloKeyExtensions Pos.eqb]; fits_body.
Qed.

Lemma CapsFromBody_wire c : wf_caps c -> CapsFromBody (Some (wire_map (CapsToBody c))) = c.
Proof.
  intros H. unfold CapsFromBody, field. rewrite !uget_wire_map. unfold CapsToBody, put_when.
  destruct c as [ms mc ps cs tr pr se ex]. destruct H as [_ _ Hp _ _ Hr _]. simpl in *.
  assert (map (fun x => i64 (asUint64 x)) (map wire (map (fun p => AU64 (u64 p)) ps)) = ps) as Hps.
  { rewrite !map_map. simpl. rewrite <- (map_id ps) at 2. apply map_ext_Forall.
    eapply Forall_impl; [exact Hp|]. intros. by apply i64_u64. }
  assert (map (fun x => Zb (asUint64 x)) (map wire (map (fun co => AU64 (bZ co)) cs)) = cs) as Hcs.
  { rewrite !map_map. simpl. rewrite <- (map_id cs) at 2. apply map_ext. intros. apply Zb_bZ. }
  destruct se, (bool_decide (ex = ∅)) eqn:Ee; bool_hyps; cbn -[wire asExtMap i64 u64 Zb bZ of_exts asIntList asByteList];
    rewrite ?asExtMap_wire; cbn -[asExtMap i64 u64 Zb bZ map];
    rewrite Hps, Hcs, Zb_bZ, i64_u64 by done; by rewrite ?Ee.
Qed.

(** The optional field of a body, present when non-empty. *)
Ltac body_cases :=
  repeat match goal with
  | |- context [nonempty ?b] =>
      let E := fresh "E" in destruct (nonempty b) eqn:E; unfold nonempty in E; bool_hyps
  | |- context [nonzero ?b] =>
      let E := fresh "E" in destruct (nonzero b) eqn:E; unfold nonzero in E; bool_hyps
  | |- context [if ?x <? ?y then _ else _] =>
      let E := fresh "E" in destruct (x <? y) eqn:E; bool_hyps
  end.

Ltac body_ok_tac :=
  unfold put_when; body_cases;
  (split; [apply (bool_decide_unpack _); vm_compute; exact I|]); cbn -[fits u64 bZ]; fits_body;
  try first [by apply fits_bytes | by apply fits_text].

Lemma StillToBody_ok s : wf_still s -> body_ok (StillToBody s).
Proof. intros (? & ? & ? & ? & ? & ?). unfold StillToBody. body_ok_tac. Qed.

Lemma ClipToBody_ok c : wf_clip c -> body_ok (ClipToBody c).
Proof. intros (? & ? & ? & ? & ?). unfold ClipToBody. body_ok_tac. Qed.

Lemma OfferToBody_ok o : body_ok (OfferToBody o).
Proof. unfold OfferToBody. body_ok_tac. Qed.

Lemma RejectToBody_ok r : wf_reject r -> body_ok (RejectToBody r).
Proof. intros (? & ? & ?). unfold RejectToBody. body_ok_tac. Qed.

Lemma CtrlToBody_ok c : body_ok (CtrlToBody c).
Proof. unfold CtrlToBody. destruct (Keyframe c), (Pause c); body_ok_tac. Qed.

Ltac body_wire_tac :=
  unfold field, uget_nil; rewrite !uget_wire_map; unfold put_when; simpl in *;
  body_cases; cbn -[i64 u64 Zb bZ]; rewrite ?Zb_bZ, ?i64_u64 by done; try done; subst; try done.

Lemma StillMetaFromBody_wire s : wf_still s -> StillMetaFromBody (Some (wire_map (StillToBody s))) = s.
Proof.
  intros (? & ? & ? & ? & ? & ?). unfold StillMetaFromBody, StillToBody. destruct s. body_wire_tac.
Qed.

Lemma ClipMetaFromBody_wire c : wf_clip c -> ClipMetaFromBody (Some (wire_map (ClipToBody c))) = c.
Proof.
  intros (? & ? & ? & ? & ?). unfold ClipMetaFromBody, ClipToBody. destruct c. body_wire_tac.
Qed.

Lemma RejectFromBody_wire r : wf_reject r -> RejectFromBody (Some (wire_map (RejectToBody r))) = r.
Proof. intros (? & ? & ?). unfold RejectFromBody, RejectToBody. destruct r. body_wire_tac. Qed.

Lemma CtrlFromBody_wire c : 0 <= Bitrate c < 2 ^ 63 -> CtrlFromBody (Some (wire_map (CtrlToBody c))) = c.
Proof.
  intros ?. unfold CtrlFromBody, CtrlToBody. destruct c as [br [] []]; body_wire_tac; simpl in *.
  all: try (f_equal; rewrite i64_u64 by lia; lia).
  all: f_equal; replace br with 0 by lia; done.
Qed.

(** The offer the peer reads: absent codecs are JPEG and Opus, a negative
    frame rate is absent. *)
Definition offer_read (o : StreamOffer) : StreamOffer :=
  mkOffer (OfferProfile o) (OfferTracks o)
    (if nonzero (Video o) then Video o else CodecJPEG)
    (if nonzero (Audio o) then Audio o else CodecOpus) (Z.max 0 (MaxFPS o)).

Lemma StreamOfferFromBody_wire o : is_int (OfferProfile o) -> is_int (MaxFPS o) ->
  StreamOfferFromBody (Some (wire_map (OfferToBody o))) = offer_read o.
Proof.
  intros H1 H2. unfold StreamOfferFromBody, OfferToBody, offer_read. destruct o. body_wire_tac.
  all: f_equal; rewrite ?i64_u64 by done; lia.
Qed.

Section wire_props.
Context `{C : Cbor} `{!CborLaws C rnv_limits}.

(** The capabilities a peer packs into its HELLO are the ones the other
    peer reads from it, extensions included; the only way packing can fail is
    the 4 KiB bound. *)
Theorem rnv_hello_roundtrip c : wf_caps c ->
  crosses TypeHello (CapsToBody c) (fun body => CapsFromBody body = c).
Proof. intros H. apply crosses_intro; [done|by apply CapsToBody_ok|by apply CapsFromBody_wire]. Qed.

(** Stills, clip offers, rejections and stream controls within the ranges
    of their Go types survive the wire unchanged, and a stream offer arrives
    with the absent codecs replaced by JPEG and Opus. *)
Theorem rnv_bodies_roundtrip :
  (forall s, wf_still s -> crosses TypeStill (StillToBody s) (fun b => StillMetaFromBody b = s))
  /\ (forall c, wf_clip c -> crosses TypeClipOffer (ClipToBody c) (fun b => ClipMetaFromBody b = c))
  /\ (forall r, wf_reject r -> crosses TypeReject (RejectToBody r) (fun b => RejectFromBody b = r))
  /\ (forall c, 0 <= Bitrate c < 2 ^ 63 ->
        crosses TypeStreamCtrl (CtrlToBody c) (fun b => CtrlFromBody b = c))
  /\ (forall o, is_int (OfferProfile o) -> is_int (MaxFPS o) ->
        crosses TypeStreamOffer (OfferToBody o) (fun b => StreamOfferFromBody b = offer_read o)).
Proof.
  repeat split; intros; apply crosses_intro; try done;
    eauto using StillToBody_ok, ClipToBody_ok, RejectToBody_ok, CtrlToBody_ok, OfferToBody_ok,
      StillMetaFromBody_wire, ClipMetaFromBody_wire, RejectFromBody_wire, CtrlFromBody_wire,
      StreamOfferFromBody_wire.
Qed.
End wire_props.

Definition rnv_ref_laws : CborLaws ref_cbor rnv_limits := ref_cbor_laws rnv_limits eq_refl eq_refl.

Lemma rnv_hello_roundtrip_witness :
  @crosses ref_cbor TypeHello (CapsToBody DefaultCaps) (fun body => CapsFromBody body = DefaultCaps)
  /\ match (@Pack ref_cbor (Some (NewTyped TypeHello (Some (CapsToBody DefaultCaps))))).1 with
     | Ok raw => len raw = 41 | Err _ => False end.
Proof.
  split; [|vm_compute; reflexivity].
  apply (@rnv_hello_roundtrip ref_cbor rnv_ref_laws).
  split; unfold is_u64; try reflexivity.
  - change (Forall is_int [16; 32; 48; 64]). unfold is_int. repeat constructor; lia.
  - apply Z.leb_le. reflexivity.
  - apply Z.leb_le. reflexivity.
  - unfold is_int. simpl. unfold ProfileLow. lia.
Defined.

Definition sample_still : StillMeta := mkStill 320 240 CodecJPEG 4 TransferPacket [] (replicate 4 x07).

Lemma rnv_bodies_roundtrip_witness :
  @crosses ref_cbor TypeStill (StillToBody sample_still) (fun b => StillMetaFromBody b = sample_still)
  /\ @crosses ref_cbor TypeStreamOffer (OfferToBody (mkOffer 0 TrackAudio x00 x00 0))
       (fun b => StreamOfferFromBody b = mkOffer 0 TrackAudio CodecJPEG CodecOpus 0).
Proof.
  destruct (@rnv_bodies_roundtrip ref_cbor rnv_ref_laws) as (Hs & _ & _ & _ & Ho). split.
  - apply Hs. unfold wf_still, is_int. simpl. repeat split; lia || done.
  - apply Ho; unfold is_int; simpl; lia.
Defined.

(** ** Frames *)

Definition is_media_magic (m : byte) : Prop := m = MagicVideo \/ m = MagicAudio.

(** [SplitFrame] is the inverse of [PackFrame]: it returns a frame exactly
    for the bytes that packing the frame gives, with one of the two magics and
    a 16-bit sequence number; every byte string it accepts is recognised by
    [IsMediaFrame] and no longer than its track allows. *)
Theorem rnv_frame_roundtrip raw f :
  (SplitFrame raw = Ok f <->
     is_media_magic (Magic f) /\ 0 <= Seq f < 2 ^ 16
     /\ PackFrame (Magic f) (FrameCodec f) (Flags f) (Seq f) (Payload f) = Ok raw)
  /\ (SplitFrame raw = Ok f ->
      IsMediaFrame raw = true /\ len raw = FrameHeaderLen + len (Payload f)
      /\ len (Payload f) <= frame_max (Magic f)).
Proof.
  assert (SplitFrame raw = Ok f ->
    is_media_magic (Magic f) /\ 0 <= Seq f < 2 ^ 16 /\ len (Payload f) <= frame_max (Magic f)
    /\ raw = [Magic f; FrameCodec f; Flags f] ++ be_put 2 (Seq f) ++ Payload f) as Hsplit.
  { destruct raw as [|m [|c [|fl [|s1 [|s0 pl]]]]]; try done. unfold SplitFrame.
    destruct (negb _ && negb _) eqn:E; [done|]. destruct (_ <? _) eqn:L; [done|].
    intros [= <-]. bool_hyps. pose proof (bZ_range s1). pose proof (bZ_range s0). simpl.
    repeat split; try (unfold be_get; simpl; lia); try lia.
    - unfold is_media_magic. apply andb_false_iff in E as [E|E]; bool_hyps; auto.
    - do 3 f_equal. unfold be_get. simpl. f_equal; [|f_equal]; apply (inj bZ); rewrite bZ_Zb; dlia. }
  split; [split|].
  - intros (? & ? & ? & ->)%Hsplit. split; [done|]. split; [done|]. unfold PackFrame.
    by rewrite (proj2 (Z.ltb_ge _ _)).
  - intros (Hm & Hs & Hp). unfold PackFrame in Hp. destruct (_ <? _) eqn:L; [done|].
    injection Hp as <-. destruct f as [m c fl s pl]; simpl in *. rewrite L.
    replace (be_get _) with s.
    + by destruct Hm as [-> | ->].
    + pose proof (be_get_put 2 s) as H. simpl in H. rewrite H. symmetry. by apply Z.mod_small.
  - intros (Hm & _ & Hl & ->)%Hsplit. split; [by destruct Hm as [-> | ->]|]. split; [|done].
    unfold FrameHeaderLen, len. simpl. lia.
Qed.

Lemma rnv_frame_roundtrip_witness :
  match PackVideo CodecJPEG FlagKeyframe 513 [x0a; x0b] with
  | Ok raw => SplitFrame raw = Ok (mkFrame MagicVideo CodecJPEG FlagKeyframe 513 [x0a; x0b]) /\ len raw = 7
  | Err _ => False
  end.
Proof.
  destruct (rnv_frame_roundtrip [MagicVideo; CodecJPEG; FlagKeyframe; x02; x01; x0a; x0b]
    (mkFrame MagicVideo CodecJPEG FlagKeyframe 513 [x0a; x0b])) as [[_ H] H'].
  destruct H'; [reflexivity|]. split; [|reflexivity].
  apply H. repeat split; try reflexivity; [by left|discriminate].
Defined.

(** ** Stream offers *)

Definition video_codec (o : StreamOffer) : byte := if bool_decide (Video o = x00) then CodecJPEG else Video o.
Definition audio_codec (eff : Z) (o : StreamOffer) : byte :=
  if bool_decide (Audio o = x00) then (if eff =? ProfileLow then CodecCodec2 else CodecOpus) else Audio o.

(** When two peers may run a stream: what the profile allows, what both list. *)
Record acceptable (a b : Caps) (o : StreamOffer) : Prop := {
  acc_tracks : OfferTracks o <> x00;
  acc_profile : let eff := effective_profile a b o in
    SupportsProfile a eff = true /\ SupportsProfile b eff = true;
  acc_video : has_track (OfferTracks o) TrackVideo = true ->
    effective_profile a b o ∈ [ProfileMedium; ProfileHigh]
    /\ Forall (fun c => has_track (Tracks c) TrackVideo = true /\ HasCodec c (video_codec o) = true) [a; b];
  acc_audio : has_track (OfferTracks o) TrackAudio = true ->
    let eff := effective_profile a b o in
    eff <> ProfileUltraLow /\ (eff = ProfileLow -> audio_codec eff o = CodecCodec2)
    /\ Forall (fun c => has_track (Tracks c) TrackAudio = true /\ HasCodec c (audio_codec eff o) = true) [a; b];
  acc_fps : effective_profile a b o ∈ [ProfileMedium; ProfileHigh] ->
    MaxFPS o <= LimitFPS (LimitsFor (effective_profile a b o));
}.

Lemma normalizeProfile_cases p :
  normalizeProfile p = ProfileUltraLow \/ normalizeProfile p = ProfileLow
  \/ normalizeProfile p = ProfileMedium \/ normalizeProfile p = ProfileHigh.
Proof. unfold normalizeProfile. destruct (_ || _) eqn:E; [|tauto]. rewrite !orb_true_iff in E. lia. Qed.

Lemma effective_profile_cases a b o : let e := effective_profile a b o in
  e = ProfileUltraLow \/ e = ProfileLow \/ e = ProfileMedium \/ e = ProfileHigh.
Proof.
  unfold effective_profile, MinProfile. repeat case_match; apply normalizeProfile_cases.
Qed.

Lemma effective_profile_comm a b o : effective_profile a b o = effective_profile b a o.
Proof. unfold effective_profile, MinProfile. repeat case_match; bool_hyps; lia. Qed.

Lemma ValidateStreamOffer_comm a b o : ValidateStreamOffer a b o = ValidateStreamOffer b a o.
Proof.
  unfold ValidateStreamOffer, check_video, check_audio. rewrite (effective_profile_comm b a).
  by rewrite (orb_comm (negb (SupportsProfile b _))), (orb_comm (negb (has_track (Tracks b) TrackVideo))),
    (orb_comm (negb (has_track (Tracks b) TrackAudio))), !(orb_comm (negb (HasCodec b _))).
Qed.

Lemma both_false (x y : bool) : negb x || negb y = false <-> x = true /\ y = true.
Proof. destruct x, y; simpl; intuition congruence. Qed.

Lemma check_video_Ok a b o lim : check_video a b o lim = Ok tt <->
  (has_track (OfferTracks o) TrackVideo = true -> AllowVideo lim = true
   /\ Forall (fun c => has_track (Tracks c) TrackVideo = true /\ HasCodec c (video_codec o) = true) [a; b]).
Proof.
  unfold check_video. fold (video_codec o). rewrite !Forall_cons, Forall_nil.
  destruct (has_track (OfferTracks o) _); [|intuition congruence].
  destruct (AllowVideo lim); simpl; [|intuition congruence].
  destruct (negb _ || negb _) eqn:E1.
  { rewrite <- not_false_iff_true, both_false in E1. intuition congruence. }
  apply both_false in E1. destruct (negb _ || negb _) eqn:E2.
  { rewrite <- not_false_iff_true, both_false in E2. intuition congruence. }
  apply both_false in E2. intuition congruence.
Qed.

Lemma check_audio_Ok a b o eff lim : check_audio a b o eff lim = Ok tt <->
  (has_track (OfferTracks o) TrackAudio = true -> AllowAudio lim = true
   /\ (eff = ProfileLow -> audio_codec eff o = CodecCodec2)
   /\ Forall (fun c => has_track (Tracks c) TrackAudio = true /\ HasCodec c (audio_codec eff o) = true) [a; b]).
Proof.
  unfold check_audio. fold (audio_codec eff o). rewrite !Forall_cons, Forall_nil.
  destruct (has_track (OfferTracks o) _); [|intuition congruence].
  destruct (AllowAudio lim); simpl; [|intuition congruence].
  destruct (negb _ || negb _) eqn:E1.
  { rewrite <- not_false_iff_true, both_false in E1. intuition congruence. }
  apply both_false in E1. destruct (_ && _) eqn:E3; bool_hyps; [intuition congruence|].
  assert (eff = ProfileLow -> audio_codec eff o = CodecCodec2).
  { intros He. apply andb_false_iff in E3 as [E3|E3]; by bool_hyps. }
  destruct (negb _ || negb _) eqn:E2.
  { rewrite <- not_false_iff_true, both_false in E2. intuition congruence. }
  apply both_false in E2. intuition congruence.
Qed.

Lemma ValidateStreamOffer_Ok a b o : ValidateStreamOffer a b o = Ok tt <->
  OfferTracks o <> x00
  /\ (SupportsProfile a (effective_profile a b o) = true /\ SupportsProfile b (effective_profile a b o) = true)
  /\ check_video a b o (LimitsFor (effective_profile a b o)) = Ok tt
  /\ check_audio a b o (effective_profile a b o) (LimitsFor (effective_profile a b o)) = Ok tt
  /\ (0 < LimitFPS (LimitsFor (effective_profile a b o)) ->
      MaxFPS o <= LimitFPS (LimitsFor (effective_profile a b o))).
Proof.
  unfold ValidateStreamOffer. destruct (bool_decide _) eqn:E0; bool_hyps; [intuition congruence|].
  destruct (negb _ || negb _) eqn:E1.
  { rewrite <- not_false_iff_true, both_false in E1. intuition congruence. }
  apply both_false in E1. set (lim := LimitsFor _).
  destruct (check_video _ _ _ _) as [[]|]; simpl; [|intuition congruence].
  destruct (check_audio _ _ _ _ _) as [[]|]; simpl; [|intuition congruence].
  destruct (_ && _) eqn:E2; bool_hyps; [split; [done|]; intros (_ & _ & _ & _ & Hfps); lia|].
  split; [|done]. intros _. repeat split; try apply E1; try done. intros.
  destruct (Z_le_gt_dec (MaxFPS o) (LimitFPS lim)); [done|].
  rewrite !(proj2 (Z.ltb_lt _ _)) in E2 by lia. done.
Qed.

(** The two peers of an offer reach the same verdict, whichever of them
    asks, and it is positive exactly when the offer is acceptable: some track,
    a profile both list, video only at Medium or High, audio not at UltraLow
    and only Codec2 at Low, tracks and codecs both advertise, and a frame rate
    within the profile's. *)
Theorem rnv_offer_verdict a b o :
  ValidateStreamOffer a b o = ValidateStreamOffer b a o
  /\ (ValidateStreamOffer a b o = Ok tt <-> acceptable a b o).
Proof.
  split; [apply ValidateStreamOffer_comm|].
  rewrite ValidateStreamOffer_Ok, check_video_Ok, check_audio_Ok.
  set (e := effective_profile a b o). pose proof (effective_profile_cases a b o) as He. fold e in He.
  assert ((AllowVideo (LimitsFor e) = true <-> e ∈ [ProfileMedium; ProfileHigh])
    /\ (AllowAudio (LimitsFor e) = true <-> e <> ProfileUltraLow)
    /\ (0 < LimitFPS (LimitsFor e) <-> e ∈ [ProfileMedium; ProfileHigh])) as (HV & HA & HF).
  { rewrite !elem_of_cons, elem_of_nil.
    destruct He as [-> | [-> | [-> | ->]]]; vm_compute; intuition congruence. }
  split.
  - intros (H1 & H2 & H3 & H4 & H5). split; fold e; cbv zeta; try done.
    + rewrite <- HV. exact H3.
    + rewrite <- HA. exact H4.
    + rewrite <- HF. exact H5.
  - intros [H1 H2 H3 H4 H5]. rewrite HV, HA, HF. done.
Qed.

(** The one offer whose meaning changes on the wire: audio at the Low profile
    without a codec, which the sender takes for Codec2. *)
Definition low_default_audio (a b : Caps) (o : StreamOffer) : Prop :=
  has_track (OfferTracks o) TrackAudio = true /\ Audio o = x00 /\ effective_profile a b o = ProfileLow.

#[local] Instance low_default_audio_dec a b o : Decision (low_default_audio a b o).
Proof. unfold low_default_audio. apply _. Defined.

Lemma ValidateStreamOffer_read a b o : ~ low_default_audio a b o ->
  ValidateStreamOffer b a (offer_read o) = ValidateStreamOffer a b o.
Proof.
  rewrite (ValidateStreamOffer_comm b a).
  intros Hn. destruct o as [p t v au fps]. unfold ValidateStreamOffer, check_video, check_audio, offer_read, nonzero.
  unfold low_default_audio in Hn. simpl in *.
  replace (effective_profile a b (mkOffer p t _ _ _)) with (effective_profile a b (mkOffer p t v au fps)) by done.
  replace (0 <? Z.max 0 fps) with (0 <? fps) by lia.
  set (e := effective_profile a b _) in *.
  replace ((0 <? fps) && (0 <? LimitFPS (LimitsFor e)) && (LimitFPS (LimitsFor e) <? Z.max 0 fps))
    with ((0 <? fps) && (0 <? LimitFPS (LimitsFor e)) && (LimitFPS (LimitsFor e) <? fps)) by lia.
  assert (bool_decide (au = x00) = true -> has_track t TrackAudio = true -> e =? ProfileLow = false) as Hl.
  { intros Ha Ht. bool_hyps. apply Z.eqb_neq. naive_solver. }
  destruct (bool_decide (v = x00)) eqn:Ev, (bool_decide (au = x00)) eqn:Eau; simpl; rewrite ?Ev, ?Eau; try done;
    (destruct (has_track t TrackAudio); [by rewrite Hl by done|done]).
Qed.

(** The peer that reads an offer off the wire decides as its sender did,
    unless the offer leaves the audio codec of a Low-profile stream open: the
    sender takes Codec2 for it, the reader Opus, and an offer the sender finds
    valid is refused. *)
Theorem rnv_offer_over_wire a b o :
  (~ low_default_audio a b o -> ValidateStreamOffer b a (offer_read o) = ValidateStreamOffer a b o)
  /\ (low_default_audio a b o -> ValidateStreamOffer a b o = Ok tt ->
      ValidateStreamOffer b a (offer_read o) = Err LowNeedsCodec2).
Proof.
  rewrite (ValidateStreamOffer_comm b a). split.
  - rewrite ValidateStreamOffer_comm. apply ValidateStreamOffer_read.
  - intros (Ht & Ha & He) H. apply ValidateStreamOffer_Ok in H as (H1 & H2 & H3 & H4 & H5).
    rewrite check_video_Ok in H3. rewrite check_audio_Ok in H4. specialize (H4 Ht) as (HA & _ & HF).
    unfold ValidateStreamOffer, check_video, check_audio, offer_read, nonzero. simpl.
    replace (effective_profile a b (mkOffer _ _ _ _ _)) with (effective_profile a b o) by (by destruct o).
    rewrite (bool_decide_eq_false_2 _ H1), Ha. rewrite He in *.
    rewrite (proj2 (both_false _ _) H2).
    assert (has_track (OfferTracks o) TrackVideo = false) as ->.
    { destruct (has_track (OfferTracks o) TrackVideo); [|done]. by destruct (H3 eq_refl) as [Hv _]. }
    rewrite Ht, HA. simpl. rewrite !Forall_cons in HF. destruct HF as ((-> & _) & (-> & _) & _). reflexivity.
Qed.

Lemma rnv_offer_over_wire_witness :
  let o := mkOffer ProfileLow TrackAudio x00 x00 0 in
  let p := mkOffer ProfileHigh both_tracks x00 CodecOpus 5 in
  ValidateStreamOffer DefaultCaps DefaultCaps (offer_read p) = Ok tt
  /\ ValidateStreamOffer DefaultCaps DefaultCaps o = Ok tt
  /\ ValidateStreamOffer DefaultCaps DefaultCaps (offer_read o) = Err LowNeedsCodec2.
Proof.
  simpl. split; [|split].
  - rewrite (proj1 (rnv_offer_over_wire DefaultCaps DefaultCaps _)); [reflexivity|].
    intros (_ & H & _). discriminate.
  - reflexivity.
  - apply (rnv_offer_over_wire DefaultCaps DefaultCaps); [|reflexivity]. repeat split.
Defined.

(** ** Announces *)

Section announce_props.
Context `{C : Cbor} `{!CborLaws C rnv_limits}.

(** Announced metadata is read back, with the version filled in. *)
Lemma announce_roundtrip a : is_u64 (AnnVersion a) -> is_u64 (AnnCaps a) -> is_int (AnnProfile a) ->
  len (ExtBloom a) < 2 ^ 64 ->
  match EncodeAnnounceAppData a with
  | Ok raw => DecodeAnnounceAppData raw
      = Ok (mkAnnounce (if AnnVersion a =? 0 then ProtocolVersion else AnnVersion a) (AnnCaps a) (AnnProfile a)
              (ExtBloom a))
  | Err x => x = AnnounceTooLarge
  end.
Proof.
  intros H1 H2 H3 H4. unfold EncodeAnnounceAppData, announce_map.
  set (ver := if AnnVersion a =? 0 then ProtocolVersion else AnnVersion a). assert (is_u64 ver) as Hv by (unfold ver; by case_match).
  set (mp := put_when _ _ _ _).
  assert (NoDup (map fst mp) /\ fits rnv_limits 0 (AMapU mp) = true) as [Hk Hf].
  { unfold mp, put_when. destruct (nonempty _);
      (split; [apply (bool_decide_unpack _); vm_compute; exact I|]); cbn -[fits u64 ver]; fits_body; by apply fits_bytes. }
  destruct (cbor_encodes _ Hf) as (bs & Hbs & Hne). rewrite Hbs.
  destruct (_ <? _); [done|]. destruct (cbor_decodes _ _ Hk Hf Hbs) as (m & Hm & Hg).
  unfold DecodeAnnounceAppData, field. rewrite (proj2 (Z.eqb_neq _ _)) by (by rewrite len_0_nil).
  rewrite Hm, !Hg. unfold mp, put_when, nonempty.
  destruct (bool_decide (ExtBloom a = [])) eqn:E; bool_hyps; cbn -[i64 u64 ver]; rewrite i64_u64 by done;
    by rewrite ?E.
Qed.
End announce_props.

(** ** The codec registry *)

(** Builtin codecs cannot be replaced; others are found after registering. *)
Lemma Register_builtin r id enc dec : builtin id = true -> Register (Some r) id enc dec = Err (BuiltinCodec id).
Proof.
  intros H. unfold Register. rewrite H. unfold builtin in H. rewrite !orb_true_iff in H.
  rewrite andb_true_r. destruct H as [[[H|H]|H]|H]; bool_hyps; by subst.
Qed.

Lemma Register_Ok r id f g r' : Register (Some r) id (Some f) (Some g) = Ok r' ->
  builtin id = false
  /\ (forall id' x, Encode r' id' x = if bool_decide (id' = id) then f x else Encode r id' x)
  /\ (forall id' x, Decode r' id' x = if bool_decide (id' = id) then g x else Decode r id' x).
Proof.
  intros H. destruct (builtin id) eqn:E; [by rewrite Register_builtin in H|].
  unfold Register in H. rewrite E, andb_false_r in H. injection H as <-. split; [done|].
  unfold Encode, Decode, run_coder. simpl. split; intros id' x; destruct (decide (id' = id)) as [-> |Hne].
  all: rewrite ?bool_decide_eq_true_2, ?bool_decide_eq_false_2 by done.
  all: rewrite ?lookup_insert_eq, ?lookup_insert_ne by (intros H; by apply Hne, (inj bZ)); done.
Qed.
