(* ===== verification/Sha256.v ===== *)
(** * SHA-256 ([crypto/sha256] of the Go library)

    FIPS 180-4 on byte strings, as the session code uses it for content
    hashes.  32-bit words are integers kept below [2 ^ 32]. *)

From stdpp Require Import base tactics list strings.
From Stdlib Require Import ZArith Lia.
From S2P Require Import Prelude.

(** The constants are the first 32 bits of the fractional parts of the cube
    roots of the first 64 primes, and of the square roots of the first eight. *)
Fixpoint primes_from (fuel : nat) (k : Z) (found : list Z) : list Z :=
  match fuel with
  | O => found
  | S fuel =>
      primes_from fuel (k + 1) (if forallb (fun p => negb (k mod p =? 0)) found then found ++ [k] else found)
  end.

(** The greatest [x] below [2 ^ n] with [f x <= v], bit by bit. *)
Fixpoint root (f : Z -> Z) (v : Z) (n : nat) (x : Z) : Z :=
  match n with
  | O => x
  | S n => let y := x + 2 ^ Z.of_nat n in root f v n (if f y <=? v then y else x)
  end.

Definition frac_root (k : Z) (p : Z) : Z := u32 (root (fun x => x ^ k) (p * 2 ^ (32 * k)) 42 0).

Definition sha_k : list Z := Eval vm_compute in map (frac_root 3) (primes_from 310 2 []).
Definition sha_init : list Z := Eval vm_compute in map (frac_root 2) (take 8 (primes_from 310 2 [])).

Definition rotr (n x : Z) : Z := u32 (Z.lor (Z.shiftr x n) (Z.shiftl x (32 - n))).
Definition sha_ch (x y z : Z) : Z := Z.lxor (Z.land x y) (Z.land (Z.lxor x (2 ^ 32 - 1)) z).
Definition sha_maj (x y z : Z) : Z := Z.lxor (Z.lxor (Z.land x y) (Z.land x z)) (Z.land y z).
Definition big_sigma0 (x : Z) : Z := Z.lxor (Z.lxor (rotr 2 x) (rotr 13 x)) (rotr 22 x).
Definition big_sigma1 (x : Z) : Z := Z.lxor (Z.lxor (rotr 6 x) (rotr 11 x)) (rotr 25 x).
Definition small_sigma0 (x : Z) : Z := Z.lxor (Z.lxor (rotr 7 x) (rotr 18 x)) (Z.shiftr x 3).
Definition small_sigma1 (x : Z) : Z := Z.lxor (Z.lxor (rotr 17 x) (rotr 19 x)) (Z.shiftr x 10).

(** The message padded to a multiple of 64 bytes. *)
Definition sha_pad (m : bytes) : bytes :=
  m ++ [x80] ++ make_bytes ((55 - len m) mod 64) ++ be_put 8 (len m * 8).

(** Cut into pieces of [n] bytes; [fuel] bounds their number. *)
Fixpoint chunks (fuel n : nat) (b : bytes) : list bytes :=
  match fuel with
  | O => []
  | S fuel => match b with [] => [] | _ => take n b :: chunks fuel n (drop n b) end
  end.

Definition word (w : list Z) (i : nat) : Z := nth i w 0.

(** The message schedule, newest word first. *)
Fixpoint schedule (n : nat) (w : list Z) : list Z :=
  match n with
  | O => w
  | S n =>
      schedule n
        (u32 (small_sigma1 (word w 1) + word w 6 + small_sigma0 (word w 14) + word w 15) :: w)
  end.

Definition sha_round (s : list Z) (kw : Z * Z) : list Z :=
  match s with
  | [a; b; c; d; e; f; g; h] =>
      let t1 := h + big_sigma1 e + sha_ch e f g + kw.1 + kw.2 in
      let t2 := big_sigma0 a + sha_maj a b c in
      [u32 (t1 + t2); a; b; c; u32 (d + t1); e; f; g]
  | _ => s
  end.

Definition sha_block (s : list Z) (b : bytes) : list Z :=
  let w := rev (schedule 48 (rev (map be_get (chunks 16 4 b)))) in
  zip_with (fun x y => u32 (x + y)) s (foldl sha_round s (zip sha_k w)).

Definition sha256 (m : bytes) : bytes :=
  let p := sha_pad m in
  concat (map (be_put 4) (foldl sha_block sha_init (chunks (length p) 64 p))).

(** The digests FIPS 180-4 gives for the empty string and for [abc]. *)
Example sha256_empty : be_get (sha256 []) =
  0xe3b0c44298fc1c149afbf4c8996fb92427ae41e4649b934ca495991b7852b855.
Proof. vm_compute. reflexivity. Qed.

Example sha256_abc : be_get (sha256 (lit "abc")) =
  0xba7816bf8f01cfea414140de5dae2223b00361a396177a9cb410ff61f20015ad.
Proof. vm_compute. reflexivity. Qed.

Lemma length_sha_round s kw : length s = 8%nat -> length (sha_round s kw) = 8%nat.
Proof. do 9 (destruct s as [|? s]; try done). Qed.

Lemma length_rounds l s : length s = 8%nat -> length (foldl sha_round s l) = 8%nat.
Proof. revert s. induction l as [|kw l IH]; intros s H; simpl; [done|]. by apply IH, length_sha_round. Qed.

Lemma length_blocks l s : length s = 8%nat -> length (foldl sha_block s l) = 8%nat.
Proof.
  revert s. induction l as [|b l IH]; intros s H; simpl; [done|]. apply IH.
  unfold sha_block. rewrite length_zip_with, length_rounds by done. lia.
Qed.

Lemma length_sha256 m : length (sha256 m) = 32%nat.
Proof.
  unfold sha256. cbv zeta. pose proof (length_blocks (chunks (length (sha_pad m)) 64 (sha_pad m)) sha_init eq_refl) as H.
  destruct (foldl sha_block _ _) as [|? [|? [|? [|? [|? [|? [|? [|? [|]]]]]]]]]; try done.
Qed.
