(* ===== verification/SeqWindow.v ===== *)
(** * Sequence numbers and iteration order of the media buffers

    What the jitter buffers of [pkg/rnv/media] and [pkg/lxst/media] share:
    serial comparison of 16-bit sequence numbers, the scan for the smallest one
    over a Go map, and the window of consecutive numbers on which the comparison
    is an order.  A Go map is iterated in an unspecified order: the class
    [MapOrder] gives, per iteration, some permutation of the keys. *)

From stdpp Require Import base tactics list gmap sets.
From Stdlib Require Import ZArith Lia.
From S2P Require Import Prelude.

(** [a.Sub(b)] saturates. *)
Definition time_sub (a b : Z) : Z := Z.max (- 2 ^ 63) (Z.min (2 ^ 63 - 1) (a - b)).

(** The order of the [n]th iteration over a map. *)
Class MapOrder := {
  shuffle : nat -> list Z -> list Z;
  shuffle_perm : forall n l, shuffle n l ≡ₚ l;
}.

Definition seqLess (a b : Z) : bool := i16 (u16 (a - b)) <? 0.

(** The scan for the smallest sequence number, in iteration order. *)
Definition scan_min (l : list Z) : option Z :=
  foldl (fun acc s => match acc with None => Some s | Some e => if seqLess s e then Some s else Some e end)
    None l.

Definition keys {A} (m : gmap Z A) : list Z := (map_to_list m).*1.

(** ** Properties *)

Lemma elem_of_keys {A} (m : gmap Z A) k : k ∈ keys m <-> is_Some (m !! k).
Proof.
  unfold keys. rewrite list_elem_of_fmap. split.
  - intros ([k' fr] & -> & Hin). exists fr. by apply elem_of_map_to_list.
  - intros [fr Hk]. exists (k, fr). split; [done|]. by apply elem_of_map_to_list.
Qed.

Lemma scan_min_acc l : forall e, exists s,
  foldl (fun acc s => match acc with None => Some s | Some e => if seqLess s e then Some s else Some e end)
    (Some e) l = Some s /\ s ∈ e :: l.
Proof.
  induction l as [|x l IH]; intros e; simpl; [exists e; split; [done|left]|].
  destruct (seqLess x e); [destruct (IH x) as (s & -> & Hs)|destruct (IH e) as (s & -> & Hs)];
    exists s; (split; [done|]); set_solver.
Qed.

Lemma scan_min_In l s : scan_min l = Some s -> s ∈ l.
Proof. destruct l as [|x l]; [done|]. unfold scan_min. simpl. destruct (scan_min_acc l x) as (y & -> & Hy). by intros [= <-]. Qed.

Lemma scan_min_Some l : l <> [] -> exists s, scan_min l = Some s /\ s ∈ l.
Proof. destruct l as [|x l]; [done|]. intros _. unfold scan_min. simpl. apply scan_min_acc. Qed.

Lemma scan_keys `{MapOrder} {A} n (m : gmap Z A) : m <> ∅ -> exists s fr, scan_min (shuffle n (keys m)) = Some s /\ m !! s = Some fr.
Proof.
  intros Hm. destruct (scan_min_Some (shuffle n (keys m))) as (s & Hs & Hin).
  - intros He. pose proof (shuffle_perm n (keys m)) as Hp. rewrite He in Hp.
    apply Permutation_nil_l in Hp. unfold keys in Hp. symmetry in Hp. apply fmap_nil_inv in Hp.
    by apply map_to_list_empty_iff in Hp.
  - rewrite shuffle_perm in Hin. apply elem_of_keys in Hin as [fr Hfr]. eauto.
Qed.

(** ** A window of consecutive numbers *)

Lemma seqLess_window s i k : - 2 ^ 15 < i - k < 2 ^ 15 -> seqLess (u16 (s + i)) (u16 (s + k)) = (i <? k).
Proof.
  intros Hw. unfold seqLess, i16, sint, u16. rewrite <- Zminus_mod, !Z.mod_mod by lia.
  replace (s + i - (s + k)) with (i - k) by lia. change (16 - 1) with 15.
  destruct (i <? k) eqn:E; bool_hyps.
  - rewrite <- (Z.mod_unique_pos (i - k) (2 ^ 16) (-1) (i - k + 2 ^ 16)) by lia.
    destruct (_ <? 2 ^ 15) eqn:F; bool_hyps; lia.
  - rewrite Z.mod_small by lia. destruct (_ <? 2 ^ 15) eqn:F; bool_hyps; lia.
Qed.

Lemma seqLess_irrefl m : seqLess m m = false.
Proof. unfold seqLess. by rewrite Z.sub_diag. Qed.

Lemma u16_window s i k : - 2 ^ 15 < i - k < 2 ^ 15 -> u16 (s + i) = u16 (s + k) -> i = k.
Proof.
  intros Hw He. pose proof (seqLess_window s i k Hw) as H1. pose proof (seqLess_window s k i ltac:(lia)) as H2.
  rewrite He, seqLess_irrefl in H1. rewrite He, seqLess_irrefl in H2. symmetry in H1, H2. bool_hyps. lia.
Qed.

Definition least_in (m : Z) (l : list Z) : Prop :=
  forall x, x ∈ l -> x = m \/ seqLess m x = true /\ seqLess x m = false.

(** The scan finds a least element whatever the order. *)
Lemma scan_min_least l m : m ∈ l -> least_in m l -> scan_min l = Some m.
Proof.
  assert (forall l e, m ∈ e :: l -> least_in m (e :: l) ->
    foldl (fun acc s => match acc with None => Some s | Some e => if seqLess s e then Some s else Some e end)
      (Some e) l = Some m) as Hacc.
  { clear l. induction l as [|x l IH]; intros e Hin Hl; simpl.
    - apply list_elem_of_singleton in Hin. by subst.
    - destruct (Hl e ltac:(left)) as [-> |[He1 He2]], (Hl x ltac:(right; left)) as [-> |[Hx1 Hx2]].
      + rewrite seqLess_irrefl. apply IH; set_solver.
      + rewrite Hx2. apply IH; set_solver.
      + rewrite He1. apply IH; set_solver.
      + destruct (seqLess x e); apply IH;
          try (intros y Hy; apply Hl; set_solver);
          (apply elem_of_cons in Hin as [-> |Hin]; [by rewrite seqLess_irrefl in He1|];
           apply elem_of_cons in Hin as [-> |Hin]; [by rewrite seqLess_irrefl in Hx1|]; set_solver). }
  destruct l as [|e l]; [intros H0; by apply elem_of_nil in H0|]. intros Hin Hl. by apply Hacc.
Qed.
