(* ===== verification/RnvMedia.v ===== *)
(** * Media buffering of RNV sessions ([pkg/rnv/media])

    The per-track jitter buffer and the audio/video clock.  Times are
    nanoseconds; [time.Now()] is an argument. *)

From stdpp Require Import base tactics list gmap sets.
From Stdlib Require Import ZArith Lia.
From S2P Require Import Prelude SeqWindow.

Definition DefaultTargetMs : Z := 80.
Definition DefaultMaxFrames : Z := 12.
Definition millisecond : Z := 1000000.

(** ** The jitter buffer *)

Record Frame := mkFrame { Sequence : Z; Payload : bytes; Arrival : Z }.

Record JitterBuffer := mkJitter {
  targetMs : Z; maxFrames : Z; frames : gmap Z Frame; nextSeq : Z; started : bool;
  recvCount : Z; dropCount : Z;
}.

Definition NewJitterBuffer (targetMs maxFrames : Z) : JitterBuffer :=
  mkJitter (if targetMs <=? 0 then DefaultTargetMs else targetMs)
    (if maxFrames <=? 0 then DefaultMaxFrames else maxFrames) ∅ 0 false 0 0.

Definition set_frames (fr : gmap Z Frame) (j : JitterBuffer) : JitterBuffer :=
  mkJitter (targetMs j) (maxFrames j) fr (nextSeq j) (started j) (recvCount j) (dropCount j).

Definition set_next (n : Z) (j : JitterBuffer) : JitterBuffer :=
  mkJitter (targetMs j) (maxFrames j) (frames j) n true (recvCount j) (dropCount j).

Definition count_recv (j : JitterBuffer) : JitterBuffer :=
  mkJitter (targetMs j) (maxFrames j) (frames j) (nextSeq j) (started j) (u64 (recvCount j + 1)) (dropCount j).

Definition count_drop (j : JitterBuffer) : JitterBuffer :=
  mkJitter (targetMs j) (maxFrames j) (frames j) (nextSeq j) (started j) (recvCount j) (u64 (dropCount j + 1)).

(** Less than the target delay since the frame arrived. *)
Definition too_early (j : JitterBuffer) (now : Z) (fr : Frame) : bool :=
  time_sub now (Arrival fr) <? i64 (targetMs j * millisecond).

Section buffer.
Context `{MapOrder}.

Definition dropOldestLocked (n : nat) (j : JitterBuffer) : JitterBuffer :=
  match scan_min (shuffle n (keys (frames j))) with
  | None => j
  | Some oldest => count_drop (set_frames (delete oldest (frames j)) j)
  end.

Definition PushOwned (n : nat) (now seq : Z) (payload : bytes) (j : JitterBuffer) : JitterBuffer :=
  let j := count_recv j in
  if started j && seqLess seq (nextSeq j) then count_drop j
  else
    let j := set_frames (<[seq := mkFrame seq payload now]> (frames j)) j in
    if maxFrames j <? Z.of_nat (size (frames j)) then dropOldestLocked n j else j.

(** The frame at [nextSeq], if it is due. *)
Definition pop_next (now : Z) (j : JitterBuffer) : JitterBuffer * option Frame :=
  match frames j !! nextSeq j with
  | None => (j, None)
  | Some fr =>
      if too_early j now fr then (j, None)
      else (set_next (u16 (nextSeq j + 1)) (set_frames (delete (nextSeq j) (frames j)) j), Some fr)
  end.

Definition PopReady (n : nat) (now : Z) (j : JitterBuffer) : JitterBuffer * option Frame :=
  if bool_decide (frames j = ∅) then (j, None)
  else if started j then pop_next now j
  else
    let earliest := default 0 (scan_min (shuffle n (keys (frames j)))) in
    let fr := default (mkFrame 0 [] 0) (frames j !! earliest) in
    if too_early j now fr then (j, None) else pop_next now (set_next earliest j).

Definition Stats (j : JitterBuffer) : Z * Z := (recvCount j, dropCount j).

(** ** Runs *)

Inductive jop := JPush (n : nat) (now seq : Z) (payload : bytes) | JPop (n : nat) (now : Z).

(** Frames delivered, with the time of delivery. *)
Fixpoint jrun (ops : list jop) (j : JitterBuffer) : list (Z * Frame) * JitterBuffer :=
  match ops with
  | [] => ([], j)
  | JPush n now seq payload :: ops => jrun ops (PushOwned n now seq payload j)
  | JPop n now :: ops =>
      let '(j, out) := PopReady n now j in
      let '(outs, j) := jrun ops j in
      (match out with Some fr => (now, fr) :: outs | None => outs end, j)
  end.
End buffer.

(** ** The clock *)

Record Clock := mkClock { origin : option Z; videoSkew : Z; audioSkew : Z }.

Definition with_origin (now : Z) (c : Clock) : Clock :=
  mkClock (Some (default now (origin c))) (videoSkew c) (audioSkew c).

(** [now] is the first reading of the clock and [later] the one of
    [time.Since]. *)
Definition NoteVideo (now later seq : Z) (c : Clock) : Clock :=
  let c := with_origin now c in
  mkClock (origin c) (time_sub later (default now (origin c))) (audioSkew c).

Definition NoteAudio (now later seq : Z) (c : Clock) : Clock :=
  let c := with_origin now c in
  mkClock (origin c) (videoSkew c) (time_sub later (default now (origin c))).

Definition Skew (c : Clock) : Z := i64 (audioSkew c - videoSkew c).

(** * Properties *)

Section props.
Context `{MapOrder}.

(** ** What one operation does *)

Lemma PushOwned_spec n now seq payload j : let j' := PushOwned n now seq payload j in
  started j' = started j /\ nextSeq j' = nextSeq j /\ targetMs j' = targetMs j /\ maxFrames j' = maxFrames j
  /\ (forall k fr, frames j' !! k = Some fr ->
       frames j !! k = Some fr \/ k = seq /\ fr = mkFrame seq payload now)
  /\ (0 <= maxFrames j -> Z.of_nat (size (frames j)) <= maxFrames j ->
      Z.of_nat (size (frames j')) <= maxFrames j).
Proof.
  cbv zeta. unfold PushOwned. destruct (_ && _); simpl; [repeat split; auto|].
  assert (forall k fr, <[seq := mkFrame seq payload now]> (frames j) !! k = Some fr ->
    frames j !! k = Some fr \/ k = seq /\ fr = mkFrame seq payload now) as Hins.
  { intros k fr. rewrite lookup_insert_Some. naive_solver. }
  destruct (_ <? _) eqn:E; simpl; bool_hyps; [|repeat split; auto; lia].
  unfold dropOldestLocked. simpl.
  destruct (scan_keys n (<[seq := mkFrame seq payload now]> (frames j))) as (s & fr & -> & Hfr);
    [apply insert_non_empty|]. simpl. repeat split; try done.
  - intros k fr' [_ Hk]%lookup_delete_Some. by apply Hins.
  - intros _ Hs. rewrite map_size_delete, Hfr. rewrite map_size_insert. destruct (frames j !! seq); simpl; lia.
Qed.

Lemma pop_next_spec now j :
  pop_next now j = (j, None)
  \/ exists fr, pop_next now j = (set_next (u16 (nextSeq j + 1)) (set_frames (delete (nextSeq j) (frames j)) j), Some fr)
     /\ frames j !! nextSeq j = Some fr /\ too_early j now fr = false.
Proof.
  unfold pop_next. destruct (frames j !! nextSeq j) as [fr|] eqn:E; [|by left].
  destruct (too_early j now fr) eqn:T; [by left|]. right. eauto.
Qed.

(** The sequence number of the frame a pop is about to return. *)
Lemma PopReady_spec n now j :
  PopReady n now j = (j, None)
  \/ exists q fr, PopReady n now j = (set_next (u16 (q + 1)) (set_frames (delete q (frames j)) j), Some fr)
     /\ frames j !! q = Some fr /\ too_early j now fr = false /\ (started j = true -> q = nextSeq j).
Proof.
  unfold PopReady. destruct (bool_decide _) eqn:E; bool_hyps; [by left|].
  destruct (started j) eqn:S.
  - destruct (pop_next_spec now j) as [-> |(fr & -> & ? & ?)]; [by left|right]. exists (nextSeq j), fr. done.
  - destruct (scan_keys n (frames j) E) as (s & fr & -> & Hfr). simpl. rewrite Hfr. simpl.
    destruct (too_early j now fr) eqn:T; [by left|]. right. exists s, fr. split; [|done].
    unfold pop_next. simpl. rewrite Hfr. unfold too_early in *. simpl. by rewrite T.
Qed.

(** ** The invariant *)

(** Held frames are indexed by their own 16-bit sequence number, are at most
    [maxFrames] many and satisfy [P]. *)
Record jinv (P : Frame -> Prop) (j : JitterBuffer) : Prop := {
  jinv_frame : forall k fr, frames j !! k = Some fr -> Sequence fr = k /\ 0 <= k < 2 ^ 16 /\ P fr;
  jinv_size : 0 <= Z.of_nat (size (frames j)) <= maxFrames j;
}.

Lemma jinv_new P t m : jinv P (NewJitterBuffer t m).
Proof.
  split; simpl; [intros k fr Hk; by rewrite lookup_empty in Hk|].
  rewrite map_size_empty. unfold DefaultMaxFrames. destruct (_ <=? _) eqn:E; bool_hyps; lia.
Qed.

Lemma jinv_push P n now seq payload j : 0 <= seq < 2 ^ 16 -> P (mkFrame seq payload now) ->
  jinv P j -> jinv P (PushOwned n now seq payload j).
Proof.
  intros Hs HP [Hf Hz]. destruct (PushOwned_spec n now seq payload j) as (_ & _ & _ & Hm & Hk & Hsz).
  split; [|rewrite Hm; lia].
  intros k fr [Hk'|[-> ->]]%Hk; [by apply Hf|done].
Qed.

Lemma jinv_delete P j q n : jinv P j -> jinv P (set_next n (set_frames (delete q (frames j)) j)).
Proof.
  intros [Hf Hz]. split; simpl.
  - intros k fr [_ Hk]%lookup_delete_Some. by apply Hf.
  - rewrite map_size_delete. destruct (frames j !! q); simpl; lia.
Qed.

Definition op_ok (P : Frame -> Prop) (o : jop) : Prop :=
  match o with JPush _ now seq payload => 0 <= seq < 2 ^ 16 /\ P (mkFrame seq payload now) | JPop _ _ => True end.

Lemma jrun_inv P ops j : Forall (op_ok P) ops -> jinv P j -> jinv P (jrun ops j).2.
Proof.
  intros Hops. revert j. induction Hops as [|[n now seq payload|n now] ops Ho Hops IH]; intros j Hj; simpl; [done| |].
  - destruct Ho. apply IH. by apply jinv_push.
  - destruct (PopReady_spec n now j) as [-> |(q & fr & -> & _)].
    + specialize (IH j Hj). by destruct (jrun ops j).
    + specialize (IH _ (jinv_delete P j q (u16 (q + 1)) Hj)). by destruct (jrun ops _).
Qed.

(** ** Order of delivery *)

Definition in_order_from (s : Z) (outs : list (Z * Frame)) : Prop :=
  forall i o, outs !! i = Some o -> Sequence o.2 = u16 (s + Z.of_nat i).

Lemma in_order_cons s t fr outs : u16 s = s -> Sequence fr = s -> in_order_from (u16 (s + 1)) outs ->
  in_order_from s ((t, fr) :: outs).
Proof.
  intros Hs Hfr Ho [|i] o Hi; simpl in Hi.
  - injection Hi as <-. simpl. by rewrite Z.add_0_r, Hs.
  - apply Ho in Hi. rewrite Hi. unfold u16. rewrite Zplus_mod_idemp_l. f_equal. lia.
Qed.

Definition due (t : Z) (P : Frame -> Prop) (o : Z * Frame) : Prop :=
  P o.2 /\ i64 (t * millisecond) <= time_sub o.1 (Arrival o.2).

Lemma jrun_delivers P ops j : Forall (op_ok P) ops -> jinv P j ->
  Forall (due (targetMs j) P) (jrun ops j).1
  /\ if started j then in_order_from (nextSeq j) (jrun ops j).1
     else exists s, in_order_from s (jrun ops j).1.
Proof.
  intros Hops. revert j. induction Hops as [|[n now seq payload|n now] ops Ho Hops IH]; intros j Hj; simpl.
  - split; [constructor|]. destruct (started j); [|exists 0]; intros i o Hi; by rewrite lookup_nil in Hi.
  - destruct Ho as [Hs HP]. destruct (PushOwned_spec n now seq payload j) as (E1 & E2 & E3 & _).
    specialize (IH _ (jinv_push P n now seq payload j Hs HP Hj)). by rewrite E1, E2, E3 in IH.
  - destruct (PopReady_spec n now j) as [-> |(q & fr & -> & Hq & Ht & Hn)].
    { specialize (IH j Hj). by destruct (jrun ops j). }
    specialize (IH _ (jinv_delete P j q (u16 (q + 1)) Hj)). simpl in IH.
    destruct (jrun ops _) as [outs j']. simpl in *. destruct IH as [Hd Ho'].
    destruct (jinv_frame P j Hj q fr Hq) as (Hs & Hr & HP).
    assert (in_order_from q ((now, fr) :: outs)) as Hall.
    { apply in_order_cons; [by apply Z.mod_small|done|done]. }
    split.
    + constructor; [|done]. split; [done|]. unfold too_early in Ht. simpl. by bool_hyps.
    + destruct (started j); [|eauto]. by rewrite <- Hn.
Qed.

(** ** A window of consecutive frames *)

Section window.
Context (s n : Z) (f : Z -> Frame) (Hn : n <= 2 ^ 15).
Context (Hf : forall i, Sequence (f i) = u16 (s + i)).

(** The buffer holds exactly the frames of the indices in [I]. *)
Definition holds (I : Z -> Prop) (j : JitterBuffer) : Prop :=
  (forall i, I i -> 0 <= i < n)
  /\ forall q fr, frames j !! q = Some fr <-> exists i, I i /\ q = u16 (s + i) /\ fr = f i.

Lemma holds_ext (I K : Z -> Prop) j : (forall i, I i <-> K i) -> holds I j -> holds K j.
Proof. intros Hik [H1 H2]. split; [naive_solver|]. intros q fr. rewrite H2. naive_solver. Qed.

Lemma holds_lookup I j i : holds I j -> 0 <= i < n -> I i -> frames j !! u16 (s + i) = Some (f i).
Proof. intros [_ H2] _ Hi. apply H2. eauto. Qed.

Lemma holds_push I j o now i payload : holds I j -> started j = false -> 0 <= i < n ->
  f i = mkFrame (u16 (s + i)) payload now -> Z.of_nat (size (frames j)) + 1 <= maxFrames j ->
  let j' := PushOwned o now (u16 (s + i)) payload j in
  holds (fun k => k = i \/ I k) j' /\ started j' = false /\ maxFrames j' = maxFrames j /\ targetMs j' = targetMs j
  /\ Z.of_nat (size (frames j')) <= Z.of_nat (size (frames j)) + 1.
Proof.
  intros [H1 H2] Hs Hi Hfi Hsz. unfold PushOwned. simpl. rewrite Hs. simpl. rewrite <- Hfi.
  assert (Z.of_nat (size (<[u16 (s + i) := f i]> (frames j))) <= Z.of_nat (size (frames j)) + 1).
  { rewrite map_size_insert. destruct (frames j !! _); simpl; lia. }
  rewrite (proj2 (Z.ltb_ge _ _)) by lia. simpl. split; [|done]. split; [naive_solver|].
  intros q fr. simpl. rewrite lookup_insert_Some, H2. split.
  - intros [[<- <-]|(Hne & k & Hk & -> & ->)]; eauto.
  - intros (k & [-> |Hk] & -> & ->); [by left|].
    destruct (decide (k = i)) as [-> |Hne]; [by left|]. right. split; [|eauto].
    intros He. apply Hne. symmetry. apply H1 in Hk. apply u16_window in He; lia.
Qed.

Lemma holds_delete I j i m : holds I j -> I i ->
  holds (fun k => I k /\ k <> i) (set_next m (set_frames (delete (u16 (s + i)) (frames j)) j)).
Proof.
  intros [H1 H2] Hi. split; [naive_solver|]. intros q fr. simpl. rewrite lookup_delete_Some, H2. split.
  - intros (Hne & k & Hk & -> & ->). exists k. naive_solver.
  - intros (k & [Hk Hne] & -> & ->). split; [|eauto]. intros He. apply Hne. symmetry.
    apply H1 in Hk, Hi. apply u16_window in He; lia.
Qed.

Lemma holds_scan I j o i : holds I j -> I i -> (forall k, I k -> i <= k) ->
  scan_min (shuffle o (keys (frames j))) = Some (u16 (s + i)).
Proof.
  intros [H1 H2] Hi Hmin. apply scan_min_least.
  - rewrite shuffle_perm. apply elem_of_keys. eexists. apply H2. eauto.
  - intros x Hx. rewrite shuffle_perm in Hx. apply elem_of_keys in Hx as [fr Hfr].
    apply H2 in Hfr as (k & Hk & -> & _). pose proof (H1 _ Hk). pose proof (H1 _ Hi). specialize (Hmin _ Hk).
    destruct (decide (k = i)) as [-> |]; [by left|right]. rewrite !seqLess_window by lia. lia.
Qed.

Lemma holds_pop k j o now : holds (fun i => k <= i < n) j -> 0 <= k < n ->
  (started j = true -> nextSeq j = u16 (s + k)) -> too_early j now (f k) = false ->
  exists j', PopReady o now j = (j', Some (f k)) /\ holds (fun i => k + 1 <= i < n) j'
    /\ started j' = true /\ nextSeq j' = u16 (s + (k + 1)) /\ targetMs j' = targetMs j.
Proof.
  intros Hh Hk Hs Ht. assert (frames j !! u16 (s + k) = Some (f k)) as Hl by (eapply holds_lookup; [exact Hh|done|simpl; lia]).
  assert (bool_decide (frames j = ∅) = false) as He.
  { apply bool_decide_eq_false. intros He. by rewrite He, lookup_empty in Hl. }
  assert (u16 (u16 (s + k) + 1) = u16 (s + (k + 1))) as Hu.
  { unfold u16. rewrite Zplus_mod_idemp_l. f_equal. lia. }
  exists (set_next (u16 (s + (k + 1))) (set_frames (delete (u16 (s + k)) (frames j)) j)).
  split; [|split; [|done]].
  - unfold PopReady. rewrite He. destruct (started j) eqn:S.
    + unfold pop_next. rewrite (Hs eq_refl), Hl, Ht, Hu. reflexivity.
    + rewrite (holds_scan _ j o k Hh) by (simpl; lia). simpl. rewrite Hl. simpl. rewrite Ht.
      unfold pop_next. simpl. rewrite Hl. unfold too_early in *. simpl. rewrite Ht, Hu. reflexivity.
  - eapply holds_ext; [|apply (holds_delete _ j k _ Hh); simpl; lia]. simpl. lia.
Qed.
End window.

Definition frame_at (s : Z) (arrival : Z -> Z) (payload : Z -> bytes) (i : Z) : Frame :=
  mkFrame (u16 (s + i)) (payload i) (arrival i).

Definition pushes (s : Z) (arrival : Z -> Z) (payload : Z -> bytes) (l : list (nat * Z)) : list jop :=
  map (fun x => JPush x.1 (arrival x.2) (u16 (s + x.2)) (payload x.2)) l.

Definition pops (l : list (nat * Z)) : list jop := map (fun x => JPop x.1 x.2) l.

Lemma jrun_app ops1 ops2 j : (jrun (ops1 ++ ops2) j).1 = (jrun ops1 j).1 ++ (jrun ops2 (jrun ops1 j).2).1.
Proof.
  revert j. induction ops1 as [|[] ops1 IH]; intros j; simpl; [done|apply IH|].
  destruct (PopReady _ _ j) as [j1 out]. specialize (IH j1).
  destruct (jrun (ops1 ++ ops2) j1) as [o1 k1], (jrun ops1 j1) as [o2 k2]. simpl in *. rewrite IH.
  by destruct out.
Qed.

Lemma jrun_pushes s n arrival payload l : n <= 2 ^ 15 -> forall I j,
  holds s n (frame_at s arrival payload) I j -> started j = false ->
  Forall (fun x => 0 <= x.2 < n) l -> Z.of_nat (size (frames j)) + len l <= maxFrames j ->
  let r := jrun (pushes s arrival payload l) j in
  r.1 = [] /\ started r.2 = false /\ targetMs r.2 = targetMs j
  /\ holds s n (frame_at s arrival payload) (fun i => I i \/ i ∈ l.*2) r.2.
Proof.
  intros Hn. induction l as [|[o i] l IH]; intros I j Hh Hs Hl Hsz; simpl.
  - do 3 (split; [done|]). eapply holds_ext; [|exact Hh]. intros i. rewrite elem_of_nil. tauto.
  - apply Forall_cons in Hl as [Hi Hl]. simpl in Hi. rewrite len_cons in Hsz. pose proof (len_nonneg l).
    destruct (holds_push s n (frame_at s arrival payload) Hn I j o (arrival i) i (payload i) Hh Hs Hi eq_refl
      ltac:(lia)) as (Hh' & Hs' & Hm' & Ht' & Hz').
    destruct (IH _ _ Hh' Hs' Hl ltac:(lia)) as (E1 & E2 & E3 & E4).
    do 2 (split; [done|]). split; [congruence|]. eapply holds_ext; [|exact E4]. intros i'. simpl.
    rewrite elem_of_cons. tauto.
Qed.

Lemma jrun_pops s n f l : n <= 2 ^ 15 -> forall k j,
  holds s n f (fun i => k <= i < n) j -> 0 <= k -> k + len l = n ->
  (started j = true -> nextSeq j = u16 (s + k)) ->
  Forall (fun x => forall i, 0 <= i < n -> too_early j x.2 (f i) = false) l ->
  (jrun (pops l) j).1 = zip l.*2 (map f (seqZ k (len l))).
Proof.
  intros Hn. induction l as [|[o now] l IH]; intros k j Hh Hk Hl Hs Ht; simpl; [done|].
  rewrite len_cons in *. pose proof (len_nonneg l). apply Forall_cons in Ht as [Ht1 Ht2].
  destruct (holds_pop s n f Hn k j o now Hh ltac:(lia) Hs (Ht1 k ltac:(lia))) as (j' & -> & Hh' & Hs' & Hn' & Ht').
  specialize (IH (k + 1) j' Hh' ltac:(lia) ltac:(lia) (fun _ => Hn')).
  rewrite seqZ_cons by lia. simpl. replace (Z.succ k) with (k + 1) by lia.
  replace (Z.pred (1 + len l)) with (len l) by lia.
  destruct (jrun (pops l) j') as [outs j'']. simpl in *. rewrite IH; [done|].
  eapply Forall_impl; [exact Ht2|]. intros x Hx i Hi. specialize (Hx i Hi). unfold too_early in *. by rewrite Ht'.
Qed.

(** Whatever is pushed and popped, in any order and at any times: the
    buffer holds at most [maxFrames] frames, each delivered frame is one that
    was pushed at least the target delay before, and the delivered sequence
    numbers are consecutive (modulo 2^16). *)
Theorem jitter_delivers_in_order P t m ops : Forall (op_ok P) ops ->
  let j := NewJitterBuffer t m in
  Z.of_nat (size (frames (jrun ops j).2)) <= maxFrames j
  /\ Forall (due (targetMs j) P) (jrun ops j).1
  /\ exists s, in_order_from s (jrun ops j).1.
Proof.
  intros Hops j. destruct (jrun_delivers P ops j Hops (jinv_new P t m)) as [Hd Ho]. split; [|done].
  pose proof (jinv_size _ _ (jrun_inv P ops j Hops (jinv_new P t m))) as Hz.
  enough (maxFrames (jrun ops j).2 = maxFrames j) by lia.
  clear. generalize j. induction ops as [|[n now seq pl|n now] ops IH]; intros k; simpl; [done| |].
  - rewrite IH. by destruct (PushOwned_spec n now seq pl k) as (_ & _ & _ & -> & _).
  - specialize (IH (PopReady n now k).1). destruct (PopReady_spec n now k) as [E|(q & fr & E & _)]; rewrite E in *;
      simpl in IH; by destruct (jrun ops _).
Qed.

(** A burst of consecutive frames that fits the buffer, arriving in any
    order, is delivered complete and in order once the target delay has
    passed. *)
Theorem jitter_reorders t m s arrival payload l r : let j := NewJitterBuffer t m in
  len l <= maxFrames j -> len l <= 2 ^ 15 ->
  l.*2 ≡ₚ seqZ 0 (len l) -> length r = length l ->
  Forall (fun x => forall i, 0 <= i < len l -> i64 (targetMs j * millisecond) <= time_sub x.2 (arrival i)) r ->
  (jrun (pushes s arrival payload l ++ pops r) j).1
  = zip r.*2 (map (frame_at s arrival payload) (seqZ 0 (len l))).
Proof.
  intros j Hm Hn Hp Hr Ht. set (f := frame_at s arrival payload).
  assert (holds s (len l) f (fun _ => False) j) as Hh.
  { split; [done|]. intros q fr. simpl. rewrite lookup_empty. naive_solver. }
  assert (Forall (fun x => 0 <= x.2 < len l) l) as Hl.
  { apply Forall_forall. intros x Hx. assert (x.2 ∈ l.*2) as Hx2 by (by apply list_elem_of_fmap_2).
    rewrite Hp, elem_of_seqZ in Hx2. lia. }
  rewrite jrun_app.
  destruct (jrun_pushes s (len l) arrival payload l Hn _ j Hh eq_refl Hl) as (-> & Hs & HT & Hh');
    [simpl; rewrite map_size_empty; simpl in *; lia|]. simpl.
  assert (len r = len l) as Hrl by (unfold len; by rewrite Hr). rewrite <- Hrl.
  eapply jrun_pops; rewrite ?Hrl; try done.
  - eapply holds_ext; [|exact Hh']. intros i. simpl. rewrite Hp, elem_of_seqZ. lia.
  - by rewrite Hs.
  - eapply Forall_impl; [exact Ht|]. intros x Hx i Hi. unfold too_early. rewrite HT.
    apply Z.ltb_ge. simpl. by apply Hx.
Qed.

(** A frame that does not arrive stops its track: once the buffer has
    started and waits for a frame it does not hold, nothing is delivered, no
    matter how many other frames arrive and how much time passes, until a
    frame with exactly that sequence number is pushed. *)
Theorem jitter_stalls_on_loss j ops : started j = true -> frames j !! nextSeq j = None ->
  Forall (fun o => match o with JPush _ _ seq _ => seq <> nextSeq j | JPop _ _ => True end) ops ->
  (jrun ops j).1 = [] /\ nextSeq (jrun ops j).2 = nextSeq j.
Proof.
  intros Hs Hl Hops. revert j Hs Hl Hops. induction ops as [|[n now seq pl|n now] ops IH]; intros j Hs Hl Hops; simpl; [done| |].
  - apply Forall_cons in Hops as [Ho Hops].
    destruct (PushOwned_spec n now seq pl j) as (E1 & E2 & _ & _ & Hk & _). rewrite <- E2. apply IH.
    + congruence.
    + rewrite E2. destruct (frames (PushOwned n now seq pl j) !! nextSeq j) as [fr|] eqn:E; [|done].
      apply Hk in E as [E|[E _]]; congruence.
    + by rewrite E2.
  - apply Forall_cons in Hops as [_ Hops].
    destruct (PopReady_spec n now j) as [-> |(q & fr & _ & Hq & _ & Hn)].
    + specialize (IH j Hs Hl Hops). by destruct (jrun ops j).
    + rewrite (Hn Hs) in Hq. congruence.
Qed.
End props.

(** Two tracks that started together: the skew is the distance of the last
    arrivals. *)
Lemma Skew_of_arrivals a v c : 0 <= a < 2 ^ 62 -> 0 <= v < 2 ^ 62 -> origin c = Some 0 ->
  Skew (NoteAudio a a 0 (NoteVideo v v 0 c)) = a - v.
Proof.
  intros Ha Hv Ho. unfold Skew, NoteAudio, NoteVideo, with_origin, time_sub. simpl. rewrite Ho. simpl.
  rewrite i64_small; lia.
Qed.

(** ** Witnesses *)

#[local] Instance plain_order : MapOrder := { shuffle := fun _ l => l; shuffle_perm := fun _ l => Permutation_refl l }.

Definition burst_in : list (nat * Z) := [(0%nat, 2); (0%nat, 0); (0%nat, 1)].
Definition burst_out : list (nat * Z) := [(0%nat, 100000000); (0%nat, 100000001); (0%nat, 100000002)].

Lemma jitter_reorders_witness :
  map (fun o => Sequence o.2)
    (jrun (pushes 65535 (fun i => i) (fun _ => [x01]) burst_in ++ pops burst_out) (NewJitterBuffer 0 0)).1
  = [65535; 0; 1].
Proof.
  rewrite (jitter_reorders 0 0 65535 (fun i => i) (fun _ => [x01]) burst_in burst_out).
  - reflexivity.
  - vm_compute. discriminate.
  - vm_compute. discriminate.
  - change (burst_in.*2) with [2; 0; 1]. change (seqZ 0 (len burst_in)) with [0; 1; 2].
    etrans; [apply Permutation_swap|]. apply perm_skip, Permutation_swap.
  - reflexivity.
  - change (len burst_in) with 3. change (i64 _) with 80000000. unfold time_sub. repeat constructor; intros; simpl; lia.
Defined.

Lemma jitter_delivers_in_order_witness :
  exists s, in_order_from s
    (jrun [JPush 0 0 7 [x01]; JPop 0 90000000] (NewJitterBuffer 0 0)).1.
Proof.
  apply (jitter_delivers_in_order (fun fr => Payload fr = [x01]) 0 0 [JPush 0 0 7 [x01]; JPop 0 90000000]).
  repeat constructor; lia.
Defined.

(** Frame 1 is lost; frame 2 waits for ever. *)
Lemma jitter_stalls_on_loss_witness :
  (jrun [JPop 0 (10 ^ 15); JPush 0 (10 ^ 15) 3 []; JPop 0 (10 ^ 17)]
     (jrun [JPush 0 0 0 []; JPush 0 0 2 []; JPop 0 (10 ^ 9)] (NewJitterBuffer 0 0)).2).1 = [].
Proof.
  apply jitter_stalls_on_loss.
  - reflexivity.
  - reflexivity.
  - repeat constructor. vm_compute. discriminate.
Defined.
