(* ===== verification/RnvSession.v ===== *)
(** * RNV sessions ([pkg/rnv/session])

    A session is one state machine over one link.  Streams and clip channels
    are shared between the session and the calls that wait on them, so they
    live on explicit stores ([streams], [clips]) and the session points into
    them.  A channel of capacity one is an [option]; a blocking call is split
    at its [select] into the part before it and one function per outcome.  The
    link, the clock and the peer are the environment: [sent] is what the link
    accepted and [events] the handler calls made, oldest first. *)

From stdpp Require Import base tactics list gmap sets strings.
From Stdlib Require Import ZArith Lia.
From S2P Require Import Prelude GoText Cbor CborRef RnvProto Sha256 SeqWindow RnvMedia.

(** ** Configuration ([config.go]) *)

Definition second : Z := 1000 * millisecond.
Definition minute : Z := 60 * second.

Record Limits := mkLim { LimStillBytes : Z; LimClipBytes : Z }.

(** Which of the handlers are set. *)
Record Handlers := mkHandlers {
  OnConn : bool; OnStill : bool; OnClip : bool; OnStream : bool; OnVideo : bool; OnAudio : bool;
  OnReject : bool; OnExtension : bool; OnBye : bool; OnCtrl : bool;
}.

Record Config := mkConfig {
  ConfCaps : Caps;
  DialTimeout : Z; HelloTimeout : Z; StillTimeout : Z; ClipTimeout : Z;
  AllowParallelLXST : bool; StrictExtensions : bool; DangerousRaiseLimits : bool;
  CustomLimits : Limits;
  MaxStillsPerMinute : Z; MaxClipsPerMinute : Z;
  LXSTActive : option (bytes -> bool);
  ConfHandlers : Handlers;
  Registry : option CodecRegistry;
}.

Definition no_handlers : Handlers :=
  mkHandlers false false false false false false false false false false.

Definition SafeConfig : Config :=
  mkConfig DefaultCaps (45 * second) (20 * second) (2 * minute) (10 * minute) false false false
    (mkLim 0 0) 30 6 None no_handlers (Some NewCodecRegistry).

Definition with_caps (c : Caps) (f : Config) : Config :=
  mkConfig c (DialTimeout f) (HelloTimeout f) (StillTimeout f) (ClipTimeout f) (AllowParallelLXST f)
    (StrictExtensions f) (DangerousRaiseLimits f) (CustomLimits f) (MaxStillsPerMinute f) (MaxClipsPerMinute f)
    (LXSTActive f) (ConfHandlers f) (Registry f).

Definition with_limits (l : Limits) (f : Config) : Config :=
  mkConfig (ConfCaps f) (DialTimeout f) (HelloTimeout f) (StillTimeout f) (ClipTimeout f) (AllowParallelLXST f)
    (StrictExtensions f) (DangerousRaiseLimits f) l (MaxStillsPerMinute f) (MaxClipsPerMinute f)
    (LXSTActive f) (ConfHandlers f) (Registry f).

Definition set_max_still (n : Z) (c : Caps) : Caps :=
  mkCaps n (MaxClip c) (Profiles c) (Codecs c) (Tracks c) (Preferred c) (StrictExt c) (CapsExtensions c).
Definition set_max_clip (n : Z) (c : Caps) : Caps :=
  mkCaps (MaxStill c) n (Profiles c) (Codecs c) (Tracks c) (Preferred c) (StrictExt c) (CapsExtensions c).
Definition set_strict (b : bool) (c : Caps) : Caps :=
  mkCaps (MaxStill c) (MaxClip c) (Profiles c) (Codecs c) (Tracks c) (Preferred c) b (CapsExtensions c).

(** A custom limit replaces the advertised one; it may exceed the package's
    only with [DangerousRaiseLimits]. *)
Definition guard_custom (raise : bool) (limit custom : Z) : Z :=
  if (limit <? custom) && negb raise then limit else custom.

Definition guard_cap (raise : bool) (limit cap : Z) : Z :=
  if (cap =? 0) || ((limit <? cap) && negb raise) then limit else cap.

Definition applyLimitGuards (f : Config) : Config :=
  let raise := DangerousRaiseLimits f in
  let f := if 0 <? LimStillBytes (CustomLimits f) then
             let n := guard_custom raise MaxStillBytes (LimStillBytes (CustomLimits f)) in
             with_caps (set_max_still n (ConfCaps f)) (with_limits (mkLim n (LimClipBytes (CustomLimits f))) f)
           else f in
  let f := if 0 <? LimClipBytes (CustomLimits f) then
             let n := guard_custom raise MaxClipBytes (LimClipBytes (CustomLimits f)) in
             with_caps (set_max_clip n (ConfCaps f)) (with_limits (mkLim (LimStillBytes (CustomLimits f)) n) f)
           else f in
  let f := with_caps (set_max_still (guard_cap raise MaxStillBytes (MaxStill (ConfCaps f))) (ConfCaps f)) f in
  with_caps (set_max_clip (guard_cap raise MaxClipBytes (MaxClip (ConfCaps f))) (ConfCaps f)) f.

Definition or_default (n d : Z) : Z := if n <=? 0 then d else n.

Definition withDefaults (f : Config) : Config :=
  let d := SafeConfig in
  let c := if (MaxStill (ConfCaps f) =? 0) && (Preferred (ConfCaps f) =? 0) && bool_decide (Profiles (ConfCaps f) = [])
           then ConfCaps d else ConfCaps f in
  applyLimitGuards
    (mkConfig (set_strict (StrictExtensions f || StrictExt c) c)
       (or_default (DialTimeout f) (DialTimeout d)) (or_default (HelloTimeout f) (HelloTimeout d))
       (or_default (StillTimeout f) (StillTimeout d)) (or_default (ClipTimeout f) (ClipTimeout d))
       (AllowParallelLXST f) (StrictExtensions f) (DangerousRaiseLimits f) (CustomLimits f)
       (or_default (MaxStillsPerMinute f) (MaxStillsPerMinute d))
       (or_default (MaxClipsPerMinute f) (MaxClipsPerMinute d))
       (LXSTActive f) (ConfHandlers f)
       (match Registry f with None => Registry d | Some r => Some r end)).

(** ** Guards ([guards.go]) *)

(** The source says: the least of both preferences and the offer. *)
Definition EffectiveProfile (local remote : Caps) (offerProfile : Z) : Z :=
  let eff := MinProfile (Preferred local) (Preferred remote) in
  if offerProfile =? 0 then eff else MinProfile eff offerProfile.

Definition GuardStreamOffer (local remote : Caps) (offer : StreamOffer) : res rnv_sentinel unit :=
  if bool_decide (OfferTracks offer = x00) then Err ErrInvalidOffer
  else if has_track (OfferTracks offer) TrackVideo
          && ((OfferProfile offer =? 0) || (OfferProfile offer <? ProfileMedium))
  then Err ErrVideoTrackDenied
  else
    let eff := if OfferProfile offer =? 0 then EffectiveProfile local remote 0 else OfferProfile offer in
    let lim := LimitsFor eff in
    if has_track (OfferTracks offer) TrackVideo && negb (AllowVideo lim) then Err ErrCapacity
    else if has_track (OfferTracks offer) TrackAudio && negb (AllowAudio lim) then Err ErrAudioTrackDenied
    else match ValidateStreamOffer local remote offer with Err _ => Err ErrInvalidOffer | Ok _ => Ok tt end.

(** ** State ([conn.go], [stream.go]) *)

(** A channel of capacity one: [None] is a nil channel. *)
Abbreviation chan A := (option (option A)).

(** [select { case ch <- v: default: }]. *)
Definition try_send {A} (v : A) (ch : chan A) : chan A :=
  match ch with Some None => Some (Some v) | _ => ch end.

Record Stream := mkStream {
  s_offer : StreamOffer; s_closed : bool; videoSeq : Z; audioSeq : Z;
  acceptCh : chan StreamOffer; rejectCh : chan RejectBody;
}.

Record clipResult := mkClipResult { cr_meta : ClipMeta; cr_data : bytes }.

(** Errors the calls return. *)
Inductive session_error :=
| EErr (e : rnv_sentinel) | EPack (e : rnv_error) | ESend | EResource (n : Z) | ECtx | ENet (n : Z).

Inductive session_event :=
| EvConn | EvStill (meta : StillMeta) (data : bytes) | EvClip (meta : ClipMeta) (data : bytes)
| EvStream (o : StreamOffer) | EvVideo (f : RnvProto.Frame) | EvAudio (f : RnvProto.Frame)
| EvReject (r : RejectBody) | EvExtension (id : Z) (payload : bytes) | EvBye | EvCtrl (c : CtrlBody).

(** What waits for a transfer. *)
Record Pending := mkPending {
  pendingStillID : bytes; pendingClipID : bytes; pendingClipCh : option nat; resourceExpect : Z;
}.

(** Buffers and clock of the media tracks. *)
Record Tracks_ := mkTracks { videoJB : JitterBuffer; audioJB : JitterBuffer; avClock : Clock }.

(** The link and the world. *)
Record World := mkWorld {
  lnk_up : bool; tried : nat; sent : list bytes; events : list session_event;
}.

Record Conn := mkConn {
  peerHash : bytes;
  localCaps : Caps; peerCaps : Caps; handshaken : bool; closed : bool; helloDone : bool;
  stream : option nat; streams : gmap nat Stream;
  tracks : Tracks_;
  pending : Pending;
  (** clip channels, and the goroutines that wait for a clip on them *)
  clips : gmap nat (option clipResult); waiters : gmap nat ClipMeta;
  stillTimes : list Z; clipTimes : list Z;
  droppedBadMagic : Z;
  fresh : nat;
  world : World;
}.

Definition set_hello caps c := mkConn (peerHash c) (localCaps c) caps true (closed c) true (stream c)
  (streams c) (tracks c) (pending c) (clips c) (waiters c) (stillTimes c) (clipTimes c) (droppedBadMagic c) (fresh c) (world c).
Definition set_closed c := mkConn (peerHash c) (localCaps c) (peerCaps c) (handshaken c) true (helloDone c) (stream c)
  (streams c) (tracks c) (pending c) (clips c) (waiters c) (stillTimes c) (clipTimes c) (droppedBadMagic c) (fresh c) (world c).
Definition set_stream s c := mkConn (peerHash c) (localCaps c) (peerCaps c) (handshaken c) (closed c) (helloDone c) s
  (streams c) (tracks c) (pending c) (clips c) (waiters c) (stillTimes c) (clipTimes c) (droppedBadMagic c) (fresh c) (world c).
Definition set_streams m c := mkConn (peerHash c) (localCaps c) (peerCaps c) (handshaken c) (closed c) (helloDone c) (stream c)
  m (tracks c) (pending c) (clips c) (waiters c) (stillTimes c) (clipTimes c) (droppedBadMagic c) (fresh c) (world c).
Definition set_tracks t c := mkConn (peerHash c) (localCaps c) (peerCaps c) (handshaken c) (closed c) (helloDone c) (stream c)
  (streams c) t (pending c) (clips c) (waiters c) (stillTimes c) (clipTimes c) (droppedBadMagic c) (fresh c) (world c).
Definition set_pending p c := mkConn (peerHash c) (localCaps c) (peerCaps c) (handshaken c) (closed c) (helloDone c) (stream c)
  (streams c) (tracks c) p (clips c) (waiters c) (stillTimes c) (clipTimes c) (droppedBadMagic c) (fresh c) (world c).
Definition set_clips m w c := mkConn (peerHash c) (localCaps c) (peerCaps c) (handshaken c) (closed c) (helloDone c) (stream c)
  (streams c) (tracks c) (pending c) m w (stillTimes c) (clipTimes c) (droppedBadMagic c) (fresh c) (world c).
Definition set_times st ct c := mkConn (peerHash c) (localCaps c) (peerCaps c) (handshaken c) (closed c) (helloDone c) (stream c)
  (streams c) (tracks c) (pending c) (clips c) (waiters c) st ct (droppedBadMagic c) (fresh c) (world c).
Definition count_bad_magic c := mkConn (peerHash c) (localCaps c) (peerCaps c) (handshaken c) (closed c) (helloDone c) (stream c)
  (streams c) (tracks c) (pending c) (clips c) (waiters c) (stillTimes c) (clipTimes c) (u64 (droppedBadMagic c + 1)) (fresh c) (world c).
Definition next_fresh c := mkConn (peerHash c) (localCaps c) (peerCaps c) (handshaken c) (closed c) (helloDone c) (stream c)
  (streams c) (tracks c) (pending c) (clips c) (waiters c) (stillTimes c) (clipTimes c) (droppedBadMagic c) (S (fresh c)) (world c).
Definition set_world w c := mkConn (peerHash c) (localCaps c) (peerCaps c) (handshaken c) (closed c) (helloDone c) (stream c)
  (streams c) (tracks c) (pending c) (clips c) (waiters c) (stillTimes c) (clipTimes c) (droppedBadMagic c) (fresh c) w.

Definition put_stream (id : nat) (s : Stream) (c : Conn) : Conn := set_streams (<[id := s]> (streams c)) c.

Definition fire (set : bool) (e : session_event) (c : Conn) : Conn :=
  if set then set_world (mkWorld (lnk_up (world c)) (tried (world c)) (sent (world c)) (events (world c) ++ [e])) c
  else c.

Definition Teardown (c : Conn) : Conn :=
  set_world (mkWorld false (tried (world c)) (sent (world c)) (events (world c))) c.

Definition log_send (raw : list bytes) (c : Conn) : Conn :=
  set_world (mkWorld (lnk_up (world c)) (S (tried (world c))) (sent (world c) ++ raw) (events (world c))) c.

Definition zero_caps : Caps := mkCaps 0 0 [] [] x00 0 false ∅.

Definition newConn (cfg : Config) (peer : bytes) (up : bool) : Conn :=
  mkConn peer (ConfCaps cfg) zero_caps false false false None ∅
    (mkTracks (NewJitterBuffer 0 0) (NewJitterBuffer 0 0) (mkClock None 0 0))
    (mkPending [] [] None 0) ∅ ∅ [] [] 0 0 (mkWorld up 0 [] []).

Section session.
Context `{C : Cbor} `{MapOrder}.
(** Whether the link accepts the [n]th packet. *)
Context (send_ok : nat -> bool).
Context (cfg : Config).

Abbreviation result A := (res session_error A).

(** ** Sending *)

Definition sendRaw (raw : bytes) (c : Conn) : Conn * result unit :=
  if closed c || negb (lnk_up (world c)) then (c, Err (EErr ErrLinkInactive))
  else if send_ok (tried (world c)) then (log_send [raw] c, Ok tt)
  else (log_send [] c, Err ESend).

Definition sendEnvelope (env : Envelope) (c : Conn) : Conn * result unit :=
  match (Pack (Some env)).1 with
  | Err e => (c, Err (EPack e))
  | Ok raw => sendRaw raw c
  end.

Definition sendHello (c : Conn) : Conn * result unit :=
  sendEnvelope (NewTyped TypeHello (Some (CapsToBody (localCaps c)))) c.

Definition sendReject (code : Z) (reason : bytes) (c : Conn) : Conn :=
  (sendEnvelope (NewTyped TypeReject (Some (RejectToBody (mkReject code reason)))) c).1.

(** ** Closing *)

Definition mark_stream_closed (id : nat) (c : Conn) : Conn :=
  match streams c !! id with
  | Some s => put_stream id (mkStream (s_offer s) true (videoSeq s) (audioSeq s) (acceptCh s) (rejectCh s)) c
  | None => c
  end.

Definition markClosed (c : Conn) : Conn :=
  let c := set_closed c in
  match stream c with Some id => mark_stream_closed id c | None => c end.

Definition Close (c : Conn) : Conn :=
  if closed c then c
  else
    let c := set_closed c in
    let c := (sendEnvelope (NewTyped TypeBye None) c).1 in
    Teardown c.

(** ** Limits *)

Definition requireHandshake (c : Conn) : result unit :=
  if handshaken c then Ok tt else Err (EErr ErrNotHandshaken).

Definition smaller_cap (limit a b : Z) : Z :=
  let a := if a =? 0 then limit else a in
  let b := if b =? 0 then limit else b in
  if a <? b then a else b.

Definition effectiveStillMax (c : Conn) : Z := smaller_cap MaxStillBytes (MaxStill (localCaps c)) (MaxStill (peerCaps c)).
Definition effectiveClipMax (c : Conn) : Z := smaller_cap MaxClipBytes (MaxClip (localCaps c)) (MaxClip (peerCaps c)).

(** The sliding window shared by [rateStillOK] and [rateClipOK]: the times
    kept and whether one more is allowed. *)
Definition rate_window (now limit : Z) (times : list Z) : list Z * bool :=
  let kept := List.filter (fun t => now - minute <? t) times in
  if limit <=? len kept then (kept, false) else (kept ++ [now], true).

Definition rateStillOK (now : Z) (c : Conn) : Conn * bool :=
  let '(ts, ok) := rate_window now (MaxStillsPerMinute cfg) (stillTimes c) in (set_times ts (clipTimes c) c, ok).

Definition rateClipOK (now : Z) (c : Conn) : Conn * bool :=
  let '(ts, ok) := rate_window now (MaxClipsPerMinute cfg) (clipTimes c) in (set_times (stillTimes c) ts c, ok).

Definition ensureActiveLXSTGuard (trk : byte) (c : Conn) : res rnv_sentinel unit :=
  if negb (has_track trk TrackAudio) then Ok tt
  else if AllowParallelLXST cfg then Ok tt
  else match LXSTActive cfg with
       | Some active => if active (peerHash c) then Err ErrParallelLXST else Ok tt
       | None => Ok tt
       end.

(** ** Streams ([stream.go]) *)

Definition clearStream (id : nat) (c : Conn) : Conn :=
  if bool_decide (stream c = Some id) then set_stream None c else c.

(** The stream the session points to is open. *)
Definition stream_open (c : Conn) : bool :=
  match stream c with
  | None => false
  | Some id => match streams c !! id with Some s => negb (s_closed s) | None => false end
  end.

Definition offer_defaults (o : StreamOffer) : StreamOffer :=
  mkOffer (if OfferProfile o =? 0 then ProfileMedium else OfferProfile o)
    (if bool_decide (OfferTracks o = x00) then TrackVideo else OfferTracks o) (Video o) (Audio o) (MaxFPS o).

(** [OpenStream] up to its [select]: the stream it then waits on. *)
Definition OpenStream (offer : StreamOffer) (c : Conn) : Conn * result nat :=
  match requireHandshake c with
  | Err e => (c, Err e)
  | Ok _ =>
      let offer := offer_defaults offer in
      if has_track (OfferTracks offer) TrackVideo && (OfferProfile offer <? ProfileMedium)
      then (c, Err (EErr ErrVideoTrackDenied))
      else
        match ensureActiveLXSTGuard (OfferTracks offer) c with
        | Err e => (c, Err (EErr e))
        | Ok _ =>
            match GuardStreamOffer (localCaps c) (peerCaps c) offer with
            | Err e => (c, Err (EErr e))
            | Ok _ =>
                if stream_open c then (c, Err (EErr ErrStreamAlreadyOpen))
                else
                  let id := fresh c in
                  let c := next_fresh (put_stream id (mkStream offer false 0 0 (Some None) (Some None)) c) in
                  let c := set_stream (Some id) c in
                  let '(c, r) := sendEnvelope (NewTyped TypeStreamOffer (Some (OfferToBody offer))) c in
                  match r with
                  | Err e => (set_stream None c, Err e)
                  | Ok _ => (c, Ok id)
                  end
            end
        end
  end.

(** The cases of the [select] of [OpenStream]. *)
Inductive open_select := OsCtx | OsTimeout | OsReject | OsAccept.

(** The rest of the call that waits on stream [id]; [None] when the case is not
    ready. *)
Definition open_finish (id : nat) (sel : open_select) (c : Conn) : option (Conn * result nat) :=
  match sel with
  | OsCtx => Some (clearStream id c, Err ECtx)
  | OsTimeout => Some (clearStream id c, Err (EErr ErrCapacity))
  | OsReject =>
      match streams c !! id with
      | Some (mkStream o cl v a acc (Some (Some r))) =>
          let c := put_stream id (mkStream o cl v a acc (Some None)) c in
          Some (clearStream id c, Err (EErr (if Code r =? RejectCapacity then ErrCapacity else ErrRejected)))
      | _ => None
      end
  | OsAccept =>
      match streams c !! id with
      | Some (mkStream o cl v a (Some (Some accepted)) rej) =>
          Some (put_stream id (mkStream accepted cl v a (Some None) rej) c, Ok id)
      | _ => None
      end
  end.

Definition handleStreamOffer (offer : StreamOffer) (c : Conn) : Conn :=
  match GuardStreamOffer (localCaps c) (peerCaps c) offer with
  | Err e => sendReject RejectCapacity (error_text e) c
  | Ok _ =>
      match ensureActiveLXSTGuard (OfferTracks offer) c with
      | Err e => sendReject RejectPolicy (error_text e) c
      | Ok _ =>
          let id := fresh c in
          let c := next_fresh (put_stream id (mkStream offer false 0 0 None None) c) in
          let c := set_stream (Some id) c in
          let c := (sendEnvelope (NewTyped TypeStreamAccept (Some (OfferToBody offer))) c).1 in
          fire (OnStream (ConfHandlers cfg)) (EvStream offer) c
      end
  end.

(** Deliver to the waiting call, if any. *)
Definition on_stream (f : Stream -> Stream) (c : Conn) : Conn :=
  match stream c with
  | None => c
  | Some id => match streams c !! id with Some s => put_stream id (f s) c | None => c end
  end.

Definition handleStreamAccept (offer : StreamOffer) (c : Conn) : Conn :=
  on_stream (fun s => mkStream (s_offer s) (s_closed s) (videoSeq s) (audioSeq s)
                        (try_send offer (acceptCh s)) (rejectCh s)) c.

Definition noteReject (body : RejectBody) (c : Conn) : Conn :=
  on_stream (fun s => mkStream (s_offer s) (s_closed s) (videoSeq s) (audioSeq s)
                        (acceptCh s) (try_send body (rejectCh s))) c.

Definition SendVideo (id : nat) (payload : bytes) (c : Conn) : Conn * result unit :=
  match streams c !! id with
  | None => (c, Err (EErr ErrStreamNotOpen))
  | Some s =>
      if s_closed s then (c, Err (EErr ErrStreamNotOpen))
      else if negb (has_track (OfferTracks (s_offer s)) TrackVideo) then (c, Err (EErr ErrVideoTrackDenied))
      else
        let n := u32 (videoSeq s + 1) in
        let c := put_stream id (mkStream (s_offer s) (s_closed s) n (audioSeq s) (acceptCh s) (rejectCh s)) c in
        let codec := if bool_decide (Video (s_offer s) = x00) then CodecJPEG else Video (s_offer s) in
        match PackVideo codec FlagKeyframe (u16 n) payload with
        | Err _ => (c, Err (EErr ErrFrameTooLarge))
        | Ok raw => sendRaw raw c
        end
  end.

Definition SendAudio (id : nat) (payload : bytes) (c : Conn) : Conn * result unit :=
  match streams c !! id with
  | None => (c, Err (EErr ErrStreamNotOpen))
  | Some s =>
      if s_closed s then (c, Err (EErr ErrStreamNotOpen))
      else if negb (has_track (OfferTracks (s_offer s)) TrackAudio) then (c, Err (EErr ErrAudioTrackDenied))
      else
        let n := u32 (audioSeq s + 1) in
        let c := put_stream id (mkStream (s_offer s) (s_closed s) (videoSeq s) n (acceptCh s) (rejectCh s)) c in
        let codec := if bool_decide (Audio (s_offer s) = x00) then CodecOpus else Audio (s_offer s) in
        match PackAudio codec x00 (u16 n) payload with
        | Err _ => (c, Err (EErr ErrFrameTooLarge))
        | Ok raw => sendRaw raw c
        end
  end.

Definition SendCtrl (ctrl : CtrlBody) (c : Conn) : Conn * result unit :=
  sendEnvelope (NewTyped TypeStreamCtrl (Some (CtrlToBody ctrl))) c.

Definition StreamClose (id : nat) (c : Conn) : Conn := clearStream id (mark_stream_closed id c).

(** ** Stills ([still.go]) *)

Definition contentHash (b : bytes) : bytes := ztake 8 (sha256 b).

Definition set_still_size n m := mkStill (Width m) (Height m) (StillCodec m) n (Transfer m) (StillID m) (StillData m).
Definition set_still_codec co m := mkStill (Width m) (Height m) co (StillSize m) (Transfer m) (StillID m) (StillData m).
Definition set_still_dims w h m := mkStill w h (StillCodec m) (StillSize m) (Transfer m) (StillID m) (StillData m).
Definition set_still_id i m := mkStill (Width m) (Height m) (StillCodec m) (StillSize m) (Transfer m) i (StillData m).
Definition set_still_transfer t d m := mkStill (Width m) (Height m) (StillCodec m) (StillSize m) t (StillID m) d.

(** How a transfer of a resource ends: [resource.New] and [SendResource] give
    an error or not, or the timer or the context comes first. *)
Inductive transfer := TrNewFails (n : Z) | TrDone (r : res Z unit) | TrTimeout | TrCtx.

Definition transfer_result (t : transfer) : result unit :=
  match t with
  | TrNewFails n => Err (EResource n)
  | TrDone (Err n) => Err (EResource n)
  | TrDone (Ok _) => Ok tt
  | TrTimeout => Err (EErr ErrResourceTimeout)
  | TrCtx => Err ECtx
  end.

Definition sendPayload (tr : transfer) (payload : bytes) (c : Conn) : Conn * result unit :=
  if len payload <=? LinkPacketSoftMax then sendRaw payload c else (c, transfer_result tr).

(** Dimensions from the image, when missing; [decode_config] is
    [image.DecodeConfig] on a JPEG. *)
Definition fill_dims (decode_config : bytes -> option (Z * Z)) (data : bytes) (m : StillMeta) : StillMeta :=
  if ((Width m =? 0) || (Height m =? 0)) && bool_decide (StillCodec m = CodecJPEG) then
    match decode_config data with Some (w, h) => set_still_dims w h m | None => m end
  else m.

(** The still with its size, codec, dimensions and id filled in. *)
Definition prepare_still (decode_config : bytes -> option (Z * Z)) (limit : Z) (data : bytes) (meta : StillMeta)
  : res rnv_sentinel StillMeta :=
  let meta := if bool_decide (StillCodec meta = x00) then set_still_codec CodecJPEG meta else meta in
  let meta := set_still_size (len data) meta in
  _ ← ValidateStillMeta meta limit;
  if limit <? len data then Err ErrStillTooLarge
  else
    let meta := fill_dims decode_config data meta in
    _ ← ValidateStillMeta meta limit;
    Ok (if bool_decide (StillID meta = []) then set_still_id (contentHash data) meta else meta).

(** [SendStill] after its checks. *)
Definition send_prepared (tr : transfer) (data : bytes) (meta : StillMeta) (c : Conn) : Conn * result unit :=
  let inline := set_still_transfer TransferPacket data meta in
  match (Pack (Some (NewTyped TypeStill (Some (StillToBody inline))))).1 with
  | Err e => (c, Err (EPack e))
  | Ok packed =>
      if len packed <=? LinkPacketSoftMax then sendRaw packed c
      else
        let '(c, r) := sendEnvelope
          (NewTyped TypeStill (Some (StillToBody (set_still_transfer TransferResource [] meta)))) c in
        match r with Err e => (c, Err e) | Ok _ => sendPayload tr data c end
  end.

Definition SendStill (decode_config : bytes -> option (Z * Z)) (tr : transfer) (now : Z) (data : bytes)
    (meta : StillMeta) (c : Conn) : Conn * result unit :=
  match requireHandshake c with
  | Err e => (c, Err e)
  | Ok _ =>
      let '(c, ok) := rateStillOK now c in
      if negb ok then (c, Err (EErr ErrRateLimited))
      else
        match prepare_still decode_config (effectiveStillMax c) data meta with
        | Err e => (c, Err (EErr e))
        | Ok meta => send_prepared tr data meta c
        end
  end.

Definition set_pending_still id c :=
  set_pending (mkPending id (pendingClipID (pending c)) (pendingClipCh (pending c)) (resourceExpect (pending c))) c.
Definition set_pending_clip id ch c :=
  set_pending (mkPending (pendingStillID (pending c)) id ch (resourceExpect (pending c))) c.
Definition set_expect n c :=
  set_pending (mkPending (pendingStillID (pending c)) (pendingClipID (pending c)) (pendingClipCh (pending c)) n) c.

Definition handleStillMeta (meta : StillMeta) (c : Conn) : Conn :=
  let data := StillData meta in
  let meta := set_still_transfer (Transfer meta) [] meta in
  match ValidateStillMeta meta (effectiveStillMax c) with
  | Err e => sendReject RejectSize (error_text e) c
  | Ok _ =>
      if (Transfer meta =? TransferPacket) && (0 <? len data) then fire (OnStill (ConfHandlers cfg)) (EvStill meta data) c
      else if Transfer meta =? TransferResource then set_pending_still (StillID meta) c
      else c
  end.

(** ** Clips ([clip.go]) *)

Definition largeClipProgressThreshold : Z := 2 ^ 20.

Definition prepare_clip (limit : Z) (data : bytes) (meta : ClipMeta) (progress : bool) : res rnv_sentinel ClipMeta :=
  let codec := if bool_decide (ClipCodec meta = x00) then CodecOpaque else ClipCodec meta in
  let meta := mkClip (ClipID meta) (len data) codec (Mime meta) (SHA256 meta) in
  if limit =? 0 then Err ErrCapacity
  else
    _ ← ValidateClipMeta meta limit;
    if limit <? len data then Err ErrClipTooLarge
    else if (largeClipProgressThreshold <? len data) && negb progress then Err ErrProgressRequired
    else
      let id := if bool_decide (ClipID meta = []) then contentHash data else ClipID meta in
      let sum := if bool_decide (SHA256 meta = []) then contentHash data else SHA256 meta in
      Ok (mkClip id (ClipSize meta) codec (Mime meta) sum).

(** [SendClip] up to its wait for ACCEPT: the channel it waits on. *)
Definition SendClip (now : Z) (data : bytes) (meta : ClipMeta) (progress : bool) (c : Conn)
  : Conn * result (nat * ClipMeta) :=
  match requireHandshake c with
  | Err e => (c, Err e)
  | Ok _ =>
      let '(c, ok) := rateClipOK now c in
      if negb ok then (c, Err (EErr ErrRateLimited))
      else
        match prepare_clip (effectiveClipMax c) data meta progress with
        | Err e => (c, Err (EErr e))
        | Ok meta =>
            let ch := fresh c in
            let c := next_fresh (set_clips (<[ch := None]> (clips c)) (waiters c) c) in
            let c := set_pending_clip (ClipID meta) (Some ch) c in
            let '(c, r) := sendEnvelope (NewTyped TypeClipOffer (Some (ClipToBody meta))) c in
            match r with
            | Err e => (set_pending_clip [] None c, Err e)
            | Ok _ => (c, Ok (ch, meta))
            end
        end
  end.

Inductive clip_select := CsCtx | CsTimeout | CsResult.

(** The rest of the call: from the first [select] to the transfer, which runs
    while the session goes on; [None] when the case is not ready. *)
Definition clip_accepted (ch : nat) (sel : clip_select) (c : Conn) : option (Conn * result unit) :=
  match sel with
  | CsCtx => Some (set_pending_clip [] None c, Err ECtx)
  | CsTimeout => Some (set_pending_clip [] None c, Err (EErr ErrResourceTimeout))
  | CsResult =>
      match clips c !! ch with
      | Some (Some _) => Some (set_clips (<[ch := None]> (clips c)) (waiters c) c, Ok tt)
      | _ => None
      end
  end.

(** After the transfer. *)
Definition clip_finish (tr : transfer) (meta : ClipMeta) (c : Conn) : Conn * result unit :=
  let '(c, r) := match transfer_result tr with
                 | Err e => (c, Err e)
                 | Ok _ => sendEnvelope (NewTyped TypeClipDone (Some (ClipToBody meta))) c
                 end in
  (set_pending_clip [] None c, r).

Definition handleClipOffer (meta : ClipMeta) (c : Conn) : Conn :=
  let limit := effectiveClipMax c in
  match ValidateClipMeta meta limit with
  | Err e => sendReject RejectSize (error_text e) c
  | Ok _ =>
      if limit =? 0 then sendReject RejectCapacity (lit "clips disabled") c
      else
        let ch := fresh c in
        let c := next_fresh (set_clips (<[ch := None]> (clips c)) (<[ch := meta]> (waiters c)) c) in
        let c := set_pending_clip (ClipID meta) (Some ch) c in
        (sendEnvelope (NewTyped TypeClipAccept (Some (ClipToBody meta))) c).1
  end.

(** The goroutine of an accepted offer: it takes what its channel holds, or its
    timer fires. *)
Definition clip_received (ch : nat) (c : Conn) : Conn :=
  match waiters c !! ch, clips c !! ch with
  | Some meta, Some (Some r) =>
      let c := set_clips (<[ch := None]> (clips c)) (delete ch (waiters c)) c in
      if len (cr_data r) =? 0 then c else fire (OnClip (ConfHandlers cfg)) (EvClip meta (cr_data r)) c
  | _, _ => c
  end.

Definition clip_expired (ch : nat) (c : Conn) : Conn := set_clips (clips c) (delete ch (waiters c)) c.

(** A result for the clip channel the session points to, if there is room. *)
Definition signal_clip (r : clipResult) (c : Conn) : Conn :=
  match pendingClipCh (pending c) with
  | None => c
  | Some ch =>
      match clips c !! ch with
      | Some None => set_clips (<[ch := Some r]> (clips c)) (waiters c) c
      | _ => c
      end
  end.

Definition signalClipAccept (meta : ClipMeta) (c : Conn) : Conn := signal_clip (mkClipResult meta []) c.
Definition signalClipDone (meta : ClipMeta) (c : Conn) : Conn := c.

(** ** Resources *)

(** [size] is the announced size, 0 when the advertisement has another type. *)
Definition onResourceAdv (size : Z) (c : Conn) : Conn * bool :=
  let limit := i64 (effectiveClipMax c) in
  if (0 <? limit) && (limit <? size) then (c, false)
  else if (MaxClipBytes <? size) && negb (DangerousRaiseLimits cfg) then (c, false)
  else (set_expect (u64 size) c, true).

Definition no_clip : ClipMeta := mkClip [] 0 x00 [] [].

Definition onResourceDone (data : bytes) (c : Conn) : Conn :=
  if len data =? 0 then c
  else
    let stillID := pendingStillID (pending c) in
    let c := set_pending_still [] c in
    if 0 <? len stillID then
      fire (OnStill (ConfHandlers cfg))
        (EvStill (mkStill 0 0 x00 (len data) TransferResource stillID []) data) c
    else signal_clip (mkClipResult no_clip data) c.

(** ** Packets ([conn.go]) *)

Definition fireExt (c : Conn) (kv : Z * bytes) : Conn :=
  fire (OnExtension (ConfHandlers cfg)) (EvExtension kv.1 kv.2) c.

Definition fire_all (e : extmap) (c : Conn) : Conn := foldl fireExt c (map_to_list e).

Definition handlePrivate (env : Envelope) (c : Conn) : Conn :=
  if StrictExtensions cfg || StrictExt (localCaps c) then sendReject RejectUnknown (lit "unknown private type") c
  else fire_all (Extensions env) c.

Definition handleFrame (n : nat) (now : Z) (fr : RnvProto.Frame) (c : Conn) : Conn :=
  let t := tracks c in
  if bool_decide (Magic fr = MagicVideo) then
    let c := set_tracks (mkTracks (PushOwned n now (Seq fr) (RnvProto.Payload fr) (videoJB t)) (audioJB t)
                           (NoteVideo now now (Seq fr) (avClock t))) c in
    fire (OnVideo (ConfHandlers cfg)) (EvVideo fr) c
  else if bool_decide (Magic fr = MagicAudio) then
    let c := set_tracks (mkTracks (videoJB t) (PushOwned n now (Seq fr) (RnvProto.Payload fr) (audioJB t))
                           (NoteAudio now now (Seq fr) (avClock t))) c in
    fire (OnAudio (ConfHandlers cfg)) (EvAudio fr) c
  else c.

Definition dispatch (env : Envelope) (c : Conn) : Conn :=
  let t := Type_ env in
  if TypePrivateMin <=? t then handlePrivate env c
  else if t =? TypeHello then
    let caps := CapsFromBody (Body env) in
    let c := set_hello caps c in
    fire_all (CapsExtensions caps) (fire_all (Extensions env) c)
  else if t =? TypeReject then
    let body := RejectFromBody (Body env) in
    fire (OnReject (ConfHandlers cfg)) (EvReject body) (noteReject body c)
  else if t =? TypeStill then handleStillMeta (StillMetaFromBody (Body env)) c
  else if t =? TypeClipOffer then handleClipOffer (ClipMetaFromBody (Body env)) c
  else if t =? TypeClipAccept then signalClipAccept (ClipMetaFromBody (Body env)) c
  else if t =? TypeClipDone then signalClipDone (ClipMetaFromBody (Body env)) c
  else if t =? TypeStreamOffer then handleStreamOffer (StreamOfferFromBody (Body env)) c
  else if t =? TypeStreamAccept then handleStreamAccept (StreamOfferFromBody (Body env)) c
  else if t =? TypeStreamCtrl then fire (OnCtrl (ConfHandlers cfg)) (EvCtrl (CtrlFromBody (Body env))) c
  else if t =? TypeBye then Close (fire (OnBye (ConfHandlers cfg)) EvBye c)
  else if StrictExt (localCaps c) || StrictExtensions cfg then sendReject RejectUnknown (lit "unknown type") c
  else c.

Definition onPacket (n : nat) (now : Z) (data : bytes) (c : Conn) : Conn :=
  if IsMediaFrame data then
    match SplitFrame data with
    | Err _ => count_bad_magic c
    | Ok fr => handleFrame n now fr c
    end
  else
    match UnpackEnvelope data with
    | Err _ => c
    | Ok env => dispatch env c
    end.

(** ** Endpoints ([endpoint.go]) *)

(** The polling loop: [ready i] is the answer of the [i]th poll and [before i]
    whether the deadline is ahead; [None] is a run that used up its fuel. *)
Fixpoint waitUntil (fuel : nat) (ready before : nat -> bool) (i : nat) : option bool :=
  match fuel with
  | O => None
  | S fuel =>
      if negb (before i) then Some (ready i)
      else if ready i then Some true
      else waitUntil fuel ready before (S i)
  end.

(** What the network answers while a link is set up. *)
Record DialNet := mkDialNet {
  path_known : nat -> bool; path_before : nat -> bool;
  recalled : bool;
  from_hash : res Z unit; establish : res Z unit;
  up : nat -> bool; up_before : nat -> bool;
  identify : res Z unit;
}.

Definition net_err (r : res Z unit) : result unit := match r with Ok _ => Ok tt | Err n => Err (ENet n) end.

(** [Dial] up to its wait for the peer's HELLO. *)
Definition Dial (fuel : nat) (net : DialNet) (peer : bytes) : option (result Conn) :=
  if negb (len peer =? IdentityHashLen) then Some (Err (EErr ErrBadFieldLength))
  else
    match waitUntil fuel (path_known net) (path_before net) 0 with
    | None => None
    | Some false => Some (Err (EErr ErrDialTimeout))
    | Some true =>
        if negb (recalled net) then Some (Err (EErr ErrDialTimeout))
        else
          match (_ ← net_err (from_hash net); net_err (establish net)) with
          | Err e => Some (Err e)
          | Ok _ =>
              match waitUntil fuel (up net) (up_before net) 0 with
              | None => None
              | Some false => Some (Err (EErr ErrDialTimeout))
              | Some true =>
                  match net_err (identify net) with
                  | Err e => Some (Err e)
                  | Ok _ =>
                      let '(c, r) := sendHello (newConn cfg peer true) in
                      Some (match r with Err e => Err e | Ok _ => Ok c end)
                  end
              end
          end
    end.

(** The end of [Dial]: HELLO has come ([waitHello] returns nil) or the timer
    fired. *)
Definition dial_finish (timeout : bool) (c : Conn) : option (Conn * result unit) :=
  if timeout then Some (Close c, Err (EErr ErrHelloTimeout))
  else if helloDone c then Some (c, Ok tt) else None.

(** An inbound link: [peer] is empty while its identity is unknown. *)
Definition acceptConn (peer : bytes) : Conn * result unit :=
  let '(c, r) := sendHello (newConn cfg peer true) in
  match r with
  | Err e => (Teardown c, Err e)
  | Ok _ => (fire (OnConn (ConfHandlers cfg)) EvConn c, Ok tt)
  end.

Definition Announce (caps : Caps) : res rnv_error bytes :=
  EncodeAnnounceAppData (mkAnnounce ProtocolVersion (CapsBitmap caps) (Preferred caps) []).

(** ** Steps of a session *)

Inductive session_step : Conn -> Conn -> Prop :=
| ss_packet c n now data : session_step c (onPacket n now data c)
| ss_link_closed c : session_step c (markClosed (Teardown c))
| ss_close c : session_step c (Close c)
| ss_open c o : session_step c (OpenStream o c).1
| ss_open_done c id sel c' r : open_finish id sel c = Some (c', r) -> session_step c c'
| ss_video c id p : session_step c (SendVideo id p c).1
| ss_audio c id p : session_step c (SendAudio id p c).1
| ss_ctrl c x : session_step c (SendCtrl x c).1
| ss_stream_close c id : session_step c (StreamClose id c)
| ss_still c dc tr now data m : session_step c (SendStill dc tr now data m c).1
| ss_clip c now data m p : session_step c (SendClip now data m p c).1
| ss_clip_accepted c ch sel c' r : clip_accepted ch sel c = Some (c', r) -> session_step c c'
| ss_clip_finish c tr m : session_step c (clip_finish tr m c).1
| ss_clip_received c ch : session_step c (clip_received ch c)
| ss_clip_expired c ch : session_step c (clip_expired ch c)
| ss_resource_adv c size : session_step c (onResourceAdv size c).1
| ss_resource c data : session_step c (onResourceDone data c)
| ss_dial_done c t c' r : dial_finish t c = Some (c', r) -> session_step c c'.
End session.
