(* ===== verification/RnvSessionProps.v ===== *)
(** * Properties of RNV sessions

    Rate limits, what closing does, stream negotiation and the delivery of
    stills, over the model of [RnvSession.v]. *)

From stdpp Require Import base tactics list gmap sets strings.
From Stdlib Require Import ZArith Lia Sorted.
From S2P Require Import Prelude GoText Cbor CborRef RnvProto Sha256 SeqWindow RnvMedia RnvSession.

(** ** Rate limits *)

Definition in_window (t a : Z) : bool := (t - minute <? a) && (a <=? t).

(** The calls, at the times given, that the window admits. *)
Fixpoint admitted (limit : Z) (calls times : list Z) : list Z :=
  match calls with
  | [] => []
  | now :: calls =>
      let '(times, ok) := rate_window now limit times in
      if ok then now :: admitted limit calls times else admitted limit calls times
  end.

Lemma filter_filter_weaker (p q : Z -> bool) l : (forall x, p x = true -> q x = true) ->
  List.filter p (List.filter q l) = List.filter p l.
Proof.
  intros Hpq. induction l as [|x l IH]; simpl; [done|].
  destruct (q x) eqn:Q; simpl; [by rewrite IH|].
  destruct (p x) eqn:P; [|done]. apply Hpq in P. congruence.
Qed.

Lemma length_filter_mono (p q : Z -> bool) l : (forall x, In x l -> p x = true -> q x = true) ->
  (length (List.filter p l) <= length (List.filter q l))%nat.
Proof.
  induction l as [|x l IH]; intros Hpq; simpl; [done|].
  specialize (IH (fun y Hy => Hpq y (or_intror Hy))). pose proof (Hpq x (or_introl eq_refl)).
  destruct (p x), (q x); simpl; try lia; exfalso; naive_solver.
Qed.

Definition window_count (t : Z) (l : list Z) : Z := len (List.filter (in_window t) l).

(** [times] is what the window remembers of the history [hist] at time [last]. *)
Definition remembers (last : Z) (hist times : list Z) : Prop :=
  forall now, last <= now ->
    List.filter (fun t => now - minute <? t) times = List.filter (fun t => now - minute <? t) hist.

Lemma admitted_bound limit calls : forall last hist times, 0 <= limit ->
  Sorted Z.le (last :: calls) -> remembers last hist times -> Forall (fun a => a <= last) hist ->
  (forall t, window_count t hist <= limit) ->
  forall t, window_count t (hist ++ admitted limit calls times) <= limit.
Proof.
  induction calls as [|now calls IH]; intros last hist times Hl Hs Hr Hh Hw t; simpl; [by rewrite app_nil_r|].
  apply Sorted_inv in Hs as [Hs Hlast]. apply HdRel_inv in Hlast.
  assert (Forall (fun a => a <= now) hist) as Hh' by (eapply Forall_impl; [exact Hh|]; simpl; lia).
  unfold rate_window. rewrite (Hr now Hlast). destruct (limit <=? _) eqn:E; bool_hyps.
  - apply (IH now); try done. intros n Hn. rewrite filter_filter_weaker; [done|]. intros x. lia.
  - replace (hist ++ now :: admitted _ _ _)
      with ((hist ++ [now]) ++ admitted limit calls (List.filter (fun t => now - minute <? t) hist ++ [now]))
      by (rewrite <- app_assoc; done).
    apply (IH now); try done.
    + intros n Hn. rewrite !List.filter_app, filter_filter_weaker; [done|]. intros x. lia.
    + apply Forall_app. split; [done|]. constructor; [lia|constructor].
    + intros t'. unfold window_count in *. rewrite List.filter_app, len_app. simpl.
      destruct (in_window t' now) eqn:W; [|specialize (Hw t'); rewrite len_nil; lia].
      unfold in_window in W. bool_hyps.
      enough (len (List.filter (in_window t') hist) <= len (List.filter (fun t => now - minute <? t) hist))
        by (rewrite len_cons, len_nil; lia).
      unfold len. apply inj_le, length_filter_mono. intros x Hx Hin. unfold in_window in Hin. lia.
Qed.

(** The times at which a sequence of calls to [rateStillOK] is let through. *)
Fixpoint still_run (cfg : Config) (calls : list Z) (c : Conn) : list Z :=
  match calls with
  | [] => []
  | now :: calls =>
      let '(c, ok) := rateStillOK cfg now c in
      if ok then now :: still_run cfg calls c else still_run cfg calls c
  end.

Fixpoint clip_run (cfg : Config) (calls : list Z) (c : Conn) : list Z :=
  match calls with
  | [] => []
  | now :: calls =>
      let '(c, ok) := rateClipOK cfg now c in
      if ok then now :: clip_run cfg calls c else clip_run cfg calls c
  end.

Lemma still_run_admitted cfg calls c : still_run cfg calls c = admitted (MaxStillsPerMinute cfg) calls (stillTimes c).
Proof.
  revert c. induction calls as [|now calls IH]; intros c; simpl; [done|]. unfold rateStillOK.
  destruct (rate_window _ _ _) as [ts ok]. simpl. by rewrite IH.
Qed.

Lemma clip_run_admitted cfg calls c : clip_run cfg calls c = admitted (MaxClipsPerMinute cfg) calls (clipTimes c).
Proof.
  revert c. induction calls as [|now calls IH]; intros c; simpl; [done|]. unfold rateClipOK.
  destruct (rate_window _ _ _) as [ts ok]. simpl. by rewrite IH.
Qed.

Lemma admitted_window limit calls t : 0 <= limit -> Sorted Z.le calls ->
  window_count t (admitted limit calls []) <= limit.
Proof.
  intros Hl Hs. destruct calls as [|now calls]; [unfold window_count; simpl; rewrite len_nil; lia|].
  apply (admitted_bound limit (now :: calls) now [] []); try done.
  constructor; [done|]. constructor. lia.
Qed.

(** In a new session, however often stills and clips are sent, no window
    of a minute sees more of them than the configured number, and a call is
    refused only when that many were let through in the minute before it. *)
Theorem rnv_rate_limit cfg peer up calls t : Sorted Z.le calls ->
  0 <= MaxStillsPerMinute cfg -> 0 <= MaxClipsPerMinute cfg ->
  let c := newConn cfg peer up in
  window_count t (still_run cfg calls c) <= MaxStillsPerMinute cfg
  /\ window_count t (clip_run cfg calls c) <= MaxClipsPerMinute cfg
  /\ forall c now, (rateStillOK cfg now c).2 = false ->
       MaxStillsPerMinute cfg <= len (List.filter (fun a => now - minute <? a) (stillTimes c)).
Proof.
  intros Hs H1 H2 c. rewrite still_run_admitted, clip_run_admitted.
  split; [by apply admitted_window|]. split; [by apply admitted_window|].
  intros d now. unfold rateStillOK, rate_window. destruct (_ <=? _) eqn:E; simpl; [|done]. by bool_hyps.
Qed.

Lemma rnv_rate_limit_witness :
  window_count 100 (still_run SafeConfig (repeat 1 40) (newConn SafeConfig [] true)) <= 30
  /\ still_run SafeConfig (repeat 1 40) (newConn SafeConfig [] true) = repeat 1 30.
Proof.
  split; [|vm_compute; reflexivity].
  apply (rnv_rate_limit SafeConfig [] true (repeat 1 40) 100).
  - simpl. repeat constructor; lia.
  - simpl. lia.
  - simpl. lia.
Defined.

Section runs.
Context `{C : Cbor} `{MapOrder}.
Context (send_ok : nat -> bool) (cfg : Config).

Inductive reaches : Conn -> Conn -> Prop :=
| reaches_refl c : reaches c c
| reaches_step c d e : reaches c d -> session_step send_ok cfg d e -> reaches c e.

(** ** After closing *)

(** Nothing is sent any more. *)
Definition silent (c d : Conn) : Prop := closed d = true /\ sent (world d) = sent (world c).

Lemma sendRaw_closed raw c : closed c = true -> sendRaw send_ok raw c = (c, Err (EErr ErrLinkInactive)).
Proof. intros Hc. unfold sendRaw. by rewrite Hc. Qed.

Lemma sendEnvelope_closed env c : closed c = true -> (sendEnvelope send_ok env c).1 = c.
Proof. intros Hc. unfold sendEnvelope. case_match; [by rewrite sendRaw_closed|done]. Qed.

Lemma sendReject_closed code reason c : closed c = true -> sendReject send_ok code reason c = c.
Proof. apply sendEnvelope_closed. Qed.

Lemma Close_closed c : closed c = true -> Close send_ok c = c.
Proof. intros Hc. unfold Close. by rewrite Hc. Qed.

Lemma fire_silent b e c d : silent c d -> silent c (fire b e d).
Proof. intros [Hd1 Hd2]. unfold fire. by destruct b. Qed.

Lemma fire_all_silent e c d : silent c d -> silent c (fire_all cfg e d).
Proof.
  unfold fire_all. generalize (map_to_list e) as l. intros l. revert d.
  induction l as [|x l IH]; intros d Hd; simpl; [done|]. by apply IH, fire_silent.
Qed.

Lemma silent_trans c d e : silent c d -> silent d e -> silent c e.
Proof. intros [_ H2] [H3 H4]. split; [done|congruence]. Qed.

Lemma on_stream_silent f c d : silent c d -> silent c (on_stream f d).
Proof. intros [Hd1 Hd2]. unfold on_stream. repeat case_match; done. Qed.

Lemma signal_clip_silent r c d : silent c d -> silent c (signal_clip r d).
Proof. intros [Hd1 Hd2]. unfold signal_clip. repeat case_match; done. Qed.

(** Unfold one operation of a closed session. *)
Ltac quiet :=
  repeat first
    [ rewrite sendReject_closed by done | rewrite sendEnvelope_closed by done
    | rewrite sendRaw_closed by done
    | match goal with
      | |- context [sendEnvelope send_ok ?e ?d] =>
          let E := fresh "E" in
          pose proof (sendEnvelope_closed e d ltac:(done)) as E;
          destruct (sendEnvelope send_ok e d) as [? []]; simpl in E; subst
      | |- context [match ?x with _ => _ end] => destruct x eqn:?
      end ]; try done; try (split; done).

Lemma handleStreamOffer_silent o c : closed c = true -> silent c (handleStreamOffer send_ok cfg o c).
Proof.
  intros Hc. unfold handleStreamOffer.
  destruct (GuardStreamOffer _ _ _); [|by rewrite sendReject_closed].
  destruct (ensureActiveLXSTGuard _ _ _); [|by rewrite sendReject_closed].
  rewrite sendEnvelope_closed by done. by apply fire_silent.
Qed.

Lemma handleClipOffer_silent m c : closed c = true -> silent c (handleClipOffer send_ok m c).
Proof.
  intros Hc. unfold handleClipOffer. destruct (ValidateClipMeta _ _); [|by rewrite sendReject_closed].
  destruct (_ =? 0); [by rewrite sendReject_closed|]. by rewrite sendEnvelope_closed.
Qed.

Lemma handleStillMeta_silent m c : closed c = true -> silent c (handleStillMeta send_ok cfg m c).
Proof.
  intros Hc. unfold handleStillMeta. destruct (ValidateStillMeta _ _); [|by rewrite sendReject_closed].
  destruct (_ && _); [by apply fire_silent|]. by destruct (_ =? _).
Qed.

Lemma dispatch_silent env c : closed c = true -> silent c (dispatch send_ok cfg env c).
Proof.
  intros Hc. unfold dispatch, handlePrivate, signalClipAccept, signalClipDone, handleStreamAccept, noteReject.
  repeat match goal with |- context [if ?b then _ else _] => destruct b end;
    rewrite ?sendReject_closed by done; try done;
    repeat first [apply fire_silent | apply fire_all_silent | apply on_stream_silent | apply signal_clip_silent];
    auto using handleStillMeta_silent, handleClipOffer_silent, handleStreamOffer_silent.
  all: try (split; done).
  assert (silent c (fire (OnBye (ConfHandlers cfg)) EvBye c)) as Hf by (by apply fire_silent).
  rewrite Close_closed by apply Hf. done.
Qed.

Lemma onPacket_silent n now data c : closed c = true -> silent c (onPacket send_ok cfg n now data c).
Proof.
  intros Hc. unfold onPacket. destruct (IsMediaFrame data).
  - destruct (SplitFrame data); [|done]. unfold handleFrame.
    destruct (bool_decide _); [by apply fire_silent|].
    destruct (bool_decide _); [by apply fire_silent|done].
  - destruct (UnpackEnvelope data); [by apply dispatch_silent|done].
Qed.

Lemma OpenStream_silent o c : closed c = true -> silent c (OpenStream send_ok cfg o c).1.
Proof. intros Hc. unfold OpenStream. quiet. Qed.

Lemma SendStill_silent dc tr now data m c : closed c = true -> silent c (SendStill send_ok cfg dc tr now data m c).1.
Proof.
  intros Hc. unfold SendStill, rateStillOK, send_prepared, sendPayload.
  destruct (rate_window _ _ _) as [ts ok]. quiet.
Qed.

Lemma SendClip_silent now data m p c : closed c = true -> silent c (SendClip send_ok cfg now data m p c).1.
Proof. intros Hc. unfold SendClip, rateClipOK. destruct (rate_window _ _ _) as [ts ok]. quiet. Qed.

Lemma session_step_silent c d : session_step send_ok cfg c d -> closed c = true -> silent c d.
Proof.
  intros Hs Hc. destruct Hs.
  - by apply onPacket_silent.
  - unfold markClosed, mark_stream_closed. simpl. quiet.
  - by rewrite Close_closed.
  - by apply OpenStream_silent.
  - unfold open_finish, clearStream in *. destruct sel; repeat case_match; simplify_eq; split; done.
  - unfold SendVideo. quiet.
  - unfold SendAudio. quiet.
  - unfold SendCtrl. quiet.
  - unfold StreamClose, clearStream, mark_stream_closed. quiet.
  - by apply SendStill_silent.
  - by apply SendClip_silent.
  - unfold clip_accepted in *. destruct sel; repeat case_match; simplify_eq; split; done.
  - unfold clip_finish. destruct (transfer_result tr); quiet.
  - unfold clip_received, fire. quiet.
  - done.
  - unfold onResourceAdv. quiet.
  - unfold onResourceDone. destruct (_ =? _); [done|]. destruct (_ <? _).
    + by apply fire_silent.
    + by apply signal_clip_silent.
  - unfold dial_finish in *. destruct t; repeat case_match; simplify_eq; rewrite ?Close_closed by done; split; done.
Qed.

Lemma reaches_silent c d : reaches c d -> closed c = true -> silent c d.
Proof.
  intros Hr Hc. induction Hr as [|c d e Hr IH Hs]; [done|]. specialize (IH Hc). eapply silent_trans; [exact IH|].
  apply session_step_silent; [done|]. apply IH.
Qed.

(** Closing an open session takes the link down without sending anything:
    the session is marked closed before the BYE is handed to the link, which
    refuses it.  Nor is anything sent in any state the session reaches
    afterwards. *)
Theorem rnv_close_sends_no_bye c d : closed c = false -> reaches (Close send_ok c) d ->
  closed d = true /\ lnk_up (world (Close send_ok c)) = false /\ sent (world d) = sent (world c).
Proof.
  intros Hc Hr.
  assert (Close send_ok c = Teardown (set_closed c)) as He.
  { unfold Close. rewrite Hc. by rewrite sendEnvelope_closed. }
  rewrite He in *. destruct (reaches_silent _ _ Hr eq_refl) as [E1 E2]. by rewrite E2.
Qed.

(** ** Crossing offers *)

(** The session has forgotten stream [id], on which a call still waits. *)
Definition orphan (id : nat) (c : Conn) : Prop :=
  (id < fresh c)%nat /\ stream c <> Some id
  /\ exists s, streams c !! id = Some s /\ acceptCh s = Some None /\ rejectCh s = Some None.

Definition same_streams (c d : Conn) : Prop :=
  fresh d = fresh c /\ stream d = stream c /\ streams d = streams c.

Lemma orphan_same id c d : same_streams c d -> orphan id c -> orphan id d.
Proof. intros (E1 & E2 & E3). unfold orphan. by rewrite E1, E2, E3. Qed.

Lemma same_trans c d e : same_streams c d -> same_streams d e -> same_streams c e.
Proof. unfold same_streams. naive_solver congruence. Qed.

Lemma sendRaw_same raw c : same_streams c (sendRaw send_ok raw c).1.
Proof. unfold sendRaw. by repeat case_match. Qed.

Lemma sendEnvelope_same env c : same_streams c (sendEnvelope send_ok env c).1.
Proof. unfold sendEnvelope. case_match; [apply sendRaw_same|done]. Qed.

Lemma sendEnvelope_eq_same env c d r : sendEnvelope send_ok env c = (d, r) -> same_streams c d.
Proof. intros E. pose proof (sendEnvelope_same env c) as Hs. by rewrite E in Hs. Qed.

Lemma fire_same b e c : same_streams c (fire b e c).
Proof. unfold fire. by destruct b. Qed.

Lemma fire_all_same e c : same_streams c (fire_all cfg e c).
Proof.
  unfold fire_all. generalize (map_to_list e) as l. intros l. revert c.
  induction l as [|x l IH]; intros c; simpl; [done|]. eapply same_trans; [apply fire_same|apply IH].
Qed.

Lemma signal_clip_same r c : same_streams c (signal_clip r c).
Proof. unfold signal_clip. by repeat case_match. Qed.

Lemma Close_same c : same_streams c (Close send_ok c).
Proof. unfold Close. case_match; [done|]. apply (sendEnvelope_same _ (set_closed c)). Qed.

(** A new stream under a fresh name. *)
Lemma orphan_new id s c : orphan id c ->
  orphan id (set_stream (Some (fresh c)) (next_fresh (put_stream (fresh c) s c))).
Proof.
  intros (Hf & Hs & t & Ht & Hch). split; [simpl; lia|]. split; [simpl; intros E; injection E; lia|].
  exists t. split; [|done]. simpl. rewrite lookup_insert_ne; [done|lia].
Qed.

(** An update that leaves the channels of [id] as they are. *)
Lemma orphan_put id j s t c : orphan id c -> streams c !! j = Some s ->
  (j = id -> acceptCh t = acceptCh s /\ rejectCh t = rejectCh s) -> orphan id (put_stream j t c).
Proof.
  intros (Hf & Hs & u & Hu & Hch) Hj Ht. split; [done|]. split; [done|]. simpl.
  destruct (decide (j = id)) as [-> |Hne].
  - exists t. rewrite lookup_insert_eq. destruct (Ht eq_refl) as [-> ->]. simplify_eq. done.
  - exists u. by rewrite lookup_insert_ne.
Qed.

Lemma orphan_unset id c : orphan id c -> orphan id (set_stream None c).
Proof. intros (Hf & _ & Hu). done. Qed.

Lemma orphan_clear id j c : orphan id c -> orphan id (clearStream j c).
Proof. intros Ho. unfold clearStream. case_match; [by apply orphan_unset|done]. Qed.

Lemma orphan_mark id j c : orphan id c -> orphan id (mark_stream_closed j c).
Proof. intros Ho. unfold mark_stream_closed. case_match; [|done]. by eapply orphan_put. Qed.

Lemma orphan_on_stream id f c : orphan id c -> orphan id (on_stream f c).
Proof.
  intros Ho. unfold on_stream. destruct (stream c) as [j|] eqn:E; [|done].
  destruct (streams c !! j) eqn:F; [|done]. eapply orphan_put; [done|done|].
  intros ->. by destruct Ho as (_ & Hn & _).
Qed.

Lemma handleStreamOffer_orphan id o c : orphan id c -> orphan id (handleStreamOffer send_ok cfg o c).
Proof.
  intros Ho. unfold handleStreamOffer, sendReject.
  destruct (GuardStreamOffer _ _ _); [|by eapply orphan_same, Ho; apply sendEnvelope_same].
  destruct (ensureActiveLXSTGuard _ _ _); [|by eapply orphan_same, Ho; apply sendEnvelope_same].
  eapply orphan_same; [eapply same_trans; [apply sendEnvelope_same|apply fire_same]|]. by apply orphan_new.
Qed.

Lemma OpenStream_orphan id o c : orphan id c -> orphan id (OpenStream send_ok cfg o c).1.
Proof.
  intros Ho. unfold OpenStream. destruct (requireHandshake c); [|done]. cbv zeta.
  destruct (_ && _); [done|]. destruct (ensureActiveLXSTGuard _ _ _); [|done].
  destruct (GuardStreamOffer _ _ _); [|done]. destruct (stream_open c); [done|].
  destruct (sendEnvelope _ _ _) as [d r] eqn:E. apply sendEnvelope_eq_same in E.
  destruct r; simpl; [|apply orphan_unset]; eapply orphan_same; try exact E; by apply orphan_new.
Qed.

Lemma dispatch_orphan id env c : orphan id c -> orphan id (dispatch send_ok cfg env c).
Proof.
  intros Ho. unfold dispatch, handlePrivate, signalClipAccept, signalClipDone, handleStillMeta, handleClipOffer,
    sendReject, noteReject, handleStreamAccept.
  repeat match goal with
  | |- orphan id (if ?b then _ else _) => destruct b
  | |- orphan id (match ?x with _ => _ end) => destruct x
  | |- orphan id (handleStreamOffer _ _ _ _) => by apply handleStreamOffer_orphan
  | |- orphan id (on_stream _ _) => apply orphan_on_stream
  | |- orphan id (fire _ _ _) => eapply orphan_same; [apply fire_same|]
  | |- orphan id (fire_all _ _ _) => eapply orphan_same; [apply fire_all_same|]
  | |- orphan id (sendEnvelope _ _ _).1 => eapply orphan_same; [apply sendEnvelope_same|]
  | |- orphan id (signal_clip _ _) => eapply orphan_same; [apply signal_clip_same|]
  | |- orphan id (Close _ _) => eapply orphan_same; [apply Close_same|]
  end; try done.
  destruct Ho as (Hf & Ho). split; [simpl; lia|done].
Qed.

Lemma session_step_orphan id c d : session_step send_ok cfg c d -> orphan id c -> orphan id d.
Proof.
  intros Hs Ho. destruct Hs.
  - unfold onPacket, handleFrame. destruct (IsMediaFrame data); [destruct (SplitFrame data)|].
    + repeat case_match; try done; (eapply orphan_same; [apply fire_same|done]).
    + done.
    + destruct (UnpackEnvelope data); [by apply dispatch_orphan|done].
  - unfold markClosed. simpl. destruct (stream c); [|done]. by apply orphan_mark.
  - eapply orphan_same; [apply Close_same|done].
  - by apply OpenStream_orphan.
  - unfold open_finish in *. destruct sel; repeat case_match; simplify_eq; try by apply orphan_clear.
    all: try apply orphan_clear; eapply orphan_put; [exact Ho|eassumption|]; intros ->;
      destruct Ho as (_ & _ & u & Hu & Ha & Hr); by simplify_eq.
  - unfold SendVideo. destruct (streams c !! id0) eqn:E; [|done].
    destruct (s_closed s); [done|]. destruct (negb _); [done|]. cbv zeta.
    destruct (PackVideo _ _ _ _); [eapply orphan_same; [apply sendRaw_same|]|]; by eapply orphan_put.
  - unfold SendAudio. destruct (streams c !! id0) eqn:E; [|done].
    destruct (s_closed s); [done|]. destruct (negb _); [done|]. cbv zeta.
    destruct (PackAudio _ _ _ _); [eapply orphan_same; [apply sendRaw_same|]|]; by eapply orphan_put.
  - eapply orphan_same; [apply sendEnvelope_same|done].
  - by apply orphan_clear, orphan_mark.
  - unfold SendStill, rateStillOK, send_prepared, sendPayload. destruct (requireHandshake c); [|done].
    destruct (rate_window _ _ _) as [ts ok]. destruct (negb ok); [done|].
    destruct (prepare_still _ _ _ _); [|done]. destruct (Pack _).1; [|done].
    destruct (_ <=? _); [eapply orphan_same; [apply sendRaw_same|done]|].
    destruct (sendEnvelope _ _ _) as [d' r] eqn:E. apply sendEnvelope_eq_same in E.
    destruct r; [|by eapply orphan_same].
    destruct (_ <=? _); (eapply orphan_same; [|by eapply orphan_same]); [apply sendRaw_same|done].
  - unfold SendClip, rateClipOK. destruct (requireHandshake c); [|done].
    destruct (rate_window _ _ _) as [ts ok]. destruct (negb ok); [done|].
    destruct (prepare_clip _ _ _ _); [|done].
    destruct (sendEnvelope _ _ _) as [d' r] eqn:E. apply sendEnvelope_eq_same in E.
    assert (orphan id d') as Hd by (eapply orphan_same; [exact E|]; destruct Ho as (Hf & Ho); split; [simpl; lia|done]).
    by destruct r.
  - unfold clip_accepted in *. destruct sel; repeat case_match; simplify_eq; done.
  - unfold clip_finish. destruct (transfer_result tr); [|done].
    destruct (sendEnvelope _ _ _) as [d' r] eqn:E. apply sendEnvelope_eq_same in E. by eapply orphan_same.
  - unfold clip_received. repeat case_match; try done. eapply orphan_same; [apply fire_same|done].
  - done.
  - unfold onResourceAdv. by repeat case_match.
  - unfold onResourceDone. repeat case_match; try done; (eapply orphan_same; [first [apply fire_same|apply signal_clip_same]|done]).
  - unfold dial_finish in *. destruct t; repeat case_match; simplify_eq; [eapply orphan_same; [apply Close_same|done]|done].
Qed.

Lemma reaches_orphan id c d : reaches c d -> orphan id c -> orphan id d.
Proof. intros Hr Ho. induction Hr; [done|]. eapply session_step_orphan; eauto. Qed.

(** A call that waits in [OpenStream]. *)
Lemma OpenStream_Ok o c c1 id : OpenStream send_ok cfg o c = (c1, Ok id) ->
  let o := offer_defaults o in
  handshaken c = true /\ ensureActiveLXSTGuard cfg (OfferTracks o) c = Ok tt
  /\ GuardStreamOffer (localCaps c) (peerCaps c) o = Ok tt
  /\ id = fresh c
  /\ sendEnvelope send_ok (NewTyped TypeStreamOffer (Some (OfferToBody o)))
       (set_stream (Some id) (next_fresh (put_stream id (mkStream o false 0 0 (Some None) (Some None)) c))) = (c1, Ok tt).
Proof.
  unfold OpenStream, requireHandshake. destruct (handshaken c); [|done]. cbv zeta.
  destruct (_ && _); [done|]. destruct (ensureActiveLXSTGuard _ _ _) as [[]|] eqn:E1; [|done].
  destruct (GuardStreamOffer _ _ _) as [[]|] eqn:E2; [|done]. destruct (stream_open c); [done|].
  destruct (sendEnvelope _ _ _) as [d r] eqn:E. destruct r as [[]|]; [|done]. by intros [= <- <-].
Qed.

(** When the peer's own offer arrives while [OpenStream] waits for an
    answer, and is accepted, the call is lost: in every state the session
    reaches from there neither an ACCEPT nor a REJECT gets to it, so that only
    the timeout (reported as a lack of capacity) or its context ends it. *)
Theorem rnv_crossing_offers o c c1 id o2 d : OpenStream send_ok cfg o c = (c1, Ok id) ->
  GuardStreamOffer (localCaps c1) (peerCaps c1) o2 = Ok tt ->
  ensureActiveLXSTGuard cfg (OfferTracks o2) c1 = Ok tt ->
  reaches (handleStreamOffer send_ok cfg o2 c1) d ->
  open_finish id OsAccept d = None /\ open_finish id OsReject d = None
  /\ stream d <> Some id.
Proof.
  intros Ho Hg Hl Hr. apply OpenStream_Ok in Ho as (_ & _ & _ & Hid & Hsend).
  apply sendEnvelope_eq_same in Hsend as (Ef & Es & Et). simpl in Ef, Es, Et.
  assert (orphan id (handleStreamOffer send_ok cfg o2 c1)) as Horph.
  { unfold handleStreamOffer. rewrite Hg, Hl.
    eapply orphan_same; [eapply same_trans; [apply sendEnvelope_same|apply fire_same]|].
    split; [simpl; lia|]. split; [simpl; intros E; injection E; lia|].
    eexists. simpl. rewrite lookup_insert_ne by lia. rewrite Et, lookup_insert_eq. done. }
  apply (reaches_orphan id) in Hr; [|done]. destruct Hr as (_ & Hn & s & Hs & Ha & Hj).
  unfold open_finish. rewrite Hs. destruct s; simpl in *; subst. done.
Qed.
End runs.

(** ** The first byte of a packet *)

(** The encoding of a map starts with a byte of major type 5 (RFC 8949). *)
Class CborHead (C : Cbor) : Prop :=
  cbor_map_head : forall m bs, cbor_Marshal (AMapU m) = Some bs -> exists b r, bs = b :: r /\ bZ b / 32 = 5.

Lemma put_head_major m n : 0 <= m < 8 -> 0 <= n -> exists b r, put_head m n = b :: r /\ bZ b / 32 = m.
Proof.
  intros Hm Hn. unfold put_head.
  destruct (n <? 24) eqn:E; bool_hyps; [|repeat case_match]; eexists _, _; (split; [reflexivity|]);
    apply bZ_Zb_head; lia.
Qed.

Lemma ref_cbor_head : CborHead ref_cbor.
Proof.
  intros m bs Hm. unfold cbor_Marshal, ref_cbor in Hm. destruct (encodable _); [|done]. injection Hm as <-.
  change (enc (AMapU m)) with (put_head 5 (len m) ++ concat (map (fun kv => put_head 0 kv.1 ++ enc kv.2) m)).
  destruct (put_head_major 5 (len m)) as (b & r & -> & Hb); [lia|apply len_nonneg|]. simpl. eauto.
Qed.

(** An encoding is at least as long as the byte strings in it. *)
Fixpoint weight (v : any) : Z :=
  match v with
  | ABytes b => len b
  | AArr l => foldr Z.add 0 (map weight l)
  | AMapU l => foldr Z.add 0 (map (fun kv => weight kv.2) l)
  | AMapA l => foldr Z.add 0 (map (fun kv => weight kv.2) l)
  | _ => 0
  end.

Class CborSize (C : Cbor) : Prop :=
  cbor_size : forall v bs, cbor_Marshal v = Some bs -> weight v <= len bs.

Lemma len_concat_ge {A} (w : A -> Z) (e : A -> bytes) l : Forall (fun x => w x <= len (e x)) l ->
  foldr Z.add 0 (map w l) <= len (concat (map e l)).
Proof. induction 1; simpl; [done|]. rewrite len_app. lia. Qed.

Lemma weight_enc v : weight v <= len (enc v).
Proof.
  revert v. apply any_nested_ind.
  - intros v. destruct v; simpl; try exact I; try apply len_nonneg. rewrite len_app. pose proof (len_nonneg (put_head 2 (len b))). lia.
  - intros l Hl. simpl. rewrite len_app. pose proof (len_nonneg (put_head 4 (len l))).
    pose proof (len_concat_ge weight enc l Hl). lia.
  - intros l Hl. simpl. rewrite len_app. pose proof (len_nonneg (put_head 5 (len l))).
    enough (foldr Z.add 0 (map (fun kv => weight kv.2) l) <= len (concat (map (fun kv => put_head 0 kv.1 ++ enc kv.2) l)))
      by lia.
    apply len_concat_ge. eapply Forall_impl; [exact Hl|]. intros [k v] Hv. simpl in *. rewrite len_app.
    pose proof (len_nonneg (put_head 0 k)). lia.
  - intros l Hl. simpl. rewrite len_app. pose proof (len_nonneg (put_head 5 (len l))).
    enough (foldr Z.add 0 (map (fun kv => weight kv.2) l) <= len (concat (map (fun kv => enc kv.1 ++ enc kv.2) l)))
      by lia.
    apply len_concat_ge. eapply Forall_impl; [exact Hl|]. intros [k v] [_ Hv]. simpl in *. rewrite len_app.
    pose proof (len_nonneg (enc k)). lia.
Qed.

Lemma ref_cbor_size : CborSize ref_cbor.
Proof.
  intros v bs Hv. unfold cbor_Marshal, ref_cbor in Hv. destruct (encodable v); [|done]. injection Hv as <-.
  apply weight_enc.
Qed.

(** ** Stills *)

Lemma smaller_cap_comm l a b : smaller_cap l a b = smaller_cap l b a.
Proof. unfold smaller_cap. repeat case_match; bool_hyps; lia. Qed.

(** The two ends know each other's capabilities. *)
Definition linked (a b : Conn) : Prop := localCaps b = peerCaps a /\ peerCaps b = localCaps a.

Lemma linked_still_max a b : linked a b -> effectiveStillMax b = effectiveStillMax a.
Proof. intros [E1 E2]. unfold effectiveStillMax. rewrite E1, E2. apply smaller_cap_comm. Qed.

Lemma prepare_still_Ok dc limit data meta m : prepare_still dc limit data meta = Ok m ->
  ValidateStillMeta m limit = Ok tt /\ StillSize m = len data
  /\ (len (StillID meta) < 2 ^ 64 -> len (StillID m) < 2 ^ 64) /\ (0 <? len (StillID m)) = true.
Proof.
  unfold prepare_still. set (m1 := if bool_decide (StillCodec meta = x00) then _ else _).
  set (m2 := set_still_size (len data) m1). set (m3 := fill_dims dc data m2).
  intros Hp. apply bind_Ok in Hp as ([] & _ & Hp). destruct (limit <? len data); [done|].
  apply bind_Ok in Hp as ([] & Hv & Hp).
  assert (StillSize m3 = len data /\ StillID m3 = StillID meta) as [Hs Hi].
  { unfold m3, fill_dims, m2, m1. split; repeat case_match; done. }
  assert (len (contentHash data) = 8) as Hh.
  { unfold contentHash. apply len_ztake. unfold len. rewrite length_sha256. lia. }
  injection Hp as <-. destruct (bool_decide (StillID m3 = [])) eqn:E; bool_hyps; simpl.
  - split; [exact Hv|]. split; [done|]. rewrite Hh. split; [lia|done].
  - split; [done|]. split; [done|]. rewrite Hi in *. split; [done|].
    apply Z.ltb_lt. pose proof (len_nonneg (StillID meta)). rewrite <- len_0_nil in E. lia.
Qed.

Lemma ValidateStillMeta_Ok m limit : ValidateStillMeta m limit = Ok tt ->
  0 <= Width m <= MaxWidth /\ 0 <= Height m <= MaxHeight /\ StillSize m <= MaxStillBytes.
Proof.
  unfold ValidateStillMeta.
  destruct ((Width m <? 0) || (Height m <? 0) || (MaxWidth <? Width m) || (MaxHeight <? Height m)) eqn:E; [done|].
  cbv zeta. destruct (_ || (MaxStillBytes <? StillSize m)) eqn:F; [done|]. bool_hyps. repeat split; lia.
Qed.

Section delivery.
Context `{C : Cbor} `{!CborLaws C rnv_limits} `{!CborHead C} `{!CborSize C} `{MapOrder}.
Context (send_ok : nat -> bool) (Hlink : forall i, send_ok i = true).

Lemma sendable_typed typ body : between 0 typ max_u64 = true -> body_ok body -> sendable (NewTyped typ (Some body)).
Proof. intros Ht Hb. split; [done|]. split; [done|]. split; [done|]. reflexivity. Qed.

(** A packed envelope is dispatched by whoever gets it. *)
Lemma onPacket_Pack cfg n now e raw c : sendable e -> (Pack (Some e)).1 = Ok raw ->
  onPacket send_ok cfg n now raw c = dispatch send_ok cfg (delivered e) c.
Proof.
  intros He Hp. pose proof (Unpack_Pack e He) as Hu. rewrite Hp in Hu. destruct Hu as [Hu _].
  unfold onPacket. rewrite Hu. enough (IsMediaFrame raw = false) as -> by done.
  destruct He as (Hv & _). unfold Pack in Hp. rewrite Hv in Hp. change (ProtocolVersion =? 0) with false in Hp.
  cbv iota in Hp. rewrite Hv, Z.eqb_refl in Hp. simpl negb in Hp. cbv iota in Hp.
  destruct (cbor_Marshal _) as [bs|] eqn:Hm; [|done]. simpl in Hp. destruct (_ <? _); [done|]. injection Hp as <-.
  apply cbor_map_head in Hm as (b & r & -> & Hb). simpl.
  destruct (decide (b = MagicVideo)) as [-> |]; [done|]. destruct (decide (b = MagicAudio)) as [-> |]; [done|].
  by rewrite !bool_decide_eq_false_2.
Qed.

Lemma sendRaw_up raw c : closed c = false -> lnk_up (world c) = true ->
  sendRaw send_ok raw c = (log_send [raw] c, Ok tt).
Proof. intros Hc Hu. unfold sendRaw. by rewrite Hc, Hu, Hlink. Qed.

Lemma sendEnvelope_up e raw c : closed c = false -> lnk_up (world c) = true -> (Pack (Some e)).1 = Ok raw ->
  sendEnvelope send_ok e c = (log_send [raw] c, Ok tt).
Proof. intros Hc Hu Hp. unfold sendEnvelope. rewrite Hp. by apply sendRaw_up. Qed.

Definition inline_still (data : bytes) (m : StillMeta) : Envelope :=
  NewTyped TypeStill (Some (StillToBody (set_still_transfer TransferPacket data m))).
Definition resource_still (m : StillMeta) : Envelope :=
  NewTyped TypeStill (Some (StillToBody (set_still_transfer TransferResource [] m))).

(** A still handed to a session that may send it now. *)
Record still_ready (cfg : Config) (dc : bytes -> option (Z * Z)) (now : Z) (data : bytes) (meta m : StillMeta)
    (a : Conn) : Prop := {
  sr_handshaken : handshaken a = true;
  sr_open : closed a = false;
  sr_up : lnk_up (world a) = true;
  sr_rate : (rateStillOK cfg now a).2 = true;
  sr_prepared : prepare_still dc (effectiveStillMax a) data meta = Ok m;
  sr_id : len (StillID meta) < 2 ^ 64;
}.

Lemma still_ready_wf cfg dc now data meta m a : still_ready cfg dc now data meta m a ->
  wf_still (set_still_transfer TransferPacket data m) /\ wf_still (set_still_transfer TransferResource [] m)
  /\ len data <= MaxStillBytes.
Proof.
  intros [_ _ _ _ Hp Hi]. apply prepare_still_Ok in Hp as (Hv & Hs & Hid & _).
  apply ValidateStillMeta_Ok in Hv as (Hw & Hh & Hz). specialize (Hid Hi). rewrite Hs in Hz.
  pose proof (len_nonneg data). unfold MaxStillBytes, MaxWidth, MaxHeight in *.
  unfold wf_still, is_int, is_u64. simpl. rewrite Hs. unfold between, max_u64, TransferPacket, TransferResource.
  change (len (@nil byte)) with 0. repeat split; lia.
Qed.

Lemma SendStill_ready cfg dc tr now data meta m a : still_ready cfg dc now data meta m a ->
  SendStill send_ok cfg dc tr now data meta a = send_prepared send_ok tr data m (rateStillOK cfg now a).1
  /\ closed (rateStillOK cfg now a).1 = false /\ world (rateStillOK cfg now a).1 = world a.
Proof.
  intros [Hh Hc Hu Hr Hp _]. unfold SendStill, requireHandshake. rewrite Hh.
  unfold rateStillOK in *. destruct (rate_window _ _ _) as [ts ok]. simpl in *. subst ok.
  change (effectiveStillMax (set_times ts (clipTimes a) a)) with (effectiveStillMax a). by rewrite Hp.
Qed.

(** C33: a still whose inline envelope fits a packet arrives: the sender puts
    exactly that packet on the link and reports success, and the peer's
    handler gets the same data with the metadata (size, codec, dimensions and
    content hash filled in by the sender). *)
Theorem rnv_still_delivery cfg cfgb dc tr now data meta m a b raw n t :
  still_ready cfg dc now data meta m a -> linked a b -> data <> [] ->
  (Pack (Some (inline_still data m))).1 = Ok raw -> len raw <= LinkPacketSoftMax ->
  (SendStill send_ok cfg dc tr now data meta a).2 = Ok tt
  /\ sent (world (SendStill send_ok cfg dc tr now data meta a).1) = sent (world a) ++ [raw]
  /\ onPacket send_ok cfgb n t raw b
     = fire (OnStill (ConfHandlers cfgb)) (EvStill (set_still_transfer TransferPacket [] m) data) b.
Proof.
  intros Hr Hl Hd Hp Hs. destruct (SendStill_ready cfg dc tr now data meta m a Hr) as (-> & Hc & Hw).
  destruct (still_ready_wf _ _ _ _ _ _ _ Hr) as (Hwf & _ & _). destruct Hr as [_ _ Hu _ Hprep _].
  apply prepare_still_Ok in Hprep as (Hv & _). rewrite <- (linked_still_max a b Hl) in Hv.
  unfold send_prepared. unfold inline_still in Hp. rewrite Hp, (proj2 (Z.leb_le _ _)) by done.
  rewrite sendRaw_up by (by rewrite ?Hw). simpl. rewrite Hw. split; [done|]. split; [done|].
  rewrite (onPacket_Pack _ _ _ _ _ _ (sendable_typed TypeStill _ eq_refl (StillToBody_ok _ Hwf)) Hp).
  unfold dispatch. cbn -[StillMetaFromBody StillToBody wire_map set_still_transfer handleStillMeta].
  rewrite StillMetaFromBody_wire by done. unfold handleStillMeta. simpl.
  replace (ValidateStillMeta _ _) with (@Ok rnv_sentinel _ tt) by (rewrite <- Hv; by destruct m).
  assert (0 <? len data = true) as ->; [|done]. apply Z.ltb_lt. pose proof (len_nonneg data).
  rewrite <- len_0_nil in Hd. lia.
Qed.

Lemma inline_still_weight data m : len data <= weight (AMapU (envelope_map (inline_still data m))).
Proof.
  change (envelope_map (inline_still data m)) with
    [(FieldVersion, AU64 ProtocolVersion); (FieldType, AU64 TypeStill);
     (FieldBody, AMapU (StillToBody (set_still_transfer TransferPacket data m)))].
  unfold StillToBody, put_when, nonempty. simpl. pose proof (len_nonneg (StillID m)).
  destruct (bool_decide (data = [])) eqn:E; bool_hyps; subst; simpl; destruct (negb _); simpl;
    change (len (@nil byte)) with 0; lia.
Qed.

(** Bytes that are no packet of the protocol, such as a JPEG image. *)
Definition no_packet (data : bytes) : Prop :=
  IsMediaFrame data = false /\ exists e, UnpackEnvelope data = Err e.

(** The stills that do not fit a packet inline but are not larger than an
    envelope or a packet either fall through: a still of more than 4096 bytes,
    although within the negotiated limit, is refused with the envelope's size
    error before any transfer is tried; and one whose data fits a packet while
    its envelope does not is announced as a resource but its data is sent as a
    bare packet, which the peer drops, although the call reports success. *)
Theorem rnv_still_gaps cfg cfgb dc tr now data meta m a b n t :
  still_ready cfg dc now data meta m a -> linked a b ->
  (MaxEnvelopeBytes < len data ->
     (SendStill send_ok cfg dc tr now data meta a).2 = Err (EPack EnvelopeTooLarge)
     /\ sent (world (SendStill send_ok cfg dc tr now data meta a).1) = sent (world a))
  /\ (forall raw announce, (Pack (Some (inline_still data m))).1 = Ok raw -> LinkPacketSoftMax < len raw ->
     len data <= LinkPacketSoftMax -> no_packet data -> (Pack (Some (resource_still m))).1 = Ok announce ->
     (SendStill send_ok cfg dc tr now data meta a).2 = Ok tt
     /\ sent (world (SendStill send_ok cfg dc tr now data meta a).1) = sent (world a) ++ [announce; data]
     /\ onPacket send_ok cfgb n t data (onPacket send_ok cfgb n t announce b)
        = set_pending_still (StillID m) b).
Proof.
  intros Hr Hl. destruct (SendStill_ready cfg dc tr now data meta m a Hr) as (-> & Hc & Hw).
  destruct (still_ready_wf _ _ _ _ _ _ _ Hr) as (Hwf & Hwf' & _). destruct Hr as [_ _ Hu _ Hprep _].
  apply prepare_still_Ok in Hprep as (Hv & _). rewrite <- (linked_still_max a b Hl) in Hv.
  unfold send_prepared. fold (inline_still data m) (resource_still m). split.
  - intros Hbig. pose proof (sendable_typed TypeStill _ eq_refl (StillToBody_ok _ Hwf)) as Hs.
    pose proof (Unpack_Pack _ Hs) as Hp. fold (inline_still data m) in Hp.
    destruct (Pack (Some (inline_still data m))).1 as [raw|e] eqn:E; [|subst e; simpl; by rewrite Hw].
    exfalso. destruct Hp as [_ Hlen]. unfold Pack in E. simpl in E.
    destruct (cbor_Marshal _) as [bs|] eqn:Hm; [|done]. simpl in E. destruct (_ <? len bs); [done|].
    injection E as ->. apply cbor_size in Hm. pose proof (inline_still_weight data m) as Hweight.
    change (weight (AMapU (envelope_map (inline_still data m))) <= len raw) in Hm.
    lia.
  - intros raw announce Hp Hbig Hsmall [Hmf [e Hue]] Hann. rewrite Hp, (proj2 (Z.leb_gt _ _)) by done.
    rewrite (sendEnvelope_up _ announce) by (by rewrite ?Hw). unfold sendPayload.
    rewrite (proj2 (Z.leb_le _ _)) by done. rewrite sendRaw_up by (simpl; by rewrite ?Hw). simpl. rewrite Hw.
    rewrite <- app_assoc. split; [done|]. split; [done|].
    rewrite (onPacket_Pack _ _ _ _ announce _ (sendable_typed TypeStill _ eq_refl (StillToBody_ok _ Hwf')) Hann).
    unfold dispatch. cbn -[StillMetaFromBody StillToBody wire_map set_still_transfer handleStillMeta onPacket].
    rewrite StillMetaFromBody_wire by done. unfold handleStillMeta. cbn -[onPacket].
    replace (ValidateStillMeta _ _) with (@Ok rnv_sentinel _ tt) by (rewrite <- Hv; by destruct m).
    unfold onPacket. by rewrite Hmf, Hue.
Qed.

(** ** Stream negotiation *)

Lemma offer_read_idemp o : offer_read (offer_read o) = offer_read o.
Proof.
  destruct o as [p tr v au fps]. unfold offer_read. simpl. rewrite Z.max_assoc, Z.max_id.
  destruct (nonzero v) eqn:E, (nonzero au) eqn:F; rewrite ?E, ?F; done.
Qed.

Lemma GuardStreamOffer_read a b o : ~ low_default_audio a b o ->
  GuardStreamOffer a b o = Ok tt -> GuardStreamOffer b a (offer_read o) = Ok tt.
Proof.
  intros Hl. unfold GuardStreamOffer, EffectiveProfile. simpl.
  assert (MinProfile (Preferred b) (Preferred a) = MinProfile (Preferred a) (Preferred b)) as ->.
  { unfold MinProfile. repeat case_match; bool_hyps; lia. }
  rewrite (ValidateStreamOffer_read a b o Hl).
  destruct (bool_decide _); [done|]. destruct (_ && (_ || _)); [done|].
  destruct (_ && negb (AllowVideo _)); [done|]. by destruct (_ && negb (AllowAudio _)).
Qed.

Lemma sendEnvelope_Ok e c d : sendEnvelope send_ok e c = (d, Ok tt) ->
  exists raw, (Pack (Some e)).1 = Ok raw /\ d = log_send [raw] c.
Proof.
  unfold sendEnvelope, sendRaw. destruct (Pack (Some e)).1 as [raw|]; [|done].
  destruct (_ || _); [done|]. rewrite Hlink. intros [= <-]. eauto.
Qed.

(** The stream [id] of a session, open on [o]. *)
Definition streaming (c : Conn) (id : nat) (o : StreamOffer) : Prop :=
  stream c = Some id /\ exists s, streams c !! id = Some s /\ s_offer s = o /\ s_closed s = false.

(** C23: an offer that passes [OpenStream] is accepted by a peer that knows the
    sender's capabilities: the peer opens a stream on the offer as read and
    answers ACCEPT, and when that arrives the waiting call returns its stream,
    on the same offer.  (Audio at the Low profile must name its codec, see
    [rnv_offer_over_wire].) *)
Theorem rnv_stream_negotiation cfg cfgb o a a1 id b n t accept : let o' := offer_defaults o in
  OpenStream send_ok cfg o a = (a1, Ok id) -> linked a b ->
  closed b = false -> lnk_up (world b) = true ->
  is_int (OfferProfile o') -> is_int (MaxFPS o') -> ~ low_default_audio (localCaps a) (peerCaps a) o' ->
  ensureActiveLXSTGuard cfgb (OfferTracks o') b = Ok tt ->
  (Pack (Some (NewTyped TypeStreamAccept (Some (OfferToBody (offer_read o')))))).1 = Ok accept ->
  exists offer a3, sent (world a1) = sent (world a) ++ [offer]
    /\ sent (world (onPacket send_ok cfgb n t offer b)) = sent (world b) ++ [accept]
    /\ streaming (onPacket send_ok cfgb n t offer b) (fresh b) (offer_read o')
    /\ open_finish id OsAccept (onPacket send_ok cfg n t accept a1) = Some (a3, Ok id)
    /\ streaming a3 id (offer_read o').
Proof.
  intros o' Ho [Hl1 Hl2] Hc Hu Hp Hf Hn Hx Hacc. apply OpenStream_Ok in Ho as (_ & _ & Hg & -> & Hs). fold o' in Hg, Hs. clearbody o'.
  apply sendEnvelope_Ok in Hs as (offer & Hoff & ->). apply GuardStreamOffer_read in Hg; [|done].
  set (a1 := log_send [offer] _).
  assert (forall typ o, between 0 typ max_u64 = true -> sendable (NewTyped typ (Some (OfferToBody o)))) as Hsend
    by (intros; by apply sendable_typed, OfferToBody_ok).
  assert (is_int (OfferProfile (offer_read o')) /\ is_int (MaxFPS (offer_read o'))) as [Hp2 Hf2]
    by (split; [done|unfold is_int in *; simpl; lia]).
  (* the peer *)
  assert (onPacket send_ok cfgb n t offer b = handleStreamOffer send_ok cfgb (offer_read o') b) as Hb.
  { rewrite (onPacket_Pack _ _ _ _ _ _ (Hsend TypeStreamOffer o' eq_refl) Hoff). unfold dispatch.
    cbn -[StreamOfferFromBody OfferToBody wire_map handleStreamOffer].
    by rewrite StreamOfferFromBody_wire by done. }
  assert (onPacket send_ok cfg n t accept a1 = handleStreamAccept (offer_read o') a1) as Ha.
  { rewrite (onPacket_Pack _ _ _ _ _ _ (Hsend TypeStreamAccept (offer_read o') eq_refl) Hacc). unfold dispatch.
    cbn -[StreamOfferFromBody OfferToBody wire_map handleStreamAccept].
    by rewrite StreamOfferFromBody_wire, offer_read_idemp by done. }
  unfold handleStreamOffer in Hb. rewrite Hl1, Hl2, Hg in Hb.
  change (OfferTracks (offer_read o')) with (OfferTracks o') in Hb. rewrite Hx in Hb. cbv zeta in Hb.
  rewrite (sendEnvelope_up _ accept) in Hb by done.
  unfold handleStreamAccept, on_stream in Ha. simpl in Ha. rewrite lookup_insert_eq in Ha. simpl in Ha.
  eexists offer, _. rewrite Hb, Ha. unfold open_finish. simpl. rewrite lookup_insert_eq.
  split; [done|]. unfold fire, streaming.
  split; [by destruct (OnStream _)|]. split; [|split; [done|]].
  - destruct (OnStream _); simpl; rewrite lookup_insert_eq; (split; [done|]); eexists; by repeat split.
  - simpl. rewrite lookup_insert_eq. split; [done|]. eexists. by repeat split.
Qed.
End delivery.

(** ** Witnesses *)

#[local] Instance demo_order : MapOrder := { shuffle := fun _ l => l; shuffle_perm := fun _ l => Permutation_refl l }.

Definition all_handlers : Handlers := mkHandlers true true true true true true true true true true.

Definition demo_cfg : Config :=
  mkConfig DefaultCaps second second second second false false false (mkLim 0 0) 30 6 None all_handlers None.

(** A session after the HELLO exchange. *)
Definition demo_conn : Conn := set_hello DefaultCaps (newConn demo_cfg (replicate 16 x01) true).

Definition always (n : nat) : bool := true.
Definition no_dims (b : bytes) : option (Z * Z) := None.

Lemma rnv_close_sends_no_bye_witness :
  sent (world (@Close ref_cbor always demo_conn)) = [] /\ closed (@Close ref_cbor always demo_conn) = true.
Proof.
  destruct (@rnv_close_sends_no_bye ref_cbor _ always demo_cfg demo_conn (@Close ref_cbor always demo_conn)
    eq_refl (reaches_refl _ _ _)) as (H1 & _ & H3). split; [exact H3|exact H1].
Defined.

Definition demo_offer : StreamOffer := mkOffer ProfileHigh both_tracks CodecJPEG CodecOpus 5.

Lemma rnv_crossing_offers_witness :
  let a1 := (@OpenStream ref_cbor always demo_cfg demo_offer demo_conn).1 in
  open_finish 0 OsAccept (@handleStreamOffer ref_cbor always demo_cfg demo_offer a1) = None.
Proof.
  destruct (@OpenStream ref_cbor always demo_cfg demo_offer demo_conn) as [a1 r] eqn:E. cbv zeta.
  assert (r = Ok 0%nat) as -> by (vm_compute in E; injection E as _ <-; reflexivity).
  eapply (@rnv_crossing_offers ref_cbor _ always demo_cfg demo_offer demo_conn a1 0 demo_offer).
  - exact E.
  - vm_compute in E. injection E as <-. reflexivity.
  - vm_compute in E. injection E as <-. reflexivity.
  - apply reaches_refl.
Defined.

Lemma rnv_stream_negotiation_witness : exists offer a3,
  sent (world (@OpenStream ref_cbor always demo_cfg demo_offer demo_conn).1) = [offer]
  /\ streaming (@onPacket ref_cbor _ always demo_cfg 0 0 offer demo_conn) 0 demo_offer
  /\ streaming a3 0 demo_offer.
Proof.
  destruct (@OpenStream ref_cbor always demo_cfg demo_offer demo_conn) as [a1 r] eqn:E.
  assert (r = Ok 0%nat) as -> by (vm_compute in E; injection E as _ <-; reflexivity).
  destruct (@Pack ref_cbor (Some (NewTyped TypeStreamAccept (Some (OfferToBody demo_offer))))).1 as [accept|] eqn:Ea;
    [|vm_compute in Ea; discriminate].
  destruct (@rnv_stream_negotiation ref_cbor rnv_ref_laws ref_cbor_head _ always (fun _ => eq_refl)
    demo_cfg demo_cfg demo_offer demo_conn a1 0 demo_conn 0 0 accept) as (offer & a3 & H1 & _ & H3 & _ & H5).
  - exact E.
  - split; reflexivity.
  - reflexivity.
  - reflexivity.
  - unfold is_int. simpl. unfold ProfileHigh. lia.
  - unfold is_int. simpl. lia.
  - intros (_ & H & _). discriminate.
  - reflexivity.
  - exact Ea.
  - exists offer, a3. split; [exact H1|]. split; [exact H3|exact H5].
Defined.

Definition demo_meta : StillMeta := mkStill 320 240 x00 0 0 [x05] [].
Definition demo_prepared (n : Z) : StillMeta := mkStill 320 240 CodecJPEG n 0 [x05] [].

Lemma demo_ready data : prepare_still no_dims 262144 data demo_meta = Ok (demo_prepared (len data)) ->
  still_ready demo_cfg no_dims 0 data demo_meta (demo_prepared (len data)) demo_conn.
Proof. intros H. split; try reflexivity. exact H. Qed.

Lemma rnv_still_delivery_witness :
  let data := replicate 5 xff in
  (@SendStill ref_cbor always demo_cfg no_dims TrTimeout 0 data demo_meta demo_conn).2 = Ok tt
  /\ match sent (world (@SendStill ref_cbor always demo_cfg no_dims TrTimeout 0 data demo_meta demo_conn).1) with
     | [raw] => events (world (@onPacket ref_cbor _ always demo_cfg 0 0 raw demo_conn))
                = [EvStill (demo_prepared 5) data]
     | _ => False
     end.
Proof.
  intros data.
  destruct (@Pack ref_cbor (Some (inline_still data (demo_prepared 5)))).1 as [raw|] eqn:Ep;
    [|vm_compute in Ep; discriminate].
  destruct (@rnv_still_delivery ref_cbor rnv_ref_laws ref_cbor_head _ always (fun _ => eq_refl)
    demo_cfg demo_cfg no_dims TrTimeout 0 data demo_meta (demo_prepared 5) demo_conn demo_conn raw 0 0) as (H1 & H2 & H3).
  - apply demo_ready. reflexivity.
  - split; reflexivity.
  - discriminate.
  - exact Ep.
  - vm_compute in Ep. injection Ep as <-. apply Z.leb_le. reflexivity.
  - rewrite H1, H2. split; [reflexivity|]. change (sent (world demo_conn) ++ [raw]) with [raw]. cbv beta iota.
    rewrite H3. reflexivity.
Defined.

(** A still of 5000 bytes is refused; one of 390 bytes is reported as sent and
    never reaches the handler. *)
Lemma rnv_still_gaps_witness :
  (@SendStill ref_cbor always demo_cfg no_dims TrTimeout 0 (replicate 5000 xff) demo_meta demo_conn).2
  = Err (EPack EnvelopeTooLarge)
  /\ (@SendStill ref_cbor always demo_cfg no_dims TrTimeout 0 (replicate 390 xff) demo_meta demo_conn).2 = Ok tt
  /\ match sent (world (@SendStill ref_cbor always demo_cfg no_dims TrTimeout 0 (replicate 390 xff) demo_meta demo_conn).1) with
     | [announce; data] =>
         events (world (@onPacket ref_cbor _ always demo_cfg 0 0 data
                          (@onPacket ref_cbor _ always demo_cfg 0 0 announce demo_conn))) = []
     | _ => False
     end.
Proof.
  split.
  - apply (@rnv_still_gaps ref_cbor rnv_ref_laws ref_cbor_head ref_cbor_size _ always (fun _ => eq_refl)
      demo_cfg demo_cfg no_dims TrTimeout 0 (replicate 5000 xff) demo_meta (demo_prepared 5000) demo_conn demo_conn 0 0).
    + apply (demo_ready (replicate 5000 xff)). vm_compute. reflexivity.
    + split; reflexivity.
    + apply Z.ltb_lt. vm_compute. reflexivity.
  - destruct (@Pack ref_cbor (Some (inline_still (replicate 390 xff) (demo_prepared 390)))).1 as [raw|] eqn:Ep;
      [|vm_compute in Ep; discriminate].
    destruct (@Pack ref_cbor (Some (resource_still (demo_prepared 390)))).1 as [announce|] eqn:Ea;
      [|vm_compute in Ea; discriminate].
    destruct (@rnv_still_gaps ref_cbor rnv_ref_laws ref_cbor_head ref_cbor_size _ always (fun _ => eq_refl)
      demo_cfg demo_cfg no_dims TrTimeout 0 (replicate 390 xff) demo_meta (demo_prepared 390) demo_conn demo_conn 0 0)
      as [_ Hgap].
    + apply (demo_ready (replicate 390 xff)). vm_compute. reflexivity.
    + split; reflexivity.
    + destruct (Hgap raw announce Ep) as (H1 & H2 & H3).
      * vm_compute in Ep. injection Ep as <-. apply Z.ltb_lt. reflexivity.
      * apply Z.leb_le. vm_compute. reflexivity.
      * split; [reflexivity|]. exists CborError. vm_compute. reflexivity.
      * exact Ea.
      * rewrite H1, H2. split; [reflexivity|]. change (sent (world demo_conn) ++ [announce; replicate 390 xff])
          with [announce; replicate 390 xff]. cbv beta iota. rewrite H3. reflexivity.
Defined.

(** ** Configuration *)

(** Fields of a configuration whose Go types are unsigned. *)
Definition wf_config (f : Config) : Prop :=
  0 <= MaxStill (ConfCaps f) /\ 0 <= MaxClip (ConfCaps f)
  /\ 0 <= LimStillBytes (CustomLimits f) /\ 0 <= LimClipBytes (CustomLimits f).

(** The limit advertised for an absolute [limit], a custom [n] and what the
    capabilities said. *)
Definition advertised (raise : bool) (limit n cap : Z) : Z :=
  guard_cap raise limit (if 0 <? n then guard_custom raise limit n else cap).

Lemma advertised_range raise limit n cap : 0 < limit -> 0 <= n -> 0 <= cap ->
  0 < advertised raise limit n cap
  /\ (raise = false -> advertised raise limit n cap <= limit
      /\ (0 < n -> advertised raise limit n cap = Z.min limit n)).
Proof.
  intros Hl Hn Hc. unfold advertised, guard_cap, guard_custom.
  destruct raise; simpl; rewrite ?andb_false_r, ?andb_true_r, ?orb_false_r; repeat case_match; bool_hyps;
    rewrite ?orb_true_iff, ?orb_false_iff in *; (split; [lia|]); intros; (done || (split; lia)).
Qed.

Lemma applyLimitGuards_caps f :
  MaxStill (ConfCaps (applyLimitGuards f))
    = advertised (DangerousRaiseLimits f) MaxStillBytes (LimStillBytes (CustomLimits f)) (MaxStill (ConfCaps f))
  /\ MaxClip (ConfCaps (applyLimitGuards f))
    = advertised (DangerousRaiseLimits f) MaxClipBytes (LimClipBytes (CustomLimits f)) (MaxClip (ConfCaps f)).
Proof.
  unfold applyLimitGuards, advertised. destruct (0 <? LimStillBytes (CustomLimits f)) eqn:E1; simpl;
    destruct (0 <? LimClipBytes (CustomLimits f)) eqn:E2; done.
Qed.

(** Whatever the application configures, an endpoint's timeouts and rate
    limits are positive and its advertised limits are not zero; without
    [DangerousRaiseLimits] they are within the package's absolute limits, and a
    custom limit, cut to the absolute one, is what is advertised. *)
Theorem rnv_config_guards f : wf_config f ->
  let g := withDefaults f in
  0 < DialTimeout g /\ 0 < HelloTimeout g /\ 0 < StillTimeout g /\ 0 < ClipTimeout g
  /\ 0 < MaxStillsPerMinute g /\ 0 < MaxClipsPerMinute g /\ Registry g <> None
  /\ 0 < MaxStill (ConfCaps g) /\ 0 < MaxClip (ConfCaps g)
  /\ (DangerousRaiseLimits f = false ->
      MaxStill (ConfCaps g) <= MaxStillBytes /\ MaxClip (ConfCaps g) <= MaxClipBytes
      /\ (0 < LimStillBytes (CustomLimits f) ->
          MaxStill (ConfCaps g) = Z.min MaxStillBytes (LimStillBytes (CustomLimits f)))
      /\ (0 < LimClipBytes (CustomLimits f) ->
          MaxClip (ConfCaps g) = Z.min MaxClipBytes (LimClipBytes (CustomLimits f)))).
Proof.
  intros (H1 & H2 & H3 & H4). cbv zeta.
  assert (forall n d, 0 < d -> 0 < or_default n d) as Hd.
  { intros n d Hn. unfold or_default. destruct (n <=? 0) eqn:E; bool_hyps; lia. }
  assert (forall f, DialTimeout (applyLimitGuards f) = DialTimeout f /\ HelloTimeout (applyLimitGuards f) = HelloTimeout f
    /\ StillTimeout (applyLimitGuards f) = StillTimeout f /\ ClipTimeout (applyLimitGuards f) = ClipTimeout f
    /\ MaxStillsPerMinute (applyLimitGuards f) = MaxStillsPerMinute f
    /\ MaxClipsPerMinute (applyLimitGuards f) = MaxClipsPerMinute f /\ Registry (applyLimitGuards f) = Registry f) as Hk.
  { intros h. unfold applyLimitGuards. destruct (0 <? LimStillBytes (CustomLimits h)); simpl;
      destruct (0 <? LimClipBytes (CustomLimits h)); done. }
  unfold withDefaults. set (caps := set_strict _ _).
  assert (0 <= MaxStill caps /\ 0 <= MaxClip caps) as [Hs Hc].
  { unfold caps. simpl. destruct (_ && _); simpl; [|done]. unfold MaxStillBytes, MaxClipBytes. lia. }
  clearbody caps. cbv zeta. set (h := mkConfig _ _ _ _ _ _ _ _ _ _ _ _ _ _).
  destruct (Hk h) as (-> & -> & -> & -> & -> & -> & ->). destruct (applyLimitGuards_caps h) as [-> ->]. unfold h. simpl.
  do 6 (split; [apply Hd; reflexivity|]). split; [by destruct (Registry f)|].
  destruct (advertised_range (DangerousRaiseLimits f) MaxStillBytes (LimStillBytes (CustomLimits f)) (MaxStill caps)
    eq_refl H3 Hs) as [A1 A2].
  destruct (advertised_range (DangerousRaiseLimits f) MaxClipBytes (LimClipBytes (CustomLimits f)) (MaxClip caps)
    eq_refl H4 Hc) as [B1 B2].
  split; [done|]. split; [done|]. intros Hr. destruct (A2 Hr), (B2 Hr). done.
Qed.

Lemma rnv_config_guards_witness :
  MaxStill (ConfCaps (withDefaults (mkConfig zero_caps 0 0 0 0 false false false (mkLim (2 ^ 40) 1000) 0 0 None
    no_handlers None))) = MaxStillBytes.
Proof.
  apply (rnv_config_guards (mkConfig zero_caps 0 0 0 0 false false false (mkLim (2 ^ 40) 1000) 0 0 None
    no_handlers None)).
  - unfold wf_config. simpl. lia.
  - reflexivity.
  - reflexivity.
Defined.
