(* ===== verification/Msgpack.v ===== *)
(** * MessagePack ([vendor/.../msgpack], the parts the protocols call)

    The decoder of the vendored library reads codes and lengths from a byte
    reader; a decoding step is a function from the unread input to a value and
    the rest ([None]: an error).  The reader of a [Unpack] call knows how many
    bytes remain, so announced lengths that do not fit are refused at once. *)

From stdpp Require Import base tactics list.
From Stdlib Require Import ZArith Lia.
From S2P Require Import Prelude.

Abbreviation parser A := (bytes -> option (A * bytes)).

(** ** Reading *)

Definition readCode : parser Z := fun bs => match bs with [] => None | c :: r => Some (bZ c, r) end.

Definition PeekCode (bs : bytes) : option Z := match bs with [] => None | c :: _ => Some (bZ c) end.

Definition readN (n : Z) : parser bytes :=
  fun bs => if len bs <? n then None else Some (ztake n bs, zdrop n bs).

(** An unsigned big-endian field of [n] bytes. *)
Definition read_uint (n : Z) : parser Z :=
  fun bs => match readN n bs with None => None | Some (b, r) => Some (be_get b, r) end.

Definition IsFixedNum (c : Z) : bool := (c <=? 0x7f) || (0xe0 <=? c).
Definition IsFixedMap (c : Z) : bool := (0x80 <=? c) && (c <=? 0x8f).
Definition IsFixedArray (c : Z) : bool := (0x90 <=? c) && (c <=? 0x9f).
Definition IsFixedString (c : Z) : bool := (0xa0 <=? c) && (c <=? 0xbf).
Definition IsFixedExt (c : Z) : bool := (0xd4 <=? c) && (c <=? 0xd8).
Definition IsExt (c : Z) : bool := IsFixedExt c || (c =? 0xc7) || (c =? 0xc8) || (c =? 0xc9).

(** [rejectOversizedContainer], [rejectOversizedBytes]. *)
Definition fitting (n per : Z) (r : bytes) : option (Z * bytes) :=
  if (0 <? n) && (len r / per <? n) then None else Some (n, r).

(** A length field of [w] bytes for elements of at least [per] bytes. *)
Definition read_len (w per : Z) : parser Z :=
  fun bs => match read_uint w bs with None => None | Some (n, r) => fitting n per r end.

(** ** Lengths *)

Definition mapLen (c : Z) : parser Z :=
  fun r =>
    if c =? 0xc0 then Some (-1, r)
    else if IsFixedMap c then fitting (Z.land c 0xf) 2 r
    else if c =? 0xde then read_len 2 2 r
    else if c =? 0xdf then read_len 4 2 r
    else None.

Definition arrayLen (c : Z) : parser Z :=
  fun r =>
    if c =? 0xc0 then Some (-1, r)
    else if IsFixedArray c then fitting (Z.land c 0xf) 1 r
    else if c =? 0xdc then read_len 2 1 r
    else if c =? 0xdd then read_len 4 1 r
    else None.

Definition bytesLen (c : Z) : parser Z :=
  fun r =>
    if c =? 0xc0 then Some (-1, r)
    else if IsFixedString c then fitting (Z.land c 0x1f) 1 r
    else if (c =? 0xd9) || (c =? 0xc4) then read_len 1 1 r
    else if (c =? 0xda) || (c =? 0xc5) then read_len 2 1 r
    else if (c =? 0xdb) || (c =? 0xc6) then read_len 4 1 r
    else None.

Definition parseExtLen (c : Z) : parser Z :=
  fun r =>
    if c =? 0xd4 then Some (1, r) else if c =? 0xd5 then Some (2, r)
    else if c =? 0xd6 then Some (4, r) else if c =? 0xd7 then Some (8, r)
    else if c =? 0xd8 then Some (16, r)
    else if c =? 0xc7 then read_len 1 1 r
    else if c =? 0xc8 then read_len 2 1 r
    else if c =? 0xc9 then read_len 4 1 r
    else None.

Definition extHeaderLen (c : Z) : Z := if c =? 0xc7 then 1 else if c =? 0xc8 then 2 else if c =? 0xc9 then 4 else 0.

(** Sequencing. *)
Definition andThen {A B} (p : parser A) (k : A -> parser B) : parser B :=
  fun bs => match p bs with None => None | Some (a, r) => k a r end.

Definition DecodeMapLen : parser Z :=
  andThen readCode (fun c =>
    if IsExt c then
      andThen readCode (fun _ => andThen (readN (extHeaderLen c)) (fun _ => andThen readCode mapLen))
    else mapLen c).

Definition DecodeArrayLen : parser Z := andThen readCode arrayLen.

(** A nil is a nil slice, read as the empty one. *)
Definition DecodeBytes : parser bytes :=
  andThen readCode (fun c => andThen (bytesLen c) (fun n r => if n =? -1 then Some ([], r) else readN n r)).

(** ** Integers *)

(** [int] on the integer codes. *)
Definition decode_int (c : Z) : parser Z :=
  fun r =>
    if c =? 0xc0 then Some (0, r)
    else if IsFixedNum c then Some (sint 8 c, r)
    else if c =? 0xcc then read_uint 1 r
    else if c =? 0xd0 then andThen (read_uint 1) (fun n r => Some (sint 8 n, r)) r
    else if c =? 0xcd then read_uint 2 r
    else if c =? 0xd1 then andThen (read_uint 2) (fun n r => Some (i16 n, r)) r
    else if c =? 0xce then read_uint 4 r
    else if c =? 0xd2 then andThen (read_uint 4) (fun n r => Some (i32 n, r)) r
    else if (c =? 0xcf) || (c =? 0xd3) then andThen (read_uint 8) (fun n r => Some (i64 n, r)) r
    else None.

Definition DecodeInt : parser Z := andThen readCode decode_int.

Definition is_int_code (c : Z) : bool :=
  IsFixedNum c || (c =? 0xd0) || (c =? 0xd1) || (c =? 0xd2) || (c =? 0xd3)
  || (c =? 0xcc) || (c =? 0xcd) || (c =? 0xce) || (c =? 0xcf).

(** ** Skipping a value *)

Fixpoint repeat_skip (n : nat) (f : bytes -> option bytes) (bs : bytes) : option bytes :=
  match n with
  | O => Some bs
  | S n => match f bs with None => None | Some r => repeat_skip n f r end
  end.

Definition skipN (n : Z) (bs : bytes) : option bytes :=
  match readN n bs with None => None | Some (_, r) => Some r end.

Definition skipBytes (c : Z) (bs : bytes) : option bytes :=
  match bytesLen c bs with None => None | Some (n, r) => if n <=? 0 then Some r else skipN n r end.

Definition skipExt (c : Z) (bs : bytes) : option bytes :=
  match parseExtLen c bs with
  | None => None
  | Some (n, r) => match skipN 1 r with None => None | Some r => skipN n r end
  end.

(** [depth] is what is left of the decoder's nesting limit. *)
Fixpoint Skip (depth : nat) (bs : bytes) : option bytes :=
  match depth with
  | O => None
  | S depth =>
      match readCode bs with
      | None => None
      | Some (c, r) =>
          let skipMap r := match mapLen c r with
                           | None => None
                           | Some (n, r) => repeat_skip (2 * Z.to_nat n) (Skip depth) r end in
          let skipSlice r := match arrayLen c r with
                             | None => None
                             | Some (n, r) => repeat_skip (Z.to_nat n) (Skip depth) r end in
          if IsFixedNum c then Some r
          else if IsFixedMap c then skipMap r
          else if IsFixedArray c then skipSlice r
          else if IsFixedString c then skipBytes c r
          else if (c =? 0xc0) || (c =? 0xc2) || (c =? 0xc3) then Some r
          else if (c =? 0xcc) || (c =? 0xd0) then skipN 1 r
          else if (c =? 0xcd) || (c =? 0xd1) then skipN 2 r
          else if (c =? 0xce) || (c =? 0xd2) || (c =? 0xca) then skipN 4 r
          else if (c =? 0xcf) || (c =? 0xd3) || (c =? 0xcb) then skipN 8 r
          else if (c =? 0xc4) || (c =? 0xc5) || (c =? 0xc6) || (c =? 0xd9) || (c =? 0xda) || (c =? 0xdb)
          then skipBytes c r
          else if (c =? 0xdc) || (c =? 0xdd) then skipSlice r
          else if (c =? 0xde) || (c =? 0xdf) then skipMap r
          else if IsExt c then skipExt c r
          else None
      end
  end.

(** ** Encoding *)

Definition EncodeUint (n : Z) : bytes :=
  if n <=? 127 then [Zb n]
  else if n <=? 255 then xcc :: be_put 1 n
  else if n <=? 65535 then xcd :: be_put 2 n
  else if n <=? 2 ^ 32 - 1 then xce :: be_put 4 n
  else xcf :: be_put 8 n.

(** Negative numbers are written in two's complement. *)
Definition EncodeInt (n : Z) : bytes :=
  if 0 <=? n then EncodeUint n
  else if -32 <=? n then [Zb n]
  else if - 2 ^ 7 <=? n then xd0 :: be_put 1 (u8 n)
  else if - 2 ^ 15 <=? n then xd1 :: be_put 2 (u16 n)
  else if - 2 ^ 31 <=? n then xd2 :: be_put 4 (u32 n)
  else xd3 :: be_put 8 (u64 n).

Definition EncodeMapLen (l : Z) : bytes :=
  if l <? 16 then [Zb (Z.lor 0x80 l)]
  else if l <=? 65535 then xde :: be_put 2 l else xdf :: be_put 4 l.

Definition EncodeArrayLen (l : Z) : bytes :=
  if l <? 16 then [Zb (Z.lor 0x90 l)]
  else if l <=? 65535 then xdc :: be_put 2 l else xdd :: be_put 4 l.

Definition EncodeBytesLen (l : Z) : bytes :=
  if l <? 256 then xc4 :: be_put 1 l
  else if l <=? 65535 then xc5 :: be_put 2 l else xc6 :: be_put 4 l.

Definition EncodeBytes (b : bytes) : bytes := EncodeBytesLen (len b) ++ b.

(** ** Round trips *)

Lemma readN_app n l r : n = len l -> readN n (l ++ r) = Some (l, r).
Proof.
  intros Hn. unfold readN. rewrite len_app.
  replace (len l + len r <? n) with false by (symmetry; apply Z.ltb_ge; pose proof (len_nonneg r); lia).
  by rewrite ztake_app, zdrop_app.
Qed.

Lemma readN_Some n bs l r : 0 <= n -> readN n bs = Some (l, r) -> bs = l ++ r /\ len l = n.
Proof.
  unfold readN. intros Hn. destruct (_ <? _) eqn:E; [done|]. bool_hyps. intros [= <- <-].
  rewrite ztake_zdrop. split; [done|]. by apply len_ztake.
Qed.

Lemma read_uint_put (k : nat) n z r :
  n = Z.of_nat k -> read_uint n (be_put k z ++ r) = Some (z mod 256 ^ n, r).
Proof.
  intros ->. unfold read_uint. rewrite readN_app; [by rewrite be_get_put|].
  unfold len. by rewrite length_be_put.
Qed.

Lemma read_uint_put_small (k : nat) n z r :
  n = Z.of_nat k -> 0 <= z < 256 ^ n -> read_uint n (be_put k z ++ r) = Some (z, r).
Proof. intros Hn Hz. rewrite (read_uint_put k) by done. by rewrite Z.mod_small. Qed.

Lemma fitting_ok n per r : 0 < per -> n * per <= len r -> fitting n per r = Some (n, r).
Proof.
  intros Hp Hl. unfold fitting.
  replace (len r / per <? n) with false by (symmetry; apply Z.ltb_ge, Z.div_le_lower_bound; lia).
  by rewrite andb_false_r.
Qed.

Lemma read_len_put (k : nat) w per z r :
  w = Z.of_nat k -> 0 <= z < 256 ^ w -> 0 < per -> z * per <= len r ->
  read_len w per (be_put k z ++ r) = Some (z, r).
Proof. intros. unfold read_len. rewrite (read_uint_put_small k) by done. by apply fitting_ok. Qed.

(** A signed field is read back from its two's complement. *)
Lemma sint_mod w m z : 0 < w -> m = 2 ^ w -> - 2 ^ (w - 1) <= z < 2 ^ (w - 1) -> sint w (z mod m) = z.
Proof.
  intros Hw -> Hz. unfold sint. cbv zeta. rewrite Zmod_mod.
  assert (2 ^ w = 2 * 2 ^ (w - 1)) as Hp by (rewrite <- Z.pow_succ_r by lia; f_equal; lia).
  destruct (Z_lt_ge_dec z 0).
  - rewrite <- (Z_mod_plus_full z 1 (2 ^ w)), Z.mod_small by lia.
    destruct (_ <? _) eqn:E; bool_hyps; lia.
  - rewrite Z.mod_small by lia. destruct (_ <? _) eqn:E; bool_hyps; lia.
Qed.

Lemma read_sint_put (k : nat) n w z r :
  n = Z.of_nat k -> w = 8 * n -> 0 < n -> - 2 ^ (w - 1) <= z < 2 ^ (w - 1) ->
  andThen (read_uint n) (fun n r => Some (sint w n, r)) (be_put k (z mod 2 ^ w) ++ r) = Some (z, r).
Proof.
  intros Hn -> Hn0 Hz. unfold andThen. rewrite (read_uint_put k) by done.
  assert (256 ^ n = 2 ^ (8 * n)) as -> by (rewrite Z.pow_mul_r by lia; done).
  rewrite Zmod_mod. by rewrite (sint_mod (8 * n) _ z) by (done || lia).
Qed.

Lemma DecodeInt_Uint n r : 0 <= n < 2 ^ 63 -> DecodeInt (EncodeUint n ++ r) = Some (n, r).
Proof.
  intros Hn. unfold EncodeUint. repeat case_match; bool_hyps;
    unfold DecodeInt, andThen at 1; cbn [readCode app].
  - rewrite bZ_Zb_small by lia. unfold decode_int, IsFixedNum.
    destruct (n =? 192) eqn:E; bool_hyps; [lia|].
    rewrite (proj2 (Z.leb_le n 0x7f)) by lia. cbn [orb].
    unfold sint. cbv zeta. rewrite Z.mod_small by lia. destruct (_ <? _) eqn:E2; bool_hyps; [done|lia].
  - apply (read_uint_put_small 1); lia.
  - apply (read_uint_put_small 2); lia.
  - apply (read_uint_put_small 4); lia.
  - change (decode_int (bZ xcf) (be_put 8 n ++ r))
      with (andThen (read_uint 8) (fun n r => Some (i64 n, r)) (be_put 8 n ++ r)).
    unfold andThen. rewrite (read_uint_put_small 8) by lia. by rewrite i64_small by lia.
Qed.

Lemma DecodeInt_Int n r : - 2 ^ 63 <= n < 2 ^ 63 -> DecodeInt (EncodeInt n ++ r) = Some (n, r).
Proof.
  intros Hn. unfold EncodeInt. case_match; bool_hyps; [apply DecodeInt_Uint; lia|].
  repeat case_match; bool_hyps; unfold DecodeInt, andThen at 1; cbn [readCode app].
  - rewrite bZ_Zb.
    assert (n mod 256 = n + 256) as -> by (rewrite <- (Z_mod_plus_full n 1 256), Z.mod_small by lia; lia).
    unfold decode_int, IsFixedNum. destruct (n + 256 =? 192) eqn:E; bool_hyps; [lia|].
    rewrite (proj2 (Z.leb_le 0xe0 (n + 256))) by lia. rewrite orb_true_r.
    unfold sint. cbv zeta. rewrite Z.mod_small by lia. destruct (_ <? _) eqn:E2; bool_hyps; [lia|].
    f_equal. f_equal. lia.
  - apply (read_sint_put 1 1 8); lia.
  - apply (read_sint_put 2 2 16); lia.
  - apply (read_sint_put 4 4 32); lia.
  - apply (read_sint_put 8 8 64); lia.
Qed.

(** The first byte of an encoded integer is one of the integer codes. *)
Lemma PeekCode_Int n r : - 2 ^ 63 <= n < 2 ^ 63 ->
  exists c, PeekCode (EncodeInt n ++ r) = Some c /\ is_int_code c = true.
Proof.
  intros Hn. unfold EncodeInt, EncodeUint. repeat case_match; bool_hyps; cbn [PeekCode app];
    eexists; (split; [done|]); try done.
  - rewrite bZ_Zb_small by lia. unfold is_int_code, IsFixedNum. by rewrite (proj2 (Z.leb_le n 0x7f)) by lia.
  - rewrite bZ_Zb.
    assert (n mod 256 = n + 256) as -> by (rewrite <- (Z_mod_plus_full n 1 256), Z.mod_small by lia; lia).
    unfold is_int_code, IsFixedNum. rewrite (proj2 (Z.leb_le 0xe0 (n + 256))) by lia. by rewrite orb_true_r.
Qed.

(** The short headers, one value of [l] at a time. *)
Ltac each_small l :=
  assert (l = 0 \/ l = 1 \/ l = 2 \/ l = 3 \/ l = 4 \/ l = 5 \/ l = 6 \/ l = 7 \/ l = 8 \/ l = 9
          \/ l = 10 \/ l = 11 \/ l = 12 \/ l = 13 \/ l = 14 \/ l = 15) as HL by lia;
  repeat (destruct HL as [->|HL]; [|]); try subst l.

Lemma DecodeArrayLen_enc l r : 0 <= l < 2 ^ 32 -> l <= len r ->
  DecodeArrayLen (EncodeArrayLen l ++ r) = Some (l, r).
Proof.
  intros Hl Hr. unfold EncodeArrayLen.
  repeat case_match; bool_hyps; unfold DecodeArrayLen, andThen; cbn [readCode app].
  - each_small l; apply fitting_ok; lia.
  - apply (read_len_put 2); lia.
  - apply (read_len_put 4); lia.
Qed.

Lemma DecodeMapLen_enc l r : 0 <= l < 2 ^ 32 -> l * 2 <= len r ->
  DecodeMapLen (EncodeMapLen l ++ r) = Some (l, r).
Proof.
  intros Hl Hr. unfold EncodeMapLen.
  repeat case_match; bool_hyps; unfold DecodeMapLen, andThen at 1; cbn [readCode app].
  - each_small l; match goal with |- _ = Some (?n, _) => apply (fitting_ok n 2); lia end.
  - apply (read_len_put 2); lia.
  - apply (read_len_put 4); lia.
Qed.

Lemma DecodeBytes_enc b r : len b < 2 ^ 32 -> DecodeBytes (EncodeBytes b ++ r) = Some (b, r).
Proof.
  intros Hb. pose proof (len_nonneg b). pose proof (len_nonneg r).
  unfold EncodeBytes, DecodeBytes. rewrite <- app_assoc.
  assert (forall c, PeekCode (EncodeBytesLen (len b)) = Some c ->
            bytesLen c (tail (EncodeBytesLen (len b)) ++ b ++ r) = Some (len b, b ++ r)) as Hlen.
  { intros c. unfold EncodeBytesLen. repeat case_match; bool_hyps; intros [= <-]; cbn [tail].
    - apply (read_len_put 1); try (autorewrite with rgp); lia.
    - apply (read_len_put 2); try (autorewrite with rgp); lia.
    - apply (read_len_put 4); try (autorewrite with rgp); lia. }
  destruct (EncodeBytesLen (len b)) as [|c t] eqn:E.
  { exfalso. revert E. unfold EncodeBytesLen. repeat case_match; done. }
  specialize (Hlen (bZ c) eq_refl). cbn [tail] in Hlen.
  unfold andThen. cbn [readCode app]. rewrite Hlen.
  destruct (len b =? -1) eqn:E2; bool_hyps; [lia|]. by apply readN_app.
Qed.

(** Skipping what a decoder that consumes nothing extra has read leaves the
    same rest: an encoded integer is one value for [Skip]. *)
Lemma Skip_Int d n r : - 2 ^ 63 <= n < 2 ^ 63 -> Skip (S d) (EncodeInt n ++ r) = Some r.
Proof.
  intros Hn. unfold EncodeInt, EncodeUint. repeat case_match; bool_hyps; cbn [Skip readCode app].
  1: { rewrite bZ_Zb_small by lia. unfold IsFixedNum. by rewrite (proj2 (Z.leb_le n 0x7f)) by lia. }
  5: { rewrite bZ_Zb.
    assert (n mod 256 = n + 256) as -> by (rewrite <- (Z_mod_plus_full n 1 256), Z.mod_small by lia; lia).
    unfold IsFixedNum. rewrite (proj2 (Z.leb_le 0xe0 (n + 256))) by lia. by rewrite orb_true_r. }
  all: cbv [IsFixedNum IsFixedMap IsFixedArray IsFixedString]; cbn -[be_put skipN];
    unfold skipN; rewrite readN_app; [done|]; unfold len; by rewrite length_be_put.
Qed.

(** ** Ranges *)

Lemma be_get_range l : 0 <= be_get l < 256 ^ len l.
Proof.
  induction l as [|b l IH] using rev_ind; [done|].
  rewrite be_get_snoc, len_app. change (len [b]) with 1.
  pose proof (bZ_range b). pose proof (len_nonneg l). rewrite Z.pow_add_r by lia. nia.
Qed.

Lemma read_uint_range n bs z r : 0 <= n -> read_uint n bs = Some (z, r) -> 0 <= z < 256 ^ n.
Proof.
  intros Hn. unfold read_uint. destruct (readN n bs) as [[b r']|] eqn:E; [|done]. intros [= <- <-].
  apply readN_Some in E as [_ <-]; [|done]. apply be_get_range.
Qed.

Lemma sint_range w z : 0 < w -> - 2 ^ (w - 1) <= sint w z < 2 ^ (w - 1).
Proof.
  intros Hw. unfold sint. cbv zeta. pose proof (Z.mod_pos_bound z (2 ^ w) ltac:(lia)).
  assert (2 ^ w = 2 * 2 ^ (w - 1)) by (rewrite <- Z.pow_succ_r by lia; f_equal; lia).
  destruct (_ <? _) eqn:E; bool_hyps; lia.
Qed.

Lemma read_sint_range w k bs z r : 0 < w <= 64 ->
  andThen (read_uint k) (fun n r => Some (sint w n, r)) bs = Some (z, r) -> - 2 ^ 63 <= z < 2 ^ 63.
Proof.
  intros Hw. unfold andThen. destruct (read_uint k bs) as [[n r']|]; [|done]. intros [= <- <-].
  pose proof (sint_range w n ltac:(lia)). pose proof (Z.pow_le_mono_r 2 (w - 1) 63 ltac:(lia) ltac:(lia)). lia.
Qed.

(** Every integer the decoder returns is an [int64]. *)
Lemma DecodeInt_range bs n r : DecodeInt bs = Some (n, r) -> - 2 ^ 63 <= n < 2 ^ 63.
Proof.
  unfold DecodeInt, andThen at 1. destruct (readCode bs) as [[c t]|]; [|done]. unfold decode_int.
  repeat (match goal with |- context [if ?b then _ else _] => destruct b end);
    intros H; try done;
    try (apply (read_sint_range 8) in H; [exact H|lia]);
    try (apply (read_sint_range 16) in H; [exact H|lia]);
    try (apply (read_sint_range 32) in H; [exact H|lia]);
    try (apply (read_sint_range 64) in H; [exact H|lia]);
    try (apply read_uint_range in H; lia).
  - simplify_eq. lia.
  - simplify_eq. pose proof (sint_range 8 c ltac:(lia)). lia.
Qed.
