(* ===== verification/LxstProto.v ===== *)
(** * LXST wire protocol ([pkg/lxst/proto])

    Telephony packets: a MessagePack map with a list of signals, a list of
    media frames, or both ([packet.go]); signals and media profiles
    ([constants.go], [profiles.go], [names.go]). *)

From stdpp Require Import base tactics list strings.
From Stdlib Require Import ZArith Lia SpecFloat.
From S2P Require Import Prelude GoFloat Sha256 Msgpack.

(** ** Constants *)

Definition AppName : bytes := lit "lxst".
Definition AspectName : bytes := lit "telephony".

Definition FieldSignalling : Z := 0x00.
Definition FieldFrames : Z := 0x01.

Definition StatusBusy : Z := 0x00.
Definition StatusRejected : Z := 0x01.
Definition StatusCalling : Z := 0x02.
Definition StatusAvailable : Z := 0x03.
Definition StatusRinging : Z := 0x04.
Definition StatusConnecting : Z := 0x05.
Definition StatusEstablished : Z := 0x06.

Definition PreferredMode : Z := 0xF0.
Definition PreferredProfile : Z := 0xFF.

Definition CodecRaw : byte := x00.
Definition CodecOpus : byte := x01.
Definition CodecCodec2 : byte := x02.
Definition CodecNull : byte := xff.

Definition ModeFullDuplex : Z := 0x01.
Definition ModeHalfDuplex : Z := 0x02.
Definition DefaultMode : Z := ModeFullDuplex.

Definition ProfileBandwidthUltraLow : Z := 0x10.
Definition ProfileBandwidthVeryLow : Z := 0x20.
Definition ProfileBandwidthLow : Z := 0x30.
Definition ProfileQualityMedium : Z := 0x40.
Definition ProfileQualityHigh : Z := 0x50.
Definition ProfileQualityMax : Z := 0x60.
Definition ProfileLatencyUltraLow : Z := 0x70.
Definition ProfileLatencyLow : Z := 0x80.
Definition DefaultProfile : Z := ProfileQualityMedium.

Definition OpusVoiceLow : Z := 0.
Definition OpusVoiceMedium : Z := 1.
Definition OpusVoiceHigh : Z := 2.
Definition OpusVoiceMax : Z := 3.
Definition OpusAudioMin : Z := 4.
Definition OpusAudioLow : Z := 5.
Definition OpusAudioMedium : Z := 6.
Definition OpusAudioHigh : Z := 7.
Definition OpusAudioMax : Z := 8.

Definition MinBitrate : Z := 6000.
Definition MaxBitrate : Z := 128000.
Definition PlaybackSampleRate : Z := 48000.
Definition PlaybackChannels : Z := 1.
Definition IdentityHashLen : Z := 16.
Definition DestHashLen : Z := 16.
Definition AppHashPrefixLen : Z := 10.
Definition MaxSignals : Z := 32.
Definition MaxFrames : Z := 8.
Definition MaxFrameBytes : Z := 2048.
Definition MaxUnpackBytes : Z := 4096.
Definition maxMapKeys : Z := 4.

(** ** Signals *)

Definition IsAutoStatus (signal : Z) : bool :=
  bool_decide (signal ∈ [StatusCalling; StatusAvailable; StatusRinging; StatusConnecting; StatusEstablished]).

Definition IsPreferredProfile (signal : Z) : bool := PreferredProfile <=? signal.
Definition IsPreferredMode (signal : Z) : bool := (PreferredMode <=? signal) && (signal <? PreferredProfile).
Definition ProfileFromSignal (signal : Z) : Z := i64 (signal - PreferredProfile).
Definition ModeFromSignal (signal : Z) : Z := i64 (signal - PreferredMode).

Definition SignalPreferredProfile (profile : Z) : Z :=
  i64 (PreferredProfile + (if profile =? 0 then DefaultProfile else profile)).

Definition SignalPreferredMode (mode : Z) : Z :=
  i64 (PreferredMode + (if mode =? 0 then DefaultMode else mode)).

(** ** Packets *)

Inductive proto_error :=
| ErrEmptyPacket | ErrMissingFields | ErrPacketTooLarge
| ErrMsgpack                          (** an error of the MessagePack library *)
| ErrFrameTooShort.

#[export] Instance proto_error_eq_dec : EqDecision proto_error.
Proof. solve_decision. Defined.

Record Packet := mkPacket { Signals : list Z; Frames : list bytes }.

(** [marshalCompact(map[int][]int{FieldSignalling: signals})]. *)
Definition marshal_signals (signals : list Z) : bytes :=
  EncodeMapLen 1 ++ EncodeInt FieldSignalling ++ EncodeArrayLen (len signals) ++ concat (map EncodeInt signals).

Definition PackSignalling (signals : list Z) : res proto_error bytes :=
  if len signals =? 0 then Err ErrEmptyPacket
  else
    let signals := if MaxSignals <? len signals then ztake MaxSignals signals else signals in
    Ok (marshal_signals signals).

(** [dst] is the buffer up to its capacity; what it holds is overwritten. *)
Definition PackFrameInto (dst : bytes) (codec : byte) (payload : bytes) : res proto_error bytes :=
  let payload := if MaxFrameBytes <? len payload then ztake MaxFrameBytes payload else payload in
  let n := 1 + len payload in
  let hdr := if 255 <? n then 3 else 2 in
  let need := 2 + hdr + n in
  let dst := if len dst <? need then make_bytes need else ztake need dst in
  let dst := <[0%nat := x81]> dst in
  let dst := <[1%nat := Zb FieldFrames]> dst in
  if n <=? 255 then
    let dst := <[2%nat := xc4]> dst in
    let dst := <[3%nat := Zb n]> dst in
    let dst := <[4%nat := codec]> dst in
    Ok (copy_range 5 (len dst) payload dst)
  else if (n <? 0) || (0xffff <? n) then Err ErrPacketTooLarge
  else
    let lenBuf := be_put 2 (u16 n) in
    let dst := <[2%nat := xc5]> dst in
    let dst := <[3%nat := default x00 (lenBuf !! 0%nat)]> dst in
    let dst := <[4%nat := default x00 (lenBuf !! 1%nat)]> dst in
    let dst := <[5%nat := codec]> dst in
    Ok (copy_range 6 (len dst) payload dst).

Definition PackFrame (codec : byte) (payload : bytes) : res proto_error bytes := PackFrameInto [] codec payload.

Definition SplitFrame (frame : bytes) : res proto_error (byte * bytes) :=
  match frame with
  | [] => Err ErrFrameTooShort
  | c :: payload => Ok (c, payload)
  end.

(** *** Decoding: a step reads from the unread input *)

Abbreviation dec A := (bytes -> res proto_error (A * bytes)).

Definition lift {A} (p : parser A) : dec A :=
  fun bs => match p bs with None => Err ErrMsgpack | Some x => Ok x end.

Definition dbind {A B} (p : dec A) (k : A -> dec B) : dec B :=
  fun bs => match p bs with Err e => Err e | Ok (a, r) => k a r end.
Definition dret {A} (a : A) : dec A := fun bs => Ok (a, bs).
Definition dfail {A} (e : proto_error) : dec A := fun _ => Err e.

Declare Scope dec_scope.
Delimit Scope dec_scope with dec.
Notation "x <-- p ;; k" := (dbind p (fun x => k)) (at level 100, p at next level, right associativity) : dec_scope.
Local Open Scope dec_scope.

Definition peek : dec Z :=
  fun bs => match PeekCode bs with None => Err ErrMsgpack | Some c => Ok (c, bs) end.

(** [dec.Skip()] under the depth limit that [Unpack] sets. *)
Definition dskip : dec unit :=
  fun bs => match Skip 8 bs with None => Err ErrMsgpack | Some r => Ok (tt, r) end.

Definition decodeIntOrSkip : dec (option Z) :=
  code <-- peek;;
  if is_int_code code then (n <-- lift DecodeInt;; dret (Some n))
  else (_ <-- dskip;; dret None).

Definition is_array_code (code : Z) : bool := IsFixedArray code || (code =? 0xdc) || (code =? 0xdd).

(** [for range n { ... append ... }]: the values read, those without one left out. *)
Fixpoint collect {A} (n : nat) (p : dec (option A)) : dec (list A) :=
  match n with
  | O => dret []
  | S n => x <-- p;; l <-- collect n p;; dret (option_list x ++ l)
  end.

Definition decodeSignals : dec (list Z) :=
  code <-- peek;;
  if is_array_code code then
    n <-- lift DecodeArrayLen;;
    if n <? 0 then dfail ErrMissingFields
    else if MaxSignals <? n then dfail ErrPacketTooLarge
    else collect (Z.to_nat n) decodeIntOrSkip
  else
    num <-- decodeIntOrSkip;;
    match num with Some num => dret [num] | None => dfail ErrMissingFields end.

Definition decodeOneFrame : dec bytes :=
  b <-- lift DecodeBytes;;
  if MaxFrameBytes <? len b then dfail ErrPacketTooLarge else dret b.

(** A frame of no bytes is dropped. *)
Definition decode_some_frame : dec (option bytes) :=
  b <-- decodeOneFrame;; dret (if 0 <? len b then Some b else None).

Definition decodeFrames : dec (list bytes) :=
  code <-- peek;;
  if is_array_code code then
    n <-- lift DecodeArrayLen;;
    if n <? 0 then dfail ErrMissingFields
    else if MaxFrames <? n then dfail ErrPacketTooLarge
    else collect (Z.to_nat n) decode_some_frame
  else
    b <-- decode_some_frame;; dret (option_list b).

(** One entry of the map: a repeated key replaces what was read before. *)
Definition unpack_entry (pkt : Packet) : dec Packet :=
  key <-- decodeIntOrSkip;;
  match key with
  | None => _ <-- dskip;; dret pkt
  | Some key =>
      if key =? FieldSignalling then
        s <-- decodeSignals;; dret {| Signals := s; Frames := Frames pkt |}
      else if key =? FieldFrames then
        f <-- decodeFrames;; dret {| Signals := Signals pkt; Frames := f |}
      else _ <-- dskip;; dret pkt
  end.

Fixpoint unpack_entries (n : nat) (pkt : Packet) : dec Packet :=
  match n with
  | O => dret pkt
  | S n => pkt <-- unpack_entry pkt;; unpack_entries n pkt
  end.

Definition unpackMap : dec Packet :=
  n <-- lift DecodeMapLen;;
  if (n <? 1) || (maxMapKeys <? n) then
    if n =? 0 then dfail ErrMissingFields else dfail ErrPacketTooLarge
  else
    pkt <-- unpack_entries (Z.to_nat n) {| Signals := []; Frames := [] |};;
    if (len (Signals pkt) =? 0) && (len (Frames pkt) =? 0) then dfail ErrMissingFields else dret pkt.

(** What follows the map is ignored. *)
Definition Unpack (data : bytes) : res proto_error Packet :=
  if len data =? 0 then Err ErrEmptyPacket
  else if MaxUnpackBytes <? len data then Err ErrPacketTooLarge
  else match unpackMap data with Err e => Err e | Ok (pkt, _) => Ok pkt end.

(** ** Destination hashes *)

Definition DestHash (identityHash appName : bytes) (aspects : list bytes) : bytes :=
  let name := appName ++ concat (map (fun a => x2e :: a) aspects) in
  let sum := sha256 name in
  let combined := ztake AppHashPrefixLen sum ++ identityHash in
  ztake DestHashLen (sha256 combined).

Definition TelephonyHash (identityHash : bytes) : bytes := DestHash identityHash AppName [AspectName].

(** ** Profiles *)

Record CodecParams := mkParams {
  Codec : byte; SampleRate : Z; Channels : Z; Bitrate : Z; FrameMs : Z; BufferN : Z; Voip : bool
}.

Definition OpusProfileParams (opusProfile : Z) : CodecParams :=
  if opusProfile =? OpusVoiceLow then mkParams CodecOpus 8000 1 6000 0 0 true
  else if opusProfile =? OpusVoiceMedium then mkParams CodecOpus 24000 1 8000 0 0 true
  else if opusProfile =? OpusVoiceHigh then mkParams CodecOpus 48000 1 16000 0 0 true
  else if opusProfile =? OpusVoiceMax then mkParams CodecOpus 48000 2 32000 0 0 true
  else if opusProfile =? OpusAudioMin then mkParams CodecOpus 8000 1 8000 0 0 false
  else if opusProfile =? OpusAudioLow then mkParams CodecOpus 12000 1 14000 0 0 false
  else if opusProfile =? OpusAudioMedium then mkParams CodecOpus 24000 2 28000 0 0 false
  else if opusProfile =? OpusAudioHigh then mkParams CodecOpus 48000 2 56000 0 0 false
  else if opusProfile =? OpusAudioMax then mkParams CodecOpus 48000 2 128000 0 0 false
  else mkParams CodecOpus 24000 1 8000 0 0 true.

Definition opusParams (opusProfile frameMs bufferN : Z) : CodecParams :=
  let p := OpusProfileParams opusProfile in
  mkParams (Codec p) (SampleRate p) (Channels p) (Bitrate p) frameMs bufferN (Voip p).

Definition ProfileParams (profile : Z) : CodecParams :=
  let profile := if profile =? 0 then DefaultProfile else profile in
  if profile =? ProfileBandwidthUltraLow then mkParams CodecCodec2 8000 1 700 400 2 true
  else if profile =? ProfileBandwidthVeryLow then mkParams CodecCodec2 8000 1 1600 320 2 true
  else if profile =? ProfileBandwidthLow then mkParams CodecCodec2 8000 1 3200 200 2 true
  else if profile =? ProfileQualityMedium then opusParams OpusVoiceMedium 60 5
  else if profile =? ProfileQualityHigh then opusParams OpusVoiceHigh 60 5
  else if profile =? ProfileQualityMax then opusParams OpusVoiceMax 60 5
  else if profile =? ProfileLatencyLow then opusParams OpusVoiceMedium 20 3
  else if profile =? ProfileLatencyUltraLow then opusParams OpusVoiceMedium 10 2
  else opusParams OpusVoiceMedium 60 5.

(** Go's [/] on integers truncates. *)
Definition FrameSamples (p : CodecParams) : Z :=
  if (SampleRate p <=? 0) || (FrameMs p <=? 0) then 0
  else Z.quot (i64 (SampleRate p * FrameMs p)) 1000.

Definition PlaybackFrameSamples (p : CodecParams) : Z :=
  if FrameMs p <=? 0 then 0 else Z.quot (i64 (PlaybackSampleRate * FrameMs p)) 1000.

Definition MaxBytesPerFrame (p : CodecParams) : option Z :=
  if (Bitrate p <=? 0) || (FrameMs p <=? 0) then Some 1500
  else
    n ← ceil_int (fmul (fdiv (f_of_Z (Bitrate p)) (f_of_Z 8)) (fdiv (f_of_Z (FrameMs p)) (f_of_Z 1000)));
    Some (Z.max n 8).

Definition SupportsOpus (profile : Z) : bool := bool_decide (Codec (ProfileParams profile) = CodecOpus).
Definition SupportsCodec2 (profile : Z) : bool := bool_decide (Codec (ProfileParams profile) = CodecCodec2).

Definition Codec2Header700 : byte := x00.
Definition Codec2Header1200 : byte := x01.
Definition Codec2Header1300 : byte := x02.
Definition Codec2Header1400 : byte := x03.
Definition Codec2Header1600 : byte := x04.
Definition Codec2Header2400 : byte := x05.
Definition Codec2Header3200 : byte := x06.

Definition Codec2Mode (profile : Z) : Z * byte :=
  if profile =? ProfileBandwidthUltraLow then (700, Codec2Header700)
  else if profile =? ProfileBandwidthVeryLow then (1600, Codec2Header1600)
  else if profile =? ProfileBandwidthLow then (3200, Codec2Header3200)
  else (0, x00).

Definition Codec2HeaderForBitrate (bitrate : Z) : byte :=
  if bitrate =? 700 then Codec2Header700
  else if bitrate =? 1200 then Codec2Header1200
  else if bitrate =? 1300 then Codec2Header1300
  else if bitrate =? 1400 then Codec2Header1400
  else if bitrate =? 1600 then Codec2Header1600
  else if bitrate =? 2400 then Codec2Header2400
  else if bitrate =? 3200 then Codec2Header3200
  else Codec2Header3200.

Definition Codec2BitrateForHeader (header : byte) : Z :=
  if decide (header = Codec2Header700) then 700
  else if decide (header = Codec2Header1200) then 1200
  else if decide (header = Codec2Header1300) then 1300
  else if decide (header = Codec2Header1400) then 1400
  else if decide (header = Codec2Header1600) then 1600
  else if decide (header = Codec2Header2400) then 2400
  else if decide (header = Codec2Header3200) then 3200
  else 0.

Definition FallbackOpusProfile (profile : Z) : Z := if SupportsOpus profile then profile else DefaultProfile.

Definition AvailableProfiles : list Z :=
  [ProfileBandwidthUltraLow; ProfileBandwidthVeryLow; ProfileBandwidthLow; ProfileQualityMedium;
   ProfileQualityHigh; ProfileQualityMax; ProfileLatencyLow; ProfileLatencyUltraLow].

Definition NextProfile (profile : Z) : Z :=
  let list := AvailableProfiles in
  match list_find (fun p => p = profile) list with
  | Some (i, _) => default 0 (list !! ((i + 1) mod length list)%nat)
  | None => 0
  end.

(** ** Names *)

Definition profileByName (name : string) : option Z :=
  match name with
  | "ulbw" => Some ProfileBandwidthUltraLow
  | "vlbw" => Some ProfileBandwidthVeryLow
  | "lbw" => Some ProfileBandwidthLow
  | "mq" => Some ProfileQualityMedium
  | "hq" => Some ProfileQualityHigh
  | "shq" => Some ProfileQualityMax
  | "ll" => Some ProfileLatencyLow
  | "ull" => Some ProfileLatencyUltraLow
  | _ => None
  end%string.

Definition LookupProfile (name : string) : option Z := profileByName name.

Definition ProfileName (profile : Z) : string :=
  if profile =? ProfileBandwidthUltraLow then "ulbw"
  else if profile =? ProfileBandwidthVeryLow then "vlbw"
  else if profile =? ProfileBandwidthLow then "lbw"
  else if profile =? ProfileQualityMedium then "mq"
  else if profile =? ProfileQualityHigh then "hq"
  else if profile =? ProfileQualityMax then "shq"
  else if profile =? ProfileLatencyLow then "ll"
  else if profile =? ProfileLatencyUltraLow then "ull"
  else "unknown".

Definition KnownProfile (profile : Z) : bool := bool_decide (ProfileName profile <> "unknown"%string).

Definition ProfileFromName (name : string) : Z :=
  match LookupProfile name with Some p => p | None => DefaultProfile end.

Definition modeByName (name : string) : option Z :=
  match name with
  | "full" => Some ModeFullDuplex
  | "fdx" => Some ModeFullDuplex
  | "half" => Some ModeHalfDuplex
  | "hdx" => Some ModeHalfDuplex
  | "ptt" => Some ModeHalfDuplex
  | _ => None
  end%string.

Definition LookupMode (name : string) : option Z := modeByName name.
Definition ModeFromName (name : string) : Z := match LookupMode name with Some m => m | None => DefaultMode end.

Definition ModeName (mode : Z) : string :=
  if mode =? ModeFullDuplex then "full" else if mode =? ModeHalfDuplex then "half" else "unknown".

(** ** Properties *)

(** The buffer of [PackFrameInto] has the size asked for. *)
Lemma len_frame_buffer (dst : bytes) need : 0 <= need ->
  len (if len dst <? need then make_bytes need else ztake need dst) = need.
Proof. intros. case_match; bool_hyps; [by apply len_make_bytes|apply len_ztake; lia]. Qed.

Lemma copy_tail {A} lo (hd t src : list A) : len hd = lo -> len t = len src ->
  copy_range lo (len (hd ++ t)) src (hd ++ t) = hd ++ src.
Proof.
  intros Hh Ht. rewrite <- (app_nil_r t). rewrite (copy_range_block lo _ src hd t []) by (done || len_lia).
  by rewrite app_nil_r.
Qed.

Lemma frame_truncate (p : bytes) :
  (if MaxFrameBytes <? len p then ztake MaxFrameBytes p else p) = ztake MaxFrameBytes p.
Proof. case_match; bool_hyps; [done|]. symmetry. by apply ztake_all. Qed.

Lemma len_frame_truncated (p : bytes) : len (ztake MaxFrameBytes p) <= MaxFrameBytes.
Proof. unfold len, ztake, MaxFrameBytes. rewrite length_take. lia. Qed.

Definition frame_bytes (codec : byte) (payload : bytes) : bytes :=
  EncodeMapLen 1 ++ EncodeInt FieldFrames ++ EncodeBytes (codec :: ztake MaxFrameBytes payload).

Lemma PackFrameInto_encodes dst codec payload :
  PackFrameInto dst codec payload = Ok (frame_bytes codec payload).
Proof.
  unfold PackFrameInto, frame_bytes, EncodeBytes. rewrite frame_truncate, len_cons.
  pose proof (len_frame_truncated payload) as Hl. unfold MaxFrameBytes in Hl.
  set (p := ztake _ payload) in *. clearbody p. pose proof (len_nonneg p). cbv zeta.
  match goal with |- context [if len dst <? ?n then _ else _] =>
    pose proof (len_frame_buffer dst n) as Hb; set (buf := if len dst <? n then _ else _) in * end.
  clearbody buf. specialize (Hb ltac:(destruct (255 <? _); lia)).
  unfold EncodeBytesLen. destruct (1 + len p <=? 255) eqn:E; bool_hyps.
  - rewrite (proj2 (Z.ltb_ge 255 (1 + len p))) in Hb by lia.
    rewrite (proj2 (Z.ltb_lt (1 + len p) 256)) by lia.
    destruct buf as [|b0 [|b1 [|b2 [|b3 [|b4 t]]]]]; try (exfalso; len_lia).
    cbn [insert list_insert]. f_equal.
    apply (copy_tail 5 [x81; Zb FieldFrames; xc4; Zb (1 + len p); codec] t p); [done|len_lia].
  - rewrite (proj2 (Z.ltb_lt 255 (1 + len p))) in Hb by lia.
    rewrite (proj2 (Z.ltb_ge (1 + len p) 256)) by lia. rewrite (proj2 (Z.leb_le (1 + len p) 65535)) by lia.
    rewrite (proj2 (Z.ltb_ge (1 + len p) 0)), (proj2 (Z.ltb_ge 0xffff (1 + len p))) by lia. cbn [orb].
    destruct buf as [|b0 [|b1 [|b2 [|b3 [|b4 [|b5 t]]]]]]; try (exfalso; len_lia).
    unfold u16. rewrite (Z.mod_small (1 + len p)) by lia.
    cbn [insert list_insert]. f_equal.
    apply (copy_tail 6 [x81; Zb FieldFrames; xc5; Zb ((1 + len p) / 256); Zb (1 + len p); codec] t p); [done|len_lia].
Qed.

(** [PackFrameInto] writes its packet byte by byte into a reused buffer;
    whatever the buffer held and however large it was, the result is the
    encoding that the MessagePack library gives for the map with the one frame
    (the codec byte followed by the payload, cut to [MaxFrameBytes]), and the
    call never fails. *)
Theorem lxst_pack_frame_reference dst codec payload :
  PackFrameInto dst codec payload
  = Ok (EncodeMapLen 1 ++ EncodeInt FieldFrames ++ EncodeBytes (codec :: ztake MaxFrameBytes payload)).
Proof. apply PackFrameInto_encodes. Qed.

(** *** Decoding what was encoded *)

Lemma lift_ok {A} (p : parser A) bs x : p bs = Some x -> lift p bs = Ok x.
Proof. unfold lift. by intros ->. Qed.

Lemma decodeIntOrSkip_Int n r : - 2 ^ 63 <= n < 2 ^ 63 ->
  decodeIntOrSkip (EncodeInt n ++ r) = Ok (Some n, r).
Proof.
  intros Hn. destruct (PeekCode_Int n r Hn) as (c & Hc & Hi).
  unfold decodeIntOrSkip, dbind, peek. rewrite Hc, Hi. by rewrite (lift_ok _ _ _ (DecodeInt_Int n r Hn)).
Qed.

Lemma collect_ints l r : Forall (fun n => - 2 ^ 63 <= n < 2 ^ 63) l ->
  collect (length l) decodeIntOrSkip (concat (map EncodeInt l) ++ r) = Ok (l, r).
Proof.
  induction 1 as [|n l Hn _ IH]; [done|]. cbn [length collect map concat].
  unfold dbind at 1. rewrite <- app_assoc, decodeIntOrSkip_Int by done.
  unfold dbind. rewrite IH. done.
Qed.

Lemma len_EncodeInt n : 1 <= len (EncodeInt n) <= 9.
Proof.
  unfold EncodeInt, EncodeUint. repeat case_match; rewrite len_cons; unfold len; rewrite ?length_be_put; simpl; lia.
Qed.

Lemma len_encoded_ints l : len l <= len (concat (map EncodeInt l)) <= 9 * len l.
Proof.
  induction l as [|n l IH]; [done|]. cbn [map concat]. rewrite len_app, len_cons.
  pose proof (len_EncodeInt n). lia.
Qed.

(** Lists of at least one signal and no more than the limit have a one- or
    three-byte header. *)
Lemma array_header l : 1 <= l <= MaxSignals ->
  (exists c, PeekCode (EncodeArrayLen l) = Some c /\ is_array_code c = true) /\ 1 <= len (EncodeArrayLen l) <= 3.
Proof.
  unfold MaxSignals. intros Hl. unfold EncodeArrayLen. repeat case_match; bool_hyps; try lia.
  - each_small l; try lia; (split; [by eexists|]; by rewrite len_cons, len_nil).
  - split; [by eexists|]. rewrite len_cons. unfold len. rewrite length_be_put. lia.
Qed.

Lemma PeekCode_app bs r c : PeekCode bs = Some c -> PeekCode (bs ++ r) = Some c.
Proof. by destruct bs. Qed.

Lemma decodeSignals_enc l r : Forall (fun n => - 2 ^ 63 <= n < 2 ^ 63) l -> 1 <= len l <= MaxSignals ->
  decodeSignals (EncodeArrayLen (len l) ++ concat (map EncodeInt l) ++ r) = Ok (l, r).
Proof.
  intros Hl Hn. destruct (array_header _ Hn) as ((c & Hc & Ha) & _).
  unfold decodeSignals, dbind at 1, peek. rewrite (PeekCode_app _ _ _ Hc), Ha.
  pose proof (len_encoded_ints l). pose proof (len_nonneg r).
  unfold dbind. rewrite (lift_ok _ _ (len l, concat (map EncodeInt l) ++ r)).
  2: { apply DecodeArrayLen_enc; [unfold MaxSignals in *; lia|rewrite len_app; lia]. }
  rewrite (proj2 (Z.ltb_ge _ _)), (proj2 (Z.ltb_ge _ _)) by lia.
  unfold len. rewrite Nat2Z.id. by apply collect_ints.
Qed.

Lemma unpackMap_one key body pkt :
  2 <= len (EncodeInt key ++ body) ->
  unpack_entry {| Signals := []; Frames := [] |} (EncodeInt key ++ body) = Ok (pkt, []) ->
  unpackMap (EncodeMapLen 1 ++ EncodeInt key ++ body)
  = if (len (Signals pkt) =? 0) && (len (Frames pkt) =? 0) then Err ErrMissingFields else Ok (pkt, []).
Proof.
  intros Hl He. unfold unpackMap, dbind at 1.
  rewrite (lift_ok _ _ (1, EncodeInt key ++ body)) by (apply DecodeMapLen_enc; lia).
  cbn [Z.ltb Z.compare orb Pos.compare Pos.compare_cont maxMapKeys].
  change (Z.to_nat 1) with 1%nat. cbn [unpack_entries]. unfold dbind. rewrite He.
  unfold dret, dfail. by destruct (_ && _).
Qed.

Lemma unpack_marshal_signals l : Forall (fun n => - 2 ^ 63 <= n < 2 ^ 63) l -> 1 <= len l <= MaxSignals ->
  Unpack (marshal_signals l) = Ok {| Signals := l; Frames := [] |}.
Proof.
  intros Hl Hn. unfold Unpack, marshal_signals. destruct (array_header _ Hn) as (_ & Ha).
  pose proof (len_encoded_ints l). unfold MaxSignals in Hn.
  assert (len (EncodeMapLen 1 ++ EncodeInt FieldSignalling ++ EncodeArrayLen (len l) ++ concat (map EncodeInt l))
          = 2 + len (EncodeArrayLen (len l)) + len (concat (map EncodeInt l))) as E.
  { rewrite !len_app. change (len (EncodeMapLen 1)) with 1. change (len (EncodeInt FieldSignalling)) with 1. lia. }
  rewrite E. rewrite (proj2 (Z.eqb_neq _ _)), (proj2 (Z.ltb_ge _ _)) by (unfold MaxUnpackBytes; lia).
  rewrite (unpackMap_one FieldSignalling _ {| Signals := l; Frames := [] |}).
  - cbn [Signals Frames]. by rewrite (proj2 (Z.eqb_neq (len l) 0)) by lia.
  - rewrite len_app. change (len (EncodeInt FieldSignalling)) with 1. rewrite len_app. lia.
  - unfold unpack_entry, dbind at 1. rewrite decodeIntOrSkip_Int by (unfold FieldSignalling; lia).
    cbn [Z.eqb FieldSignalling]. unfold dbind.
    pose proof (decodeSignals_enc l [] Hl Hn) as D. rewrite app_nil_r in D. by rewrite D.
Qed.

(** A call signal survives the wire.  For any non-empty list of [int]s the
    packet that [PackSignalling] builds is unpacked to the same signals, in
    order and without frames; more than [MaxSignals] are cut to the first
    [MaxSignals]. *)
Theorem lxst_signalling_roundtrip signals :
  signals <> [] -> Forall (fun n => - 2 ^ 63 <= n < 2 ^ 63) signals ->
  exists data, PackSignalling signals = Ok data
    /\ Unpack data = Ok {| Signals := ztake MaxSignals signals; Frames := [] |}.
Proof.
  intros Hne Hs. unfold PackSignalling. rewrite (proj2 (Z.eqb_neq _ _)) by (by rewrite len_0_nil).
  eexists; split; [done|].
  assert ((if MaxSignals <? len signals then ztake MaxSignals signals else signals) = ztake MaxSignals signals) as ->.
  { case_match; bool_hyps; [done|]. symmetry. by apply ztake_all. }
  apply unpack_marshal_signals.
  - by apply Forall_take.
  - unfold MaxSignals, len, ztake. rewrite length_take. destruct signals; [done|]. cbn [length]. lia.
Qed.

(** The status, profile and mode signals of a call. *)
Lemma lxst_signalling_roundtrip_witness :
  exists data, PackSignalling [StatusRinging; SignalPreferredProfile 0; -5; 2 ^ 40] = Ok data
    /\ Unpack data = Ok {| Signals := [4; 319; -5; 2 ^ 40]; Frames := [] |}.
Proof.
  destruct (lxst_signalling_roundtrip [StatusRinging; SignalPreferredProfile 0; -5; 2 ^ 40]) as (d & H1 & H2).
  - done.
  - repeat constructor; vm_compute; done.
  - exists d. split; [exact H1|]. rewrite H2. reflexivity.
Defined.

Lemma decodeOneFrame_enc b r : len b < 2 ^ 32 ->
  decodeOneFrame (EncodeBytes b ++ r) = if MaxFrameBytes <? len b then Err ErrPacketTooLarge else Ok (b, r).
Proof.
  intros Hb. unfold decodeOneFrame, dbind. rewrite (lift_ok _ _ _ (DecodeBytes_enc b r Hb)).
  by destruct (_ <? _).
Qed.

(** A byte string does not start with an array code. *)
Lemma bytes_header b : exists c, PeekCode (EncodeBytes b) = Some c /\ is_array_code c = false.
Proof. unfold EncodeBytes, EncodeBytesLen. repeat case_match; eexists; (split; [reflexivity|reflexivity]). Qed.

Lemma decodeFrames_enc b r : 1 <= len b < 2 ^ 32 ->
  decodeFrames (EncodeBytes b ++ r) = if MaxFrameBytes <? len b then Err ErrPacketTooLarge else Ok ([b], r).
Proof.
  intros Hb. destruct (bytes_header b) as (c & Hc & Ha).
  unfold decodeFrames, dbind at 1, peek. rewrite (PeekCode_app _ _ _ Hc), Ha.
  unfold decode_some_frame, dbind. rewrite decodeOneFrame_enc by lia.
  destruct (_ <? len b); [done|]. cbn. by rewrite (proj2 (Z.ltb_lt 0 (len b))) by lia.
Qed.

Lemma len_EncodeBytes b : len b < 2 ^ 16 -> len (EncodeBytes b) = (if len b <? 256 then 2 else 3) + len b.
Proof.
  intros Hb. unfold EncodeBytes, EncodeBytesLen. rewrite len_app.
  repeat case_match; bool_hyps; try lia; rewrite len_cons; unfold len; rewrite length_be_put; lia.
Qed.

Lemma unpack_frame codec p : len p <= MaxFrameBytes ->
  Unpack (EncodeMapLen 1 ++ EncodeInt FieldFrames ++ EncodeBytes (codec :: p))
  = if MaxFrameBytes <=? len p then Err ErrPacketTooLarge else Ok {| Signals := []; Frames := [codec :: p] |}.
Proof.
  intros Hp. unfold MaxFrameBytes in *. pose proof (len_nonneg p).
  assert (len (EncodeBytes (codec :: p)) = (if len (codec :: p) <? 256 then 2 else 3) + len (codec :: p)) as E
    by (apply len_EncodeBytes; rewrite len_cons; lia).
  rewrite len_cons in E. unfold Unpack.
  assert (3 <= len (EncodeMapLen 1 ++ EncodeInt FieldFrames ++ EncodeBytes (codec :: p)) <= 4096) as Hl.
  { rewrite !len_app. change (len (EncodeMapLen 1)) with 1. change (len (EncodeInt FieldFrames)) with 1.
    destruct (_ <? 256); lia. }
  rewrite (proj2 (Z.eqb_neq _ _)), (proj2 (Z.ltb_ge _ _)) by (unfold MaxUnpackBytes; lia).
  pose proof (decodeFrames_enc (codec :: p) []) as D. rewrite app_nil_r, len_cons in D.
  specialize (D ltac:(lia)). unfold MaxFrameBytes in D.
  assert (forall pkt, unpack_entry pkt (EncodeInt FieldFrames ++ EncodeBytes (codec :: p))
            = if 2048 <=? len p then Err ErrPacketTooLarge
              else Ok ({| Signals := Signals pkt; Frames := [codec :: p] |}, [])) as He.
  { intros pkt. unfold unpack_entry, dbind at 1. rewrite decodeIntOrSkip_Int by (unfold FieldFrames; lia).
    cbn [Z.eqb FieldFrames FieldSignalling Pos.eqb]. unfold dbind. rewrite D.
    destruct (2048 <=? len p) eqn:E1; bool_hyps.
    - by rewrite (proj2 (Z.ltb_lt 2048 (1 + len p))) by lia.
    - by rewrite (proj2 (Z.ltb_ge 2048 (1 + len p))) by lia. }
  destruct (2048 <=? len p).
  - unfold unpackMap, dbind at 1.
    rewrite (lift_ok _ _ (1, EncodeInt FieldFrames ++ EncodeBytes (codec :: p))).
    2: { apply DecodeMapLen_enc; [lia|]. rewrite len_app in Hl. change (len (EncodeMapLen 1)) with 1 in Hl. lia. }
    cbn [Z.ltb Z.compare orb Pos.compare Pos.compare_cont maxMapKeys].
    change (Z.to_nat 1) with 1%nat. cbn [unpack_entries]. unfold dbind. by rewrite He.
  - rewrite (unpackMap_one FieldFrames _ {| Signals := []; Frames := [codec :: p] |}); [done| |apply He].
    rewrite len_app in Hl. change (len (EncodeMapLen 1)) with 1 in Hl. lia.
Qed.

(** A media frame survives the wire exactly when its payload is shorter
    than [MaxFrameBytes]: then [Unpack] gives the one frame back and
    [SplitFrame] its codec and payload.  A payload of [MaxFrameBytes] or more
    is cut by the sender to [MaxFrameBytes] bytes, to which the codec byte is
    added, and the receiver refuses the packet as too large. *)
Theorem lxst_frame_roundtrip codec payload :
  exists data, PackFrame codec payload = Ok data
    /\ (len payload < MaxFrameBytes ->
          Unpack data = Ok {| Signals := []; Frames := [codec :: payload] |}
          /\ SplitFrame (codec :: payload) = Ok (codec, payload))
    /\ (MaxFrameBytes <= len payload -> Unpack data = Err ErrPacketTooLarge).
Proof.
  eexists. split; [apply PackFrameInto_encodes|]. unfold frame_bytes.
  pose proof (len_frame_truncated payload) as Ht. rewrite (unpack_frame _ _ Ht). split; intros Hl.
  - rewrite ztake_all by lia. by rewrite (proj2 (Z.leb_gt _ _)).
  - rewrite len_ztake by (unfold MaxFrameBytes in *; lia). done.
Qed.

Lemma lxst_frame_roundtrip_witness :
  exists data, PackFrame CodecOpus [x01; x02; x03] = Ok data
    /\ Unpack data = Ok {| Signals := []; Frames := [[CodecOpus; x01; x02; x03]] |}.
Proof.
  destruct (lxst_frame_roundtrip CodecOpus [x01; x02; x03]) as (d & H1 & H2 & _).
  exists d. split; [exact H1|]. apply H2. done.
Defined.

(** *** What the decoder accepts *)

Lemma dbind_Ok {A B} (p : dec A) (k : A -> dec B) bs y :
  dbind p k bs = Ok y -> exists a r, p bs = Ok (a, r) /\ k a r = Ok y.
Proof. unfold dbind. destruct (p bs) as [[a r]|e]; [|done]. eauto. Qed.

Lemma lift_Ok_inv {A} (p : parser A) bs x : lift p bs = Ok x -> p bs = Some x.
Proof. unfold lift. destruct (p bs); [by intros [= ->]|done]. Qed.

(** [dec_inv] takes a decoding that succeeded apart into its steps. *)
Ltac dec_inv :=
  repeat match goal with
  | H : dbind _ _ _ = Ok _ |- _ => apply dbind_Ok in H; destruct H as (? & ? & ? & H)
  | H : dret _ _ = Ok _ |- _ => unfold dret in H; simplify_eq
  | H : dfail _ _ = Ok _ |- _ => discriminate H
  | H : lift _ _ = Ok _ |- _ => apply lift_Ok_inv in H
  | H : (if ?b then _ else _) _ = Ok _ |- _ => destruct b eqn:?
  end; bool_hyps.

Definition int64_range (n : Z) : Prop := - 2 ^ 63 <= n < 2 ^ 63.

Lemma decodeIntOrSkip_range bs n r : decodeIntOrSkip bs = Ok (Some n, r) -> int64_range n.
Proof. unfold decodeIntOrSkip. intros H. dec_inv. eapply DecodeInt_range; eauto. Qed.

Lemma collect_Forall {A} (P : A -> Prop) (p : dec (option A)) n bs l r :
  (forall bs a r, p bs = Ok (Some a, r) -> P a) ->
  collect n p bs = Ok (l, r) -> Forall P l /\ (length l <= n)%nat.
Proof.
  intros Hp. revert bs l r. induction n as [|n IH]; intros bs l r; cbn [collect]; intros H; dec_inv.
  { split; [constructor|done]. }
  edestruct IH as [IH1 IH2]; [eassumption|].
  destruct x as [a|]; simpl; split; try lia; try done.
  constructor; [|done]. eapply Hp; eauto.
Qed.

Lemma decodeSignals_bounds bs l r : decodeSignals bs = Ok (l, r) -> Forall int64_range l /\ len l <= MaxSignals.
Proof.
  unfold decodeSignals. intros H. dec_inv.
  - apply (collect_Forall int64_range) in H as [? ?]; [|apply decodeIntOrSkip_range]. split; [done|]. unfold len. lia.
  - destruct x1; dec_inv. split; [|done]. constructor; [|constructor]. eapply decodeIntOrSkip_range; eauto.
Qed.

Definition frame_ok (f : bytes) : Prop := 1 <= len f <= MaxFrameBytes.

Lemma decode_some_frame_ok bs f r : decode_some_frame bs = Ok (Some f, r) -> frame_ok f.
Proof.
  unfold decode_some_frame, decodeOneFrame. intros H. dec_inv. destruct (0 <? _) eqn:E; simplify_eq.
  bool_hyps. unfold frame_ok. lia.
Qed.

Lemma decodeFrames_bounds bs l r : decodeFrames bs = Ok (l, r) -> Forall frame_ok l /\ len l <= MaxFrames.
Proof.
  unfold decodeFrames. intros H. dec_inv.
  - apply (collect_Forall frame_ok) in H as [? ?]; [|apply decode_some_frame_ok]. split; [done|]. unfold len. lia.
  - destruct x1 as [f|]; (split; [|done]); [|constructor].
    constructor; [|constructor]. by eapply decode_some_frame_ok.
Qed.

(** What every packet that [Unpack] accepts satisfies. *)
Definition packet_ok (pkt : Packet) : Prop :=
  (Forall int64_range (Signals pkt) /\ len (Signals pkt) <= MaxSignals)
  /\ (Forall frame_ok (Frames pkt) /\ len (Frames pkt) <= MaxFrames).

Lemma unpack_entry_ok pkt bs pkt' r : packet_ok pkt -> unpack_entry pkt bs = Ok (pkt', r) -> packet_ok pkt'.
Proof.
  unfold packet_ok, unpack_entry. intros [Hs Hf] H. dec_inv. destruct x as [key|]; dec_inv; cbn; auto.
  - split; [|done]. by eapply decodeSignals_bounds.
  - split; [done|]. by eapply decodeFrames_bounds.
Qed.

Lemma unpack_entries_ok n pkt bs pkt' r : packet_ok pkt -> unpack_entries n pkt bs = Ok (pkt', r) -> packet_ok pkt'.
Proof.
  revert pkt bs. induction n as [|n IH]; intros pkt bs Hp; cbn [unpack_entries]; intros H; dec_inv; [done|].
  eapply IH; [|eassumption]. by eapply unpack_entry_ok.
Qed.

Lemma unpackMap_ok bs pkt r : unpackMap bs = Ok (pkt, r) ->
  packet_ok pkt /\ (Signals pkt <> [] \/ Frames pkt <> []).
Proof.
  unfold unpackMap. intros H. dec_inv.
  all: split; [eapply unpack_entries_ok; [|eassumption]; repeat split; (constructor || done)|].
  all: match goal with E : _ && _ = false |- _ => apply andb_false_iff in E as [E|E] end; bool_hyps;
    rewrite len_0_nil in *; auto.
Qed.

(** C34: whatever bytes arrive, a packet that [Unpack] accepts has between one
    and [MaxSignals] signals or between one and [MaxFrames] frames, every signal
    is an [int64], and no frame is empty or longer than [MaxFrameBytes]; the
    data had between one and [MaxUnpackBytes] bytes.  [SplitFrame] therefore
    succeeds on every frame. *)
Theorem lxst_unpack_bounds data pkt :
  Unpack data = Ok pkt ->
  1 <= len data <= MaxUnpackBytes /\ packet_ok pkt /\ (Signals pkt <> [] \/ Frames pkt <> [])
  /\ Forall (fun f => is_ok (SplitFrame f) = true) (Frames pkt).
Proof.
  unfold Unpack. pose proof (len_nonneg data).
  destruct (len data =? 0) eqn:E1; [done|]. destruct (_ <? _) eqn:E2; [done|]. bool_hyps.
  destruct (unpackMap data) as [[p r]|] eqn:E; [|done]. intros [= <-].
  apply unpackMap_ok in E as [Hp Hne]. split_and!; [lia|lia|done|done|].
  eapply Forall_impl; [apply Hp|]. intros f Hf. unfold frame_ok in Hf. destruct f; [|done].
  rewrite len_nil in Hf. lia.
Qed.

(** A packet with two frames, an unknown key and a repeated one. *)
Definition sample_packet : bytes :=
  [x84; x00; x92; x04; xc0; x05; x81; x01; x02; x01; x92; xc4; x02; x01; xaa; xa2; x02; xbb; x00; xcd; x01; x3f].

Lemma lxst_unpack_bounds_witness :
  Unpack sample_packet = Ok {| Signals := [319]; Frames := [[x01; xaa]; [x02; xbb]] |}
  /\ Forall (fun f => is_ok (SplitFrame f) = true) [[x01; xaa]; [x02; xbb]].
Proof.
  split; [vm_compute; reflexivity|].
  destruct (lxst_unpack_bounds sample_packet {| Signals := [319]; Frames := [[x01; xaa]; [x02; xbb]] |}) as (_ & _ & _ & H).
  - vm_compute; reflexivity.
  - exact H.
Defined.

(** *** Signals and profiles *)

Definition is_status (signal : Z) : bool := (StatusBusy <=? signal) && (signal <=? StatusEstablished).

(** Preferences and statuses share one number space without clashing.  A
    preferred profile or mode, zero standing for the default, is recognised as
    what it is and as nothing else and is recovered from its signal; a status
    is neither kind of preference.  A mode of fifteen or more would be read as
    a profile, so the modes must stay below that. *)
Theorem lxst_signal_classes profile mode status :
  0 <= profile < 2 ^ 62 -> 0 <= mode < 15 -> is_status status = true ->
  let p := SignalPreferredProfile profile in
  let m := SignalPreferredMode mode in
  (IsPreferredProfile p = true /\ IsPreferredMode p = false /\ IsAutoStatus p = false
   /\ ProfileFromSignal p = if profile =? 0 then DefaultProfile else profile)
  /\ (IsPreferredMode m = true /\ IsPreferredProfile m = false /\ IsAutoStatus m = false
      /\ ModeFromSignal m = if mode =? 0 then DefaultMode else mode)
  /\ (IsPreferredProfile status = false /\ IsPreferredMode status = false
      /\ (IsAutoStatus status = true <-> status <> StatusBusy /\ status <> StatusRejected))
  /\ IsPreferredProfile (SignalPreferredMode 15) = true.
Proof.
  intros Hp Hm Hs. cbv zeta. unfold is_status in Hs. bool_hyps.
  set (p := if profile =? 0 then DefaultProfile else profile).
  set (m := if mode =? 0 then DefaultMode else mode).
  assert (0 < p < 2 ^ 62) by (subst p; case_match; bool_hyps; unfold DefaultProfile, ProfileQualityMedium; lia).
  assert (0 < m < 15) by (subst m; case_match; bool_hyps; unfold DefaultMode, ModeFullDuplex; lia).
  assert (SignalPreferredProfile profile = 255 + p) as Ep by (apply i64_small; lia).
  assert (SignalPreferredMode mode = 240 + m) as Em by (apply i64_small; lia).
  clearbody p m. rewrite Ep, Em.
  unfold IsPreferredProfile, IsPreferredMode, ProfileFromSignal, ModeFromSignal, IsAutoStatus,
    PreferredProfile, PreferredMode, StatusBusy, StatusRejected, StatusCalling, StatusAvailable, StatusRinging,
    StatusConnecting, StatusEstablished in *.
  split_and!; try done; rewrite ?andb_true_iff, ?andb_false_iff, ?Z.leb_le, ?Z.leb_gt, ?Z.ltb_lt, ?Z.ltb_ge;
    try lia; try (rewrite i64_small by lia; lia);
    rewrite ?bool_decide_eq_false, ?bool_decide_eq_true, !elem_of_cons, elem_of_nil; lia.
Qed.

Lemma lxst_signal_classes_witness :
  ProfileFromSignal (SignalPreferredProfile ProfileLatencyLow) = ProfileLatencyLow
  /\ ModeFromSignal (SignalPreferredMode 0) = ModeFullDuplex.
Proof.
  destruct (lxst_signal_classes ProfileLatencyLow 0 StatusRinging) as ((_ & _ & _ & Hp) & (_ & _ & _ & Hm) & _);
    [by vm_compute|by vm_compute|done|split; [exact Hp|exact Hm]].
Defined.

Lemma KnownProfile_iff p : KnownProfile p = true <-> p ∈ AvailableProfiles.
Proof.
  unfold KnownProfile, ProfileName, AvailableProfiles. rewrite bool_decide_eq_true, !elem_of_cons, elem_of_nil.
  repeat (match goal with |- context [?a =? ?b] => destruct (Z.eqb_spec a b) end; [split; [tauto|done]|]).
  tauto.
Qed.

(** A statement about the table that evaluates to [true] on every entry. *)
Lemma all_profiles (P : Z -> bool) : forallb P AvailableProfiles = true ->
  forall p, KnownProfile p = true -> P p = true.
Proof.
  intros H p Hp. rewrite KnownProfile_iff in Hp. rewrite forallb_forall in H. apply H.
  by rewrite <- list_elem_of_In.
Qed.

(** What the code expects of one profile: its name leads back to it; a frame
    is a whole number of samples, at the codec's and at the playback rate; the
    bytes of an encoded frame with its codec byte and, for Codec2, its mode
    byte fit a media frame; the Codec2 table agrees with the parameters; eight
    steps of [NextProfile] come back and no fewer do. *)
Definition profile_consistent (p : Z) : bool :=
  let c := ProfileParams p in
  bool_decide (LookupProfile (ProfileName p) = Some p)
  && (FrameSamples c * 1000 =? SampleRate c * FrameMs c) && (0 <? FrameSamples c)
  && (PlaybackFrameSamples c * 1000 =? PlaybackSampleRate * FrameMs c)
  && match MaxBytesPerFrame c with Some n => (8 * 1000 * n <? Bitrate c * FrameMs c + 8 * 1000) || (n =? 8) | None => false end
  && match MaxBytesPerFrame c with Some n => n + 2 <=? MaxFrameBytes | None => false end
  && Bool.eqb (SupportsCodec2 p) (negb (SupportsOpus p))
  && (if SupportsCodec2 p then
        bool_decide (Codec2Mode p = (Bitrate c, Codec2HeaderForBitrate (Bitrate c)))
        && (Codec2BitrateForHeader (Codec2HeaderForBitrate (Bitrate c)) =? Bitrate c)
      else bool_decide (Codec2Mode p = (0, x00)))
  && (SupportsOpus (FallbackOpusProfile p))
  && (Nat.iter 8 NextProfile p =? p)
  && forallb (fun k => negb (Nat.iter k NextProfile p =? p)) (seq 1 7).

(** The tables of the profiles are consistent.  A profile is known exactly
    when it is offered by [AvailableProfiles]; each of them has the properties
    that [profile_consistent] lists, and any other number gets the parameters
    of the default profile. *)
Theorem lxst_profile_tables p :
  (KnownProfile p = true <-> p ∈ AvailableProfiles)
  /\ (KnownProfile p = true -> profile_consistent p = true)
  /\ (KnownProfile p = false -> ProfileParams p = ProfileParams DefaultProfile /\ NextProfile p = 0).
Proof.
  split_and!; [apply KnownProfile_iff|apply all_profiles; vm_compute; reflexivity|].
  intros Hk. assert (p ∉ AvailableProfiles) as Hn by (rewrite <- KnownProfile_iff; by rewrite Hk).
  unfold AvailableProfiles in Hn. rewrite !elem_of_cons, elem_of_nil in Hn. split.
  - unfold ProfileParams. destruct (Z.eqb_spec p 0) as [->|]; [done|].
    repeat (match goal with |- context [p =? ?b] => destruct (Z.eqb_spec p b) end; [exfalso; tauto|]). done.
  - unfold NextProfile. destruct (list_find _ _) as [[i q]|] eqn:E; [|done].
    apply list_find_Some in E as (E & -> & _). exfalso. apply list_elem_of_lookup_2 in E.
    unfold AvailableProfiles in E. rewrite !elem_of_cons, elem_of_nil in E. tauto.
Qed.
