(* ===== verification/LxstMedia.v ===== *)
(** * Media buffering of LXST calls ([pkg/lxst/media])

    The jitter buffer of a call, which gives up on missing frames
    ([jitter.go]), and the controller that adapts bitrate, error correction and
    buffer depth to the link ([adaptive.go]).  Times are nanoseconds, a zero
    [time.Time] is [None]; [time.Now()] is an argument. *)

From stdpp Require Import base tactics list gmap sets sorting.
From Stdlib Require Import ZArith Lia.
From S2P Require Import Prelude GoFloat SeqWindow Msgpack LxstProto.

Definition DefaultTargetMs : Z := 60.
Definition DefaultMaxFrames : Z := 16.

(** ** The jitter buffer *)

Record Frame := mkFrame { Sequence : Z; Timestamp : Z; Payload : bytes; Arrival : Z }.

Record JitterBuffer := mkJitter {
  targetMs : Z; maxFrames : Z; frames : gmap Z Frame; nextSeq : Z; started : bool;
  lastPop : option Z; origin : option Z; lastTS : Z; lossCount : Z; recvCount : Z;
}.

Definition NewJitterBuffer (targetMs maxFrames : Z) : JitterBuffer :=
  {| targetMs := if targetMs <=? 0 then DefaultTargetMs else targetMs;
     maxFrames := if maxFrames <=? 0 then DefaultMaxFrames else maxFrames;
     frames := ∅; nextSeq := 0; started := false; lastPop := None; origin := None; lastTS := 0;
     lossCount := 0; recvCount := 0 |}.

Definition SetTargetMs (ms : Z) (j : JitterBuffer) : JitterBuffer :=
  {| targetMs := ms; maxFrames := maxFrames j; frames := frames j; nextSeq := nextSeq j; started := started j;
     lastPop := lastPop j; origin := origin j; lastTS := lastTS j; lossCount := lossCount j; recvCount := recvCount j |}.

Definition set_frames (m : gmap Z Frame) (j : JitterBuffer) : JitterBuffer :=
  {| targetMs := targetMs j; maxFrames := maxFrames j; frames := m; nextSeq := nextSeq j; started := started j;
     lastPop := lastPop j; origin := origin j; lastTS := lastTS j; lossCount := lossCount j; recvCount := recvCount j |}.

Definition count_recv (j : JitterBuffer) : JitterBuffer :=
  {| targetMs := targetMs j; maxFrames := maxFrames j; frames := frames j; nextSeq := nextSeq j; started := started j;
     lastPop := lastPop j; origin := origin j; lastTS := lastTS j; lossCount := lossCount j;
     recvCount := u64 (recvCount j + 1) |}.

Definition set_origin (now : Z) (j : JitterBuffer) : JitterBuffer :=
  {| targetMs := targetMs j; maxFrames := maxFrames j; frames := frames j; nextSeq := nextSeq j; started := started j;
     lastPop := lastPop j; origin := Some (default now (origin j)); lastTS := lastTS j; lossCount := lossCount j;
     recvCount := recvCount j |}.

Definition start_at (seq : Z) (j : JitterBuffer) : JitterBuffer :=
  {| targetMs := targetMs j; maxFrames := maxFrames j; frames := frames j; nextSeq := seq; started := true;
     lastPop := lastPop j; origin := origin j; lastTS := lastTS j; lossCount := lossCount j; recvCount := recvCount j |}.

(** Skip the missing frame at [nextSeq]. *)
Definition skip_next (j : JitterBuffer) : JitterBuffer :=
  {| targetMs := targetMs j; maxFrames := maxFrames j; frames := delete (nextSeq j) (frames j);
     nextSeq := u16 (nextSeq j + 1); started := started j; lastPop := lastPop j; origin := origin j;
     lastTS := lastTS j; lossCount := u64 (lossCount j + 1); recvCount := recvCount j |}.

(** Hand out the frame at [nextSeq]. *)
Definition take_next (now : Z) (fr : Frame) (j : JitterBuffer) : JitterBuffer :=
  {| targetMs := targetMs j; maxFrames := maxFrames j; frames := delete (nextSeq j) (frames j);
     nextSeq := u16 (nextSeq j + 1); started := started j; lastPop := Some now; origin := origin j;
     lastTS := Timestamp fr; lossCount := lossCount j; recvCount := recvCount j |}.

(** [time.Duration(j.targetMs) * time.Millisecond / 2]. *)
Definition skip_wait (j : JitterBuffer) : Z := Z.quot (i64 (targetMs j * Millisecond)) 2.

(** One round of the loop of [shouldSkipMissingLocked]; the loop returns at the
    first frame that says so, in whatever order. *)
Definition frame_says_skip (now : Z) (j : JitterBuffer) (seq : Z) (f : Frame) : bool :=
  let wait := skip_wait j in
  if negb (seqLess (nextSeq j) seq) then false
  else if wait <? time_sub now (Arrival f) then true
  else if negb (lastTS j =? 0) && (lastTS j <? Timestamp f) then
    let gap := u32 (Timestamp f - lastTS j) in
    (u32 (targetMs j) / 2 <? gap) && (Z.quot wait 2 <? time_sub now (Arrival f))
  else false.

Definition shouldSkipMissingLocked (now : Z) (j : JitterBuffer) : bool :=
  match lastPop j with
  | None => 0 <? Z.of_nat (size (frames j))
  | Some t =>
      if skip_wait j <? time_sub now t then true
      else existsb (fun p => frame_says_skip now j p.1 p.2) (map_to_list (frames j))
  end.

Section buffer.
Context `{MapOrder}.

Definition lowestSeqLocked (n : nat) (j : JitterBuffer) : Z := default 0 (scan_min (shuffle n (keys (frames j)))).

Definition dropOldestLocked (n : nat) (j : JitterBuffer) : JitterBuffer :=
  if Z.of_nat (size (frames j)) =? 0 then j
  else set_frames (delete (lowestSeqLocked n j) (frames j)) j.

(** [push]; [Push] copies its payload first, [PushOwned] does not. *)
Definition push (n : nat) (now seq timestamp : Z) (payload : bytes) (j : JitterBuffer) : JitterBuffer :=
  let j := count_recv j in
  if started j && seqLess seq (nextSeq j) then j
  else
    let j := set_origin now j in
    let timestamp :=
      if timestamp =? 0 then u32 (Z.max (Z.quot (time_sub now (default now (origin j))) Millisecond) 1)
      else timestamp in
    let j := set_frames (<[seq := mkFrame seq timestamp payload now]> (frames j)) j in
    if maxFrames j <? Z.of_nat (size (frames j)) then dropOldestLocked n j else j.

Definition PopReady (n : nat) (now : Z) (j : JitterBuffer) : JitterBuffer * option Frame :=
  if Z.of_nat (size (frames j)) =? 0 then (j, None)
  else
    let j := if started j then j else start_at (lowestSeqLocked n j) j in
    match frames j !! nextSeq j with
    | None => if shouldSkipMissingLocked now j then (skip_next j, None) else (j, None)
    | Some fr => (take_next now fr j, Some fr)
    end.

Definition LossRate (j : JitterBuffer) : f64 :=
  if recvCount j =? 0 then f_of_Z 0 else fdiv (f_of_Z (lossCount j)) (f_of_Z (recvCount j)).

Definition Depth (j : JitterBuffer) : Z := Z.of_nat (size (frames j)).

(** ** Runs *)

Inductive jop :=
| JPush (n : nat) (now seq timestamp : Z) (payload : bytes)
| JPop (n : nat) (now : Z)
| JTarget (ms : Z).

Definition jstep (o : jop) (j : JitterBuffer) : JitterBuffer * option Frame :=
  match o with
  | JPush n now seq ts payload => (push n now seq ts payload j, None)
  | JPop n now => PopReady n now j
  | JTarget ms => (SetTargetMs ms j, None)
  end.

(** The frames handed out by a sequence of calls. *)
Fixpoint jrun (ops : list jop) (j : JitterBuffer) : list Frame * JitterBuffer :=
  match ops with
  | [] => ([], j)
  | o :: ops =>
      let '(j, out) := jstep o j in
      let '(outs, j) := jrun ops j in
      (option_list out ++ outs, j)
  end.
End buffer.

(** ** The adaptive controller *)

Record LinkMetrics := mkMetrics {
  RTT : f64; RSSI : f64; SNR : f64; Q : f64; M_LossRate : f64; M_JitterMs : f64; M_Bitrate : Z; M_UseFEC : bool
}.

Record AdaptiveController := mkAdaptive { bitrate : Z; useFEC : bool; jitterMs : Z; lastUpdate : option Z }.

Definition defaultBitrate : Z := 16000.
Definition defaultJitterMs : Z := 80.
Definition poorScore : f64 := Eval vm_compute in f_const 35 100.
Definition fairScore : f64 := Eval vm_compute in f_const 65 100.
Definition bitrateStepDown : Z := 4000.
Definition bitrateStepUp : Z := 2000.
Definition jitterStepPoor : Z := 20.
Definition jitterStepFair : Z := 5.
Definition jitterStepGood : Z := 10.
Definition jitterFloor : Z := 40.
Definition jitterCeilPoor : Z := 300.
Definition jitterCeilFair : Z := 200.
Definition jitterCeilGood : Z := 160.
Definition lossFECOn : f64 := Eval vm_compute in f_const 5 100.
Definition lossFECOff : f64 := Eval vm_compute in f_const 1 100.

Definition rttNorm : f64 := Eval vm_compute in f_of_Z 2.
Definition jitterNorm : f64 := Eval vm_compute in f_of_Z 200.
Definition snrNorm : f64 := Eval vm_compute in f_of_Z 30.
Definition wRTT : f64 := Eval vm_compute in f_const 35 100.
Definition wLoss : f64 := Eval vm_compute in f_const 35 100.
Definition wJitter : f64 := Eval vm_compute in f_const 15 100.
Definition wRF : f64 := Eval vm_compute in f_const 15 100.

Definition NewAdaptiveController : AdaptiveController := mkAdaptive defaultBitrate false defaultJitterMs None.

Definition clampInt (v lo hi : Z) : Z := if v <? lo then lo else if hi <? v then hi else v.
Definition clampFloat (v lo hi : f64) : f64 := fmax lo (fmin hi v).

Definition scoreMetrics (m : LinkMetrics) : f64 :=
  let f0 := f_of_Z 0 in
  let f1 := f_of_Z 1 in
  let rttScore := fsub f1 (clampFloat (fdiv (RTT m) rttNorm) f0 f1) in
  let lossScore := fsub f1 (clampFloat (M_LossRate m) f0 f1) in
  let jitterScore := fsub f1 (clampFloat (fdiv (M_JitterMs m) jitterNorm) f0 f1) in
  let rfScore := clampFloat (fdiv (fadd (Q m) (fdiv (SNR m) snrNorm)) (f_of_Z 2)) f0 f1 in
  clampFloat
    (fadd (fadd (fadd (fmul rttScore wRTT) (fmul lossScore wLoss))
             (fmul jitterScore wJitter))
       (fmul rfScore wRF))
    f0 f1.

Definition Update (now : Z) (m : LinkMetrics) (a : AdaptiveController) : AdaptiveController :=
  if fltb (scoreMetrics m) poorScore then
    mkAdaptive (clampInt (bitrate a - bitrateStepDown) MinBitrate MaxBitrate) true
      (clampInt (jitterMs a + jitterStepPoor) jitterFloor jitterCeilPoor) (Some now)
  else if fltb (scoreMetrics m) fairScore then
    mkAdaptive (bitrate a) (fltb lossFECOn (M_LossRate m))
      (clampInt (jitterMs a + jitterStepFair) jitterFloor jitterCeilFair) (Some now)
  else
    mkAdaptive (clampInt (bitrate a + bitrateStepUp) MinBitrate MaxBitrate)
      (if fltb (M_LossRate m) lossFECOff then false else useFEC a)
      (clampInt (jitterMs a - jitterStepGood) jitterFloor jitterCeilGood) (Some now).

(** * Properties *)

Lemma size_zero_empty (m : gmap Z Frame) : (Z.of_nat (size m) =? 0) = bool_decide (m = ∅).
Proof.
  case_bool_decide as Hm; [subst; by rewrite map_size_empty|].
  apply Z.eqb_neq. intros Hs. apply Hm, map_size_empty_inv. lia.
Qed.

(** Held frames are indexed by their own 16-bit sequence number, are at most
    [maxFrames] many and satisfy [P]; so is the next one expected. *)
Record jinv (P : Frame -> Prop) (j : JitterBuffer) : Prop := {
  jinv_frame : forall k fr, frames j !! k = Some fr -> Sequence fr = k /\ 0 <= k < 2 ^ 16 /\ P fr;
  jinv_size : 0 <= Z.of_nat (size (frames j)) <= maxFrames j;
  jinv_next : 0 <= nextSeq j < 2 ^ 16;
}.

Lemma jitter_inv_new P t m : jinv P (NewJitterBuffer t m).
Proof.
  split; simpl.
  - intros k fr Hk. by rewrite lookup_empty in Hk.
  - rewrite map_size_empty. unfold DefaultMaxFrames. destruct (_ <=? _) eqn:E; bool_hyps; lia.
  - lia.
Qed.

Lemma jinv_frames P j j' : jinv P j -> frames j' ⊆ frames j -> maxFrames j' = maxFrames j ->
  0 <= nextSeq j' < 2 ^ 16 -> jinv P j'.
Proof.
  intros [Hf Hz _] Hs Hm Hn. split; [| |done].
  - intros k fr Hk. apply Hf. by eapply lookup_weaken.
  - rewrite Hm. pose proof (map_subseteq_size _ _ Hs). lia.
Qed.

Section props.
Context `{MapOrder}.

(** ** What one operation does *)

Lemma lowestSeqLocked_held n j : frames j <> ∅ -> exists fr, frames j !! lowestSeqLocked n j = Some fr.
Proof. intros Hf. unfold lowestSeqLocked. destruct (scan_keys n (frames j) Hf) as (s & fr & -> & Hs). eauto. Qed.

(** The frame a push leaves, its timestamp filled in. *)
Definition pushed (P : Frame -> Prop) (now seq : Z) (payload : bytes) : Prop :=
  forall ts, P (mkFrame seq ts payload now).

Lemma push_unchanged n now seq ts payload j : let j' := push n now seq ts payload j in
  started j' = started j /\ nextSeq j' = nextSeq j /\ lossCount j' = lossCount j /\ maxFrames j' = maxFrames j.
Proof.
  cbv zeta. unfold push, dropOldestLocked. simpl. destruct (started j && _); simpl; [done|].
  repeat case_match; done.
Qed.

Lemma push_frames n now seq ts payload j k fr :
  frames (push n now seq ts payload j) !! k = Some fr ->
  frames j !! k = Some fr \/ k = seq /\ exists ts', fr = mkFrame seq ts' payload now.
Proof.
  unfold push. simpl. destruct (started j && _); simpl; [by left|].
  set (f := mkFrame _ _ _ _). assert (forall k fr, <[seq := f]> (frames j) !! k = Some fr ->
    frames j !! k = Some fr \/ k = seq /\ exists ts', fr = mkFrame seq ts' payload now) as Hins.
  { intros k' fr'. rewrite lookup_insert_Some. subst f. naive_solver. }
  unfold dropOldestLocked. simpl. repeat case_match; simpl; auto.
  intros [_ Hk]%lookup_delete_Some. auto.
Qed.

Lemma push_size n now seq ts payload j : 0 <= Z.of_nat (size (frames j)) <= maxFrames j ->
  Z.of_nat (size (frames (push n now seq ts payload j))) <= maxFrames j.
Proof.
  intros Hs. unfold push. simpl. destruct (started j && _); simpl; [lia|].
  set (f := mkFrame _ _ _ _). destruct (_ <? _) eqn:E; simpl; bool_hyps; [|lia].
  unfold dropOldestLocked. simpl. rewrite size_zero_empty, bool_decide_eq_false_2 by apply insert_non_empty.
  simpl. match goal with |- context [lowestSeqLocked n ?j'] =>
    destruct (lowestSeqLocked_held n j') as [fr Hfr]; [apply insert_non_empty|] end.
  simpl in Hfr. rewrite map_size_delete, Hfr, map_size_insert. destruct (frames j !! seq); simpl; lia.
Qed.

Lemma jitter_inv_push P n now seq ts payload j : 0 <= seq < 2 ^ 16 -> pushed P now seq payload ->
  jinv P j -> jinv P (push n now seq ts payload j).
Proof.
  intros Hs HP [Hf Hz Hx]. destruct (push_unchanged n now seq ts payload j) as (_ & Hn & _ & Hm). split.
  - intros k fr [Hk|(-> & ts' & ->)]%push_frames; [by apply Hf|]. split_and!; [done|lia|lia|apply HP].
  - rewrite Hm. pose proof (push_size n now seq ts payload j Hz). lia.
  - by rewrite Hn.
Qed.

(** A pop leaves the buffer alone, gives up on the next frame, or hands a frame
    out; the first frame handed out starts the count. *)
Inductive popped (now : Z) (j : JitterBuffer) : JitterBuffer * option Frame -> Prop :=
| pop_nothing : popped now j (j, None)
| pop_skip : started j = true -> frames j !! nextSeq j = None -> popped now j (skip_next j, None)
| pop_frame fr : started j = true -> frames j !! nextSeq j = Some fr -> popped now j (take_next now fr j, Some fr)
| pop_first q fr : started j = false -> frames j !! q = Some fr ->
    popped now j (take_next now fr (start_at q j), Some fr).

Lemma PopReady_popped n now j : popped now j (PopReady n now j).
Proof.
  unfold PopReady. rewrite size_zero_empty. case_bool_decide as He; [constructor|].
  destruct (started j) eqn:S.
  - destruct (frames j !! nextSeq j) as [fr|] eqn:E; [by constructor|].
    destruct (shouldSkipMissingLocked now j); by constructor.
  - destruct (lowestSeqLocked_held n j He) as [fr Hfr]. simpl. rewrite Hfr. by constructor.
Qed.

Lemma jinv_popped P now j r : popped now j r -> jinv P j -> jinv P r.1.
Proof.
  intros Hp Hj. destruct Hp; simpl; [done| | |];
    (eapply jinv_frames; [exact Hj|apply delete_subseteq|done|apply Z.mod_pos_bound; lia]).
Qed.

Definition op_ok (P : Frame -> Prop) (o : jop) : Prop :=
  match o with JPush _ now seq _ payload => 0 <= seq < 2 ^ 16 /\ pushed P now seq payload | _ => True end.

Lemma jinv_step P o j : op_ok P o -> jinv P j -> jinv P (jstep o j).1.
Proof.
  destruct o as [n now seq ts payload|n now|ms]; simpl; intros Ho Hj.
  - destruct Ho. by apply jitter_inv_push.
  - eapply jinv_popped; [apply PopReady_popped|done].
  - eapply jinv_frames; [exact Hj|done|done|apply Hj].
Qed.

(** ** Accounting *)

(** [outs] are handed out at the increasing offsets [offs] from [s], from [d0]
    up to [d1]. *)
Definition delivered (s d0 d1 : Z) (outs : list Frame) (offs : list Z) : Prop :=
  d0 <= d1 /\ StronglySorted Z.lt offs /\ Forall (fun d => d0 <= d < d1) offs
  /\ Forall2 (fun fr d => Sequence fr = u16 (s + d)) outs offs.

Lemma delivered_nil s d : delivered s d d [] [].
Proof. repeat split; (constructor || lia). Qed.

Lemma delivered_skip s d d1 outs offs : delivered s (d + 1) d1 outs offs -> delivered s d d1 outs offs.
Proof.
  intros (H1 & H2 & H3 & H4). repeat split; [lia|done| |done].
  eapply Forall_impl; [exact H3|]. intros; simpl in *; lia.
Qed.

Lemma delivered_cons s d d1 fr outs offs : Sequence fr = u16 (s + d) ->
  delivered s (d + 1) d1 outs offs -> delivered s d d1 (fr :: outs) (d :: offs).
Proof.
  intros Hfr (H1 & H2 & H3 & H4). repeat split; [lia| | |by constructor].
  - constructor; [done|]. eapply Forall_impl; [exact H3|]. intros; simpl in *; lia.
  - constructor; [lia|]. eapply Forall_impl; [exact H3|]. intros; simpl in *; lia.
Qed.

Lemma u16_next s d : u16 (u16 (s + d) + 1) = u16 (s + (d + 1)).
Proof. unfold u16. rewrite Zplus_mod_idemp_l. f_equal. lia. Qed.

Lemma u64_add_l a b : u64 (u64 a + b) = u64 (a + b).
Proof. unfold u64. by rewrite Zplus_mod_idemp_l. Qed.

(** From a started buffer at offset [d]. *)
Lemma jrun_started P ops s : Forall (op_ok P) ops -> forall d j,
  jinv P j -> started j = true -> nextSeq j = u16 (s + d) -> u64 (lossCount j) = lossCount j ->
  let r := jrun ops j in
  Forall P r.1 /\ exists d1 offs, delivered s d d1 r.1 offs /\ nextSeq r.2 = u16 (s + d1)
    /\ lossCount r.2 = u64 (lossCount j + (d1 - d) - len r.1).
Proof.
  induction 1 as [|o ops Ho Hops IH]; intros d j Hj Hs Hn Hl; cbv zeta; simpl.
  { split; [constructor|]. exists d, []. split; [apply delivered_nil|]. split; [done|].
    rewrite <- Hl at 1. f_equal. rewrite len_nil. lia. }
  pose proof (jinv_step P o j Ho Hj) as Hj'.
  destruct o as [n now seq ts payload|n now|ms].
  - simpl in *. destruct (push_unchanged n now seq ts payload j) as (E1 & E2 & E3 & _).
    specialize (IH d _ Hj'). rewrite E1, E2, E3 in IH. specialize (IH Hs Hn Hl). by destruct (jrun ops _).
  - unfold jstep in *. pose proof (PopReady_popped n now j) as Hp. destruct Hp as [|_ Hf|fr _ Hf|q fr Hs' Hf].
    + specialize (IH d j Hj Hs Hn Hl). by destruct (jrun ops j).
    + specialize (IH (d + 1) _ Hj' Hs). simpl in IH. rewrite Hn, u16_next in IH.
      specialize (IH eq_refl (Zmod_mod _ _)). destruct (jrun ops _) as [outs j1]. simpl in *.
      destruct IH as (HP & d1 & offs & Hd & Hn1 & Hl1). split; [done|]. exists d1, offs.
      split; [by apply delivered_skip|]. split; [done|]. rewrite Hl1.
      transitivity (u64 (u64 (lossCount j + 1) + (d1 - (d + 1) - len outs))); [f_equal; lia|].
      rewrite u64_add_l. f_equal. lia.
    + destruct (jinv_frame P j Hj _ _ Hf) as (Hq & _ & HPf).
      specialize (IH (d + 1) _ Hj' Hs). simpl in IH. rewrite Hn, u16_next in IH.
      specialize (IH eq_refl Hl). destruct (jrun ops _) as [outs j1]. simpl in *.
      destruct IH as (HP & d1 & offs & Hd & Hn1 & Hl1). split; [by constructor|]. exists d1, (d :: offs).
      split; [apply delivered_cons; [congruence|done]|]. split; [done|]. rewrite Hl1, len_cons. f_equal. lia.
    + congruence.
  - specialize (IH d (SetTargetMs ms j) Hj' Hs Hn Hl). simpl in *. by destruct (jrun ops _).
Qed.

Lemma jrun_from P ops : Forall (op_ok P) ops -> forall j,
  jinv P j -> started j = false -> lossCount j = 0 ->
  let r := jrun ops j in
  Forall P r.1 /\ exists s d offs, delivered s 0 d r.1 offs /\ lossCount r.2 = u64 (d - len r.1)
    /\ (started r.2 = true -> nextSeq r.2 = u16 (s + d)).
Proof.
  induction 1 as [|o ops Ho Hops IH]; intros j Hj Hs Hl; cbv zeta; simpl.
  { split; [constructor|]. exists 0, 0, []. split; [apply delivered_nil|]. split; [done|congruence]. }
  pose proof (jinv_step P o j Ho Hj) as Hj'. destruct o as [n now seq ts payload|n now|ms].
  - simpl in *. destruct (push_unchanged n now seq ts payload j) as (E1 & E2 & E3 & _).
    specialize (IH _ Hj'). rewrite E1, E3 in IH. specialize (IH Hs Hl). by destruct (jrun ops _).
  - unfold jstep in *. pose proof (PopReady_popped n now j) as Hp.
    destruct Hp as [|Hs' _|fr Hs' _|q fr _ Hf]; try congruence.
    + specialize (IH j Hj Hs Hl). by destruct (jrun ops j).
    + destruct (jinv_frame P j Hj _ _ Hf) as (Hq & Hr & HPf).
      destruct (jrun_started P ops q Hops 1 _ Hj') as (HP & d1 & offs & Hd & Hn1 & Hl1); simpl; [done|done|by rewrite Hl|].
      destruct (jrun ops _) as [outs j1]. simpl in *. split; [by constructor|]. exists q, d1, (0 :: offs).
      split; [apply delivered_cons; [|done]|split; [|done]].
      * rewrite Z.add_0_r. unfold u16. rewrite Z.mod_small by lia. done.
      * rewrite Hl1, Hl, len_cons. f_equal. lia.
  - specialize (IH (SetTargetMs ms j) Hj' Hs Hl). simpl in *. by destruct (jrun ops _).
Qed.

Lemma maxFrames_run ops j : maxFrames (jrun ops j).2 = maxFrames j.
Proof.
  revert j. induction ops as [|o ops IH]; intros j; simpl; [done|].
  assert (maxFrames (jstep o j).1 = maxFrames j) as E.
  { destruct o; simpl; [apply push_unchanged| |done]. by destruct (PopReady_popped n now j). }
  destruct (jstep o j) as [j' out]. specialize (IH j'). destruct (jrun ops j'). simpl in *. congruence.
Qed.

Lemma jinv_run P ops j : Forall (op_ok P) ops -> jinv P j -> jinv P (jrun ops j).2.
Proof.
  intros Hops. revert j. induction Hops as [|o ops Ho Hops IH]; intros j Hj; simpl; [done|].
  pose proof (jinv_step P o j Ho Hj) as Hj'. destruct (jstep o j) as [j' out]. specialize (IH j' Hj').
  by destruct (jrun ops j').
Qed.


(** ** Recovery from loss *)

(** At [now] the next frame is overdue. *)
Definition overdue (j : JitterBuffer) (now : Z) : Prop :=
  match lastPop j with None => True | Some t => skip_wait j < time_sub now t end.

Lemma overdue_skips j now : frames j <> ∅ -> overdue j now -> shouldSkipMissingLocked now j = true.
Proof.
  intros Hf Ho. unfold shouldSkipMissingLocked, overdue in *. destruct (lastPop j).
  - by rewrite (proj2 (Z.ltb_lt _ _) Ho).
  - apply Z.ltb_lt.
    destruct (size (frames j)) eqn:E; [|lia]. by apply map_size_empty_inv in E.
Qed.

Definition nearest (j : JitterBuffer) (d : nat) (fr : Frame) : Prop :=
  frames j !! u16 (nextSeq j + Z.of_nat d) = Some fr
  /\ forall i, (i < d)%nat -> frames j !! u16 (nextSeq j + Z.of_nat i) = None.

(** Some number is the first one held. *)
Lemma nearest_exists P j : jinv P j -> frames j <> ∅ -> exists d fr, (d < 2 ^ 16)%nat /\ nearest j d fr.
Proof.
  intros Hj Hf. destruct (map_choose _ Hf) as (q & fr & Hq).
  destruct (jinv_frame P j Hj q fr Hq) as (_ & Hr & _).
  set (has := fun d : nat => is_Some (frames j !! u16 (nextSeq j + Z.of_nat d))).
  assert (Hb : has (Z.to_nat ((q - nextSeq j) mod 2 ^ 16))).
  { unfold has. exists fr. rewrite Z2Nat.id by (apply Z.mod_pos_bound; lia). unfold u16.
    rewrite Zplus_mod_idemp_r. replace (nextSeq j + (q - nextSeq j)) with q by lia.
    by rewrite Z.mod_small by lia. }
  assert (Z.to_nat ((q - nextSeq j) mod 2 ^ 16) < 2 ^ 16)%nat as Hlt.
  { pose proof (Z.mod_pos_bound (q - nextSeq j) (2 ^ 16) ltac:(lia)).
    change (2 ^ 16)%nat with (Z.to_nat (2 ^ 16)). lia. }
  revert Hb Hlt. generalize (Z.to_nat ((q - nextSeq j) mod 2 ^ 16)) as b. generalize (2 ^ 16)%nat as N.
  intros N b. induction b as [b IH] using lt_wf_ind. intros [fr' Hb] HN.
  destruct (decide (Exists has (seq 0 b))) as [Hex|Hno].
  - apply Exists_exists in Hex as (i & Hi & Hh). apply elem_of_seq in Hi. apply (IH i); [lia|done|lia].
  - exists b, fr'. split; [done|]. split; [done|]. intros i Hi. apply eq_None_not_Some. intros Hh. apply Hno.
    apply Exists_exists. exists i. split; [apply elem_of_seq; lia|done].
Qed.

Lemma pop_skips n now j : started j = true -> frames j <> ∅ -> overdue j now -> frames j !! nextSeq j = None ->
  PopReady n now j = (skip_next j, None).
Proof.
  intros Hs Hf Ho Hn. unfold PopReady. rewrite size_zero_empty, bool_decide_eq_false_2 by done.
  by rewrite Hs, Hn, overdue_skips.
Qed.

Lemma pop_takes n now j fr : started j = true -> frames j !! nextSeq j = Some fr ->
  PopReady n now j = (take_next now fr j, Some fr).
Proof.
  intros Hs Hn. unfold PopReady. rewrite size_zero_empty, bool_decide_eq_false_2.
  - by rewrite Hs, Hn.
  - intros He. by rewrite He, lookup_empty in Hn.
Qed.

Lemma nearest_skip j d fr : nearest j (S d) fr -> nearest (skip_next j) d fr.
Proof.
  intros [Hd Hn]. assert (forall i, u16 (u16 (nextSeq j + 1) + Z.of_nat i) = u16 (nextSeq j + Z.of_nat (S i))) as E.
  { intros i. unfold u16. rewrite Zplus_mod_idemp_l. f_equal. lia. }
  assert (forall q, frames j !! q = None -> frames (skip_next j) !! q = None) as Hdel.
  { intros q Hq. simpl. rewrite lookup_delete_None. by right. }
  split; simpl; rewrite ?E.
  - rewrite lookup_delete_Some. split; [|done]. intros He.
    specialize (Hn 0%nat ltac:(lia)). rewrite Z.add_0_r in Hn. rewrite <- He in Hd.
    assert (u16 (nextSeq j) = nextSeq j) as Hu.
    { rewrite He. unfold u16. rewrite Z.mod_mod by lia. done. }
    congruence.
  - intros i Hi. rewrite E. apply Hdel. apply Hn. lia.
Qed.

(** C32: a lost frame does not stop a call.  While the buffer holds anything,
    there is a first held sequence number, [d] < 2^16 places ahead; polls made
    more than half the target delay after the last frame was handed out give up
    on the [d] missing ones, one each, and the poll after them hands the frame
    out.  The losses are counted and nothing else is removed. *)
Theorem lxst_jitter_recovers P j : jinv P j -> started j = true -> frames j <> ∅ ->
  exists d fr, (d < 2 ^ 16)%nat /\ nearest j d fr
    /\ forall polls n now, length polls = d -> Forall (fun p => overdue j p.2) polls ->
       exists j', jrun (map (fun p => JPop p.1 p.2) polls ++ [JPop n now]) j = ([fr], j')
         /\ frames j' = delete (u16 (nextSeq j + Z.of_nat d)) (frames j)
         /\ nextSeq j' = u16 (nextSeq j + Z.of_nat d + 1)
         /\ u64 (lossCount j') = u64 (lossCount j + Z.of_nat d) /\ lastPop j' = Some now.
Proof.
  intros Hj Hs Hf. destruct (nearest_exists P j Hj Hf) as (d & fr & Hd & Hn).
  exists d, fr. split; [done|]. split; [done|]. clear Hd.
  intros polls n now Hl Ho. revert d j Hj Hs Hf Hn Hl Ho.
  induction polls as [|[n0 t] polls IH]; intros d j Hj Hs Hf Hn Hl Ho; subst d; cbn [length] in *.
  - rewrite Z.add_0_r. destruct Hn as [Hn _]. rewrite Z.add_0_r in Hn.
    assert (u16 (nextSeq j) = nextSeq j) as Hu by (apply Z.mod_small, Hj). rewrite Hu in *.
    eexists. simpl. rewrite (pop_takes n now j fr Hs Hn). simpl.
    split; [reflexivity|]. simpl. rewrite Z.add_0_r. done.
  - apply Forall_cons in Ho as [Ho1 Ho2]. simpl in Ho1.
    assert (frames j !! nextSeq j = None) as Hx.
    { destruct Hn as [_ Hn]. specialize (Hn 0%nat ltac:(lia)). rewrite Z.add_0_r in Hn. unfold u16 in Hn.
      by rewrite Z.mod_small in Hn by apply Hj. }
    assert (frames (skip_next j) = frames j) as Hsame by (simpl; by apply delete_id).
    destruct (IH (length polls) (skip_next j)) as (j' & Hr & H1 & H2 & H3 & H4); try done.
    { apply (jinv_popped P t j (skip_next j, None)); [by constructor|exact Hj]. }
    { by rewrite Hsame. }
    { by apply nearest_skip. }
    exists j'. simpl. rewrite (pop_skips n0 t j Hs Hf Ho1 Hx). simpl in Hr. rewrite Hr. split; [done|].
    rewrite Hsame in H1. simpl in H1, H2, H3. rewrite u64_add_l in H3.
    assert (forall k, u16 (u16 (nextSeq j + 1) + k) = u16 (nextSeq j + 1 + k)) as E
      by (intros k; unfold u16; by rewrite Zplus_mod_idemp_l).
    split_and!; [rewrite H1, E; do 2 f_equal; lia| |rewrite H3; f_equal; lia|done].
    rewrite H2, <- Z.add_assoc, E. f_equal. lia.
Qed.

(** ** Consecutive arrivals

    A buffer that is fed consecutive numbers, as a call does, is a queue. *)

(** [j] holds the payloads [q], the last one under the number [k]. *)
Record queue_of (j : JitterBuffer) (k : Z) (q : list bytes) : Prop := {
  q_size : Z.of_nat (size (frames j)) = len q;
  q_max : len q <= maxFrames j < 2 ^ 15;
  q_held : forall i p, q !! i = Some p -> exists fr, frames j !! u16 (k + 1 - len q + Z.of_nat i) = Some fr /\ Payload fr = p;
  q_only : forall x fr, frames j !! x = Some fr -> exists i, (i < length q)%nat /\ x = u16 (k + 1 - len q + Z.of_nat i);
  q_next : started j = true -> nextSeq j = u16 (k + 1 - len q);
}.

Lemma queue_push j k q n now ts payload : queue_of j k q -> len q < maxFrames j ->
  queue_of (push n now (u16 (k + 1)) ts payload j) (k + 1) (q ++ [payload]).
Proof.
  intros [Hz Hm Hh Ho Hn] Hl. set (s := k + 1 - len q) in *. pose proof (len_nonneg q).
  assert (u16 (k + 1) = u16 (s + len q)) as Ek by (subst s; f_equal; lia).
  assert (frames j !! u16 (k + 1) = None) as Hnew.
  { destruct (frames j !! u16 (k + 1)) as [fr|] eqn:E; [|done]. exfalso.
    apply Ho in E as (i & Hi & E). rewrite Ek in E. apply u16_window in E; unfold len in *; lia. }
  unfold push. cbn [started count_recv nextSeq frames set_origin maxFrames set_frames].
  assert (started j && seqLess (u16 (k + 1)) (nextSeq j) = false) as ->.
  { destruct (started j) eqn:Es; [|done]. cbn [andb]. rewrite (Hn eq_refl), Ek, <- (Z.add_0_r s), <- Z.add_assoc.
    rewrite seqLess_window by lia. apply Z.ltb_ge. lia. }
  set (f := mkFrame _ _ _ _).
  assert (size (<[u16 (k + 1) := f]> (frames j)) = S (size (frames j))) as Hsz by by apply map_size_insert_None.
  rewrite Hsz. rewrite (proj2 (Z.ltb_ge _ _)) by lia.
  assert (k + 1 + 1 - len (q ++ [payload]) = s) as Es by (rewrite len_app; change (len [payload]) with 1; lia).
  split; rewrite ?Es; cbn [frames set_frames maxFrames started nextSeq].
  - rewrite Hsz, len_app. change (len [payload]) with 1. lia.
  - rewrite len_app. change (len [payload]) with 1. simpl. lia.
  - intros i p Hi. apply lookup_app_Some in Hi as [Hi|[Hge Hi]].
    + destruct (Hh i p Hi) as (fr & Hfr & Hp). exists fr. split; [|done]. rewrite lookup_insert_ne; [done|].
      intros E. rewrite E, Hfr in Hnew. done.
    + apply list_lookup_singleton_Some in Hi as [Hi <-]. exists f. split; [|done].
      replace (s + Z.of_nat i) with (s + len q) by (unfold len; lia). rewrite <- Ek. by rewrite lookup_insert_eq.
  - intros x fr [[<- _]|[_ Hx]]%lookup_insert_Some; rewrite length_app; simpl.
    + exists (length q). split; [lia|]. by rewrite Ek.
    + apply Ho in Hx as (i & Hi & ->). exists i. split; [lia|done].
  - intros Hst. exact (Hn Hst).
Qed.

Lemma queue_pop_empty j k n now : queue_of j k [] -> PopReady n now j = (j, None).
Proof. intros [Hz _ _ _ _]. unfold PopReady. by rewrite Hz. Qed.

Lemma queue_pop j k p q n now : queue_of j k (p :: q) ->
  exists j' fr, PopReady n now j = (j', Some fr) /\ Payload fr = p /\ queue_of j' k q.
Proof.
  intros [Hz Hm Hh Ho Hn]. rewrite len_cons in *. pose proof (len_nonneg q). set (s := k + 1 - (1 + len q)) in *.
  destruct (Hh 0%nat p eq_refl) as (fr & Hfr & Hp). rewrite Z.add_0_r in Hfr.
  set (j1 := if started j then j else start_at (lowestSeqLocked n j) j).
  assert (frames j1 = frames j /\ nextSeq j1 = u16 s /\ maxFrames j1 = maxFrames j /\ started j1 = true) as (E1 & E2 & E3 & E4).
  { unfold j1. destruct (started j) eqn:Es; [by rewrite Hn|]. cbn [frames start_at nextSeq maxFrames started].
    split_and!; try done. unfold lowestSeqLocked. rewrite (scan_min_least _ (u16 s)); [done| |].
    - rewrite shuffle_perm. apply elem_of_keys. eauto.
    - intros x Hx. rewrite shuffle_perm in Hx. apply elem_of_keys in Hx as [fr' Hx].
      apply Ho in Hx as (i & Hi & ->). simpl in Hi. assert (u16 s = u16 (s + 0)) as E0 by (f_equal; lia).
      destruct i as [|i]; [left; f_equal; lia|]. right.
      unfold len in *. rewrite E0, !seqLess_window by lia. split; [apply Z.ltb_lt|apply Z.ltb_ge]; lia. }
  exists (take_next now fr j1), fr. split; [|split; [done|]].
  - unfold PopReady. rewrite Hz. rewrite (proj2 (Z.eqb_neq _ 0)) by lia. fold j1. cbv zeta. by rewrite E1, E2, Hfr.
  - assert (k + 1 - len q = s + 1) as Es by (subst s; lia).
    assert (forall i, u16 (s + 1 + Z.of_nat i) = u16 (s + Z.of_nat (S i))) as Eu by (intros; f_equal; lia).
    split; rewrite ?Es; cbn [frames take_next maxFrames started nextSeq]; rewrite ?E1, ?E2, ?E3, ?E4.
    + rewrite map_size_delete, Hfr. simpl. lia.
    + lia.
    + intros i p' Hi. rewrite Eu. destruct (Hh (S i) p' Hi) as (fr' & Hfr' & Hp'). exists fr'. split; [|done].
      rewrite lookup_delete_ne; [done|]. intros E. rewrite <- (Z.add_0_r s) in E at 1.
      apply lookup_lt_Some in Hi. apply u16_window in E; unfold len in *; lia.
    + intros x fr' [Hne Hx]%lookup_delete_Some. apply Ho in Hx as (i & Hi & ->). simpl in Hi.
      destruct i as [|i]; [by rewrite Z.add_0_r in Hne|]. exists i. rewrite Eu. split; [lia|done].
    + intros _. unfold u16. rewrite Zplus_mod_idemp_l. done.
Qed.

Lemma queue_new t m : 0 < m < 2 ^ 15 -> forall k, queue_of (NewJitterBuffer t m) k [].
Proof.
  intros Hm k. split; cbn [frames NewJitterBuffer maxFrames started].
  - by rewrite map_size_empty.
  - rewrite (proj2 (Z.leb_gt m 0)) by lia. rewrite len_nil. lia.
  - done.
  - intros x fr Hx. by rewrite lookup_empty in Hx.
  - done.
Qed.

Lemma queue_target j k q ms : queue_of j k q -> queue_of (SetTargetMs ms j) k q.
Proof. intros [H1 H2 H3 H4 H5]. by split. Qed.
End props.

(** ** The controller *)

Definition adaptive_ok (a : AdaptiveController) : Prop :=
  MinBitrate <= bitrate a <= MaxBitrate /\ jitterFloor <= jitterMs a <= jitterCeilPoor.

Lemma clampInt_range v lo hi : lo <= hi -> lo <= clampInt v lo hi <= hi.
Proof. intros. unfold clampInt. repeat case_match; bool_hyps; lia. Qed.

Lemma clampInt_spec v lo hi : lo <= hi -> clampInt v lo hi = Z.max lo (Z.min hi v).
Proof. intros. unfold clampInt. repeat case_match; bool_hyps; lia. Qed.

(** The verdicts on the link. *)
Definition poor (m : LinkMetrics) : Prop := fltb (scoreMetrics m) poorScore = true.
Definition good (m : LinkMetrics) : Prop :=
  fltb (scoreMetrics m) poorScore = false /\ fltb (scoreMetrics m) fairScore = false.

(** The three branches of [Update]. *)
Inductive adapted (now : Z) (a : AdaptiveController) (fec : bool) : AdaptiveController -> Prop :=
| adapt_poor : adapted now a fec
    (mkAdaptive (clampInt (bitrate a - 4000) 6000 128000) fec (clampInt (jitterMs a + 20) 40 300) (Some now))
| adapt_fair : adapted now a fec (mkAdaptive (bitrate a) fec (clampInt (jitterMs a + 5) 40 200) (Some now))
| adapt_good : adapted now a fec
    (mkAdaptive (clampInt (bitrate a + 2000) 6000 128000) fec (clampInt (jitterMs a - 10) 40 160) (Some now)).

Lemma Update_adapted now m a : exists fec, adapted now a fec (Update now m a).
Proof.
  unfold Update. destruct (fltb (scoreMetrics m) poorScore); [eexists; constructor|].
  destruct (fltb (scoreMetrics m) fairScore); eexists; constructor.
Qed.

Lemma adapted_ok now a fec a' : adapted now a fec a' -> adaptive_ok a -> adaptive_ok a'.
Proof.
  unfold adaptive_ok, MinBitrate, MaxBitrate, jitterFloor, jitterCeilPoor.
  intros [] [Hb Hj]; cbn [bitrate jitterMs]; rewrite ?clampInt_spec by lia; lia.
Qed.

Lemma Update_ok now m a : adaptive_ok a -> adaptive_ok (Update now m a).
Proof. destruct (Update_adapted now m a) as [fec Hu]. by apply (adapted_ok now a fec). Qed.

Definition poor_state (now : Z) (a : AdaptiveController) : AdaptiveController :=
  mkAdaptive (clampInt (bitrate a - 4000) 6000 128000) true (clampInt (jitterMs a + 20) 40 300) (Some now).

Lemma Update_poor now m a : poor m -> Update now m a = poor_state now a.
Proof. unfold poor, Update. by intros ->. Qed.

Lemma Update_good now m a : good m -> exists fec, Update now m a =
  mkAdaptive (clampInt (bitrate a + 2000) 6000 128000) fec (clampInt (jitterMs a - 10) 40 160) (Some now).
Proof. unfold good, Update. intros [-> ->]. eauto. Qed.

Lemma poor_steps now a n : adaptive_ok a -> 0 <= n ->
  Z.max MinBitrate (bitrate (poor_state now a) - bitrateStepDown * n) = Z.max MinBitrate (bitrate a - bitrateStepDown * (1 + n))
  /\ Z.min jitterCeilPoor (jitterMs (poor_state now a) + jitterStepPoor * n) = Z.min jitterCeilPoor (jitterMs a + jitterStepPoor * (1 + n)).
Proof.
  unfold adaptive_ok, MinBitrate, MaxBitrate, jitterFloor, jitterCeilPoor, bitrateStepDown, jitterStepPoor, poor_state.
  cbn [bitrate jitterMs]. intros [Hb Hj] Hn. rewrite !clampInt_spec by lia. lia.
Qed.

(** A sequence of reports, for any update function with these branches. *)
Section reports.
Context (upd : Z -> LinkMetrics -> AdaptiveController -> AdaptiveController).
Context (upd_ok : forall now m a, adaptive_ok a -> adaptive_ok (upd now m a)).
Context (upd_poor : forall now m a, poor m -> upd now m a = poor_state now a).
Context (upd_good : forall now m a, good m -> exists fec, upd now m a =
  mkAdaptive (clampInt (bitrate a + 2000) 6000 128000) fec (clampInt (jitterMs a - 10) 40 160) (Some now)).

Fixpoint reports (l : list (Z * LinkMetrics)) (a : AdaptiveController) : AdaptiveController :=
  match l with
  | [] => a
  | (now, m) :: l => reports l (upd now m a)
  end.

Lemma reports_ok l a : adaptive_ok a -> adaptive_ok (reports l a).
Proof. revert a. induction l as [|[now m] l IH]; intros a Ha; cbn [reports]; auto. Qed.

Lemma reports_poor l a : Forall (fun u => poor u.2) l -> adaptive_ok a ->
  bitrate (reports l a) = Z.max MinBitrate (bitrate a - bitrateStepDown * len l)
  /\ jitterMs (reports l a) = Z.min jitterCeilPoor (jitterMs a + jitterStepPoor * len l)
  /\ (useFEC a = true \/ l <> [] -> useFEC (reports l a) = true).
Proof.
  intros Hl. revert a. induction Hl as [|[now m] l Hm Hl IH]; intros a Ha; cbn [reports].
  - change (len (@nil (Z * LinkMetrics))) with 0. destruct Ha. split_and!; [lia|lia|naive_solver].
  - pose proof (upd_ok now m a Ha) as Ha'. rewrite (upd_poor now m a Hm) in *.
    destruct (IH _ Ha') as (E1 & E2 & E3). rewrite E1, E2, len_cons.
    destruct (poor_steps now a (len l) Ha (len_nonneg l)) as [-> ->]. split_and!; try done.
    intros _. apply E3. by left.
Qed.

Lemma reports_good l a : Forall (fun u => good u.2) l -> adaptive_ok a -> l <> [] ->
  bitrate (reports l a) = Z.min MaxBitrate (bitrate a + bitrateStepUp * len l)
  /\ jitterMs (reports l a) = Z.max jitterFloor (Z.min jitterCeilGood (jitterMs a - jitterStepGood) - jitterStepGood * (len l - 1)).
Proof.
  intros Hl. revert a. induction Hl as [|[now m] l Hm Hl IH]; intros a Ha Hne; [done|]. cbn [reports].
  pose proof (upd_ok now m a Ha) as Ha'. destruct (upd_good now m a Hm) as [fec Hu].
  generalize dependent (upd now m a). intros a' Ha' Hu.
  assert (bitrate a' = clampInt (bitrate a + 2000) 6000 128000 /\ jitterMs a' = clampInt (jitterMs a - 10) 40 160) as [E1 E2]
    by (by rewrite Hu).
  rewrite len_cons. pose proof (len_nonneg l) as Hl0.
  unfold adaptive_ok, MinBitrate, MaxBitrate, jitterFloor, jitterCeilPoor, bitrateStepUp, jitterStepGood, jitterCeilGood in *.
  rewrite clampInt_spec in E1, E2 by lia.
  destruct l as [|u l]; [cbn [reports]; change (len (@nil (Z * LinkMetrics))) with 0; lia|].
  destruct (IH a' Ha' ltac:(done)) as [-> ->]. lia.
Qed.
End reports.

Definition updates : list (Z * LinkMetrics) -> AdaptiveController -> AdaptiveController := reports Update.

(** The adaptive controller stays within its limits whatever the metrics
    (NaN and infinities included), and follows a steady link to the end of its
    range: [k] reports of a poor link in a row lower the bitrate by [k] steps
    down to [MinBitrate], deepen the jitter buffer by [k] steps up to its
    ceiling and switch error correction on; [k] good ones raise the bitrate by
    [k] steps up to [MaxBitrate] and bring the depth down to its floor. *)
Theorem lxst_adaptive_control history l :
  let a := updates history NewAdaptiveController in
  adaptive_ok a
  /\ (Forall (fun u => poor u.2) l -> l <> [] ->
      bitrate (updates l a) = Z.max MinBitrate (bitrate a - bitrateStepDown * len l)
      /\ jitterMs (updates l a) = Z.min jitterCeilPoor (jitterMs a + jitterStepPoor * len l)
      /\ useFEC (updates l a) = true)
  /\ (Forall (fun u => good u.2) l -> l <> [] ->
      bitrate (updates l a) = Z.min MaxBitrate (bitrate a + bitrateStepUp * len l)
      /\ jitterMs (updates l a)
         = Z.max jitterFloor (Z.min jitterCeilGood (jitterMs a - jitterStepGood) - jitterStepGood * (len l - 1))).
Proof.
  intros a. assert (adaptive_ok a) as Ha by (apply (reports_ok Update Update_ok); repeat split; vm_compute; done).
  split; [done|]. split; intros Hl Hne; [|by apply (reports_good Update Update_ok Update_good)].
  destruct (reports_poor Update Update_ok Update_poor l a Hl Ha) as (E1 & E2 & E3). auto 6.
Qed.

(** ** Witnesses *)

#[local] Instance lxst_plain_order : MapOrder := { shuffle := fun _ l => l; shuffle_perm := fun _ l => Permutation_refl l }.

Definition bad_link : LinkMetrics :=
  mkMetrics (f_of_Z 3) (f_of_Z 0) (f_of_Z 0) (f_of_Z 0) (f_const 1 2) (f_of_Z 250) 0 false.

Example bad_link_poor : bitrate (updates [(0, bad_link); (1, bad_link); (2, bad_link)] NewAdaptiveController) = 6000.
Proof. vm_compute. reflexivity. Qed.

(** A metric that is not a number is taken for a good link. *)
Example nan_is_good : good (mkMetrics SpecFloat.S754_nan (f_of_Z 0) (f_of_Z 0) (f_of_Z 0) (f_of_Z 0) (f_of_Z 0) 0 false).
Proof. split; vm_compute; reflexivity. Qed.

Definition lossy_run : list jop :=
  [JPush 0 0 65534 0 [x01]; JPush 0 0 1 0 [x02]; JPop 0 5; JPop 0 100000000; JPop 0 100000001; JPop 0 100000002].


(** Frames 65535 and 0 are lost. *)
Definition lossy_buffer : JitterBuffer :=
  (jrun [JPush 0 0 65534 0 [x01]; JPush 0 0 1 0 [x02]; JPop 0 5] (NewJitterBuffer 0 0)).2.

Lemma lxst_jitter_recovers_witness :
  exists d fr, (d < 2 ^ 16)%nat /\ nearest lossy_buffer d fr.
Proof.
  destruct (lxst_jitter_recovers (fun _ => True) lossy_buffer) as (d & fr & H1 & H2 & _).
  - apply jinv_run; [|apply jitter_inv_new].
    repeat (apply Forall_cons; split); try apply Forall_nil; try exact I; (split; [lia|unfold pushed; simpl; auto]).
  - vm_compute. reflexivity.
  - apply (bool_decide_unpack _). vm_compute. exact I.
  - exists d, fr. split; [exact H1|exact H2].
Defined.
