(* ===== verification/LxstCall.v ===== *)
(** * LXST calls ([pkg/lxst/call])

    The call object: its states, the signals of the peer, answering, rejecting
    and ending, profiles and modes, and the media path up to the codecs
    ([call.go], [signaling.go], [access.go], [codec.go], [timing.go] and the
    state changes of [pipeline.go]).

    A call is shared by goroutines: the application, the callbacks of the link,
    timers and the media loops.  Each operation is a function on the state of
    the call; operations that other goroutines can interleave with are cut where
    they can be overtaken ([Dial], [ServeIncoming] and [Answer] after they have
    claimed the call; timers and retry loops at their sleeps), the goroutine in
    the middle being recorded in the state.  What the link, the codecs and the
    audio device answer is given by an environment [env], one per step. *)

From stdpp Require Import base tactics list gmap strings.
From Stdlib Require Import ZArith Lia.
From S2P Require Import Prelude GoFloat SeqWindow Msgpack LxstProto LxstMedia.

(** ** Data *)

Inductive call_error :=
| ErrNotActive | ErrAlreadyCall | ErrNoIdentity | ErrRemoteRequired | ErrNotRinging | ErrNotIncoming
| ErrInvalidMode | ErrPipelinesClosed | ErrCallEnded | ErrStateTimeout | ErrAnswerRaced | ErrBlocked
| ErrRateLimited | ErrInvalidProfile
| ErrLink                       (** an error of the Reticulum link *)
| ErrCodec | ErrDevice          (** of a codec, of the audio device *)
| ErrContext
| ErrPack (e : proto_error).

Inductive State := StateIdle | StateRinging | StateConnecting | StateActive | StateEnded.

#[export] Instance State_eq_dec : EqDecision State.
Proof. solve_decision. Defined.
#[export] Instance call_error_eq_dec : EqDecision call_error.
Proof. solve_decision. Defined.

Definition second : Z := 1000 * Millisecond.
Definition DefaultRingTime : Z := 60 * second.
Definition DefaultWaitTime : Z := 70 * second.
Definition DefaultConnectTime : Z := 5 * second.
Definition DefaultAnnounceInterval : Z := 3 * 3600 * second.
Definition defaultJitterTargetMs : Z := 80.
Definition defaultJitterMaxFrames : Z := 32.
Definition availableResendCount : nat := 25.
Definition identifyRetryCount : nat := 8.
Definition captureSkipMs : Z := 75.
Definition captureEaseMs : Z := 225.
Definition maxLossPercent : Z := 100.
Definition DefaultSampleRate : Z := 48000.
Definition AllowAll : Z := 0xFF.
Definition AllowNone : Z := 0xFE.

(** [Device]: the application gave its own audio device. *)
Record Config := mkConfig {
  CfgAppName : bytes; CfgAspectName : bytes; Identity : option bytes; UseAudio : bool; Device : bool;
  Profile : Z; Mode : Z; RingTime : Z; WaitTime : Z; ConnectTime : Z; AutoAnswer : Z; AnnounceInterval : Z;
  AllowPolicy : Z; Allowed : list bytes; Blocked : list bytes; AllowFunc : option (bytes -> bool)
}.

Definition or_default {A} `{EqDecision A} (zero d x : A) : A := if decide (x = zero) then d else x.

Definition withDefaults (cfg : Config) : Config :=
  {| CfgAppName := or_default [] AppName (CfgAppName cfg);
     CfgAspectName := or_default [] AspectName (CfgAspectName cfg);
     Identity := Identity cfg;
     UseAudio := UseAudio cfg || Device cfg;
     Device := Device cfg;
     Profile := or_default 0 DefaultProfile (Profile cfg);
     Mode := or_default 0 DefaultMode (Mode cfg);
     RingTime := or_default 0 DefaultRingTime (RingTime cfg);
     WaitTime := or_default 0 DefaultWaitTime (WaitTime cfg);
     ConnectTime := or_default 0 DefaultConnectTime (ConnectTime cfg);
     AutoAnswer := AutoAnswer cfg;
     AnnounceInterval := or_default 0 DefaultAnnounceInterval (AnnounceInterval cfg);
     AllowPolicy :=
       if (AllowPolicy cfg =? 0) && (len (Allowed cfg) =? 0)
          && match AllowFunc cfg with None => true | Some _ => false end
       then AllowAll else AllowPolicy cfg;
     Allowed := Allowed cfg; Blocked := Blocked cfg; AllowFunc := AllowFunc cfg |}.

(** What a call does to the outside. *)
Inductive event := OnRinging | OnAnswered | OnBusy | OnRejected | OnEnded (reason : string) | OnStats.

Inductive act :=
| ASend (payload : bytes)               (** a packet given to the link *)
| AIdentify                             (** the local identity given to the link *)
| ATeardown
| AEvent (e : event)
| ABusyTone | ARingtone | ADialTone
| ADecode (p : CodecParams) (payload : bytes)   (** a frame given to the decoder of [p] *)
| ASetBitrate (br : Z) (fec : bool) (loss : option Z)
| ACloseDevice.

(** A goroutine of [armTimeout]. *)
Inductive timeout := CallTimeout | ConnectTimeout | IdentifyTimeout | RingTimeout.

#[export] Instance timeout_eq_dec : EqDecision timeout.
Proof. solve_decision. Defined.

(** The codecs are named by their parameters; [device] says whether the call
    owns it; [peer] is the link and whether it is active.  [dialing],
    [serving], [answering], [resends], [identifyTries] and [timers] are the
    goroutines that are in the middle of an operation; [trace] is what was done
    so far. *)
Record Call := mkCall {
  cfg : Config; state : State; status : Z; profile : Z; callMode : Z; muted : bool; mutedRX : bool;
  squelched : bool; incoming : bool; answered : bool; identified : bool; modeFollowOff : bool; frameSeq : Z;
  recvCount : Z; sentCount : Z; peer : option bool; jitter : JitterBuffer; adaptive : AdaptiveController;
  agcPaused : bool; encoder : option CodecParams; decoder : option CodecParams; device : option bool;
  params : CodecParams; recvKind : byte; skipLeft : Z; easeLeft : Z; easeTotal : Z; opened : bool; started : bool;
  txArmed : bool; ringStopped : bool; ended : bool; endErr : option call_error; dialing : bool; serving : bool;
  answering : nat; resends : nat; identifyTries : option nat; timers : list timeout; trace : list act
}.

Definition Call_eta (c : Call) : Call :=
  mkCall (cfg c) (state c) (status c) (profile c) (callMode c) (muted c) (mutedRX c) (squelched c) (incoming c)
    (answered c) (identified c) (modeFollowOff c) (frameSeq c) (recvCount c) (sentCount c) (peer c) (jitter c)
    (adaptive c) (agcPaused c) (encoder c) (decoder c) (device c) (params c) (recvKind c) (skipLeft c)
    (easeLeft c) (easeTotal c) (opened c) (started c) (txArmed c) (ringStopped c) (ended c) (endErr c) (dialing c)
    (serving c) (answering c) (resends c) (identifyTries c) (timers c) (trace c).

Definition set_state : State -> Call -> Call := ltac:(field_setter Call_eta state).
Definition set_status : Z -> Call -> Call := ltac:(field_setter Call_eta status).
Definition set_profile : Z -> Call -> Call := ltac:(field_setter Call_eta profile).
Definition set_callMode : Z -> Call -> Call := ltac:(field_setter Call_eta callMode).
Definition set_muted : bool -> Call -> Call := ltac:(field_setter Call_eta muted).
Definition set_mutedRX : bool -> Call -> Call := ltac:(field_setter Call_eta mutedRX).
Definition set_squelched : bool -> Call -> Call := ltac:(field_setter Call_eta squelched).
Definition set_incoming : bool -> Call -> Call := ltac:(field_setter Call_eta incoming).
Definition set_answered : bool -> Call -> Call := ltac:(field_setter Call_eta answered).
Definition set_identified : bool -> Call -> Call := ltac:(field_setter Call_eta identified).
Definition set_modeFollowOff : bool -> Call -> Call := ltac:(field_setter Call_eta modeFollowOff).
Definition set_frameSeq : Z -> Call -> Call := ltac:(field_setter Call_eta frameSeq).
Definition set_recvCount : Z -> Call -> Call := ltac:(field_setter Call_eta recvCount).
Definition set_sentCount : Z -> Call -> Call := ltac:(field_setter Call_eta sentCount).
Definition set_peer : option bool -> Call -> Call := ltac:(field_setter Call_eta peer).
Definition set_jitter : JitterBuffer -> Call -> Call := ltac:(field_setter Call_eta jitter).
Definition set_adaptive : AdaptiveController -> Call -> Call := ltac:(field_setter Call_eta adaptive).
Definition set_agcPaused : bool -> Call -> Call := ltac:(field_setter Call_eta agcPaused).
Definition set_encoder : option CodecParams -> Call -> Call := ltac:(field_setter Call_eta encoder).
Definition set_decoder : option CodecParams -> Call -> Call := ltac:(field_setter Call_eta decoder).
Definition set_device : option bool -> Call -> Call := ltac:(field_setter Call_eta device).
Definition set_params : CodecParams -> Call -> Call := ltac:(field_setter Call_eta params).
Definition set_recvKind : byte -> Call -> Call := ltac:(field_setter Call_eta recvKind).
Definition set_skipLeft : Z -> Call -> Call := ltac:(field_setter Call_eta skipLeft).
Definition set_easeLeft : Z -> Call -> Call := ltac:(field_setter Call_eta easeLeft).
Definition set_easeTotal : Z -> Call -> Call := ltac:(field_setter Call_eta easeTotal).
Definition set_opened : bool -> Call -> Call := ltac:(field_setter Call_eta opened).
Definition set_started : bool -> Call -> Call := ltac:(field_setter Call_eta started).
Definition set_txArmed : bool -> Call -> Call := ltac:(field_setter Call_eta txArmed).
Definition set_ringStopped : bool -> Call -> Call := ltac:(field_setter Call_eta ringStopped).
Definition set_ended : bool -> Call -> Call := ltac:(field_setter Call_eta ended).
Definition set_endErr : option call_error -> Call -> Call := ltac:(field_setter Call_eta endErr).
Definition set_dialing : bool -> Call -> Call := ltac:(field_setter Call_eta dialing).
Definition set_serving : bool -> Call -> Call := ltac:(field_setter Call_eta serving).
Definition set_answering : nat -> Call -> Call := ltac:(field_setter Call_eta answering).
Definition set_resends : nat -> Call -> Call := ltac:(field_setter Call_eta resends).
Definition set_identifyTries : option nat -> Call -> Call := ltac:(field_setter Call_eta identifyTries).
Definition set_timers : list timeout -> Call -> Call := ltac:(field_setter Call_eta timers).
Definition set_trace : list act -> Call -> Call := ltac:(field_setter Call_eta trace).

Definition emit (a : act) (c : Call) : Call := set_trace (trace c ++ [a]) c.
Definition fire (e : event) (c : Call) : Call := emit (AEvent e) c.

(** ** The environment of a step *)

Inductive open_result := OpenOk | OpenErr | OpenNil.

(** What the link says to a packet (after what was done so far), whether the
    codecs for given parameters can be made, whether an audio device opens and
    starts, the answer to [Identify], what the rate limiter says of a caller,
    the clock, and the number of the next iteration over a map. *)
Record env := mkEnv {
  send_ok : list act -> bytes -> bool; enc_ok : CodecParams -> bool; dec_ok : CodecParams -> bool;
  dev_open : open_result; dev_start : bool; identify_ok : bool; limiter_allows : bytes -> bool;
  now : Z; order : nat
}.

Definition st_eqb (a b : State) : bool := bool_decide (a = b).

(** [casState] and [storeState]; waking the waiters has no state of its own. *)
Definition casState (from to : State) (c : Call) : Call * bool :=
  if st_eqb (state c) from then (set_state to c, true) else (c, false).
Definition storeState (s : State) (c : Call) : Call := set_state s c.

Definition clampInt32 (v : Z) : Z :=
  let v := if 2 ^ 31 - 1 <? v then 2 ^ 31 - 1 else v in
  if v <? - 2 ^ 31 then - 2 ^ 31 else v.

(** [applyProfile] *)
Definition applyProfile (p : Z) (c : Call) : Call :=
  let p := if p =? 0 then DefaultProfile else p in
  let c := set_profile (clampInt32 p) c in
  let pr := ProfileParams p in
  let c := set_params pr c in
  set_jitter (SetTargetMs (FrameMs pr * BufferN pr) (jitter c)) c.

Definition NewCall (cf : Config) : Call :=
  let cf := withDefaults cf in
  let c := mkCall cf StateIdle StatusAvailable 0 (clampInt32 (Mode cf)) false false
             (Mode cf =? ModeHalfDuplex) false false false false 0 0 0 None
             (NewJitterBuffer defaultJitterTargetMs defaultJitterMaxFrames) NewAdaptiveController false
             None None None (mkParams x00 0 0 0 0 0 false) x00 0 0 0 false false false false false None
             false false 0 0 None [] [] in
  applyProfile (Profile cf) c.

(** ** Signals out *)

(** An automatic status that is not below the current one becomes it. *)
Definition note_status (s : Z) (c : Call) : Call :=
  if IsAutoStatus s && (status c <=? s) then set_status (clampInt32 s) c else c.

Definition sendSignals (e : env) (signals : list Z) (c : Call) : Call * option call_error :=
  match peer c with
  | Some true =>
      let c := foldl (fun c s => note_status s c) c signals in
      match PackSignalling signals with
      | Err err => (c, Some (ErrPack err))
      | Ok payload =>
          if send_ok e (trace c) payload then (emit (ASend payload) c, None) else (c, Some ErrLink)
      end
  | _ => (c, Some ErrNotActive)
  end.

(** [_ = c.sendSignals(...)] *)
Definition sendSignals_ (e : env) (signals : list Z) (c : Call) : Call := (sendSignals e signals c).1.

(** ** Ending *)

Definition stopRingtone (c : Call) : Call := set_ringStopped true c.

Definition closing (c : Call) : Call :=
  let c := set_status StatusAvailable c in
  let c := stopRingtone c in
  let owned := bool_decide (device c = Some true) in
  let c := set_encoder None (set_decoder None (set_device None c)) in
  let c := set_opened false (set_started false c) in
  let c := if owned then emit ACloseDevice c else c in
  if bool_decide (peer c = Some true) then emit ATeardown c else c.

Definition end_ (reason : string) (c : Call) : Call :=
  let c := set_ended true c in
  if st_eqb (state c) StateEnded then c
  else fire (OnEnded reason) (closing (storeState StateEnded c)).

Definition armTimeout (d : Z) (k : timeout) (c : Call) : Call :=
  if d <=? 0 then c else set_timers (timers c ++ [k]) c.

Definition stillWaiting (k : timeout) (c : Call) : bool :=
  match k with
  | CallTimeout => status c <? StatusEstablished
  | ConnectTimeout => status c <? StatusRinging
  | IdentifyTimeout => incoming c && st_eqb (state c) StateConnecting
  | RingTimeout => status c <? StatusEstablished
  end.

Definition timeout_reason (k : timeout) : string :=
  match k with
  | CallTimeout => "call timeout"
  | ConnectTimeout => "connect timeout"
  | IdentifyTimeout => "identify timeout"
  | RingTimeout => "ring timeout"
  end.

Fixpoint drop_timer (k : timeout) (l : list timeout) : list timeout :=
  match l with
  | [] => []
  | k' :: l => if decide (k' = k) then l else k' :: drop_timer k l
  end.

(** The timer of [armTimeout] goes off; the goroutine is done. *)
Definition timer_fires (k : timeout) (c : Call) : Call :=
  if bool_decide (k ∈ timers c) then
    let c := set_timers (drop_timer k (timers c)) c in
    if stillWaiting k c && negb (st_eqb (state c) StateEnded) && negb (st_eqb (state c) StateIdle)
    then end_ (timeout_reason k) c else c
  else c.

(** ** Pipelines *)

(** The device of the call: its own result, and whether the call owns it. *)
Definition open_device (e : env) (c : Call) : res call_error bool :=
  if Device (cfg c) then Ok false
  else if UseAudio (cfg c) then
    match dev_open e with OpenOk => Ok true | OpenErr => Err ErrDevice | OpenNil => Err ErrDevice end
  else Ok true.

Definition openPipelines (e : env) (c : Call) : Call * option call_error :=
  if opened c then (c, None)
  else if st_eqb (state c) StateEnded then (c, Some ErrNotActive)
  else
    let c := set_opened true c in
    let pr := ProfileParams (profile c) in
    let c := set_params pr c in
    if negb (enc_ok e pr) then (set_opened false c, Some ErrCodec)
    else if negb (dec_ok e pr) then (set_opened false c, Some ErrCodec)
    else match open_device e c with
    | Err err => (set_opened false c, Some err)
    | Ok owned =>
        if negb (dev_start e) then (set_opened false c, Some ErrDevice)
        else if st_eqb (state c) StateEnded then
          let c := set_opened false c in
          ((if owned then emit ACloseDevice c else c), Some ErrNotActive)
        else
          let c := set_encoder (Some pr) (set_decoder (Some pr) c) in
          let c := set_device (Some owned) c in
          let c := set_recvKind (Codec pr) c in
          let c := if UseAudio (cfg c) && owned then
                     let c := set_skipLeft (Z.quot (DefaultSampleRate * captureSkipMs) 1000) c in
                     let c := set_easeTotal (Z.quot (DefaultSampleRate * captureEaseMs) 1000) c in
                     set_easeLeft (easeTotal c) c
                   else c in
          let c := if incoming c then c else sendSignals_ e [StatusEstablished] c in
          (c, None)
    end.

Definition setSquelchState (on : bool) (c : Call) : Call :=
  if Bool.eqb (squelched c) on then c
  else
    let c := set_squelched on c in
    if st_eqb (state c) StateActive then set_agcPaused on c else c.

Definition applyModeSquelch (c : Call) : Call := setSquelchState (callMode c =? ModeHalfDuplex) c.

Definition startPipelines (c : Call) : Call * option call_error :=
  if started c then (c, None)
  else if st_eqb (state c) StateEnded then (c, Some ErrNotActive)
  else match encoder c with
  | None => (c, Some ErrPipelinesClosed)
  | Some _ => (applyModeSquelch (set_started true c), None)
  end.

Definition armTX (c : Call) : Call := set_txArmed true c.

(** ** Profiles and modes *)

Definition switchProfile (e : env) (p : Z) (c : Call) : Call * option call_error :=
  if negb (st_eqb (state c) StateActive) then (applyProfile p c, None)
  else
    let pr := ProfileParams p in
    if negb (enc_ok e pr) then (c, Some ErrCodec)
    else if negb (dec_ok e pr) then (c, Some ErrCodec)
    else
      let c := applyProfile p c in
      (set_params pr (set_decoder (Some pr) (set_encoder (Some pr) c)), None).

Definition SwitchProfile (e : env) (p : Z) (c : Call) : Call * option call_error :=
  let p := if p =? 0 then DefaultProfile else p in
  if negb (KnownProfile p) then (c, Some ErrInvalidProfile)
  else if st_eqb (state c) StateActive then
    match switchProfile e p c with
    | (c, Some err) => (c, Some err)
    | (c, None) => sendSignals e [SignalPreferredProfile p] c
    end
  else (applyProfile p c, None).

Definition SwitchMode (e : env) (mode : Z) (c : Call) : Call * option call_error :=
  if negb (mode =? ModeFullDuplex) && negb (mode =? ModeHalfDuplex) then (c, Some ErrInvalidMode)
  else
    let c := set_callMode mode c in
    if st_eqb (state c) StateActive then
      sendSignals e [SignalPreferredMode mode] (setSquelchState (mode =? ModeHalfDuplex) c)
    else (set_squelched (mode =? ModeHalfDuplex) c, None).

Definition applyPreferredProfile (e : env) (signal : Z) (c : Call) : Call :=
  let p := ProfileFromSignal signal in
  let p := if p =? 0 then DefaultProfile else p in
  if negb (KnownProfile p) then c
  else if st_eqb (state c) StateActive then (switchProfile e p c).1
  else applyProfile p c.

Definition applyPreferredMode (signal : Z) (c : Call) : Call :=
  if modeFollowOff c then c
  else
    let mode := ModeFromSignal signal in
    if negb (mode =? ModeFullDuplex) && negb (mode =? ModeHalfDuplex) then c
    else
      let c := set_callMode mode c in
      if st_eqb (state c) StateActive then setSquelchState (mode =? ModeHalfDuplex) c
      else set_squelched (mode =? ModeHalfDuplex) c.

(** ** Signals in *)

Definition identifyOnce (e : env) (c : Call) : Call :=
  if incoming c || bool_decide (Identity (cfg c) = None) then c
  else if StatusRinging <=? status c then c
  else if negb (bool_decide (peer c = Some true)) then c
  else if identified c then c
  else
    let c := set_identified true c in
    if identify_ok e then emit AIdentify c else set_identified false c.

Definition startBusyTone (c : Call) : Call := if UseAudio (cfg c) then emit ABusyTone c else c.

Definition startDialTone (c : Call) : Call :=
  if ringStopped c then c else if UseAudio (cfg c) then emit ADialTone c else c.

Definition startRingtone (c : Call) : Call :=
  if negb (UseAudio (cfg c)) then c else if ringStopped c then c else emit ARingtone c.

Definition signalBusy (c : Call) : Call := end_ "busy" (startBusyTone (fire OnBusy c)).
Definition signalRejected (c : Call) : Call := end_ "rejected" (startBusyTone (fire OnRejected c)).

Definition signalRinging (e : env) (c : Call) : Call :=
  let c := set_status StatusRinging c in
  let '(c, became) := casState StateConnecting StateRinging c in
  if became || st_eqb (state c) StateRinging then
    let c := applyProfile (profile c) c in
    let c := sendSignals_ e [SignalPreferredProfile (profile c); SignalPreferredMode (callMode c)] c in
    let c := fire OnRinging c in
    if incoming c then c else startDialTone c
  else c.

Definition signalConnecting (e : env) (c : Call) : Call :=
  let c := set_status StatusConnecting c in
  if incoming c then c else (openPipelines e c).1.

Definition signalEstablished (e : env) (c : Call) : Call :=
  if incoming c then set_status StatusEstablished c
  else
    let c := (openPipelines e c).1 in
    let '(c, became) := casState StateRinging StateActive c in
    let '(c, became) := if became then (c, true) else casState StateConnecting StateActive c in
    let c := if became then set_status StatusEstablished c else c in
    let c := armTX c in
    let c := (startPipelines c).1 in
    if became then fire OnAnswered c else c.

Definition handleSignal (e : env) (signal : Z) (c : Call) : Call :=
  if incoming c && negb (answered c) && (signal <? PreferredMode) then c
  else if signal =? StatusBusy then signalBusy c
  else if signal =? StatusRejected then signalRejected c
  else if signal =? StatusAvailable then identifyOnce e (set_status signal c)
  else if signal =? StatusRinging then signalRinging e c
  else if signal =? StatusConnecting then signalConnecting e c
  else if signal =? StatusEstablished then signalEstablished e c
  else if IsPreferredProfile signal then applyPreferredProfile e signal c
  else if IsPreferredMode signal then applyPreferredMode signal c
  else c.

Definition handleSignals (e : env) (signals : list Z) (c : Call) : Call :=
  foldl (fun c s => handleSignal e s c) c signals.

Section calls.
Context `{MapOrder}.

(** Frames carry no sequence number: they are numbered as they arrive. *)
Definition handleFrame (e : env) (frame : bytes) (c : Call) : Call :=
  if incoming c && negb (answered c) then c
  else if st_eqb (state c) StateIdle || st_eqb (state c) StateEnded then c
  else if len frame <? 1 then c
  else
    let c := set_frameSeq (u32 (frameSeq c + 1)) c in
    let c := set_jitter (push (order e) (now e) (u16 (frameSeq c)) 0 frame (jitter c)) c in
    set_recvCount (u64 (recvCount c + 1)) c.

Definition onPacket (e : env) (data : bytes) (c : Call) : Call :=
  if MaxUnpackBytes <? len data then c
  else match Unpack data with
  | Err _ => c
  | Ok msg =>
      let c := if 0 <? len (Signals msg) then handleSignals e (Signals msg) c else c in
      foldl (fun c f => handleFrame e f c) c (Frames msg)
  end.

(** ** Access *)

Definition callerAllowed (cf : Config) (id : option bytes) : bool :=
  match id with
  | None => false
  | Some hash =>
      if existsb (fun b => bool_decide (b = hash)) (Blocked cf) then false
      else match AllowFunc cf with
      | Some f => f hash
      | None =>
          if AllowPolicy cf =? AllowNone then false
          else if AllowPolicy cf =? AllowAll then true
          else if (AllowPolicy cf =? 0) && (len (Allowed cf) =? 0) then true
          else existsb (fun a => bool_decide (a = hash)) (Allowed cf)
      end
  end.

Definition error_text (err : call_error) : string :=
  match err with ErrBlocked => "caller blocked" | ErrRateLimited => "rate limited" | _ => "" end.

Definition rejectIncoming (e : env) (err : call_error) (c : Call) : Call :=
  let c := set_endErr (Some err) c in
  let c := fire OnBusy c in
  let c := sendSignals_ e [StatusBusy] c in
  end_ (error_text err) c.

Definition onIdentified (e : env) (id : option bytes) (c : Call) : Call :=
  if negb (incoming c) then c
  else if negb (callerAllowed (cfg c) id) then rejectIncoming e ErrBlocked c
  else if match id with Some hash => negb (limiter_allows e hash) | None => false end
  then rejectIncoming e ErrRateLimited c
  else match casState StateConnecting StateRinging c with
  | (c, false) => c
  | (c, true) =>
      let c := set_status StatusRinging c in
      let c := sendSignals_ e [StatusRinging] c in
      let c := fire OnRinging c in
      let c := startRingtone c in
      armTimeout (RingTime (cfg c)) RingTimeout c
  end.

(** ** Operations of the application and callbacks of the link *)

(** [Dial] up to the point where the call is claimed. *)
Definition Dial (remote : option bytes) (c : Call) : Call * option call_error :=
  match remote with
  | None => (c, Some ErrRemoteRequired)
  | Some _ =>
      if bool_decide (Identity (cfg c) = None) then (c, Some ErrNoIdentity)
      else match casState StateIdle StateConnecting c with
      | (c, false) => (c, Some ErrAlreadyCall)
      | (c, true) => (set_dialing true (set_status StatusCalling (set_incoming false c)), None)
      end
  end.

Inductive dial_result := DestinationFails | EstablishFails | DialStarted.

(** The rest of [Dial] up to its wait. *)
Definition Dial_link (r : dial_result) (c : Call) : Call * option call_error :=
  if negb (dialing c) then (c, None)
  else
    let c := set_dialing false c in
    match r with
    | DestinationFails => (storeState StateIdle c, Some ErrLink)
    | EstablishFails => (set_peer None (storeState StateIdle c), Some ErrLink)
    | DialStarted => (armTimeout (WaitTime (cfg c)) CallTimeout (set_peer (Some false) c), None)
    end.

(** [ServeIncoming] up to its first packet; [active]: the link is up. *)
Definition ServeIncoming (active : bool) (c : Call) : Call * option call_error :=
  match casState StateIdle StateConnecting c with
  | (c, false) => (c, Some ErrAlreadyCall)
  | (c, true) =>
      (set_serving true (set_status StatusAvailable (set_peer (Some active) (set_incoming true c))), None)
  end.

Definition ServeIncoming_send (e : env) (c : Call) : Call * option call_error :=
  if negb (serving c) then (c, None)
  else
    let c := set_serving false c in
    match sendSignals e [StatusAvailable] c with
    | (c, Some err) => (set_peer None (storeState StateIdle c), Some err)
    | (c, None) => (armTimeout (ConnectTime (cfg c)) IdentifyTimeout (set_resends availableResendCount c), None)
    end.

(** [Answer] up to the change to [StateActive]. *)
Definition Answer (e : env) (c : Call) : Call * option call_error :=
  if negb (st_eqb (state c) StateRinging) then (c, Some ErrNotRinging)
  else if negb (incoming c) then (c, Some ErrNotIncoming)
  else
    let c := stopRingtone (set_answered true c) in
    match sendSignals e [StatusConnecting] c with
    | (c, Some err) => (c, Some err)
    | (c, None) =>
        match openPipelines e c with
        | (c, Some err) => (c, Some err)
        | (c, None) => (set_answering (S (answering c)) c, None)
        end
    end.

Definition Answer_finish (e : env) (c : Call) : Call * option call_error :=
  match answering c with
  | O => (c, None)
  | S n =>
      let c := set_answering n c in
      match casState StateRinging StateActive c with
      | (c, false) => (end_ "answer raced hangup" c, Some ErrAnswerRaced)
      | (c, true) =>
          let c := set_status StatusEstablished c in
          match startPipelines c with
          | (c, Some err) => (end_ "pipeline start failed" c, Some err)
          | (c, None) =>
              match sendSignals e [StatusEstablished] c with
              | (c, Some err) => (end_ "establish failed" c, Some err)
              | (c, None) => (fire OnAnswered (armTX c), None)
              end
          end
      end
  end.

Definition Reject (e : env) (reason : string) (c : Call) : Call * option call_error :=
  if negb (st_eqb (state c) StateRinging) then (c, Some ErrNotRinging)
  else
    let c := if incoming c then sendSignals_ e [StatusRejected] c else c in
    let reason := if decide (reason = "") then "rejected" else reason in
    (end_ reason c, None).

Definition Hangup (e : env) (reason : string) (c : Call) : Call * option call_error :=
  if st_eqb (state c) StateIdle || st_eqb (state c) StateEnded then (c, None)
  else
    let c := if incoming c && st_eqb (state c) StateRinging && negb (answered c)
             then sendSignals_ e [StatusRejected] c else c in
    (end_ reason c, None).

Definition isLive (c : Call) : bool := st_eqb (state c) StateActive || st_eqb (state c) StateRinging.

Definition MuteTX (m : bool) (c : Call) : Call * option call_error :=
  if isLive c then (set_muted m c, None) else (c, Some ErrNotActive).
Definition MuteRX (m : bool) (c : Call) : Call * option call_error :=
  if isLive c then (set_mutedRX m c, None) else (c, Some ErrNotActive).

Definition Squelch (on : bool) (c : Call) : Call :=
  if negb (st_eqb (state c) StateActive) then c else setSquelchState on c.
Definition PTT (down : bool) (c : Call) : Call :=
  if negb (st_eqb (state c) StateActive) then c else setSquelchState (negb down) c.

Definition DisableRemoteModeFollow (c : Call) : Call := set_modeFollowOff true c.

Definition Transmitting (c : Call) : bool :=
  if negb (st_eqb (state c) StateActive) || muted c then false
  else if (callMode c =? ModeHalfDuplex) && squelched c then false
  else true.

(** The link of an outgoing call is up; a goroutine will identify the caller. *)
Definition onOutgoingEstablished (c : Call) : Call :=
  let c := set_peer (Some true) c in
  let c := armTimeout (ConnectTime (cfg c)) ConnectTimeout c in
  set_identifyTries (Some identifyRetryCount) c.

Definition onLinkClosed (c : Call) : Call :=
  let c := if negb (incoming c) && st_eqb (state c) StateRinging then fire OnRejected c else c in
  end_ "link closed" c.

(** One round of [resendAvailableUntilIdentified], after its sleep. *)
Definition resendAvailable (e : env) (c : Call) : Call :=
  match resends c with
  | O => c
  | S n =>
      if ended c || negb (incoming c) || negb (st_eqb (state c) StateConnecting) || (StatusRinging <=? status c)
      then set_resends 0 c
      else sendSignals_ e [StatusAvailable] (set_resends n c)
  end.

(** One round of [identifyIfStillConnecting], after a sleep. *)
Definition identifyRound (e : env) (c : Call) : Call :=
  match identifyTries c with
  | None => c
  | Some O => set_identifyTries None c
  | Some (S n) =>
      if ended c || negb (st_eqb (state c) StateConnecting) || (StatusRinging <=? status c)
      then set_identifyTries None c
      else
        let c := identifyOnce e c in
        if identified c then set_identifyTries None c else set_identifyTries (Some n) c
  end.

(** [autoAnswer] after its sleep. *)
Definition autoAnswer (e : env) (c : Call) : Call :=
  if ended c then c else (Answer e c).1.

(** ** Media *)

(** One tick of the sender: [pending] are the samples at hand after
    [collectCapture], [encode] the encoder.  [None]: nothing is consumed. *)
Definition sendMediaTick (e : env) (pending : list Z) (encode : CodecParams -> list Z -> option bytes) (c : Call)
    : Call * list Z :=
  if negb (st_eqb (state c) StateActive) || negb (txArmed c) then (c, pending)
  else match peer c, encoder c with
  | None, _ | _, None => (c, pending)
  | Some _, Some enc =>
      if squelched c then (c, pending)
      else
        let want := FrameSamples enc in
        if len pending <? want then (c, pending)
        else
          let rest := zdrop want pending in
          match encode enc (ztake want pending) with
          | None => (c, rest)
          | Some encoded =>
              if len encoded =? 0 then (c, rest)
              else match PackFrame (Codec (params c)) encoded with
              | Err _ => (c, rest)
              | Ok wire =>
                  if send_ok e (trace c) wire
                  then (set_sentCount (u64 (sentCount c + 1)) (emit (ASend wire) c), rest)
                  else (c, rest)
              end
          end
  end.

(** [newDecoderForCodec] is made for [codec] with the other parameters. *)
Definition with_codec (codec : byte) (p : CodecParams) : CodecParams :=
  mkParams codec (SampleRate p) (Channels p) (Bitrate p) (FrameMs p) (BufferN p) (Voip p).
Definition with_bitrate (br : Z) (p : CodecParams) : CodecParams :=
  mkParams (Codec p) (SampleRate p) (Channels p) br (FrameMs p) (BufferN p) (Voip p).

Definition ensureRecvDecoder (e : env) (codec : byte) (payload : bytes) (c : Call) : Call * option call_error :=
  let have := bool_decide (is_Some (decoder c)) in
  let same := bool_decide (recvKind c = codec) in
  if have && same then (c, None)
  else if have && negb same
          && (negb (bool_decide (codec = CodecCodec2)) || negb (bool_decide (recvKind c = CodecCodec2)))
  then (c, None)
  else
    let pr := params c in
    let pr :=
      match payload with
      | b :: _ =>
          if bool_decide (codec = CodecCodec2) then
            let br := Codec2BitrateForHeader b in
            if 0 <? br then with_codec CodecCodec2 (with_bitrate br pr) else pr
          else with_codec codec pr
      | [] => with_codec codec pr
      end in
    if negb (dec_ok e (with_codec codec pr)) then (c, Some ErrCodec)
    else (set_recvKind codec (set_decoder (Some (with_codec codec pr)) c), None).

Definition playReadyFrame (e : env) (c : Call) : Call :=
  let '(j, out) := PopReady (order e) (now e) (jitter c) in
  let c := set_jitter j c in
  match out with
  | None => c
  | Some fr =>
      match SplitFrame (Payload fr) with
      | Err _ => c
      | Ok (codec, payload) =>
          match ensureRecvDecoder e codec payload c with
          | (c, Some _) => c
          | (c, None) =>
              match decoder c with
              | None => c
              | Some d => emit (ADecode d payload) c
              end
          end
      end
  end.

Definition clampPercent (v : Z) : Z := if v <? 0 then 0 else if maxLossPercent <? v then maxLossPercent else v.

(** [applyOpusAdaptation]; the bitrate is held to the range of the profile. *)
Definition opus_bitrate (a : AdaptiveController) (p : CodecParams) : Z :=
  let br := bitrate a in
  let br := if (0 <? Bitrate p) && (Bitrate p <? br) then Bitrate p else br in
  if br <? MinBitrate then MinBitrate else br.

Definition applyLinkStats (e : env) (rtt rssi snr q : f64) (c : Call) : Call :=
  match peer c with
  | None => c
  | Some _ =>
      let metrics := mkMetrics rtt rssi snr q (LossRate (jitter c)) (f_of_Z (targetMs (jitter c))) 0 false in
      let c := set_adaptive (Update (now e) metrics (adaptive c)) c in
      let j := jitterMs (adaptive c) in
      let minJitter := FrameMs (params c) * BufferN (params c) in
      let j := if (0 <? minJitter) && (j <? minJitter) then minJitter else j in
      let c := set_jitter (SetTargetMs j (jitter c)) c in
      let c :=
        match encoder c with
        | Some _ =>
            if bool_decide (Codec (params c) = CodecOpus) then
              emit (ASetBitrate (opus_bitrate (adaptive c) (params c)) (useFEC (adaptive c))
                      (option_map clampPercent (trunc_int (fmul (M_LossRate metrics) (f_of_Z 100))))) c
            else c
        | None => c
        end in
      fire OnStats c
  end.

(** ** Steps *)

Inductive cop :=
| ODial (remote : option bytes) | ODialLink (r : dial_result)
| OServe (active : bool) | OServeSend
| OAnswer | OAnswerFinish | OAutoAnswer
| OReject (reason : string) | OHangup (reason : string)
| OMuteTX (m : bool) | OMuteRX (m : bool) | OSquelch (on : bool) | OPTT (down : bool) | ODisableFollow
| OSwitchProfile (p : Z) | OSwitchMode (m : Z)
| OPacket (data : bytes) | OIdentified (id : option bytes)
| OEstablished | OLinkClosed | OLinkActive (up : bool)
| OResend | OIdentifyRound | OTimer (k : timeout)
| OSendTick (pending : list Z) (encode : CodecParams -> list Z -> option bytes)
| OPlay | OStats (rtt rssi snr q : f64).

(** [OLinkActive]: the link of the call goes up or down by itself.  The media
    loops run from [startPipelines] until [end], which waits for them. *)
Definition cstep (e : env) (o : cop) (c : Call) : Call * option call_error :=
  match o with
  | ODial remote => Dial remote c
  | ODialLink r => Dial_link r c
  | OServe active => ServeIncoming active c
  | OServeSend => ServeIncoming_send e c
  | OAnswer => Answer e c
  | OAnswerFinish => Answer_finish e c
  | OAutoAnswer => (autoAnswer e c, None)
  | OReject reason => Reject e reason c
  | OHangup reason => Hangup e reason c
  | OMuteTX m => MuteTX m c
  | OMuteRX m => MuteRX m c
  | OSquelch on => (Squelch on c, None)
  | OPTT down => (PTT down c, None)
  | ODisableFollow => (DisableRemoteModeFollow c, None)
  | OSwitchProfile p => SwitchProfile e p c
  | OSwitchMode m => SwitchMode e m c
  | OPacket data => (onPacket e data c, None)
  | OIdentified id => (onIdentified e id c, None)
  | OEstablished => ((if bool_decide (is_Some (peer c)) then onOutgoingEstablished c else c), None)
  | OLinkClosed => (onLinkClosed c, None)
  | OLinkActive up => (set_peer (match peer c with Some _ => Some up | None => None end) c, None)
  | OResend => (resendAvailable e c, None)
  | OIdentifyRound => (identifyRound e c, None)
  | OTimer k => (timer_fires k c, None)
  | OSendTick pending encode => ((if started c then (sendMediaTick e pending encode c).1 else c), None)
  | OPlay => ((if started c then playReadyFrame e c else c), None)
  | OStats rtt rssi snr q => ((if started c then applyLinkStats e rtt rssi snr q c else c), None)
  end.

Definition crun (ops : list (env * cop)) (c : Call) : Call := foldl (fun c p => (cstep p.1 p.2 c).1) c ops.
End calls.

(** ** Waiting for a state *)

Inductive wake := WCtx | WDeadline | WKick | WTick.

(** [waitForState]: the states it reads and what ends each [select]; [None]
    when it still waits. *)
Fixpoint waitForState (want : State) (obs : list (State * wake)) : option (option call_error) :=
  match obs with
  | [] => None
  | (st, w) :: obs =>
      if st_eqb st want then Some None
      else if st_eqb st StateEnded then Some (Some ErrCallEnded)
      else match w with
      | WCtx => Some (Some ErrContext)
      | WDeadline => Some (Some ErrStateTimeout)
      | WKick | WTick => waitForState want obs
      end
  end.
