(* ===== verification/LxstCallProps.v ===== *)
(** * Properties of LXST calls *)

From stdpp Require Import base tactics list gmap strings.
From Stdlib Require Import ZArith Lia.
From S2P Require Import Prelude GoFloat SeqWindow Msgpack LxstProto LxstMedia LxstCall.

(** ** What the helpers leave alone

    [lc c] is the part of a call that the life cycle is about; most helpers
    change other fields only. *)

Record life := mkLife {
  l_cfg : Config; l_state : State; l_incoming : bool; l_answered : bool;
  l_encoder : option CodecParams; l_decoder : option CodecParams; l_device : option bool;
  l_opened : bool; l_started : bool; l_ended : bool; l_dialing : bool; l_serving : bool; l_answering : nat
}.

Definition lc (c : Call) : life :=
  mkLife (cfg c) (state c) (incoming c) (answered c) (encoder c) (decoder c) (device c) (opened c) (started c)
    (ended c) (dialing c) (serving c) (answering c).

Lemma st_eqb_true a b : st_eqb a b = true <-> a = b.
Proof. apply bool_decide_eq_true. Qed.
Lemma st_eqb_false a b : st_eqb a b = false <-> a <> b.
Proof. apply bool_decide_eq_false. Qed.

Lemma lc_note_status signals c : lc (foldl (fun c s => note_status s c) c signals) = lc c.
Proof.
  revert c. induction signals as [|s l IH]; intros c; simpl; [done|]. rewrite IH. unfold note_status. by destruct (_ && _).
Qed.

Lemma trace_note_status signals c : trace (foldl (fun c s => note_status s c) c signals) = trace c.
Proof.
  revert c. induction signals as [|s l IH]; intros c; simpl; [done|]. rewrite IH. unfold note_status. by destruct (_ && _).
Qed.

Lemma lc_sendSignals e l c : lc (sendSignals e l c).1 = lc c.
Proof.
  unfold sendSignals. destruct (peer c) as [[]|]; try done. destruct (PackSignalling l); simpl.
  - destruct (send_ok _ _ _); simpl; apply lc_note_status.
  - apply lc_note_status.
Qed.

Lemma lc_sendSignals_ e l c : lc (sendSignals_ e l c) = lc c.
Proof. apply lc_sendSignals. Qed.

Lemma lc_applyProfile p c : lc (applyProfile p c) = lc c.
Proof. done. Qed.
Lemma lc_armTimeout d k c : lc (armTimeout d k c) = lc c.
Proof. unfold armTimeout. by destruct (_ <=? _). Qed.
Lemma lc_identifyOnce e c : lc (identifyOnce e c) = lc c.
Proof. unfold identifyOnce. repeat case_match; done. Qed.
Lemma lc_busyTone c : lc (startBusyTone c) = lc c.
Proof. unfold startBusyTone. by destruct (UseAudio _). Qed.
Lemma lc_dialTone c : lc (startDialTone c) = lc c.
Proof. unfold startDialTone. repeat case_match; done. Qed.
Lemma lc_ringtone c : lc (startRingtone c) = lc c.
Proof. unfold startRingtone. repeat case_match; done. Qed.
Lemma lc_setSquelchState on c : lc (setSquelchState on c) = lc c.
Proof. unfold setSquelchState. repeat case_match; done. Qed.
Lemma lc_applyPreferredMode s c : lc (applyPreferredMode s c) = lc c.
Proof. unfold applyPreferredMode. repeat case_match; try done. by rewrite lc_setSquelchState. Qed.

(** The effect of the remaining helpers on [lc]. *)

Definition life_end (l : life) : life :=
  if st_eqb (l_state l) StateEnded
  then mkLife (l_cfg l) (l_state l) (l_incoming l) (l_answered l) (l_encoder l) (l_decoder l) (l_device l)
         (l_opened l) (l_started l) true (l_dialing l) (l_serving l) (l_answering l)
  else mkLife (l_cfg l) StateEnded (l_incoming l) (l_answered l) None None None false false true
         (l_dialing l) (l_serving l) (l_answering l).

Lemma lc_end reason c : lc (end_ reason c) = life_end (lc c).
Proof.
  unfold end_, life_end. cbn [state set_ended lc l_state].
  destruct (st_eqb (state c) StateEnded); [done|]. unfold closing. cbv zeta.
  destruct (bool_decide (device _ = _)), (bool_decide (peer _ = _)); done.
Qed.

Definition life_open (p : CodecParams) (owned : bool) (l : life) : life :=
  mkLife (l_cfg l) (l_state l) (l_incoming l) (l_answered l) (Some p) (Some p) (Some owned) true (l_started l)
    (l_ended l) (l_dialing l) (l_serving l) (l_answering l).

(** Opening the pipelines fails and leaves them closed, or both codecs and the
    device are there afterwards. *)
Lemma lc_openPipelines e c : let '(c', r) := openPipelines e c in
  (opened c = true /\ c' = c /\ r = None)
  \/ (opened c = false /\ lc c' = lc c /\ r <> None)
  \/ (opened c = false /\ state c <> StateEnded /\ r = None
      /\ exists owned, lc c' = life_open (ProfileParams (profile c)) owned (lc c)).
Proof.
  unfold openPipelines. destruct (opened c) eqn:Eo; [left; done|].
  destruct (st_eqb (state c) StateEnded) eqn:Es; [right; left; done|]. apply st_eqb_false in Es.
  cbv zeta. destruct (negb (enc_ok _ _)); [right; left; split_and!; try done; unfold lc; simpl; by rewrite Eo|].
  destruct (negb (dec_ok _ _)); [right; left; split_and!; try done; unfold lc; simpl; by rewrite Eo|].
  destruct (open_device _ _) as [owned|err]; [|right; left; split_and!; try done; unfold lc; simpl; by rewrite Eo].
  destruct (negb (dev_start e)); [right; left; split_and!; try done; unfold lc; simpl; by rewrite Eo|].
  cbn [state set_params set_opened]. destruct (st_eqb (state c) StateEnded) eqn:Es'; [by apply st_eqb_true in Es'|].
  right; right. split_and!; try done. exists owned.
  destruct (_ && _); simpl; destruct (incoming c); rewrite ?lc_sendSignals_; done.
Qed.

(** ** The life cycle

    The abstract machine of a call.  [Caller] holds of the identities that the
    link presents; [New] allows a call to be set up. *)

Definition with_state (s : State) (l : life) : life :=
  mkLife (l_cfg l) s (l_incoming l) (l_answered l) (l_encoder l) (l_decoder l) (l_device l) (l_opened l)
    (l_started l) (l_ended l) (l_dialing l) (l_serving l) (l_answering l).

Definition with_pc (d s : bool) (n : nat) (l : life) : life :=
  mkLife (l_cfg l) (l_state l) (l_incoming l) (l_answered l) (l_encoder l) (l_decoder l) (l_device l) (l_opened l)
    (l_started l) (l_ended l) d s n.

Definition with_roles (i a : bool) (l : life) : life :=
  mkLife (l_cfg l) (l_state l) i a (l_encoder l) (l_decoder l) (l_device l) (l_opened l)
    (l_started l) (l_ended l) (l_dialing l) (l_serving l) (l_answering l).

Definition with_codecs (en de : option CodecParams) (st : bool) (l : life) : life :=
  mkLife (l_cfg l) (l_state l) (l_incoming l) (l_answered l) en de (l_device l) (l_opened l)
    st (l_ended l) (l_dialing l) (l_serving l) (l_answering l).

Inductive lrule (Caller : bytes -> Prop) (New : Prop) (l : life) : life -> Prop :=
| L_dial : New -> l_state l = StateIdle ->
    lrule Caller New l (with_pc true (l_serving l) (l_answering l) (with_roles false (l_answered l) (with_state StateConnecting l)))
| L_serve : New -> l_state l = StateIdle ->
    lrule Caller New l (with_pc (l_dialing l) true (l_answering l) (with_roles true (l_answered l) (with_state StateConnecting l)))
| L_dial_go : l_dialing l = true -> lrule Caller New l (with_pc false (l_serving l) (l_answering l) l)
| L_serve_go : l_serving l = true -> lrule Caller New l (with_pc (l_dialing l) false (l_answering l) l)
| L_dial_fails : l_dialing l = true ->
    lrule Caller New l (with_pc false (l_serving l) (l_answering l) (with_state StateIdle l))
| L_serve_fails : l_serving l = true ->
    lrule Caller New l (with_pc (l_dialing l) false (l_answering l) (with_state StateIdle l))
| L_ring_out : l_incoming l = false \/ l_answered l = true -> l_state l = StateConnecting ->
    lrule Caller New l (with_state StateRinging l)
| L_ring_in id : l_incoming l = true -> Caller id -> callerAllowed (l_cfg l) (Some id) = true ->
    l_state l = StateConnecting -> lrule Caller New l (with_state StateRinging l)
| L_answer : l_incoming l = true -> l_state l = StateRinging -> lrule Caller New l (with_roles (l_incoming l) true l)
| L_answering : l_answered l = true -> lrule Caller New l (with_pc (l_dialing l) (l_serving l) (S (l_answering l)) l)
| L_active_in n : l_answering l = S n -> l_state l = StateRinging ->
    lrule Caller New l (with_pc (l_dialing l) (l_serving l) n (with_state StateActive l))
| L_raced n : l_answering l = S n -> l_state l <> StateRinging ->
    lrule Caller New l (with_pc (l_dialing l) (l_serving l) n l)
| L_active_out : l_incoming l = false -> l_state l = StateRinging \/ l_state l = StateConnecting ->
    lrule Caller New l (with_state StateActive l)
| L_open p owned : l_incoming l = false \/ l_answered l = true -> l_opened l = false -> l_state l <> StateEnded ->
    lrule Caller New l (life_open p owned l)
| L_start p : l_encoder l = Some p -> l_state l <> StateEnded ->
    lrule Caller New l (with_codecs (l_encoder l) (l_decoder l) true l)
| L_switch p : l_state l = StateActive -> lrule Caller New l (with_codecs (Some p) (Some p) (l_started l) l)
| L_decoder p : l_started l = true -> l_decoder l = None ->
    lrule Caller New l (with_codecs (l_encoder l) (Some p) (l_started l) l)
| L_end : lrule Caller New l (life_end l).

(** What holds in every state of the machine: an ended call holds no codec, no
    device and runs no media loop; the loops run only with both codecs, and
    opened pipelines have both and a device; an incoming call is active only
    once it was answered. *)
Record life_ok (l : life) : Prop := {
  ok_ended : l_state l = StateEnded ->
    l_encoder l = None /\ l_decoder l = None /\ l_device l = None /\ l_opened l = false /\ l_started l = false
    /\ l_ended l = true;
  ok_started : l_started l = true -> is_Some (l_encoder l) /\ is_Some (l_decoder l);
  ok_codecs : is_Some (l_encoder l) -> is_Some (l_decoder l);
  ok_opened : l_opened l = true -> is_Some (l_encoder l) /\ is_Some (l_device l);
  ok_answering : (0 < l_answering l)%nat -> l_answered l = true;
  ok_answered : l_incoming l = true -> l_state l = StateActive -> l_answered l = true;
}.

Lemma life_ok_rule Caller New l l' : lrule Caller New l l' -> life_ok l -> life_ok l'.
Proof.
  intros Hr [H1 H2 H3 H4 H5 H6]. destruct Hr; try unfold life_end;
    try (destruct (st_eqb (l_state l) StateEnded) eqn:Ee; [apply st_eqb_true in Ee|]);
    split; simpl in *; intros; try done; eauto;
    repeat match goal with H : _ \/ _ |- _ => destruct H end; try congruence.
  all: try (apply H5; lia).
  all: try (match goal with Hs : l_started _ = true |- _ => destruct (H2 Hs) end;
            try (destruct H1 as (? & ? & ? & ? & ? & ?); [done|congruence]); eauto).
  - split; [eauto|]. by apply H4.
  - destruct H1 as (-> & -> & -> & -> & -> & _); done.
Qed.

(** ** The call follows its life cycle *)

Section simulation.
Context (Caller : bytes -> Prop) (New : Prop).
Abbreviation lrun := (rtc (lrule Caller New)).

Lemma lrun_same c c' : lc c' = lc c -> lrun (lc c) (lc c').
Proof. by intros ->. Qed.

Lemma sim_end reason c : lrun (lc c) (lc (end_ reason c)).
Proof. rewrite lc_end. apply rtc_once. constructor. Qed.

Lemma sim_open e c : incoming c = false \/ answered c = true -> lrun (lc c) (lc (openPipelines e c).1).
Proof.
  intros Hi. pose proof (lc_openPipelines e c) as Ho. destruct (openPipelines e c) as [c' r]. simpl.
  destruct Ho as [(_ & -> & _)|[(_ & Hl & _)|(Ho & Hs & _ & owned & Hl)]]; [done|by apply lrun_same|].
  rewrite Hl. apply rtc_once. by apply L_open.
Qed.

Lemma sim_start c : lrun (lc c) (lc (startPipelines c).1).
Proof.
  unfold startPipelines. destruct (started c); [done|]. destruct (st_eqb _ _) eqn:Es; [done|].
  apply st_eqb_false in Es. destruct (encoder c) as [p|] eqn:Ep; [|done]. simpl.
  unfold applyModeSquelch. rewrite lc_setSquelchState. apply rtc_once. by eapply (L_start Caller New (lc c) p).
Qed.

Lemma sim_switchProfile e p c : lrun (lc c) (lc (switchProfile e p c).1).
Proof.
  unfold switchProfile. destruct (st_eqb _ _) eqn:Es; simpl; [|done]. apply st_eqb_true in Es.
  destruct (negb (enc_ok _ _)); [done|]. destruct (negb (dec_ok _ _)); [done|].
  simpl. apply rtc_once. by apply (L_switch Caller New (lc c)).
Qed.

Lemma sim_established e c : incoming c = false -> lrun (lc c) (lc (signalEstablished e c)).
Proof.
  intros Hi. unfold signalEstablished. rewrite Hi.
  etrans; [apply (sim_open e); by left|].
  assert (incoming (openPipelines e c).1 = false) as Hi'.
  { pose proof (lc_openPipelines e c) as Ho. destruct (openPipelines e c) as [c' r]. simpl in *.
    destruct Ho as [(_ & -> & _)|[(_ & Hl & _)|(_ & _ & _ & owned & Hl)]]; [done| |];
      apply (f_equal l_incoming) in Hl; simpl in Hl; congruence. }
  generalize dependent (openPipelines e c).1. clear c Hi. intros c Hi.
  unfold casState. destruct (st_eqb (state c) StateRinging) eqn:E1.
  { apply st_eqb_true in E1. etrans; [apply rtc_once, (L_active_out Caller New (lc c)); [done|by left]|].
    etrans; [|apply lrun_same; done]. etrans; [|apply sim_start]. apply rtc_refl. }
  destruct (st_eqb (state c) StateConnecting) eqn:E2.
  { apply st_eqb_true in E2. etrans; [apply rtc_once, (L_active_out Caller New (lc c)); [done|by right]|].
    etrans; [|apply lrun_same; done]. etrans; [|apply sim_start]. apply rtc_refl. }
  etrans; [|apply sim_start]. apply rtc_refl.
Qed.

Lemma sim_ringing e c : incoming c = false \/ answered c = true -> lrun (lc c) (lc (signalRinging e c)).
Proof.
  intros Hi. unfold signalRinging, casState. cbn [state set_status].
  assert (forall c', lc (let c := applyProfile (profile c') c' in
      let c := sendSignals_ e [SignalPreferredProfile (profile c); SignalPreferredMode (callMode c)] c in
      let c := fire OnRinging c in if incoming c then c else startDialTone c) = lc c') as Hrest.
  { intros c'. cbv zeta.
    assert (forall l, lc (fire OnRinging (sendSignals_ e l (applyProfile (profile c') c'))) = lc c') as Hs.
    { intros l. exact (lc_sendSignals_ e l (applyProfile (profile c') c')). }
    destruct (incoming (fire _ _)); rewrite ?lc_dialTone; apply Hs. }
  destruct (st_eqb (state c) StateConnecting) eqn:E1; cbn [orb].
  - apply st_eqb_true in E1. rewrite Hrest. apply rtc_once. by apply (L_ring_out Caller New (lc c)).
  - destruct (st_eqb (state _) StateRinging); [|by apply lrun_same]. rewrite Hrest. by apply lrun_same.
Qed.

Lemma sim_signal e s c : lrun (lc c) (lc (handleSignal e s c)).
Proof.
  unfold handleSignal. destruct (incoming c && negb (answered c) && (s <? PreferredMode)) eqn:Eg; [done|].
  assert (s < PreferredMode -> incoming c = false \/ answered c = true) as Hg.
  { intros Hs. rewrite (proj2 (Z.ltb_lt _ _) Hs), andb_true_r in Eg. destruct (incoming c), (answered c); auto. }
  destruct (s =? StatusBusy); [|destruct (s =? StatusRejected)].
  1-2: (etrans; [|apply sim_end]; apply lrun_same; by rewrite lc_busyTone).
  destruct (s =? StatusAvailable) eqn:E3; [apply lrun_same; by rewrite lc_identifyOnce|].
  destruct (s =? StatusRinging) eqn:E4; [apply sim_ringing, Hg; bool_hyps; by subst|].
  destruct (s =? StatusConnecting) eqn:E5.
  { bool_hyps. subst. unfold signalConnecting. destruct (incoming _) eqn:Ei; [by apply lrun_same|].
    etrans; [|apply sim_open; by left]. by apply lrun_same. }
  destruct (s =? StatusEstablished) eqn:E6.
  { bool_hyps. subst. destruct (incoming c) eqn:Ei; [|by apply sim_established].
    unfold signalEstablished. rewrite Ei. by apply lrun_same. }
  destruct (IsPreferredProfile s).
  { unfold applyPreferredProfile. cbv zeta. destruct (negb (KnownProfile _)); [done|].
    destruct (st_eqb _ _); [apply sim_switchProfile|by apply lrun_same]. }
  destruct (IsPreferredMode s); [|done]. apply lrun_same, lc_applyPreferredMode.
Qed.

Lemma sim_signals e l c : lrun (lc c) (lc (handleSignals e l c)).
Proof.
  revert c. induction l as [|s l IH]; intros c; [done|]. unfold handleSignals in *. simpl.
  etrans; [apply (sim_signal e s)|apply IH].
Qed.

Lemma sim_identified e id c : Caller id -> lrun (lc c) (lc (onIdentified e (Some id) c)).
Proof.
  intros HC. unfold onIdentified. destruct (incoming c) eqn:Ei; cbn [negb]; [|done].
  assert (forall err, lrun (lc c) (lc (rejectIncoming e err c))) as Hrej.
  { intros err. unfold rejectIncoming. etrans; [|apply sim_end]. apply lrun_same. by rewrite lc_sendSignals_. }
  destruct (callerAllowed (cfg c) (Some id)) eqn:Ea; cbn [negb]; [|apply Hrej].
  destruct (limiter_allows e id); cbn [negb]; [|apply Hrej].
  unfold casState. destruct (st_eqb (state c) StateConnecting) eqn:Es; [|done]. apply st_eqb_true in Es.
  rewrite lc_armTimeout, lc_ringtone. etrans; [apply rtc_once; by eapply (L_ring_in Caller New (lc c) id)|].
  apply (lrun_same (set_state StateRinging c)).
  exact (lc_sendSignals_ e [StatusRinging] (set_status StatusRinging (set_state StateRinging c))).
Qed.

Lemma sim_answer e c : lrun (lc c) (lc (Answer e c).1).
Proof.
  unfold Answer. destruct (st_eqb _ _) eqn:Es; cbn [negb]; [|done]. apply st_eqb_true in Es.
  destruct (incoming c) eqn:Ei; cbn [negb]; [|done].
  set (c1 := stopRingtone (set_answered true c)).
  assert (lrun (lc c) (lc c1)) as H1.
  { apply rtc_once. exact (L_answer Caller New (lc c) Ei Es). }
  pose proof (lc_sendSignals e [StatusConnecting] c1) as Hs.
  destruct (sendSignals e [StatusConnecting] c1) as [c2 [err|]]; simpl in *; [by rewrite Hs|].
  assert (answered c2 = true) as Ha by (by apply (f_equal l_answered) in Hs).
  pose proof (sim_open e c2 (or_intror Ha)) as Ho. pose proof (lc_openPipelines e c2) as Hl.
  destruct (openPipelines e c2) as [c3 [err|]]; simpl in *; (etrans; [exact H1|]; rewrite <- Hs); [done|].
  etrans; [exact Ho|]. apply rtc_once.
  assert (answered c3 = true) as Ha3.
  { destruct Hl as [(_ & -> & _)|[(_ & Hl & _)|(_ & _ & _ & owned & Hl)]]; [done| |];
      apply (f_equal l_answered) in Hl; simpl in Hl; congruence. }
  by apply (L_answering Caller New (lc c3)).
Qed.

Lemma sim_answer_finish e c : lrun (lc c) (lc (Answer_finish e c).1).
Proof.
  unfold Answer_finish. destruct (answering c) as [|n] eqn:En; [done|]. unfold casState. simpl.
  destruct (st_eqb (state c) StateRinging) eqn:Es; [apply st_eqb_true in Es|apply st_eqb_false in Es].
  - set (c1 := set_status _ _). assert (lrun (lc c) (lc c1)) as H1 by (apply rtc_once; by apply (L_active_in Caller New (lc c))).
    pose proof (sim_start c1) as Hs. destruct (startPipelines c1) as [c2 [err|]]; simpl in *.
    { etrans; [exact H1|]. etrans; [exact Hs|]. apply sim_end. }
    pose proof (lc_sendSignals e [StatusEstablished] c2) as Hl.
    destruct (sendSignals e [StatusEstablished] c2) as [c3 [err|]]; simpl in *.
    + etrans; [exact H1|]. etrans; [exact Hs|]. etrans; [|apply sim_end]. by apply lrun_same.
    + etrans; [exact H1|]. etrans; [exact Hs|]. by apply lrun_same.
  - etrans; [apply rtc_once; by apply (L_raced Caller New (lc c) n)|]. simpl. etrans; [|apply sim_end]. apply rtc_refl.
Qed.

Lemma lc_handleFrame `{MapOrder} e f c : lc (handleFrame e f c) = lc c.
Proof. unfold handleFrame. repeat case_match; done. Qed.

Lemma sim_packet `{MapOrder} e data c : lrun (lc c) (lc (onPacket e data c)).
Proof.
  unfold onPacket. destruct (_ <? _); [done|]. destruct (Unpack data) as [msg|]; [|done].
  assert (forall fs c', lc (foldl (fun c f => handleFrame e f c) c' fs) = lc c') as Hf.
  { induction fs as [|f fs IH]; intros c'; simpl; [done|]. by rewrite IH, lc_handleFrame. }
  rewrite Hf. destruct (_ <? _); [apply sim_signals|done].
Qed.

Lemma sim_dial remote c : New -> lrun (lc c) (lc (Dial remote c).1).
Proof.
  intros HN. unfold Dial. destruct remote; [|done]. destruct (bool_decide _); [done|]. unfold casState.
  destruct (st_eqb _ _) eqn:Es; [|done]. apply st_eqb_true in Es.
  apply rtc_once. exact (L_dial Caller New (lc c) HN Es).
Qed.

Lemma sim_dial_link r c : lrun (lc c) (lc (Dial_link r c).1).
Proof.
  unfold Dial_link. destruct (dialing c) eqn:Ed; [|done]. destruct r; simpl; rewrite ?lc_armTimeout; apply rtc_once.
  - exact (L_dial_fails Caller New (lc c) Ed).
  - exact (L_dial_fails Caller New (lc c) Ed).
  - exact (L_dial_go Caller New (lc c) Ed).
Qed.

Lemma sim_serve active c : New -> lrun (lc c) (lc (ServeIncoming active c).1).
Proof.
  intros HN. unfold ServeIncoming, casState. destruct (st_eqb _ _) eqn:Es; [|done]. apply st_eqb_true in Es.
  apply rtc_once. exact (L_serve Caller New (lc c) HN Es).
Qed.

Lemma sim_serve_send e c : lrun (lc c) (lc (ServeIncoming_send e c).1).
Proof.
  unfold ServeIncoming_send. destruct (serving c) eqn:Es; [|done]. simpl negb. cbv iota.
  pose proof (lc_sendSignals e [StatusAvailable] (set_serving false c)) as Hl.
  destruct (sendSignals _ _ _) as [c' [err|]]; simpl in *; rewrite ?lc_armTimeout.
  - etrans; [apply rtc_once, (L_serve_fails Caller New (lc c) Es)|]. apply (lrun_same (set_state StateIdle (set_serving false c))).
    etrans; [|exact (f_equal (with_state StateIdle) Hl)]. done.
  - etrans; [apply rtc_once, (L_serve_go Caller New (lc c) Es)|]. by apply (lrun_same (set_serving false c)).
Qed.

Lemma sim_sendTick e pending encode c : lc (sendMediaTick e pending encode c).1 = lc c.
Proof. unfold sendMediaTick. repeat case_match; done. Qed.

Lemma sim_play `{MapOrder} e c : started c = true -> lrun (lc c) (lc (playReadyFrame e c)).
Proof.
  intros Hs. unfold playReadyFrame. destruct (PopReady _ _ _) as [j out]. destruct out as [fr|]; [|by apply lrun_same].
  destruct (SplitFrame _) as [[codec payload]|]; [|by apply lrun_same].
  unfold ensureRecvDecoder. cbn [decoder recvKind set_jitter params].
  destruct (decoder c) as [d|] eqn:Ed.
  - rewrite (bool_decide_eq_true_2 (is_Some (Some d))) by eauto. cbn [andb].
    assert (forall c', lc c' = lc c -> lc (match decoder c' with None => c' | Some d => emit (ADecode d payload) c' end) = lc c) as Hm.
    { intros c' Hc'. by destruct (decoder c'). }
    destruct (bool_decide (recvKind c = codec)) eqn:Ek; [apply lrun_same; by apply (Hm (set_jitter j c))|].
    assert (negb (bool_decide (codec = CodecCodec2)) || negb (bool_decide (recvKind c = CodecCodec2)) = true) as ->.
    { bool_hyps. destruct (bool_decide (codec = CodecCodec2)) eqn:E1, (bool_decide (recvKind c = CodecCodec2)) eqn:E2; try done.
      bool_hyps. congruence. }
    apply lrun_same. by apply (Hm (set_jitter j c)).
  - rewrite (bool_decide_eq_false_2 (is_Some None)) by (intros [? ?]; done). cbn [andb].
    destruct (negb (dec_ok _ _)); [by apply lrun_same|]. cbn [decoder set_recvKind set_decoder].
    etrans; [apply rtc_once; by eapply (L_decoder Caller New (lc c))|]. apply rtc_refl.
Qed.

Lemma lc_stats e a b cc d c : lc (applyLinkStats e a b cc d c) = lc c.
Proof. unfold applyLinkStats. destruct (peer c); [|done]. cbv zeta. repeat case_match; done. Qed.

(** What a step needs of [Caller] and [New]. *)
Definition presents (o : cop) : Prop :=
  match o with OIdentified (Some id) => Caller id | ODial _ | OServe _ => New | _ => True end.

Lemma sim_cstep `{MapOrder} e o c : presents o -> lrun (lc c) (lc (cstep e o c).1).
Proof.
  intros Hp. destruct o; simpl cstep; cbn [fst].
  - by apply sim_dial.
  - apply sim_dial_link.
  - by apply sim_serve.
  - apply sim_serve_send.
  - apply sim_answer.
  - apply sim_answer_finish.
  - unfold autoAnswer. destruct (ended c); [done|apply sim_answer].
  - unfold Reject. destruct (negb _); [done|]. simpl. etrans; [|apply sim_end]. apply lrun_same.
    destruct (incoming c); [apply lc_sendSignals_|done].
  - unfold Hangup. destruct (_ || _); [done|]. simpl. etrans; [|apply sim_end]. apply lrun_same.
    destruct (_ && _); [apply lc_sendSignals_|done].
  - unfold MuteTX. destruct (isLive c); by apply lrun_same.
  - unfold MuteRX. destruct (isLive c); by apply lrun_same.
  - unfold Squelch. destruct (negb _); [done|]. apply lrun_same, lc_setSquelchState.
  - unfold PTT. destruct (negb _); [done|]. apply lrun_same, lc_setSquelchState.
  - by apply lrun_same.
  - unfold SwitchProfile. cbv zeta. destruct (negb (KnownProfile _)); [done|].
    destruct (st_eqb _ _); [|by apply lrun_same].
    match goal with |- context [switchProfile e ?p c] => pose proof (sim_switchProfile e p c) as Hs;
      destruct (switchProfile e p c) as [c' [err|]] end; simpl in *; [done|].
    etrans; [exact Hs|]. apply lrun_same, lc_sendSignals.
  - unfold SwitchMode. destruct (_ && _); [done|]. cbv zeta. destruct (st_eqb _ _); [|by apply lrun_same].
    apply lrun_same. rewrite lc_sendSignals, lc_setSquelchState. done.
  - apply sim_packet.
  - destruct id as [id|]; [by apply sim_identified|]. unfold onIdentified.
    destruct (incoming c); [|done]. simpl. unfold rejectIncoming. etrans; [|apply sim_end]. apply lrun_same.
    by rewrite lc_sendSignals_.
  - apply lrun_same. destruct (bool_decide _); [|done].
    exact (lc_armTimeout (ConnectTime (cfg c)) ConnectTimeout (set_peer (Some true) c)).
  - unfold onLinkClosed. etrans; [|apply sim_end]. apply lrun_same. by destruct (_ && _).
  - by apply lrun_same.
  - unfold resendAvailable. apply lrun_same. destruct (resends c); [done|]. destruct (_ || _); [done|].
    by rewrite lc_sendSignals_.
  - unfold identifyRound. apply lrun_same. destruct (identifyTries c) as [[|n]|]; try done.
    destruct (_ || _); [done|]. destruct (identified _); exact (lc_identifyOnce e c).
  - unfold timer_fires. destruct (bool_decide _); [|done]. cbv zeta. destruct (_ && _); [|by apply lrun_same].
    etrans; [|apply sim_end]. by apply lrun_same.
  - destruct (started c); [|done]. apply lrun_same, sim_sendTick.
  - destruct (started c) eqn:Es; [by apply sim_play|done].
  - destruct (started c); [|done]. apply lrun_same, lc_stats.
Qed.

Lemma sim_crun `{MapOrder} ops c : Forall (fun p => presents p.2) ops -> lrun (lc c) (lc (crun ops c)).
Proof.
  intros Hops. revert c. induction Hops as [|[e o] ops Hp _ IH]; intros c; [done|]. simpl.
  etrans; [by apply (sim_cstep e o c)|apply IH].
Qed.
End simulation.

(** ** Properties of the life cycle *)

Section props.
Context `{MapOrder}.

(** The identities that the link presents during a run. *)
Definition callers (ops : list (env * cop)) (id : bytes) : Prop := exists e, (e, OIdentified (Some id)) ∈ ops.

Lemma callers_presented ops : Forall (fun p => presents (callers ops) True p.2) ops.
Proof.
  apply Forall_forall. intros [e o] Hin. destruct o as [| | | | | | | | | | | | | | | | |[id|]| | | | | | | | |]; try done.
  by exists e.
Qed.

Lemma crun_lrun ops c : rtc (lrule (callers ops) True) (lc c) (lc (crun ops c)).
Proof. apply sim_crun, callers_presented. Qed.

Lemma life_ok_run Caller New l l' : rtc (lrule Caller New) l l' -> life_ok l -> life_ok l'.
Proof. induction 1; [done|]. intros. by eauto using life_ok_rule. Qed.

Lemma life_ok_new cf : life_ok (lc (NewCall cf)).
Proof. split; simpl; intros; try done; lia. Qed.

(** Nothing is in the middle of [Dial] or [ServeIncoming] any more. *)
Definition settled (l : life) : Prop := l_dialing l = false /\ l_serving l = false /\ l_state l <> StateIdle.

Lemma settled_run Caller New l l' : rtc (lrule Caller New) l l' -> settled l ->
  settled l' /\ (l_state l = StateEnded -> l_state l' = StateEnded).
Proof.
  induction 1 as [|l l1 l2 Hr _ IH]; [done|]. intros (Hd & Hs & Hn).
  assert (settled l1 /\ (l_state l = StateEnded -> l_state l1 = StateEnded)) as [H1 H2].
  2: { destruct (IH H1) as [? IH2]. split; [done|]. intros Hx. by apply IH2, H2. }
  clear IH. destruct Hr; try unfold life_end; try destruct (st_eqb (l_state l) StateEnded) eqn:E; unfold settled; simpl;
    repeat split; intros; try done; try congruence; naive_solver congruence.
Qed.


(** ** Access control *)

(** Nobody was let in. *)
Definition shut (cf : Config) (l : life) : Prop :=
  l_cfg l = cf /\ l_answered l = false /\ l_answering l = 0%nat
  /\ (l_incoming l = true -> l_state l <> StateRinging /\ l_state l <> StateActive).

Lemma shut_run cf Caller New l l' : (forall id, Caller id -> callerAllowed cf (Some id) = false) ->
  rtc (lrule Caller New) l l' -> shut cf l -> shut cf l'.
Proof.
  intros HC. induction 1 as [|l l1 l2 Hr _ IH]; [done|]. intros (Hc & Ha & Hn & Hi). apply IH. clear IH.
  destruct Hr; try unfold life_end; try destruct (st_eqb (l_state l) StateEnded) eqn:E; unfold shut; simpl;
    split_and!; try done; try congruence; intros; try (split; congruence); try naive_solver congruence.
Qed.

(** C11: a caller that the configuration does not admit never gets through.  If
    no identity presented on the link is allowed, then whatever else happens an
    incoming call never rings and is never active or answered, [Answer] fails
    without effect, and no media frame is taken in. *)
Theorem lxst_access_control cf ops e f :
  (forall e id, (e, OIdentified (Some id)) ∈ ops -> callerAllowed (withDefaults cf) (Some id) = false) ->
  let c := crun ops (NewCall cf) in
  incoming c = true ->
  state c <> StateRinging /\ state c <> StateActive /\ answered c = false
  /\ Answer e c = (c, Some ErrNotRinging) /\ handleFrame e f c = c.
Proof.
  intros HC c Hi.
  assert (shut (withDefaults cf) (lc c)) as (_ & Ha & _ & Hs).
  { eapply shut_run; [|apply (crun_lrun ops)|]; [intros id [e' Hin]; by eapply HC|]. repeat split; done. }
  simpl in *. destruct (Hs Hi) as [H1 H2]. split_and!; try done.
  - unfold Answer. by rewrite (proj2 (st_eqb_false _ _) H1).
  - unfold handleFrame. by rewrite Hi, Ha.
Qed.

(** ** Before the answer *)

(** [c'] is [c] but for the preferences. *)
Definition same_but_preferences (c c' : Call) : Prop :=
  exists p pr ms m s, c' = set_squelched s (set_callMode m (set_jitter (SetTargetMs ms (jitter c)) (set_params pr (set_profile p c)))).

Lemma same_but_refl c : same_but_preferences c c.
Proof. exists (profile c), (params c), (targetMs (jitter c)), (callMode c), (squelched c). by destruct c, jitter. Qed.

Lemma same_but_trans c1 c2 c3 : same_but_preferences c1 c2 -> same_but_preferences c2 c3 -> same_but_preferences c1 c3.
Proof. intros (p & pr & ms & m & s & ->) (p' & pr' & ms' & m' & s' & ->). by exists p', pr', ms', m', s'. Qed.

Lemma same_but_profile p c : same_but_preferences c (applyProfile p c).
Proof. eexists _, _, _, (callMode c), (squelched c). by destruct c. Qed.

Lemma unanswered_signal e s c : incoming c = true -> answered c = false -> state c <> StateActive ->
  same_but_preferences c (handleSignal e s c).
Proof.
  intros Hi Ha Hs. unfold handleSignal. rewrite Hi, Ha. cbn [andb negb].
  destruct (s <? PreferredMode) eqn:E; [apply same_but_refl|]. bool_hyps. unfold PreferredMode in E.
  rewrite !(proj2 (Z.eqb_neq s _)) by (unfold StatusBusy, StatusRejected, StatusAvailable, StatusRinging,
    StatusConnecting, StatusEstablished; lia).
  destruct (IsPreferredProfile s).
  { unfold applyPreferredProfile. cbv zeta. destruct (negb _); [apply same_but_refl|].
    rewrite (proj2 (st_eqb_false _ _) Hs). apply same_but_profile. }
  destruct (IsPreferredMode s); [|apply same_but_refl].
  unfold applyPreferredMode. destruct (modeFollowOff c); [apply same_but_refl|]. cbv zeta.
  destruct (_ && _); [apply same_but_refl|]. cbn [state set_callMode]. rewrite (proj2 (st_eqb_false _ _) Hs).
  exists (profile c), (params c), (targetMs (jitter c)). eexists _, _. by destruct c, jitter.
Qed.

Lemma same_but_life c c' : same_but_preferences c c' -> incoming c' = incoming c /\ answered c' = answered c /\ state c' = state c.
Proof. by intros (p & pr & ms & m & s & ->). Qed.

(** C24: until a call is answered the caller can only state preferences.
    Whatever packet arrives on an incoming call that was not answered, signals
    and media together, nothing of the call changes but the preferred profile
    with its parameters and buffer depth, and the mode with its squelch; nothing
    is sent, no event fires, no frame is kept. *)
Theorem lxst_unanswered_gate e data c :
  incoming c = true -> answered c = false -> state c <> StateActive ->
  same_but_preferences c (onPacket e data c).
Proof.
  intros Hi Ha Hs. unfold onPacket. destruct (_ <? _); [apply same_but_refl|].
  destruct (Unpack data) as [msg|]; [|apply same_but_refl].
  assert (forall fs c', incoming c' = true -> answered c' = false -> foldl (fun c f => handleFrame e f c) c' fs = c') as Hf.
  { induction fs as [|f fs IH]; intros c' Hi' Ha'; simpl; [done|].
    assert (handleFrame e f c' = c') as -> by (unfold handleFrame; by rewrite Hi', Ha'). by apply IH. }
  assert (forall l c', same_but_preferences c c' -> same_but_preferences c (handleSignals e l c')) as Hl.
  { induction l as [|s l IH]; intros c' Hc'; [done|]. simpl. apply IH.
    destruct (same_but_life c c' Hc') as (E1 & E2 & E3).
    eapply same_but_trans; [exact Hc'|]. apply unanswered_signal; congruence. }
  assert (same_but_preferences c (if 0 <? len (Signals msg) then handleSignals e (Signals msg) c else c)) as Hc.
  { destruct (_ <? _); [apply Hl|]; apply same_but_refl. }
  destruct (same_but_life _ _ Hc) as (E1 & E2 & _). rewrite Hf by congruence. done.
Qed.

(** ** Codecs *)

(** A decoder that exists is kept. *)
Lemma ensureRecvDecoder_kept e codec payload c d : decoder c = Some d -> ensureRecvDecoder e codec payload c = (c, None).
Proof.
  intros Hd. unfold ensureRecvDecoder. rewrite Hd, (bool_decide_eq_true_2 (is_Some (Some d))) by eauto. cbn [andb].
  destruct (bool_decide (recvKind c = codec)) eqn:Ek; [done|]. cbn [negb andb].
  destruct (bool_decide (codec = CodecCodec2)) eqn:E1, (bool_decide (recvKind c = CodecCodec2)) eqn:E2; try done.
  bool_hyps. congruence.
Qed.

Lemma playReadyFrame_decodes e codec payload c d j fr : decoder c = Some d ->
  PopReady (order e) (now e) (jitter c) = (j, Some fr) -> Payload fr = codec :: payload ->
  playReadyFrame e c = emit (ADecode d payload) (set_jitter j c).
Proof.
  intros Hd Hp Hpl. unfold playReadyFrame. rewrite Hp, Hpl. simpl.
  rewrite (ensureRecvDecoder_kept e codec payload (set_jitter j c) d) by done. simpl. by rewrite Hd.
Qed.

(** [ensureRecvDecoder] is meant to follow the codec of the received
    frames, but once a decoder exists it never replaces it: the test that lets
    a change through requires the two codecs to be both Codec2 and different.
    A frame of another codec, or of another Codec2 mode, is given to the
    decoder of the call's own profile. *)
Theorem lxst_decoder_never_follows e codec payload c d :
  decoder c = Some d ->
  ensureRecvDecoder e codec payload c = (c, None)
  /\ (forall j fr, PopReady (order e) (now e) (jitter c) = (j, Some fr) -> Payload fr = codec :: payload ->
      playReadyFrame e c = emit (ADecode d payload) (set_jitter j c)).
Proof.
  intros Hd. split; [by apply (ensureRecvDecoder_kept e codec payload c d)|].
  intros j fr. by apply playReadyFrame_decodes.
Qed.

(** An outgoing call becomes active even if it has no audio.  When the
    peer says it is connected and the codecs or the device cannot be opened,
    the error is dropped: the call goes to [StateActive], [OnAnswered] fires,
    and no media loop is started, so nothing is sent or played and nothing ends
    the call but the peer. *)
Theorem lxst_active_without_media e c err :
  incoming c = false -> state c = StateRinging \/ state c = StateConnecting ->
  encoder c = None -> started c = false -> (openPipelines e c).2 = Some err ->
  let c' := signalEstablished e c in
  state c' = StateActive /\ status c' = StatusEstablished /\ encoder c' = None /\ started c' = false
  /\ last (trace c') = Some (AEvent OnAnswered).
Proof.
  intros Hi Hs Hen Hst He. unfold signalEstablished. rewrite Hi. pose proof (lc_openPipelines e c) as Ho.
  destruct (openPipelines e c) as [c1 r]. simpl in He. subst r. cbn [fst].
  destruct Ho as [(_ & _ & ?)|[(_ & Hl & _)|(_ & _ & ? & _)]]; [done| |done].
  assert (state c1 = state c /\ encoder c1 = None /\ started c1 = false) as (E1 & E2 & E3).
  { pose proof (f_equal l_state Hl). pose proof (f_equal l_encoder Hl). pose proof (f_equal l_started Hl).
    simpl in *. split_and!; congruence. }
  clear Hl. unfold casState. rewrite E1.
  assert (forall x, encoder x = None -> started x = false -> state x <> StateEnded -> startPipelines x = (x, Some ErrPipelinesClosed)) as Hsp.
  { intros x Hx1 Hx2 Hx3. unfold startPipelines. by rewrite Hx1, Hx2, (proj2 (st_eqb_false _ _) Hx3). }
  destruct Hs as [Hs|Hs]; rewrite Hs.
  - change (st_eqb StateRinging StateRinging) with true. cbv iota beta. rewrite Hsp by done.
    split_and!; try done. apply last_snoc.
  - change (st_eqb StateConnecting StateRinging) with false. cbv iota beta. rewrite E1, Hs.
    change (st_eqb StateConnecting StateConnecting) with true. cbv iota beta. rewrite Hsp by done.
    split_and!; try done. apply last_snoc.
Qed.
End props.

(** ** Witnesses *)

#[local] Instance props_order : MapOrder := { shuffle := fun _ l => l; shuffle_perm := fun _ l => Permutation_refl l }.

Definition ok_env : env :=
  mkEnv (fun _ _ => true) (fun _ => true) (fun _ => true) OpenOk true true (fun _ => true) 0 0.
Definition no_codec_env : env :=
  mkEnv (fun _ _ => true) (fun _ => false) (fun _ => true) OpenOk true true (fun _ => true) 0 0.

Definition closed_config : Config := mkConfig [] [] (Some [x02]) false false 0 0 0 0 0 0 0 AllowNone [] [] None.
Definition open_config : Config := mkConfig [] [] (Some [x02]) false false 0 0 0 0 0 0 0 0 [] [] None.

Definition unwanted_call : list (env * cop) :=
  [(ok_env, OServe true); (ok_env, OServeSend); (ok_env, OIdentified (Some [x01])); (ok_env, OAnswer)].

Lemma lxst_access_control_witness :
  incoming (crun unwanted_call (NewCall closed_config)) = true
  /\ state (crun unwanted_call (NewCall closed_config)) <> StateRinging.
Proof.
  destruct (lxst_access_control closed_config unwanted_call ok_env []) as (H1 & _).
  - intros e id _. reflexivity.
  - reflexivity.
  - split; [reflexivity|exact H1].
Defined.

Definition ringing_call : Call :=
  crun [(ok_env, OServe true); (ok_env, OServeSend); (ok_env, OIdentified (Some [x01]))] (NewCall open_config).

(** The caller says that the call is established, with a frame. *)
Definition pushy_packet : bytes :=
  [x82; x00; x92; x06; xcd; x01; x7f; x01; xc4; x02; x01; xaa].

Lemma lxst_unanswered_gate_witness :
  state ringing_call = StateRinging /\ profile (onPacket ok_env pushy_packet ringing_call) = ProfileLatencyLow
  /\ same_but_preferences ringing_call (onPacket ok_env pushy_packet ringing_call).
Proof.
  split; [reflexivity|]. split; [reflexivity|]. apply (lxst_unanswered_gate ok_env pushy_packet ringing_call).
  - reflexivity.
  - reflexivity.
  - discriminate.
Defined.

Definition answered_call : Call := crun [(ok_env, OAnswer); (ok_env, OAnswerFinish)] ringing_call.

(** A Codec2 frame on an Opus call. *)
Lemma lxst_decoder_never_follows_witness :
  decoder answered_call = Some (ProfileParams DefaultProfile)
  /\ ensureRecvDecoder ok_env CodecCodec2 [Codec2Header700; xaa] answered_call = (answered_call, None).
Proof.
  split; [reflexivity|].
  apply (lxst_decoder_never_follows ok_env CodecCodec2 [Codec2Header700; xaa] answered_call (ProfileParams DefaultProfile)).
  reflexivity.
Defined.

Definition dialed_call : Call :=
  crun [(ok_env, ODial (Some [x01])); (ok_env, ODialLink DialStarted); (ok_env, OEstablished)] (NewCall open_config).

Lemma lxst_active_without_media_witness :
  state (signalEstablished no_codec_env dialed_call) = StateActive
  /\ encoder (signalEstablished no_codec_env dialed_call) = None.
Proof.
  destruct (lxst_active_without_media no_codec_env dialed_call ErrCodec) as (H1 & _ & H2 & _).
  - reflexivity.
  - right. reflexivity.
  - reflexivity.
  - reflexivity.
  - reflexivity.
  - split; [exact H1|exact H2].
Defined.
