(* ===== verification/LxstTalk.v ===== *)
(** * Two LXST calls on one link

    The caller and the callee as two calls, each packet that one gives to the
    link being handed to the other: a call is set up, and the frames it receives
    are played in the order they arrived. *)

From stdpp Require Import base tactics list gmap strings.
From Stdlib Require Import ZArith Lia.
From S2P Require Import Prelude GoFloat SeqWindow Msgpack LxstProto LxstMedia LxstCall LxstCallProps.

(** ** The link *)

Definition packets (l : list act) : list bytes :=
  omap (fun a => match a with ASend p => Some p | _ => None end) l.

Definition sent (c : Call) : list bytes := packets (trace c).

(** The two ends and how many packets of each have reached the other. *)
Record line := mkLine { caller : Call; callee : Call; seenA : nat; seenB : nat }.

Inductive move :=
| MCaller (o : cop) | MCallee (o : cop)
| MToCallee | MToCaller            (** the next packet arrives *)
| MIdentify.                       (** the caller's identity arrives *)

Section line.
Context `{MapOrder} (e : env).

Definition line_step (m : move) (n : line) : line :=
  match m with
  | MCaller o => mkLine (cstep e o (caller n)).1 (callee n) (seenA n) (seenB n)
  | MCallee o => mkLine (caller n) (cstep e o (callee n)).1 (seenA n) (seenB n)
  | MToCallee =>
      match sent (caller n) !! seenA n with
      | Some p => mkLine (caller n) (cstep e (OPacket p) (callee n)).1 (S (seenA n)) (seenB n)
      | None => n
      end
  | MToCaller =>
      match sent (callee n) !! seenB n with
      | Some p => mkLine (cstep e (OPacket p) (caller n)).1 (callee n) (seenA n) (S (seenB n))
      | None => n
      end
  | MIdentify =>
      if existsb (fun a => match a with AIdentify => true | _ => false end) (trace (caller n))
      then mkLine (caller n) (cstep e (OIdentified (Identity (cfg (caller n)))) (callee n)).1 (seenA n) (seenB n)
      else n
  end.

Definition line_run (ms : list move) (n : line) : line := foldl (fun n m => line_step m n) n ms.
End line.

(** The set-up of a call: the link comes up and the callee greets; the caller
    identifies itself; the callee rings; the caller states its preferences; the
    callee answers; both open their media. *)
Definition setup (remote : bytes) : list move :=
  [ MCaller (ODial (Some remote)); MCaller (ODialLink DialStarted); MCaller OEstablished;
    MCallee (OServe true); MCallee OServeSend; MToCaller; MIdentify; MToCaller; MToCallee;
    MCallee OAnswer; MCallee OAnswerFinish; MToCaller; MToCaller; MToCallee ].

(** An environment in which nothing fails. *)
Definition works (e : env) : Prop :=
  (forall t p, send_ok e t p = true) /\ (forall p, enc_ok e p = true) /\ (forall p, dec_ok e p = true)
  /\ dev_open e = OpenOk /\ dev_start e = true /\ identify_ok e = true /\ (forall h, limiter_allows e h = true).

(** ** What the other end sees of a call *)

Record view := mkView {
  v_cfg : Config; v_state : State; v_profile : Z; v_mode : Z; v_incoming : bool; v_answered : bool;
  v_identified : bool; v_follow : bool; v_peer : option bool; v_opened : bool; v_started : bool;
  v_encoder : option CodecParams; v_tx : bool; v_serving : bool; v_dialing : bool; v_answering : nat;
  v_sent : list bytes
}.

Definition view_of (c : Call) : view :=
  mkView (cfg c) (state c) (profile c) (callMode c) (incoming c) (answered c) (identified c) (modeFollowOff c) (peer c)
    (opened c) (started c) (encoder c) (txArmed c) (serving c) (dialing c) (answering c) (sent c).

Lemma sent_emit a c : sent (emit a c) = sent c ++ packets [a].
Proof. unfold sent, emit, packets. simpl. by rewrite omap_app. Qed.

Lemma view_note_status signals c : view_of (foldl (fun c s => note_status s c) c signals) = view_of c.
Proof.
  revert c. induction signals as [|s l IH]; intros c; simpl; [done|]. rewrite IH. unfold note_status. by destruct (_ && _).
Qed.

Definition view_eta (v : view) : view :=
  mkView (v_cfg v) (v_state v) (v_profile v) (v_mode v) (v_incoming v) (v_answered v) (v_identified v) (v_follow v)
    (v_peer v) (v_opened v) (v_started v) (v_encoder v) (v_tx v) (v_serving v) (v_dialing v) (v_answering v) (v_sent v).

Definition vw_state : State -> view -> view := ltac:(field_setter view_eta v_state).
Definition vw_profile : Z -> view -> view := ltac:(field_setter view_eta v_profile).
Definition vw_mode : Z -> view -> view := ltac:(field_setter view_eta v_mode).
Definition vw_incoming : bool -> view -> view := ltac:(field_setter view_eta v_incoming).
Definition vw_answered : bool -> view -> view := ltac:(field_setter view_eta v_answered).
Definition vw_identified : bool -> view -> view := ltac:(field_setter view_eta v_identified).
Definition vw_peer : option bool -> view -> view := ltac:(field_setter view_eta v_peer).
Definition vw_opened : bool -> view -> view := ltac:(field_setter view_eta v_opened).
Definition vw_started : bool -> view -> view := ltac:(field_setter view_eta v_started).
Definition vw_encoder : option CodecParams -> view -> view := ltac:(field_setter view_eta v_encoder).
Definition vw_tx : bool -> view -> view := ltac:(field_setter view_eta v_tx).
Definition vw_serving : bool -> view -> view := ltac:(field_setter view_eta v_serving).
Definition vw_dialing : bool -> view -> view := ltac:(field_setter view_eta v_dialing).
Definition vw_answering : nat -> view -> view := ltac:(field_setter view_eta v_answering).
Definition vw_sent : list bytes -> view -> view := ltac:(field_setter view_eta v_sent).

(** [v] with one more packet sent. *)
Definition and_sent (p : bytes) (v : view) : view := vw_sent (v_sent v ++ [p]) v.

Lemma view_send c p : view_of (emit (ASend p) c) = and_sent p (view_of c).
Proof. unfold view_of, and_sent. simpl. by rewrite sent_emit. Qed.

(** What is not a packet does not show. *)
Lemma view_emit c a : (match a with ASend _ => False | _ => True end) -> view_of (emit a c) = view_of c.
Proof. intros Ha. unfold view_of. simpl. rewrite sent_emit. destruct a; try done; by rewrite app_nil_r. Qed.

Lemma view_armTimeout d k c : view_of (armTimeout d k c) = view_of c.
Proof. unfold armTimeout. by destruct (_ <=? _). Qed.
Lemma view_dialTone c : view_of (startDialTone c) = view_of c.
Proof. unfold startDialTone. repeat case_match; rewrite ?view_emit; done. Qed.
Lemma view_ringtone c : view_of (startRingtone c) = view_of c.
Proof. unfold startRingtone. repeat case_match; rewrite ?view_emit; done. Qed.
Lemma view_squelch on c : view_of (setSquelchState on c) = view_of c.
Proof. unfold setSquelchState. repeat case_match; done. Qed.

Lemma clampInt32_id v : - 2 ^ 31 <= v < 2 ^ 31 -> clampInt32 v = v.
Proof.
  intros Hv. unfold clampInt32. rewrite (proj2 (Z.ltb_ge (2 ^ 31 - 1) v)) by lia.
  by rewrite (proj2 (Z.ltb_ge v (- 2 ^ 31))) by lia.
Qed.

Section setup.
Context `{MapOrder} (e : env) (He : works e).

Lemma sendSignals_works l c : peer c = Some true -> l <> [] -> len l <= MaxSignals ->
  exists c', sendSignals e l c = (c', None) /\ view_of c' = and_sent (marshal_signals l) (view_of c).
Proof.
  intros Hp Hl Hm. unfold sendSignals. rewrite Hp. unfold PackSignalling.
  rewrite (proj2 (Z.eqb_neq _ _)) by (by rewrite len_0_nil). rewrite (proj2 (Z.ltb_ge _ _)) by done.
  destruct He as (Hs & _). rewrite Hs. eexists. split; [done|]. by rewrite view_send, view_note_status.
Qed.

Lemma hears l c : Forall int64_range l -> 1 <= len l <= MaxSignals ->
  onPacket e (marshal_signals l) c = handleSignals e l c.
Proof.
  intros Hr Hl. pose proof (unpack_marshal_signals l Hr Hl) as Hu.
  unfold onPacket. rewrite Hu. cbn [Signals Frames foldl]. rewrite (proj2 (Z.ltb_lt 0 (len l))) by lia.
  unfold Unpack in Hu. destruct (len (marshal_signals l) =? 0); [done|]. by destruct (_ <? _).
Qed.

Lemma send_one l c : peer c = Some true -> l <> [] -> len l <= MaxSignals ->
  view_of (sendSignals_ e l c) = and_sent (marshal_signals l) (view_of c).
Proof. intros Hp Hl Hm. unfold sendSignals_. by destruct (sendSignals_works l c Hp Hl Hm) as (c' & -> & ?). Qed.

(** *** The caller *)

Lemma st_dial r c v : view_of c = v -> v_state v = StateIdle -> Identity (v_cfg v) <> None ->
  view_of (cstep e (ODial (Some r)) c).1 = vw_dialing true (vw_incoming false (vw_state StateConnecting v)).
Proof.
  intros <- Hs Hi. simpl in *. unfold casState. rewrite bool_decide_eq_false_2 by done. by rewrite Hs.
Qed.

Lemma st_dial_link c v : view_of c = v -> v_dialing v = true ->
  view_of (cstep e (ODialLink DialStarted) c).1 = vw_peer (Some false) (vw_dialing false v).
Proof. intros <- Hd. simpl in *. unfold Dial_link. rewrite Hd. simpl. by rewrite view_armTimeout. Qed.

Lemma st_up c v : view_of c = v -> v_peer v = Some false ->
  view_of (cstep e OEstablished c).1 = vw_peer (Some true) v.
Proof.
  intros <- Hp. simpl in *. rewrite Hp. simpl.
  exact (view_armTimeout (ConnectTime (cfg c)) ConnectTimeout (set_peer (Some true) c)).
Qed.

Lemma st_available c v : view_of c = v -> v_incoming v = false -> Identity (v_cfg v) <> None ->
  v_peer v = Some true -> v_identified v = false ->
  let c' := (cstep e (OPacket (marshal_signals [StatusAvailable])) c).1 in
  view_of c' = vw_identified true v
  /\ existsb (fun a => match a with AIdentify => true | _ => false end) (trace c') = true.
Proof.
  intros <- Hi Hid Hp Hn. cbn [cstep fst]. rewrite hears by (first [done | repeat constructor; done]). simpl in *.
  unfold handleSignal. rewrite Hi. simpl. unfold identifyOnce. simpl. rewrite Hi, Hp, Hn.
  rewrite bool_decide_eq_false_2 by done. simpl. destruct He as (_ & _ & _ & _ & _ & -> & _).
  split; [by rewrite view_emit|]. simpl. rewrite existsb_app. simpl. by rewrite orb_true_r.
Qed.

Lemma st_ringing c v : view_of c = v -> v_incoming v = false -> v_state v = StateConnecting ->
  v_peer v = Some true -> 0 < v_profile v < 2 ^ 31 ->
  view_of (cstep e (OPacket (marshal_signals [StatusRinging])) c).1
  = and_sent (marshal_signals [SignalPreferredProfile (v_profile v); SignalPreferredMode (v_mode v)]) (vw_state StateRinging v).
Proof.
  intros <- Hi Hs Hp Hr. cbn [cstep fst]. rewrite hears by (first [done | repeat constructor; done]). simpl in *.
  assert (handleSignal e StatusRinging c = signalRinging e c) as -> by (unfold handleSignal; by rewrite Hi).
  unfold signalRinging, casState. cbn [state set_status].
  rewrite Hs. change (st_eqb StateConnecting StateConnecting) with true. cbn [orb].
  set (c1 := applyProfile _ _).
  assert (view_of c1 = vw_state StateRinging (view_of c)) as E1.
  { unfold c1, applyProfile, view_of. cbn. rewrite (proj2 (Z.eqb_neq (profile c) 0)) by lia.
    by rewrite clampInt32_id by lia. }
  assert (profile c1 = profile c /\ callMode c1 = callMode c) as [-> ->].
  { pose proof (f_equal v_profile E1). pose proof (f_equal v_mode E1). done. }
  pose proof (send_one [SignalPreferredProfile (profile c); SignalPreferredMode (callMode c)] c1) as Hsend.
  rewrite E1 in Hsend. specialize (Hsend Hp ltac:(done) ltac:(done)).
  set (c2 := sendSignals_ _ _ _) in *. assert (incoming c2 = false) as Hi2.
  { pose proof (f_equal v_incoming Hsend) as Hx. simpl in Hx. congruence. }
  change (incoming (fire OnRinging c2)) with (incoming c2). rewrite Hi2. cbv iota. rewrite view_dialTone.
  unfold fire. by rewrite view_emit.
Qed.
(** Opening the media: the codecs of the current profile; the caller reports it. *)
Lemma open_works c v : view_of c = v -> v_opened v = false -> v_state v <> StateEnded ->
  (v_incoming v = false -> v_peer v = Some true) ->
  exists c', openPipelines e c = (c', None)
    /\ view_of c' = (let v' := vw_encoder (Some (ProfileParams (v_profile v))) (vw_opened true v) in
                     if v_incoming v then v' else and_sent (marshal_signals [StatusEstablished]) v').
Proof.
  intros <- Ho Hs Hp. simpl in *. destruct He as (_ & H1 & H2 & H3 & H4 & _).
  unfold openPipelines. rewrite Ho, (proj2 (st_eqb_false _ _) Hs), H1, H2. cbn [negb].
  assert (exists owned, open_device e (set_params (ProfileParams (profile (set_opened true c))) (set_opened true c)) = Ok owned) as (owned & ->).
  { unfold open_device. rewrite H3. destruct (Device _); [eauto|]. destruct (UseAudio _); eauto. }
  rewrite H4. cbn [negb state set_params set_opened]. rewrite (proj2 (st_eqb_false _ _) Hs).
  eexists. split; [reflexivity|].
  match goal with |- view_of (if incoming ?x then _ else _) = _ => set (c1 := x) end.
  assert (view_of c1 = vw_encoder (Some (ProfileParams (profile c))) (vw_opened true (view_of c))) as E1.
  { unfold c1. by destruct (_ && _). }
  assert (incoming c1 = incoming c) as -> by exact (f_equal v_incoming E1).
  destruct (incoming c); [done|]. rewrite send_one, E1; try done.
  rewrite <- (Hp eq_refl). exact (f_equal v_peer E1).
Qed.

Lemma st_connecting c v : view_of c = v -> v_incoming v = false -> v_opened v = false -> v_state v <> StateEnded ->
  v_peer v = Some true ->
  view_of (cstep e (OPacket (marshal_signals [StatusConnecting])) c).1
  = and_sent (marshal_signals [StatusEstablished]) (vw_encoder (Some (ProfileParams (v_profile v))) (vw_opened true v)).
Proof.
  intros Hv Hi Ho Hs Hp. cbn [cstep fst]. rewrite hears by (first [done | repeat constructor; done]). simpl.
  assert (incoming c = false) as Hic by (by rewrite <- Hv in Hi).
  assert (handleSignal e StatusConnecting c = signalConnecting e c) as -> by (unfold handleSignal; by rewrite Hic).
  unfold signalConnecting. cbn [incoming set_status]. rewrite Hic.
  destruct (open_works (set_status StatusConnecting c) v) as (c' & -> & Hc'); try done. cbn [fst].
  rewrite Hc'. by rewrite Hi.
Qed.

Lemma start_works c v p : view_of c = v -> v_state v <> StateEnded -> v_encoder v = Some p -> v_started v = false ->
  exists c', startPipelines c = (c', None) /\ view_of c' = vw_started true v.
Proof.
  intros <- Hs Hen Hst. simpl in *. unfold startPipelines. rewrite Hst, (proj2 (st_eqb_false _ _) Hs), Hen.
  eexists. split; [done|]. unfold applyModeSquelch. by rewrite view_squelch.
Qed.

Lemma st_established c v p : view_of c = v -> v_incoming v = false -> v_opened v = true -> v_encoder v = Some p ->
  v_state v = StateRinging -> v_started v = false ->
  view_of (cstep e (OPacket (marshal_signals [StatusEstablished])) c).1
  = vw_started true (vw_tx true (vw_state StateActive v)).
Proof.
  intros Hv Hi Ho Hen Hs Hst. cbn [cstep fst]. rewrite hears by (first [done | repeat constructor; done]). simpl.
  subst v. simpl in *.
  assert (handleSignal e StatusEstablished c = signalEstablished e c) as -> by (unfold handleSignal; by rewrite Hi).
  unfold signalEstablished. rewrite Hi. unfold openPipelines. rewrite Ho. cbn [fst]. unfold casState. rewrite Hs.
  change (st_eqb StateRinging StateRinging) with true. cbv iota beta.
  destruct (start_works (armTX (set_status StatusEstablished (set_state StateActive c))) _ p eq_refl) as (c' & -> & Hc'); try done.
  cbn [fst]. unfold fire. by rewrite view_emit, Hc'.
Qed.

(** *** The callee *)

Lemma st_serve c v : view_of c = v -> v_state v = StateIdle ->
  view_of (cstep e (OServe true) c).1 = vw_serving true (vw_peer (Some true) (vw_incoming true (vw_state StateConnecting v))).
Proof. intros <- Hs. simpl in *. unfold ServeIncoming, casState. by rewrite Hs. Qed.

Lemma st_serve_send c v : view_of c = v -> v_serving v = true -> v_peer v = Some true ->
  view_of (cstep e OServeSend c).1 = and_sent (marshal_signals [StatusAvailable]) (vw_serving false v).
Proof.
  intros <- Hs Hp. simpl in *. unfold ServeIncoming_send. rewrite Hs. cbn [negb].
  destruct (sendSignals_works [StatusAvailable] (set_serving false c) Hp) as (c' & -> & Hc'); try done.
  cbn [fst]. by rewrite view_armTimeout.
Qed.

Lemma st_identified c v id : view_of c = v -> v_incoming v = true -> v_state v = StateConnecting -> v_peer v = Some true ->
  callerAllowed (v_cfg v) (Some id) = true ->
  view_of (cstep e (OIdentified (Some id)) c).1 = and_sent (marshal_signals [StatusRinging]) (vw_state StateRinging v).
Proof.
  intros <- Hi Hs Hp Ha. cbn [cstep fst]. cbn in Hi, Hs, Hp, Ha. unfold onIdentified. rewrite Hi.
  change (callerAllowed (cfg c) (Some id) = true) in Ha. rewrite Ha. cbn [negb].
  destruct He as (_ & _ & _ & _ & _ & _ & ->). cbn [negb]. unfold casState. rewrite Hs.
  change (st_eqb StateConnecting StateConnecting) with true. cbv iota beta.
  rewrite view_armTimeout, view_ringtone. unfold fire. rewrite view_emit by done. by rewrite send_one.
Qed.

Lemma known_profile_range p : KnownProfile p = true -> 0 < p < 256.
Proof.
  rewrite KnownProfile_iff. unfold AvailableProfiles. rewrite !elem_of_cons, elem_of_nil.
  intros Hp. repeat (destruct Hp as [-> |Hp]; [by vm_compute|]). done.
Qed.

Lemma st_preferences c v p m : view_of c = v -> v_incoming v = true -> v_answered v = false ->
  v_state v = StateRinging -> v_follow v = false -> KnownProfile p = true -> m = ModeFullDuplex \/ m = ModeHalfDuplex ->
  view_of (cstep e (OPacket (marshal_signals [SignalPreferredProfile p; SignalPreferredMode m])) c).1
  = vw_mode m (vw_profile p v).
Proof.
  intros <- Hi Ha Hs Hf Hp Hm. simpl in *. pose proof (known_profile_range p Hp) as Hr.
  assert (SignalPreferredProfile p = 255 + p) as Ep.
  { unfold SignalPreferredProfile. rewrite (proj2 (Z.eqb_neq p 0)) by lia. by rewrite i64_small by (unfold PreferredProfile; lia). }
  assert (exists k, (k = 241 \/ k = 242) /\ SignalPreferredMode m = k /\ ModeFromSignal k = m) as (k & Hk & Em & Emm).
  { destruct Hm as [-> | ->]; eexists; (split; [|split; reflexivity]); auto. }
  rewrite hears.
  2: { rewrite Ep, Em. repeat constructor; unfold int64_range; lia. }
  2: done.
  rewrite Ep, Em. unfold handleSignals. cbn [foldl].
  assert (handleSignal e (255 + p) c = applyProfile p c) as ->.
  { unfold handleSignal. rewrite Hi, Ha. cbn [andb negb]. unfold PreferredMode. rewrite (proj2 (Z.ltb_ge _ _)) by lia.
    rewrite !(proj2 (Z.eqb_neq (255 + p) _)) by (unfold StatusBusy, StatusRejected, StatusAvailable, StatusRinging,
      StatusConnecting, StatusEstablished; lia).
    unfold IsPreferredProfile, PreferredProfile. rewrite (proj2 (Z.leb_le 255 (255 + p))) by lia.
    unfold applyPreferredProfile, ProfileFromSignal, PreferredProfile. replace (255 + p - 255) with p by lia.
    rewrite i64_small by lia. rewrite (proj2 (Z.eqb_neq p 0)) by lia. rewrite Hp. cbn [negb]. by rewrite Hs. }
  assert (handleSignal e k (applyProfile p c) = set_squelched (m =? ModeHalfDuplex) (set_callMode m (applyProfile p c))) as ->.
  { unfold handleSignal. cbn [incoming answered applyProfile set_jitter set_params set_profile]. rewrite Hi, Ha. cbn [andb negb].
    assert (handleSignal e k (applyProfile p c) = applyPreferredMode k (applyProfile p c)) as Hk'.
    { unfold handleSignal. cbn [incoming answered applyProfile set_jitter set_params set_profile]. rewrite Hi, Ha.
      by destruct Hk as [-> | ->]. }
    unfold handleSignal in Hk'. cbn [incoming answered applyProfile set_jitter set_params set_profile] in Hk'.
    rewrite Hi, Ha in Hk'. cbn [andb negb] in Hk'. rewrite Hk'.
    unfold applyPreferredMode. cbn [modeFollowOff applyProfile set_jitter set_params set_profile]. rewrite Hf, Emm.
    destruct Hm as [-> | ->]; cbn [negb andb]; cbn; by rewrite Hs. }
  unfold view_of. cbn. rewrite (proj2 (Z.eqb_neq p 0)) by lia. by rewrite clampInt32_id by lia.
Qed.

Lemma st_answer c v : view_of c = v -> v_incoming v = true -> v_state v = StateRinging -> v_peer v = Some true ->
  v_opened v = false -> v_answering v = 0%nat ->
  view_of (cstep e OAnswer c).1
  = vw_answering 1 (vw_encoder (Some (ProfileParams (v_profile v))) (vw_opened true
      (and_sent (marshal_signals [StatusConnecting]) (vw_answered true v)))).
Proof.
  intros <- Hi Hs Hp Ho Hn. cbn [cstep]. cbn in Hi, Hs, Hp, Ho, Hn. unfold Answer. rewrite Hs, Hi.
  change (st_eqb StateRinging StateRinging) with true. cbn [negb].
  destruct (sendSignals_works [StatusConnecting] (stopRingtone (set_answered true c)) Hp) as (c1 & -> & H1); try done.
  destruct (open_works c1 _ H1) as (c2 & -> & H2); [done|simpl; by rewrite Hs|done|].
  change (v_incoming (and_sent (marshal_signals [StatusConnecting]) (view_of (stopRingtone (set_answered true c)))))
    with (incoming c) in H2. rewrite Hi in H2. cbv zeta in H2. cbn [fst].
  assert (answering c2 = 0%nat) as Hn2 by exact (eq_trans (f_equal v_answering H2) Hn).
  transitivity (vw_answering (S (answering c2)) (view_of c2)); [done|]. by rewrite Hn2, H2.
Qed.

Lemma st_answer_finish c v p : view_of c = v -> v_state v = StateRinging -> v_peer v = Some true ->
  v_answering v = 1%nat -> v_encoder v = Some p -> v_started v = false ->
  view_of (cstep e OAnswerFinish c).1
  = vw_tx true (and_sent (marshal_signals [StatusEstablished]) (vw_started true (vw_state StateActive (vw_answering 0 v)))).
Proof.
  intros <- Hs Hp Hn Hen Hst. cbn [cstep]. cbn in Hs, Hp, Hn, Hen, Hst. unfold Answer_finish. rewrite Hn. unfold casState.
  cbn [state set_answering]. rewrite Hs. change (st_eqb StateRinging StateRinging) with true. cbv iota beta.
  destruct (start_works (set_status StatusEstablished (set_state StateActive (set_answering 0 c))) _ p eq_refl) as (c1 & -> & H1); try done.
  destruct (sendSignals_works [StatusEstablished] c1) as (c2 & -> & H2); try done.
  { exact (eq_trans (f_equal v_peer H1) Hp). }
  cbn [fst]. unfold fire. rewrite view_emit by done.
  transitivity (vw_tx true (view_of c2)); [done|]. by rewrite H2, H1.
Qed.

Lemma st_established_in c v : view_of c = v -> v_incoming v = true -> v_answered v = true ->
  view_of (cstep e (OPacket (marshal_signals [StatusEstablished])) c).1 = v.
Proof.
  intros <- Hi Ha. cbn [cstep fst]. rewrite hears by (first [done | repeat constructor; done]). simpl in *.
  assert (handleSignal e StatusEstablished c = signalEstablished e c) as -> by (unfold handleSignal; by rewrite Hi, Ha).
  unfold signalEstablished. by rewrite Hi.
Qed.
Definition fresh_view (cf : Config) (p m : Z) : view :=
  mkView cf StateIdle p m false false false false None false false None false false false 0 [].

Lemma view_NewCall cf : exists p m, view_of (NewCall cf) = fresh_view (withDefaults cf) p m
  /\ (KnownProfile (Profile (withDefaults cf)) = true -> p = Profile (withDefaults cf))
  /\ (Mode (withDefaults cf) = ModeFullDuplex \/ Mode (withDefaults cf) = ModeHalfDuplex -> m = Mode (withDefaults cf)).
Proof.
  eexists _, _. split; [unfold view_of, NewCall; cbn -[withDefaults clampInt32]; reflexivity|].
  generalize (withDefaults cf) as c. intros c. split.
  - intros Hp%known_profile_range. rewrite (proj2 (Z.eqb_neq _ 0)) by lia. by rewrite clampInt32_id by lia.
  - by intros [-> | ->].
Qed.

(** One move when the packet, or the views, are known. *)
Lemma move_to_caller a b i j p : sent b !! j = Some p ->
  line_step e MToCaller (mkLine a b i j) = mkLine (cstep e (OPacket p) a).1 b i (S j).
Proof. intros Hp. simpl. by rewrite Hp. Qed.

Lemma move_to_callee a b i j p : sent a !! i = Some p ->
  line_step e MToCallee (mkLine a b i j) = mkLine a (cstep e (OPacket p) b).1 (S i) j.
Proof. intros Hp. simpl. by rewrite Hp. Qed.

Lemma move_identify a b i j :
  existsb (fun a => match a with AIdentify => true | _ => false end) (trace a) = true ->
  line_step e MIdentify (mkLine a b i j) = mkLine a (cstep e (OIdentified (Identity (cfg a))) b).1 i j.
Proof. intros Hp. simpl. by rewrite Hp. Qed.

(** The next packet, from a view. *)
Lemma sent_view c v : view_of c = v -> sent c = v_sent v.
Proof. by intros <-. Qed.

(** [step_view c E L] names [c] the result of the step whose view [L] gives. *)
Ltac step_view c E' L :=
  pose proof L as E'; match type of E' with view_of ?t = _ => set (c := t) in *; clearbody c end.

Lemma call_setup_views cfA cfB ida remote :
  Identity (withDefaults cfA) = Some ida -> KnownProfile (Profile (withDefaults cfA)) = true ->
  Mode (withDefaults cfA) = ModeFullDuplex \/ Mode (withDefaults cfA) = ModeHalfDuplex ->
  callerAllowed (withDefaults cfB) (Some ida) = true ->
  let n := line_run e (setup remote) (mkLine (NewCall cfA) (NewCall cfB) 0 0) in
  let p := Profile (withDefaults cfA) in
  let m := Mode (withDefaults cfA) in
  exists sa sb,
  view_of (caller n) = mkView (withDefaults cfA) StateActive p m false false true false (Some true) true true
                         (Some (ProfileParams p)) true false false 0 sa
  /\ view_of (callee n) = mkView (withDefaults cfB) StateActive p m true true false false (Some true) true true
                            (Some (ProfileParams p)) true false false 0 sb.
Proof.
  intros Hid Hp Hm Hall n p m. subst n. unfold line_run, setup. cbn [foldl].
  destruct (view_NewCall cfA) as (pa & ma & Va & Hpa & Hma). rewrite (Hpa Hp), (Hma Hm) in Va.
  fold p m in Va, Hp, Hm. clear Hpa Hma.
  destruct (view_NewCall cfB) as (pb & mb & Vb & _).
  generalize dependent (NewCall cfA). intros a Va. generalize dependent (NewCall cfB). intros b Vb.
  pose proof (known_profile_range p Hp) as Hr.
  assert (Identity (withDefaults cfA) <> None) as Hid' by (by rewrite Hid).
  change (line_step e (MCaller (ODial (Some remote))) (mkLine a b 0 0)) with (mkLine (cstep e (ODial (Some remote)) a).1 b 0 0).
  step_view a1 Va1 (st_dial remote a _ Va eq_refl Hid').
  change (line_step e (MCaller (ODialLink DialStarted)) (mkLine a1 b 0 0)) with (mkLine (cstep e (ODialLink DialStarted) a1).1 b 0 0).
  step_view a2 Va2 (st_dial_link a1 _ Va1 eq_refl).
  change (line_step e (MCaller OEstablished) (mkLine a2 b 0 0)) with (mkLine (cstep e OEstablished a2).1 b 0 0).
  step_view a3 Va3 (st_up a2 _ Va2 eq_refl).
  change (line_step e (MCallee (OServe true)) (mkLine a3 b 0 0)) with (mkLine a3 (cstep e (OServe true) b).1 0 0).
  step_view b1 Vb1 (st_serve b _ Vb eq_refl).
  change (line_step e (MCallee OServeSend) (mkLine a3 b1 0 0)) with (mkLine a3 (cstep e OServeSend b1).1 0 0).
  step_view b2 Vb2 (st_serve_send b1 _ Vb1 eq_refl eq_refl).
  rewrite (move_to_caller a3 b2 0 0 (marshal_signals [StatusAvailable])) by (by rewrite (sent_view _ _ Vb2)).
  destruct (st_available a3 _ Va3 eq_refl Hid' eq_refl eq_refl) as [Va4 Hident].
  set (a4 := (cstep e (OPacket (marshal_signals [StatusAvailable])) a3).1) in *. clearbody a4.
  rewrite (move_identify a4 b2 0 1 Hident). rewrite (f_equal v_cfg Va4 : cfg a4 = withDefaults cfA), Hid.
  step_view b3 Vb3 (st_identified b2 _ ida Vb2 eq_refl eq_refl eq_refl Hall).
  rewrite (move_to_caller a4 b3 0 1 (marshal_signals [StatusRinging])) by (by rewrite (sent_view _ _ Vb3)).
  step_view a5 Va5 (st_ringing a4 _ Va4 eq_refl eq_refl eq_refl ltac:(cbn [v_profile]; simpl; lia)).
  rewrite (move_to_callee a5 b3 0 2 (marshal_signals [SignalPreferredProfile p; SignalPreferredMode m]))
    by (by rewrite (sent_view _ _ Va5)).
  step_view b4 Vb4 (st_preferences b3 _ p m Vb3 eq_refl eq_refl eq_refl eq_refl Hp Hm).
  change (line_step e (MCallee OAnswer) (mkLine a5 b4 1 2)) with (mkLine a5 (cstep e OAnswer b4).1 1 2).
  step_view b5 Vb5 (st_answer b4 _ Vb4 eq_refl eq_refl eq_refl eq_refl eq_refl).
  change (line_step e (MCallee OAnswerFinish) (mkLine a5 b5 1 2)) with (mkLine a5 (cstep e OAnswerFinish b5).1 1 2).
  step_view b6 Vb6 (st_answer_finish b5 _ _ Vb5 eq_refl eq_refl eq_refl eq_refl eq_refl).
  rewrite (move_to_caller a5 b6 1 2 (marshal_signals [StatusConnecting])) by (by rewrite (sent_view _ _ Vb6)).
  step_view a6 Va6 (st_connecting a5 _ Va5 eq_refl eq_refl ltac:(done) eq_refl).
  rewrite (move_to_caller a6 b6 1 3 (marshal_signals [StatusEstablished])) by (by rewrite (sent_view _ _ Vb6)).
  step_view a7 Va7 (st_established a6 _ _ Va6 eq_refl eq_refl eq_refl eq_refl eq_refl).
  rewrite (move_to_callee a7 b6 1 4 (marshal_signals [StatusEstablished])) by (by rewrite (sent_view _ _ Va7)).
  step_view b7 Vb7 (st_established_in b6 _ Vb6 eq_refl eq_refl).
  eexists _, _. split; [exact Va7|exact Vb7].
Qed.
End setup.

Definition talking (n : line) (p m : Z) : Prop :=
  (state (caller n) = StateActive /\ state (callee n) = StateActive)
  /\ (encoder (caller n) = Some (ProfileParams p) /\ encoder (callee n) = Some (ProfileParams p))
  /\ (started (caller n) = true /\ started (callee n) = true /\ txArmed (caller n) = true /\ txArmed (callee n) = true)
  /\ (profile (callee n) = p /\ callMode (callee n) = m).

Lemma talking_views n cfA cfB p m sa sb :
  view_of (caller n) = mkView cfA StateActive p m false false true false (Some true) true true
                         (Some (ProfileParams p)) true false false 0 sa ->
  view_of (callee n) = mkView cfB StateActive p m true true false false (Some true) true true
                         (Some (ProfileParams p)) true false false 0 sb ->
  talking n p m.
Proof.
  intros Va Vb. unfold talking. split_and!; [exact (f_equal v_state Va)|exact (f_equal v_state Vb)|exact (f_equal v_encoder Va)|
    exact (f_equal v_encoder Vb)|exact (f_equal v_started Va)|exact (f_equal v_started Vb)|exact (f_equal v_tx Va)|
    exact (f_equal v_tx Vb)|exact (f_equal v_profile Vb)|exact (f_equal v_mode Vb)].
Qed.


(** ** Frames are played in the order they arrive *)

(** What reaches the receiving end: a frame in its packet, or a turn of the
    receive loop. *)
Inductive rop := Arrive (codec : byte) (payload : bytes) | Poll.

(** A queue of at most [max] frames; [None] if one arrives when it is full. *)
Fixpoint fifo (max : Z) (ops : list rop) (q : list bytes) : option (list bytes * list bytes) :=
  match ops with
  | [] => Some ([], q)
  | Arrive codec payload :: ops => if len q <? max then fifo max ops (q ++ [codec :: payload]) else None
  | Poll :: ops =>
      match q with
      | [] => fifo max ops []
      | f :: q => match fifo max ops q with Some (outs, q') => Some (f :: outs, q') | None => None end
      end
  end.

Definition cop_of (o : rop) : cop :=
  match o with Arrive codec payload => OPacket (frame_bytes codec payload) | Poll => OPlay end.

(** The payloads given to a decoder. *)
Definition decoded (l : list act) : list bytes :=
  omap (fun a => match a with ADecode _ p => Some p | _ => None end) l.

Section receive.
Context `{MapOrder}.

(** A call in conversation whose buffer is the queue [q]. *)
Record receiving (c : Call) (d : CodecParams) (k : Z) (q : list bytes) : Prop := {
  r_active : state c = StateActive;
  r_gate : incoming c = true -> answered c = true;
  r_started : started c = true;
  r_decoder : decoder c = Some d;
  r_queue : queue_of (jitter c) k q;
  r_frames : Forall (fun f => f <> []) q;
  r_seq : frameSeq c = u32 k;
}.

Lemma u16_u32 z : u16 (u32 z) = u16 z.
Proof. unfold u16, u32. apply Z.mod_mod_divide. by exists (2 ^ 16). Qed.

Lemma packet_is_frame e codec payload c : len payload < MaxFrameBytes ->
  onPacket e (frame_bytes codec payload) c = handleFrame e (codec :: payload) c.
Proof.
  intros Hl. unfold frame_bytes. rewrite ztake_all by lia.
  pose proof (unpack_frame codec payload ltac:(lia)) as Hu. rewrite (proj2 (Z.leb_gt _ _) Hl) in Hu.
  unfold onPacket. rewrite Hu. simpl. unfold Unpack in Hu. destruct (_ =? 0); [done|]. by destruct (_ <? _).
Qed.

Lemma receive_arrive e codec payload c d k q : receiving c d k q -> len q < maxFrames (jitter c) ->
  len payload < MaxFrameBytes ->
  receiving (cstep e (OPacket (frame_bytes codec payload)) c).1 d (k + 1) (q ++ [codec :: payload])
  /\ maxFrames (jitter (cstep e (OPacket (frame_bytes codec payload)) c).1) = maxFrames (jitter c)
  /\ trace (cstep e (OPacket (frame_bytes codec payload)) c).1 = trace c.
Proof.
  intros [Ha Hg Hs Hd Hq Hf Hk] Hlen Hl. cbn [cstep fst]. rewrite packet_is_frame by done. unfold handleFrame.
  assert (incoming c && negb (answered c) = false) as ->.
  { destruct (incoming c); [by rewrite Hg|done]. }
  rewrite Ha. change (st_eqb StateActive StateIdle || st_eqb StateActive StateEnded) with false.
  rewrite (proj2 (Z.ltb_ge _ _)) by (rewrite len_cons; pose proof (len_nonneg payload); lia).
  cbn [frameSeq set_frameSeq jitter].
  assert (u16 (u32 (frameSeq c + 1)) = u16 (k + 1)) as ->.
  { rewrite Hk, u16_u32. unfold u16. rewrite <- Zplus_mod_idemp_l. fold (u16 (u32 k)). rewrite u16_u32.
    unfold u16. by rewrite Zplus_mod_idemp_l. }
  split; [|split; [|done]].
  - split; cbn; try done.
    + by apply queue_push.
    + apply Forall_app. split; [done|]. by constructor.
    + rewrite Hk. unfold u32. by rewrite Zplus_mod_idemp_l.
  - cbn. by destruct (push_unchanged (order e) (now e) (u16 (k + 1)) 0 (codec :: payload) (jitter c)) as (_ & _ & _ & ->).
Qed.

Lemma receive_poll e c d k q : receiving c d k q ->
  let c' := (cstep e OPlay c).1 in
  match q with
  | [] => receiving c' d k [] /\ decoded (trace c') = decoded (trace c)
  | f :: q => receiving c' d k q /\ decoded (trace c') = decoded (trace c) ++ [tail f]
  end /\ maxFrames (jitter c') = maxFrames (jitter c).
Proof.
  intros [Ha Hg Hs Hd Hq Hf Hk]. cbn [cstep fst]. rewrite Hs. destruct q as [|f q].
  - unfold playReadyFrame. rewrite (queue_pop_empty _ k) by done. by split.
  - apply Forall_cons in Hf as [Hf1 Hf]. destruct f as [|codec payload]; [done|].
    pose proof (queue_pop _ _ _ _ (order e) (now e) Hq) as (j & fr & Hp & Hpl & Hq').
    rewrite (playReadyFrame_decodes e codec payload c d j fr) by done. cbn. split; [split; [by split|]|].
    + unfold decoded. by rewrite omap_app.
    + by apply (f_equal fst) in Hp; cbn in Hp; subst j; destruct (PopReady_popped (order e) (now e) (jitter c)).
Qed.

(** C15: the media of a call arrive in order.  As long as no frame arrives while
    the buffer is full, the receive path (packets, numbering on arrival, jitter
    buffer, decoder) is a queue: each turn of the receive loop gives the oldest
    waiting frame to the decoder of the call, whatever the times and whatever
    order the maps are iterated in; no frame is lost, repeated or reordered. *)
Theorem lxst_receive_queue c d k q ops outs q' :
  receiving c d k q -> Forall (fun p => match p.2 with Arrive _ payload => len payload < MaxFrameBytes | Poll => True end) ops ->
  fifo (maxFrames (jitter c)) (map snd ops) q = Some (outs, q') ->
  let c' := crun (map (fun p => (p.1, cop_of p.2)) ops) c in
  (exists k', receiving c' d k' q') /\ decoded (trace c') = decoded (trace c) ++ map tail outs.
Proof.
  intros Hr Hops. revert c k q outs Hr. induction Hops as [|[e [codec payload|]] ops Ho _ IH]; intros c k q outs Hr Hf.
  - simpl in Hf. simplify_eq. simpl. rewrite app_nil_r. split; [by exists k|done].
  - cbn [map snd fst cop_of crun foldl fifo] in *. destruct (_ <? _) eqn:El; [|done]. bool_hyps.
    destruct (receive_arrive e codec payload c d k q Hr El Ho) as (Hr' & Hm & Ht).
    rewrite <- Hm in Hf. destruct (IH _ _ _ _ Hr' Hf) as [Hx Hy]. split; [exact Hx|]. rewrite <- Ht. exact Hy.
  - cbn [map snd fst cop_of crun foldl fifo] in *.
    destruct (receive_poll e c d k q Hr) as [Hr' Hm]. destruct q as [|f q].
    + destruct Hr' as [Hr' Ht]. rewrite <- Hm in Hf. destruct (IH _ _ _ _ Hr' Hf) as [Hx Hy]. split; [exact Hx|].
      rewrite <- Ht. exact Hy.
    + destruct Hr' as [Hr' Ht]. rewrite <- Hm in Hf. destruct (fifo _ _ q) as [[outs' q'']|] eqn:E; [|done].
      injection Hf as <- <-. destruct (IH _ _ _ _ Hr' E) as [Hx Hy]. split; [exact Hx|].
      etrans; [exact Hy|]. rewrite Ht. cbn [map]. by rewrite <- app_assoc.
Qed.
End receive.

(** ** Witnesses *)

#[local] Instance talk_order : MapOrder := { shuffle := fun _ l => l; shuffle_perm := fun _ l => Permutation_refl l }.

Definition works_env : env :=
  mkEnv (fun _ _ => true) (fun _ => true) (fun _ => true) OpenOk true true (fun _ => true) 0 0.

Definition plain_config (id : bytes) (p m : Z) : Config :=
  mkConfig [] [] (Some id) false false p m 0 0 0 0 0 0 [] [] None.


(** A call in conversation, as [setup] leaves the callee. *)
Definition talking_call : Call :=
  callee (line_run works_env (setup [x02])
            (mkLine (NewCall (plain_config [x01] 0 0)) (NewCall (plain_config [x02] 0 0)) 0 0)).

Definition receive_ops : list (env * rop) :=
  [(works_env, Arrive x01 [xaa]); (works_env, Arrive x01 [xbb]); (works_env, Poll); (works_env, Arrive x01 [xcc]);
   (works_env, Poll); (works_env, Poll); (works_env, Poll)].

Lemma lxst_receive_queue_witness :
  decoded (trace (crun (map (fun p => (p.1, cop_of p.2)) receive_ops) talking_call)) = [[xaa]; [xbb]; [xcc]].
Proof.
  destruct (lxst_receive_queue talking_call (ProfileParams DefaultProfile) 0 [] receive_ops
              [[x01; xaa]; [x01; xbb]; [x01; xcc]] []) as [_ H].
  - split.
    + vm_compute. reflexivity.
    + intros _. vm_compute. reflexivity.
    + vm_compute. reflexivity.
    + vm_compute. reflexivity.
    + assert (jitter talking_call = SetTargetMs 300 (NewJitterBuffer 80 32)) as -> by (vm_compute; reflexivity).
      apply queue_target, queue_new. lia.
    + constructor.
    + vm_compute. reflexivity.
  - repeat constructor.
  - vm_compute. reflexivity.
  - etrans; [exact H|]. vm_compute. reflexivity.
Defined.

(** ** A call that comes back *)

(** [Dial] stores [StateIdle] when its link cannot be established, without
    looking whether the call was ended meanwhile.  A hangup between claiming the
    call and that failure ends the call and reports it; then the failure makes
    it idle again although its [ended] channel is closed, so the object accepts
    another call, which is ended and reported a second time. *)
Theorem lxst_dial_revives_call id p m :
  let c0 := NewCall (plain_config id p m) in
  let c1 := crun [(works_env, ODial (Some [x02])); (works_env, OHangup "changed my mind")] c0 in
  let c2 := crun [(works_env, ODialLink EstablishFails)] c1 in
  let c3 := crun [(works_env, ODial (Some [x02])); (works_env, OHangup "bye")] c2 in
  (state c1 = StateEnded /\ ended c1 = true)
  /\ (state c2 = StateIdle /\ ended c2 = true)
  /\ trace c3 = [AEvent (OnEnded "changed my mind"); AEvent (OnEnded "bye")].
Proof. repeat split. Qed.
