(* ===== verification/LxstBoard.v ===== *)
(** * Incoming calls of LXST ([pkg/lxst/call]: [switchboard.go], [ratelimit.go], [phone.go])

    The switchboard answers the links of a telephony destination, one call at a
    time; the rate limiter bounds the calls of one identity; the phone dials
    through the same switchboard.  A link callback runs in its own goroutine and
    takes the lock of the switchboard twice, so it is cut into its parts. *)

From stdpp Require Import base tactics list gmap strings.
From Stdlib Require Import ZArith Lia.
From S2P Require Import Prelude GoFloat SeqWindow Msgpack LxstProto LxstMedia LxstCall LxstCallProps.

(** ** The rate limiter *)

Definition rateLimitMaxBuckets : Z := 4096.
Definition minute : Z := 60 * second.
Definition DefaultRateInterval : Z := minute.
Definition DefaultRateBurst : Z := 3.

Record bucket := mkBucket { tokens : f64; b_last : Z }.
Record RateLimiter := mkLimiter { interval : Z; burst : Z; buckets : gmap bytes bucket }.

Definition NewRateLimiter (interval burst : Z) : RateLimiter :=
  mkLimiter (if interval <=? 0 then DefaultRateInterval else interval)
    (if burst <=? 0 then DefaultRateBurst else burst) ∅.

Definition set_buckets (m : gmap bytes bucket) (r : RateLimiter) : RateLimiter := mkLimiter (interval r) (burst r) m.

(** [copy(key[:], hash)] into sixteen zero bytes. *)
Definition rateHashKey (hash : bytes) : bytes := copy_range 0 16 hash (make_bytes 16).

Definition bsize (r : RateLimiter) : Z := Z.of_nat (size (buckets r)).

(** [keys_of] gives the keys in the order of the iteration. *)
Definition pruneLocked (keys_of : gmap bytes bucket -> list bytes) (now : Z) (r : RateLimiter) : RateLimiter :=
  let stale := Z.max (i64 (interval r * 2)) minute in
  let r := set_buckets (filter (fun kb => time_sub now (b_last kb.2) <= stale) (buckets r)) r in
  if bsize r <? rateLimitMaxBuckets then r
  else
    let limit := rateLimitMaxBuckets / 2 in
    set_buckets (foldl (fun m k => delete k m) (buckets r) (ztake limit (keys_of (buckets r)))) r.

(** Taking one token out of a bucket. *)
Definition take_token (now : Z) (r : RateLimiter) (b : bucket) : bucket * bool :=
  let elapsed := fdiv (duration_Seconds (time_sub now (b_last b))) (duration_Seconds (interval r)) in
  let tok := fadd (tokens b) elapsed in
  let tok := if fltb (f_of_Z (burst r)) tok then f_of_Z (burst r) else tok in
  if fltb tok (f_of_Z 1) then (mkBucket tok now, false) else (mkBucket (fsub tok (f_of_Z 1)) now, true).

Definition Allow (keys_of : gmap bytes bucket -> list bytes) (now : Z) (hash : bytes) (r : RateLimiter) : RateLimiter * bool :=
  let key := rateHashKey hash in
  let r := if rateLimitMaxBuckets <=? bsize r then pruneLocked keys_of now r else r in
  let use r b := let '(b, ok) := take_token now r b in (set_buckets (<[key := b]> (buckets r)) r, ok) in
  match buckets r !! key with
  | Some b => use r b
  | None =>
      let r := if rateLimitMaxBuckets <=? bsize r then pruneLocked keys_of now r else r in
      if rateLimitMaxBuckets <=? bsize r then (r, false)
      else use r (mkBucket (f_of_Z (burst r)) now)
  end.

(** ** The switchboard *)

(** Where the callback of a link is: it has found the board free, or has
    occupied it; an outgoing call of the phone that has occupied it. *)
Inductive stage := Checked | Occupied | Dialing.

(** [calls] is the store of call objects; [hooked] are those whose [OnEnded]
    releases the board; [turned_away] the links answered with a busy signal. *)
Record Switchboard := mkBoard {
  b_cfg : Config; active : option nat; forcedBusy : bool; calls : gmap nat Call; hooked : gset nat;
  stages : gmap nat stage; turned_away : list nat
}.

Definition Board_eta (s : Switchboard) : Switchboard :=
  mkBoard (b_cfg s) (active s) (forcedBusy s) (calls s) (hooked s) (stages s) (turned_away s).
Definition set_active : option nat -> Switchboard -> Switchboard := ltac:(field_setter Board_eta active).
Definition set_forcedBusy : bool -> Switchboard -> Switchboard := ltac:(field_setter Board_eta forcedBusy).
Definition set_calls : gmap nat Call -> Switchboard -> Switchboard := ltac:(field_setter Board_eta calls).
Definition set_hooked : gset nat -> Switchboard -> Switchboard := ltac:(field_setter Board_eta hooked).
Definition set_stages : gmap nat stage -> Switchboard -> Switchboard := ltac:(field_setter Board_eta stages).
Definition set_turned_away : list nat -> Switchboard -> Switchboard := ltac:(field_setter Board_eta turned_away).

Definition NewSwitchboard (cf : Config) : Switchboard := mkBoard cf None false ∅ ∅ ∅ [].

Definition SetBusy (busy : bool) (s : Switchboard) : Switchboard := set_forcedBusy busy s.

Definition SetAccess (policy : Z) (allowed blocked : list bytes) (fn : option (bytes -> bool)) (s : Switchboard) : Switchboard :=
  let f := b_cfg s in
  mkBoard (mkConfig (CfgAppName f) (CfgAspectName f) (Identity f) (UseAudio f) (Device f) (Profile f) (Mode f)
             (RingTime f) (WaitTime f) (ConnectTime f) (AutoAnswer f) (AnnounceInterval f) policy allowed blocked fn)
    (active s) (forcedBusy s) (calls s) (hooked s) (stages s) (turned_away s).

Definition free_state (st : State) : bool := st_eqb st StateIdle || st_eqb st StateEnded.

(** A call that is idle or ended does not keep the board busy. *)
Definition busyLocked (s : Switchboard) : Switchboard * bool :=
  if forcedBusy s then (s, true)
  else match active s with
  | None => (s, false)
  | Some i =>
      match calls s !! i with
      | Some c => if free_state (state c) then (set_active None s, false) else (s, true)
      | None => (s, false)
      end
  end.

Definition Occupy (i : nat) (s : Switchboard) : Switchboard * bool :=
  match busyLocked s with
  | (s, true) => (s, false)
  | (s, false) => (set_active (Some i) (set_hooked ({[i]} ∪ hooked s) s), true)
  end.

Definition Release (i : nat) (s : Switchboard) : Switchboard :=
  if bool_decide (active s = Some i) then set_active None s else s.

Definition Active (s : Switchboard) : Switchboard * option nat :=
  let s :=
    match active s with
    | Some i =>
        match calls s !! i with
        | Some c => if free_state (state c) then set_active None s else s
        | None => s
        end
    | None => s
    end in
  (s, active s).

(** [rejectBusy] sends a busy signal and tears the link down. *)
Definition rejectBusy (i : nat) (s : Switchboard) : Switchboard := set_turned_away (turned_away s ++ [i]) s.

(** The callback of a new link: the first look at the board, *)
Definition link_check (i : nat) (s : Switchboard) : Switchboard :=
  match busyLocked s with
  | (s, true) => rejectBusy i s
  | (s, false) => set_stages (<[i := Checked]> (stages s)) (set_calls (<[i := NewCall (b_cfg s)]> (calls s)) s)
  end.

(** the claim, *)
Definition link_occupy (i : nat) (s : Switchboard) : Switchboard :=
  match Occupy i s with
  | (s, false) => rejectBusy i (set_stages (delete i (stages s)) s)
  | (s, true) => set_stages (<[i := Occupied]> (stages s)) s
  end.

(** [OnEnded] of a call that occupies the board. *)
Definition put_call (i : nat) (c c' : Call) (s : Switchboard) : Switchboard :=
  let s := set_calls (<[i := c']> (calls s)) s in
  if bool_decide (i ∈ hooked s) && negb (st_eqb (state c) StateEnded) && st_eqb (state c') StateEnded
  then Release i s else s.

Section board.
Context `{MapOrder}.

(** and the call. *)
Definition link_serve (e : env) (i : nat) (s : Switchboard) : Switchboard :=
  let s := set_stages (delete i (stages s)) s in
  match calls s !! i with
  | None => s
  | Some c =>
      match ServeIncoming true c with
      | (c', Some _) => Release i (put_call i c c' s)
      | (c', None) =>
          match ServeIncoming_send e c' with
          | (c'', Some _) => Release i (put_call i c c'' s)
          | (c'', None) => put_call i c c'' s
          end
      end
  end.

(** [Phone.Dial]: a new call occupies the board, then dials. *)
Definition phone_occupy (i : nat) (cf : Config) (s : Switchboard) : Switchboard * option call_error :=
  let s := set_calls (<[i := NewCall cf]> (calls s)) s in
  match Occupy i s with
  | (s, false) => (s, Some ErrAlreadyCall)
  | (s, true) => (set_stages (<[i := Dialing]> (stages s)) s, None)
  end.

Definition phone_dial (e : env) (remote : option bytes) (i : nat) (s : Switchboard) : Switchboard :=
  let s := set_stages (delete i (stages s)) s in
  match calls s !! i with
  | None => s
  | Some c =>
      match Dial remote c with
      | (c', None) => put_call i c c' s
      | (c', Some _) => Release i (put_call i c (Hangup e "dial failed" c').1 s)
      end
  end.

(** [Dial] failed after its wait: the call is hung up and the board released. *)
Definition phone_fail (e : env) (i : nat) (s : Switchboard) : Switchboard :=
  match calls s !! i with
  | None => s
  | Some c => Release i (put_call i c (Hangup e "dial failed" c).1 s)
  end.

(** ** Steps *)

Inductive bop :=
| BCheck (i : nat) | BOccupy (i : nat) | BServe (e : env) (i : nat)
| BPhoneOccupy (i : nat) (cf : Config) | BPhoneDial (e : env) (remote : option bytes) (i : nat) | BPhoneFail (e : env) (i : nat)
| BCall (i : nat) (e : env) (o : cop)       (** a step of a call that was set up *)
| BBusy (busy : bool).

(** The steps of a call that do not set it up. *)
Definition later (o : cop) : bool := match o with ODial _ | OServe _ => false | _ => true end.

Definition at_stage (g : stage) (i : nat) (s : Switchboard) : bool :=
  match stages s !! i, g with
  | Some Checked, Checked | Some Occupied, Occupied | Some Dialing, Dialing => true
  | _, _ => false
  end.

Definition bstep (o : bop) (s : Switchboard) : Switchboard :=
  match o with
  | BCheck i => if bool_decide (calls s !! i = None) then link_check i s else s
  | BOccupy i => if at_stage Checked i s then link_occupy i s else s
  | BServe e i => if at_stage Occupied i s then link_serve e i s else s
  | BPhoneOccupy i cf => if bool_decide (calls s !! i = None) then (phone_occupy i cf s).1 else s
  | BPhoneDial e remote i => if at_stage Dialing i s then phone_dial e remote i s else s
  | BPhoneFail e i => phone_fail e i s
  | BCall i e o =>
      match calls s !! i with
      | Some c => if later o then put_call i c (cstep e o c).1 s else s
      | None => s
      end
  | BBusy busy => SetBusy busy s
  end.

Definition brun (ops : list bop) (s : Switchboard) : Switchboard := foldl (fun s o => bstep o s) s ops.

(** Callbacks one after the other. *)
Inductive serial_op :=
| SLink (i : nat) (e : env) | SPhone (i : nat) (e : env) (cf : Config) (remote : option bytes)
| SPhoneFail (i : nat) (e : env)
| SCall (i : nat) (e : env) (o : cop) | SBusy (busy : bool).

Definition bops (o : serial_op) : list bop :=
  match o with
  | SLink i e => [BCheck i; BOccupy i; BServe e i]
  | SPhone i e cf remote => [BPhoneOccupy i cf; BPhoneDial e remote i]
  | SPhoneFail i e => [BPhoneFail e i]
  | SCall i e o => [BCall i e o]
  | SBusy busy => [BBusy busy]
  end.

Definition serial_run (ops : list serial_op) (s : Switchboard) : Switchboard := brun (concat (map bops ops)) s.
End board.

(** * Properties *)

(** ** One call at a time *)

Definition live (c : Call) : Prop := free_state (state c) = false.

(** Every call that is neither idle nor ended is the active one. *)
Definition exclusive (s : Switchboard) : Prop :=
  forall i c, calls s !! i = Some c -> live c -> active s = Some i.

Definition nobody (s : Switchboard) : Prop := forall i c, calls s !! i = Some c -> free_state (state c) = true.

Lemma nobody_exclusive s : nobody s -> exclusive s.
Proof. intros Hn i c Hc Hl. unfold live in Hl. by rewrite (Hn i c Hc) in Hl. Qed.

(** What [busyLocked] says: a free board has no live call. *)
Lemma busyLocked_spec s : exclusive s ->
  let '(s', busy) := busyLocked s in
  calls s' = calls s /\ hooked s' = hooked s /\ stages s' = stages s /\ turned_away s' = turned_away s
  /\ b_cfg s' = b_cfg s /\ forcedBusy s' = forcedBusy s /\ exclusive s'
  /\ (busy = false -> nobody s' /\ forcedBusy s = false)
  /\ (forall i c, calls s !! i = Some c -> live c -> busy = true).
Proof.
  intros He. unfold busyLocked. destruct (forcedBusy s) eqn:Ef; [by split_and!|].
  assert (forall s', calls s' = calls s -> (forall i c, calls s !! i = Some c -> ~ live c) -> nobody s') as Hnob.
  { intros s' E Hn i c Hc. rewrite E in Hc. specialize (Hn i c Hc). unfold live in Hn. by destruct (free_state _). }
  destruct (active s) as [i|] eqn:Ea.
  - destruct (calls s !! i) as [c|] eqn:Ec.
    + destruct (free_state (state c)) eqn:Efr.
      * assert (forall j d, calls s !! j = Some d -> ~ live d) as Hn.
        { intros j d Hd Hl. pose proof (He j d Hd Hl) as Hj. rewrite Ea in Hj. injection Hj as <-.
          rewrite Ec in Hd. injection Hd as <-. unfold live in Hl. congruence. }
        split_and!; try done; try (intros; split; [by apply Hnob|done]).
        -- apply nobody_exclusive. by apply Hnob.
        -- intros j d Hd Hl. by destruct (Hn j d Hd).
      * by split_and!.
    + assert (forall j d, calls s !! j = Some d -> ~ live d) as Hn.
      { intros j d Hd Hl. pose proof (He j d Hd Hl) as Hj. rewrite Ea in Hj. injection Hj as <-. congruence. }
      split_and!; try done; [intros; split; [by apply Hnob|done]|]. intros j d Hd Hl. by destruct (Hn j d Hd).
  - assert (forall j d, calls s !! j = Some d -> ~ live d) as Hn.
    { intros j d Hd Hl. pose proof (He j d Hd Hl) as Hj. congruence. }
    split_and!; try done; [intros; split; [by apply Hnob|done]|]. intros j d Hd Hl. by destruct (Hn j d Hd).
Qed.

Lemma Occupy_spec i s : exclusive s ->
  let '(s', ok) := Occupy i s in
  calls s' = calls s /\ stages s' = stages s /\ turned_away s' = turned_away s /\ exclusive s'
  /\ (ok = true -> active s' = Some i /\ nobody s').
Proof.
  intros He. unfold Occupy. pose proof (busyLocked_spec s He) as Hb. destruct (busyLocked s) as [s1 [|]].
  - destruct Hb as (H1 & H2 & H3 & H4 & _ & _ & H5 & _). by split_and!.
  - destruct Hb as (H1 & H2 & H3 & H4 & _ & _ & H5 & H6 & _). destruct (H6 eq_refl) as [Hn _].
    split_and!; try done. by apply nobody_exclusive.
Qed.

Lemma Release_spec i s : calls (Release i s) = calls s /\ stages (Release i s) = stages s
  /\ (active (Release i s) = active s \/ active s = Some i).
Proof. unfold Release. destruct (bool_decide _) eqn:E; bool_hyps; by split_and!; auto. Qed.

Lemma Release_exclusive i s : exclusive s -> (forall c, calls s !! i = Some c -> free_state (state c) = true) ->
  exclusive (Release i s).
Proof.
  intros He Hf j c Hc Hl. destruct (Release_spec i s) as (E1 & _ & E2). rewrite E1 in Hc.
  pose proof (He j c Hc Hl) as Ha. destruct E2 as [-> |E2]; [done|]. rewrite Ha in E2. injection E2 as ->.
  unfold live in Hl. by rewrite (Hf c Hc) in Hl.
Qed.

Lemma put_call_calls i c c' s : calls (put_call i c c' s) = <[i := c']> (calls s) /\ stages (put_call i c c' s) = stages s.
Proof. unfold put_call. cbv zeta. destruct (_ && _); [|done]. by destruct (Release_spec i (set_calls (<[i := c']> (calls s)) s)) as (-> & -> & _). Qed.

Lemma put_call_exclusive i c c' s : exclusive s -> free_state (state c') = true \/ active s = Some i ->
  exclusive (put_call i c c' s).
Proof.
  intros He Hor. assert (exclusive (set_calls (<[i := c']> (calls s)) s)) as He'.
  { intros j d Hd Hl. simpl in *. apply lookup_insert_Some in Hd as [[<- <-]|[Hne Hd]].
    - destruct Hor as [Hf|Ha]; [|done]. unfold live in Hl. congruence.
    - by apply (He j d). }
  unfold put_call. cbv zeta. destruct (_ && _) eqn:Eb; [|done]. bool_hyps.
  apply Release_exclusive; [done|]. intros d Hd. simpl in Hd. rewrite lookup_insert_eq in Hd. injection Hd as <-.
  match goal with H : st_eqb (state c') StateEnded = true |- _ => apply st_eqb_true in H; by rewrite H end.
Qed.

Section props.
Context `{MapOrder}.

(** A call that is idle or ended is set up only by [Dial] and [ServeIncoming]. *)
Lemma free_rule Caller l l' : rtc (lrule Caller False) l l' -> free_state (l_state l) = true -> free_state (l_state l') = true.
Proof.
  induction 1 as [|l l1 l2 Hr _ IH]; [done|]. intros Hf. apply IH. clear IH.
  destruct Hr; try unfold life_end; try (destruct (st_eqb (l_state l) StateEnded)); simpl; try done;
    repeat match goal with H : _ \/ _ |- _ => destruct H end;
    match goal with H : l_state l = _ |- _ => rewrite H in Hf; done end.
Qed.

Lemma free_stays e o c : later o = true -> free_state (state c) = true -> free_state (state (cstep e o c).1) = true.
Proof.
  intros Hl Hf. assert (presents (fun _ => True) False o) as Hp by (by destruct o as [| | | | | | | | | | | | | | | | |[]| | | | | | | | |]).
  exact (free_rule _ _ _ (sim_cstep _ _ e o c Hp) Hf).
Qed.

Lemma call_step_exclusive i e o s c : exclusive s -> calls s !! i = Some c -> later o = true ->
  exclusive (put_call i c (cstep e o c).1 s).
Proof.
  intros He Hc Ho. apply put_call_exclusive; [done|]. destruct (free_state (state c)) eqn:Ef.
  - left. by apply free_stays.
  - right. by apply (He i c).
Qed.
Lemma end_state reason c : state (end_ reason c) = StateEnded.
Proof.
  pose proof (f_equal l_state (lc_end reason c)) as E. change (l_state (lc (end_ reason c))) with (state (end_ reason c)) in E.
  rewrite E. unfold life_end. destruct (st_eqb _ _) eqn:Es; [|done]. by apply st_eqb_true in Es.
Qed.

Lemma hangup_free e reason c : free_state (state (Hangup e reason c).1) = true.
Proof.
  unfold Hangup. destruct (st_eqb (state c) StateIdle || st_eqb (state c) StateEnded) eqn:E; [done|].
  cbn [fst]. by rewrite end_state.
Qed.

(** What holds between callbacks. *)
Definition quiet (s : Switchboard) : Prop := exclusive s /\ stages s = ∅.

Lemma quiet_put i c c' s : quiet s -> free_state (state c') = true \/ active s = Some i -> quiet (put_call i c c' s).
Proof.
  intros [He Hs] Hor. split; [by apply put_call_exclusive|]. by rewrite (proj2 (put_call_calls i c c' s)).
Qed.

Lemma quiet_release i c c' s : quiet s -> free_state (state c') = true -> quiet (Release i (put_call i c c' s)).
Proof.
  intros Hq Hf. destruct (quiet_put i c c' s Hq (or_introl Hf)) as [He Hs]. split.
  - apply Release_exclusive; [done|]. intros d Hd. rewrite (proj1 (put_call_calls i c c' s)), lookup_insert_eq in Hd.
    by injection Hd as <-.
  - by rewrite (proj1 (proj2 (Release_spec i (put_call i c c' s)))).
Qed.

Lemma exclusive_calls s s' : calls s' = calls s -> active s' = active s -> exclusive s -> exclusive s'.
Proof. intros E1 E2 He i c. rewrite E1, E2. apply He. Qed.

Lemma serve_quiet e i c s : quiet s -> active s = Some i -> calls s !! i = Some c -> state c = StateIdle ->
  quiet (match ServeIncoming true c with
         | (c', Some _) => Release i (put_call i c c' s)
         | (c', None) =>
             match ServeIncoming_send e c' with
             | (c'', Some _) => Release i (put_call i c c'' s)
             | (c'', None) => put_call i c c'' s
             end
         end).
Proof.
  intros Hq Ha Hc Hs. unfold ServeIncoming, casState. rewrite Hs. cbn [st_eqb bool_decide decide decide_rel].
  unfold ServeIncoming_send. change (st_eqb StateIdle StateIdle) with true. cbv iota beta. cbn [serving set_serving negb].
  match goal with |- context [sendSignals ?a ?b ?x] => destruct (sendSignals a b x) as [c2 [err|]] end.
  - by apply quiet_release.
  - by apply quiet_put; [|right].
Qed.

Lemma quiet_link i e s : quiet s -> quiet (brun [BCheck i; BOccupy i; BServe e i] s).
Proof.
  intros [He Hs]. unfold brun. cbn [foldl bstep].
  case_bool_decide as Hi.
  2: { unfold at_stage. by rewrite Hs, lookup_empty, Hs, lookup_empty. }
  unfold link_check. pose proof (busyLocked_spec s He) as Hb. destruct (busyLocked s) as [s1 busy].
  destruct Hb as (H1 & H2 & H3 & H4 & H5 & H6 & H7 & H8 & _). destruct busy.
  { assert (stages (rejectBusy i s1) = ∅) as Hr by (cbn; by rewrite H3).
    unfold at_stage. rewrite Hr, lookup_empty, Hr, lookup_empty. split; [|done]. by apply (exclusive_calls s1). }
  destruct (H8 eq_refl) as [Hn Hfb].
  set (s2 := set_stages _ (set_calls _ s1)). assert (stages s2 = {[i := Checked]}) as Hs2 by (cbn; by rewrite H3, Hs).
  assert (at_stage Checked i s2 = true) as -> by (unfold at_stage; by rewrite Hs2, lookup_singleton_eq).
  unfold link_occupy.
  assert (nobody s2) as Hn2.
  { intros j d Hd. cbn in Hd. apply lookup_insert_Some in Hd as [[<- <-]|[_ Hd]]; [done|by apply (Hn j)]. }
  pose proof (Occupy_spec i s2 (nobody_exclusive s2 Hn2)) as Ho. destruct (Occupy i s2) as [s3 ok].
  destruct Ho as (O1 & O2 & O3 & O4 & O5). destruct ok.
  - destruct (O5 eq_refl) as [Ha Hn3]. set (s4 := set_stages _ s3).
    assert (stages s4 = {[i := Occupied]}) as Hs4 by (cbn; by rewrite O2, Hs2, insert_singleton_eq).
    assert (at_stage Occupied i s4 = true) as -> by (unfold at_stage; by rewrite Hs4, lookup_singleton_eq).
    unfold link_serve. rewrite Hs4, delete_singleton_eq.
    set (s5 := set_stages ∅ s4). assert (calls s5 !! i = Some (NewCall (b_cfg s1))) as Hc.
    { cbn. rewrite O1. cbn. by rewrite lookup_insert_eq. }
    rewrite Hc. apply serve_quiet; [|done|done|done]. split; [|done].
    apply (exclusive_calls s3); [done|done|exact O4].
  - set (s4 := rejectBusy i _). assert (stages s4 = ∅) as Hs4 by (cbn; by rewrite O2, Hs2, delete_singleton_eq).
    assert (at_stage Occupied i s4 = false) as -> by (unfold at_stage; by rewrite Hs4, lookup_empty).
    split; [|done]. by apply (exclusive_calls s3).
Qed.

Lemma dial_error r c c' err : Dial r c = (c', Some err) -> c' = c.
Proof.
  unfold Dial, casState. destruct r; [|by intros [= <-]]. destruct (bool_decide _); [by intros [= <-]|].
  destruct (st_eqb _ _); [done|by intros [= <-]].
Qed.

Lemma quiet_phone i e cf r s : quiet s -> quiet (brun [BPhoneOccupy i cf; BPhoneDial e r i] s).
Proof.
  intros [He Hs]. unfold brun. cbn [foldl bstep]. case_bool_decide as Hi.
  2: { unfold at_stage. by rewrite Hs, lookup_empty. }
  unfold phone_occupy. set (s1 := set_calls _ s). assert (exclusive s1) as He1.
  { intros j d Hd Hl. cbn in *. apply lookup_insert_Some in Hd as [[<- <-]|[_ Hd]]; [done|by apply (He j d)]. }
  pose proof (Occupy_spec i s1 He1) as Ho. destruct (Occupy i s1) as [s2 ok].
  destruct Ho as (O1 & O2 & O3 & O4 & O5). destruct ok; cbn [fst].
  - destruct (O5 eq_refl) as [Ha _]. set (s3 := set_stages _ s2).
    assert (stages s3 = {[i := Dialing]}) as Hs3 by (cbn; by rewrite O2; cbn; rewrite Hs).
    assert (at_stage Dialing i s3 = true) as -> by (unfold at_stage; by rewrite Hs3, lookup_singleton_eq).
    unfold phone_dial. rewrite Hs3, delete_singleton_eq.
    assert (quiet (set_stages ∅ s3)) as Hq by (split; [apply (exclusive_calls s2); done|done]).
    assert (calls (set_stages ∅ s3) !! i = Some (NewCall cf)) as -> by (cbn; rewrite O1; cbn; by rewrite lookup_insert_eq).
    destruct (Dial r (NewCall cf)) as [c' [err|]] eqn:Ed.
    + apply quiet_release; [done|apply hangup_free].
    + by apply quiet_put; [|right].
  - unfold at_stage. rewrite O2. cbn. rewrite Hs, lookup_empty. split; [done|]. rewrite O2. by cbn.
Qed.

Lemma quiet_serial o s : quiet s -> quiet (brun (bops o) s).
Proof.
  intros Hq. destruct o as [i e|i e cf r|i e|i e o|busy]; cbn [bops].
  - by apply quiet_link.
  - by apply quiet_phone.
  - unfold brun. cbn [foldl bstep]. unfold phone_fail. destruct (calls s !! i); [|done].
    apply quiet_release; [done|apply hangup_free].
  - unfold brun. cbn [foldl bstep]. destruct (calls s !! i) as [c|] eqn:Ec; [|done].
    destruct (later o) eqn:El; [|done]. destruct Hq as [He Hs]. split; [by apply call_step_exclusive|].
    by rewrite (proj2 (put_call_calls i c (cstep e o c).1 s)).
  - destruct Hq. by split.
Qed.

Lemma quiet_run ops s : quiet s -> quiet (serial_run ops s).
Proof.
  unfold serial_run, brun. revert s. induction ops as [|o ops IH]; intros s Hq; [done|]. simpl.
  rewrite foldl_app. apply IH. exact (quiet_serial o s Hq).
Qed.

Lemma link_while_busy i e s j c : quiet s -> calls s !! j = Some c -> live c -> calls s !! i = None ->
  calls (brun (bops (SLink i e)) s) = calls s /\ turned_away (brun (bops (SLink i e)) s) = turned_away s ++ [i].
Proof.
  intros [He Hs] Hc Hl Hi. unfold brun. cbn [bops foldl bstep]. rewrite bool_decide_eq_true_2 by done.
  unfold link_check. pose proof (busyLocked_spec s He) as Hb. destruct (busyLocked s) as [s1 busy].
  destruct Hb as (H1 & H2 & H3 & H4 & H5 & H6 & H7 & H8 & H9). rewrite (H9 j c Hc Hl).
  assert (stages (rejectBusy i s1) = ∅) as Hr by (cbn; by rewrite H3).
  unfold at_stage. rewrite Hr, lookup_empty, Hr, lookup_empty. cbn. by rewrite H1, H4.
Qed.

(** C21: the switchboard carries one call at a time, as long as its callbacks
    run one after the other: after any sequence of links, calls dialled by the
    phone, steps of the calls and busy switches, at most one call is neither
    idle nor ended, and it is the active one; a link that comes in while there
    is one is turned away with a busy signal and gets no call. *)
Theorem lxst_switchboard_exclusive cf ops :
  let s := serial_run ops (NewSwitchboard cf) in
  (forall i j c d, calls s !! i = Some c -> calls s !! j = Some d -> live c -> live d -> i = j)
  /\ (forall i c, calls s !! i = Some c -> live c -> active s = Some i)
  /\ (forall i e j c, calls s !! j = Some c -> live c -> calls s !! i = None ->
      calls (brun (bops (SLink i e)) s) = calls s /\ turned_away (brun (bops (SLink i e)) s) = turned_away s ++ [i]).
Proof.
  intros s. assert (quiet s) as Hq by (apply quiet_run; split; [intros i c Hc; done|done]).
  destruct Hq as [He Hs]. split_and!.
  - intros i j c d Hc Hd Lc Ld. pose proof (He i c Hc Lc). pose proof (He j d Hd Ld). congruence.
  - exact He.
  - intros i e j c Hc Hl Hi. by apply (link_while_busy i e s j c).
Qed.
End props.

(** ** Two callbacks at once *)

#[local] Instance board_order : MapOrder := { shuffle := fun _ l => l; shuffle_perm := fun _ l => Permutation_refl l }.

(** Two links that come in together are both served.  Between [Occupy] and
    [ServeIncoming] the call that holds the board is still idle, and
    [busyLocked] takes an idle call for a free board: the second callback
    occupies it as well, and both calls are connecting at the same time, only
    the second one being known to the switchboard. *)
Theorem lxst_switchboard_race id p m :
  let cf := mkConfig [] [] id false false p m 0 0 0 0 0 0 [] [] None in
  let s := brun [BCheck 0; BOccupy 0; BCheck 1; BOccupy 1; BServe ok_env 0; BServe ok_env 1] (NewSwitchboard cf) in
  state <$> calls s !! 0%nat = Some StateConnecting /\ state <$> calls s !! 1%nat = Some StateConnecting
  /\ active s = Some 1%nat /\ turned_away s = [].
Proof. split_and!; vm_compute; reflexivity. Qed.

(** ** The rate limiter *)

Definition bounded (r : RateLimiter) : Prop := bsize r <= rateLimitMaxBuckets.

Lemma foldl_delete_subseteq (l : list bytes) (m : gmap bytes bucket) : foldl (fun m k => delete k m) m l ⊆ m.
Proof. revert m. induction l as [|k l IH]; intros m; simpl; [done|]. etrans; [apply IH|apply delete_subseteq]. Qed.

Lemma foldl_delete_lookup (l : list bytes) (m : gmap bytes bucket) k : k ∈ l -> foldl (fun m k => delete k m) m l !! k = None.
Proof.
  revert m. induction l as [|x l IH]; intros m Hk; [by apply elem_of_nil in Hk|]. simpl.
  destruct (decide (k ∈ l)) as [Hin|Hn]; [by apply IH|]. apply elem_of_cons in Hk as [-> |Hk]; [|done].
  apply (lookup_weaken_None _ (delete x m)); [by rewrite lookup_delete_eq|apply foldl_delete_subseteq].
Qed.

Lemma prune_subseteq keys_of now r : buckets (pruneLocked keys_of now r) ⊆ buckets r.
Proof.
  unfold pruneLocked. cbv zeta. destruct (_ <? _); simpl; [apply map_filter_subseteq|].
  etrans; [apply foldl_delete_subseteq|apply map_filter_subseteq].
Qed.

Lemma prune_size keys_of now r : bsize (pruneLocked keys_of now r) <= bsize r.
Proof. unfold bsize. pose proof (map_subseteq_size _ _ (prune_subseteq keys_of now r)). lia. Qed.

Lemma prune_config keys_of now r : interval (pruneLocked keys_of now r) = interval r /\ burst (pruneLocked keys_of now r) = burst r.
Proof. unfold pruneLocked. cbv zeta. by destruct (_ <? _). Qed.

Lemma Allow_bounded keys_of now hash r : bounded r -> bounded (Allow keys_of now hash r).1.
Proof.
  unfold bounded, Allow. intros Hb. cbv zeta. set (r1 := if _ <=? bsize r then _ else r).
  assert (bsize r1 <= rateLimitMaxBuckets) as H1.
  { subst r1. case_match; [|done]. pose proof (prune_size keys_of now r). lia. }
  clearbody r1. destruct (buckets r1 !! rateHashKey hash) as [b|] eqn:Eb.
  - destruct (take_token now r1 b) as [b' ok]. unfold bsize in *. simpl. by rewrite map_size_insert_Some by eauto.
  - set (r2 := if _ <=? bsize r1 then _ else r1).
    destruct (rateLimitMaxBuckets <=? bsize r2) eqn:E2; bool_hyps.
    + simpl. subst r2. case_match; [|done]. pose proof (prune_size keys_of now r1). lia.
    + destruct (take_token _ _ _) as [b' ok]. unfold bsize in *. simpl. rewrite map_size_insert.
      destruct (buckets r2 !! _); simpl; lia.
Qed.

(** How many of [k] calls of one identity at one instant are allowed. *)
Fixpoint allowed_calls (keys_of : gmap bytes bucket -> list bytes) (now : Z) (hash : bytes) (k : nat) (r : RateLimiter) : nat :=
  match k with
  | O => 0
  | S k => let '(r, ok) := Allow keys_of now hash r in ((if ok then 1 else 0) + allowed_calls keys_of now hash k r)%nat
  end.

(** The same on the bucket alone, at an instant that does not matter. *)
Fixpoint drain (k : nat) (r : RateLimiter) (tok : f64) : nat * f64 :=
  match k with
  | O => (0%nat, tok)
  | S k => let '(b, ok) := take_token 0 r (mkBucket tok 0) in
           let '(n, tok) := drain k r (tokens b) in (((if ok then 1 else 0) + n)%nat, tok)
  end.

Lemma take_token_shift now r tok :
  take_token now r (mkBucket tok now) = let '(b, ok) := take_token 0 r (mkBucket tok 0) in (mkBucket (tokens b) now, ok).
Proof.
  unfold take_token. cbn [b_last tokens]. assert (time_sub now now = time_sub 0 0) as -> by (unfold time_sub; lia).
  by destruct (fltb _ (f_of_Z 1)).
Qed.

Lemma Allow_known keys_of now hash r tok : bsize r < rateLimitMaxBuckets ->
  buckets r !! rateHashKey hash = Some (mkBucket tok now) ->
  Allow keys_of now hash r =
  let '(b, ok) := take_token 0 r (mkBucket tok 0) in
  (set_buckets (<[rateHashKey hash := mkBucket (tokens b) now]> (buckets r)) r, ok).
Proof.
  intros Hb Hk. unfold Allow. cbv zeta. rewrite (proj2 (Z.leb_gt _ _)) by done. rewrite Hk, take_token_shift.
  by destruct (take_token 0 r (mkBucket tok 0)).
Qed.

(** A new identity after pruning, if any, has left room. *)
Lemma Allow_new keys_of now hash r r1 :
  r1 = (if rateLimitMaxBuckets <=? bsize r then pruneLocked keys_of now r else r) ->
  bsize r1 < rateLimitMaxBuckets -> buckets r1 !! rateHashKey hash = None ->
  Allow keys_of now hash r =
  let '(b, ok) := take_token 0 r1 (mkBucket (f_of_Z (burst r1)) 0) in
  (set_buckets (<[rateHashKey hash := mkBucket (tokens b) now]> (buckets r1)) r1, ok).
Proof.
  intros Hr Hb Hk. unfold Allow. cbv zeta. rewrite <- Hr, Hk.
  assert ((rateLimitMaxBuckets <=? bsize r1) = false) as E by (by apply Z.leb_gt). rewrite E. cbv iota. rewrite E. cbv iota.
  rewrite take_token_shift. by destruct (take_token 0 r1 _).
Qed.

Lemma allowed_drain keys_of now hash k : forall r tok, bsize r < rateLimitMaxBuckets ->
  buckets r !! rateHashKey hash = Some (mkBucket tok now) ->
  allowed_calls keys_of now hash k r = (drain k r tok).1.
Proof.
  induction k as [|k IH]; intros r tok Hb Hk; [done|]. cbn [allowed_calls drain]. rewrite (Allow_known keys_of now hash r tok) by done.
  destruct (take_token 0 r (mkBucket tok 0)) as [b ok].
  set (r' := set_buckets _ r). assert (bsize r' < rateLimitMaxBuckets) as Hb'.
  { unfold bsize in *. simpl. by rewrite map_size_insert_Some by eauto. }
  rewrite (IH r' (tokens b)) by (done || (simpl; by rewrite lookup_insert_eq)).
  assert (forall t, drain k r' t = drain k r t) as ->; [|by destruct (drain k r (tokens b))].
  clear. induction k as [|k IH]; intros t; [done|]. cbn [drain].
  change (take_token 0 r' (mkBucket t 0)) with (take_token 0 r (mkBucket t 0)).
  destruct (take_token 0 r (mkBucket t 0)) as [b1 ok1]. by rewrite IH.
Qed.

Lemma drain_app a b r tok : drain (a + b) r tok = let '(n, t) := drain a r tok in let '(m, t') := drain b r t in ((n + m)%nat, t').
Proof.
  revert tok. induction a as [|a IH]; intros tok; cbn [drain Nat.add]; [by destruct (drain b r tok)|].
  destruct (take_token 0 r (mkBucket tok 0)) as [x ok]. rewrite IH.
  destruct (drain a r (tokens x)) as [n t]. destruct (drain b r t) as [m t']. by rewrite Nat.add_assoc.
Qed.

(** With the default interval, a full bucket of [n] tokens gives [n] and is then empty. *)
Definition full_bucket_ok (n : Z) : bool :=
  let r := mkLimiter DefaultRateInterval n ∅ in
  match drain (Z.to_nat n) r (f_of_Z n) with
  | (k, SpecFloat.S754_zero false) => Nat.eqb k (Z.to_nat n)
  | _ => false
  end
  && match take_token 0 r (mkBucket (SpecFloat.S754_zero false) 0) with
     | (mkBucket (SpecFloat.S754_zero false) _, false) => true
     | _ => false
     end.

Lemma drain_config k r r' tok : interval r = interval r' -> burst r = burst r' -> drain k r tok = drain k r' tok.
Proof.
  intros E1 E2. revert tok. induction k as [|k IH]; intros tok; [done|]. cbn [drain].
  assert (take_token 0 r (mkBucket tok 0) = take_token 0 r' (mkBucket tok 0)) as -> by (unfold take_token; by rewrite E1, E2).
  destruct (take_token 0 r' (mkBucket tok 0)). by rewrite IH.
Qed.

Lemma full_bucket n extra : full_bucket_ok n = true ->
  (drain (Z.to_nat n + extra) (mkLimiter DefaultRateInterval n ∅) (f_of_Z n)).1 = Z.to_nat n.
Proof.
  unfold full_bucket_ok. cbv zeta. set (r := mkLimiter _ n ∅). intros [H1 H2]%andb_true_iff. rewrite drain_app.
  destruct (drain (Z.to_nat n) r (f_of_Z n)) as [k [[]| | |]]; try done. apply Nat.eqb_eq in H1. subst k.
  assert (forall m, drain m r (SpecFloat.S754_zero false) = (0%nat, SpecFloat.S754_zero false)) as Hz.
  { induction m as [|m IH]; [done|]. cbn [drain].
    destruct (take_token 0 r (mkBucket (SpecFloat.S754_zero false) 0)) as [[[[]| | |] t] []]; try done.
    cbn [tokens]. by rewrite IH. }
  rewrite Hz. simpl. lia.
Qed.

(** The limiter of incoming calls.  It never keeps more than
    [rateLimitMaxBuckets] identities, whoever calls and in whatever order the
    table is pruned.  An identity it does not know gets exactly [burst] calls
    through at one instant, however many it makes, for every burst up to 100 at
    the default interval, as long as the table is not full.  But in a full
    table a limited identity can get a fresh allowance: pruning deletes any
    half of the table, and if that takes the identity's bucket, however empty,
    its next call is allowed. *)
Theorem lxst_rate_limiter keys_of now hash r :
  (bounded r -> bounded (Allow keys_of now hash r).1)
  /\ (forall n extra, r = mkLimiter DefaultRateInterval n (buckets r) -> 1 <= n <= 100 ->
      buckets r !! rateHashKey hash = None -> bsize r + 1 < rateLimitMaxBuckets ->
      allowed_calls keys_of now hash (Z.to_nat n + extra) r = Z.to_nat n)
  /\ (forall rest, r = mkLimiter DefaultRateInterval DefaultRateBurst (buckets r) ->
      bsize r = rateLimitMaxBuckets -> is_Some (buckets r !! rateHashKey hash) ->
      (forall k b, buckets r !! k = Some b -> b_last b = now) ->
      (forall m, keys_of m = rateHashKey hash :: rest m) ->
      (Allow keys_of now hash r).2 = true).
Proof.
  split_and!; [apply Allow_bounded| |].
  - intros n extra Hr Hn Hk Hb.
    assert (full_bucket_ok n = true) as Hf.
    { assert (forallb full_bucket_ok (seqZ 1 100) = true) as Hall by (vm_compute; reflexivity).
      rewrite forallb_forall in Hall. apply Hall. rewrite <- list_elem_of_In, elem_of_seqZ. lia. }
    pose proof (full_bucket n extra Hf) as Hd.
    replace (Z.to_nat n + extra)%nat with (S (Z.to_nat n - 1 + extra)) in * by lia.
    cbn [allowed_calls drain] in *.
    rewrite (Allow_new keys_of now hash r r) by (first [by rewrite (proj2 (Z.leb_gt _ _)) by lia | lia | done]).
    assert (burst r = n /\ interval r = DefaultRateInterval) as [Ebu Ein] by (by rewrite Hr). rewrite Ebu.
    assert (take_token 0 r (mkBucket (f_of_Z n) 0) = take_token 0 (mkLimiter DefaultRateInterval n ∅) (mkBucket (f_of_Z n) 0)) as ->
      by (unfold take_token; by rewrite Ebu, Ein).
    destruct (take_token 0 (mkLimiter DefaultRateInterval n ∅) (mkBucket (f_of_Z n) 0)) as [b ok].
    set (r' := set_buckets _ r). rewrite (allowed_drain keys_of now hash _ r' (tokens b)).
    + rewrite (drain_config _ r' (mkLimiter DefaultRateInterval n ∅)) by done.
      by destruct (drain _ (mkLimiter DefaultRateInterval n ∅) (tokens b)).
    + unfold bsize in *. simpl. rewrite map_size_insert_None by done. lia.
    + simpl. by rewrite lookup_insert_eq.
  - intros rest Hr Hb [b0 Hk] Hfresh Hord. set (r1 := pruneLocked keys_of now r).
    assert (filter (fun kb : bytes * bucket => time_sub now (b_last kb.2) <= Z.max (i64 (interval r * 2)) minute) (buckets r) = buckets r) as Hfil.
    { apply map_filter_id. intros k b Hkb. simpl. rewrite (Hfresh k b Hkb). unfold time_sub, minute, second, Millisecond. lia. }
    assert (buckets r1 !! rateHashKey hash = None) as Hn.
    { unfold r1, pruneLocked. cbv zeta. rewrite Hfil. unfold bsize in *. cbn [buckets set_buckets]. rewrite Hb. cbn.
      rewrite Hord. apply foldl_delete_lookup. left. }
    assert (bsize r1 < rateLimitMaxBuckets) as Hlt.
    { rewrite <- Hb. unfold bsize. apply Nat2Z.inj_lt, map_subset_size. apply map_subset_alt. split; [apply prune_subseteq|].
      exists (rateHashKey hash). split; [done|eauto]. }
    rewrite (Allow_new keys_of now hash r r1) by (first [by rewrite (proj2 (Z.leb_le _ _)) by lia | done]).
    assert (burst r1 = 3 /\ interval r1 = DefaultRateInterval) as [Ebu Ein].
    { destruct (prune_config keys_of now r) as [E1 E2]. unfold r1. rewrite E1, E2, Hr. done. }
    rewrite Ebu.
    assert (take_token 0 r1 (mkBucket (f_of_Z 3) 0) = take_token 0 (mkLimiter DefaultRateInterval 3 ∅) (mkBucket (f_of_Z 3) 0)) as ->
      by (unfold take_token; by rewrite Ebu, Ein).
    reflexivity.
Qed.
