(* ===== verification/ShaStream.v ===== *)
(** * SHA-256 by pieces ([crypto/sha256] digests; [lxmf/midstate.go], [lxmf/sha256_fast.go])

    The streaming digest of the Go library with its binary state, the midstate
    that stamp generation keeps of the workblock, and the repository's own
    compression function.  All of them compute the one-shot hash of [Sha256.v]. *)

From stdpp Require Import base tactics list strings.
From Stdlib Require Import ZArith Lia.
From S2P Require Import Prelude Sha256.

(** ** The digest of the Go library *)

(** State words, the bytes of the block under way, the bytes written. *)
Record digest := mkDigest { d_h : list Z; d_x : bytes; d_len : Z }.

Definition sha_new : digest := mkDigest sha_init [] 0.

Definition blocks (b : bytes) : list bytes := chunks (length b) 64 b.

Definition full_blocks (n : Z) : Z := 64 * (n / 64).

Definition sha_write (b : bytes) (d : digest) : digest :=
  let data := d_x d ++ b in
  let n := full_blocks (len data) in
  mkDigest (foldl sha_block (d_h d) (blocks (ztake n data))) (zdrop n data) (d_len d + len b).

Definition put_words (h : list Z) : bytes := concat (map (be_put 4) h).

Definition sha_tail (n : Z) : bytes := [x80] ++ make_bytes ((55 - n) mod 64) ++ be_put 8 (n * 8).

Definition sha_sum (d : digest) : bytes :=
  put_words (foldl sha_block (d_h d) (blocks (d_x d ++ sha_tail (d_len d)))).

Definition sha_magic : bytes := lit "sha" ++ [x03].

(** [MarshalBinary] and [UnmarshalBinary]. *)
Definition sha_marshal (d : digest) : bytes :=
  sha_magic ++ put_words (d_h d) ++ (d_x d ++ make_bytes (64 - len (d_x d))) ++ be_put 8 (d_len d).

Definition get_words (b : bytes) : list Z := map be_get (chunks 8 4 b).

Definition sha_unmarshal (b : bytes) : option digest :=
  if negb (len b =? 4 + 32 + 64 + 8) then None
  else if negb (bool_decide (ztake 4 b = sha_magic)) then None
  else
    let n := be_get (zdrop 100 b) in
    Some (mkDigest (get_words (ztake 32 (zdrop 4 b))) (ztake (n mod 64) (zdrop 36 b)) n).

(** ** Midstates *)

Record sha256Midstate := mkMidstate { MidH : list Z; Rem : bytes; PrefixLen : Z; Marshaled : bytes }.

Definition midstateOfPrefix (prefix : bytes) : option sha256Midstate :=
  let n := Z.ldiff (len prefix) 63 in
  let d := if 0 <? n then sha_write (ztake n prefix) sha_new else sha_new in
  let raw := sha_marshal d in
  if len raw <? 4 + 32 then None
  else
    let h := get_words (ztake 32 (zdrop 4 raw)) in
    let rem := zdrop n prefix in
    let x := copy_range 0 64 rem (make_bytes 64) in
    Some {| MidH := h; Rem := rem; PrefixLen := len prefix;
            Marshaled := (lit "sha" ++ [x03]) ++ put_words h ++ x ++ be_put 8 (u64 (len prefix)) |}.

Definition hashFromMidstateStamp (ms : sha256Midstate) (stamp : bytes) : option bytes :=
  match sha_unmarshal (Marshaled ms) with
  | None => None
  | Some d => Some (sha_sum (sha_write stamp d))
  end.

(** ** The repository's compression function *)

Definition RotateLeft32 (x k : Z) : Z :=
  let s := Z.land k 31 in u32 (Z.lor (Z.shiftl x s) (Z.shiftr x (32 - s))).

(** The message schedule, the words of the block first. *)
Fixpoint expand_words (n : nat) (w : list Z) : list Z :=
  match n with
  | O => w
  | S n =>
      let i := length w in
      let v1 := nth (i - 2) w 0 in
      let s1 := Z.lxor (Z.lxor (RotateLeft32 v1 (-17)) (RotateLeft32 v1 (-19))) (Z.shiftr v1 10) in
      let v0 := nth (i - 15) w 0 in
      let s0 := Z.lxor (Z.lxor (RotateLeft32 v0 (-7)) (RotateLeft32 v0 (-18))) (Z.shiftr v0 3) in
      expand_words n (w ++ [u32 (s1 + nth (i - 7) w 0 + s0 + nth (i - 16) w 0)])
  end.

Definition compress_round (s : list Z) (kw : Z * Z) : list Z :=
  match s with
  | [a; b; c; d; e; f; g; hh] =>
      let s1 := Z.lxor (Z.lxor (RotateLeft32 e (-6)) (RotateLeft32 e (-11))) (RotateLeft32 e (-25)) in
      let ch := Z.lxor (Z.land e f) (Z.land (Z.lxor e (2 ^ 32 - 1)) g) in
      let t1 := u32 (hh + s1 + ch + kw.1 + kw.2) in
      let s0 := Z.lxor (Z.lxor (RotateLeft32 a (-2)) (RotateLeft32 a (-13))) (RotateLeft32 a (-22)) in
      let maj := Z.lxor (Z.lxor (Z.land a b) (Z.land a c)) (Z.land b c) in
      let t2 := u32 (s0 + maj) in
      [u32 (t1 + t2); a; b; c; u32 (d + t1); e; f; g]
  | _ => s
  end.

Definition sha256Compress (h : list Z) (block : bytes) : list Z :=
  let w := expand_words 48 (map be_get (chunks 16 4 block)) in
  zip_with (fun x y => u32 (x + y)) h (foldl compress_round h (zip sha_k w)).

(** [for n-off >= 64] on what is left of the buffer. *)
Fixpoint compress_full (fuel : nat) (h : list Z) (buf : bytes) : list Z * bytes :=
  match fuel with
  | O => (h, buf)
  | S fuel =>
      if 64 <=? len buf then compress_full fuel (sha256Compress h (ztake 64 buf)) (zdrop 64 buf) else (h, buf)
  end.

Definition hashMidstateStamp (ms : sha256Midstate) (stamp : bytes) : bytes :=
  let buf := ztake 128 (Rem ms ++ stamp) in
  let '(h, rest) := compress_full 2 (MidH ms) buf in
  let remn := len rest in
  let block := rest ++ [x80] ++ make_bytes (63 - remn) in
  let bitLen := u64 (u64 (PrefixLen ms + len stamp) * 8) in
  let '(h, block) :=
    if 56 <=? remn then (sha256Compress h block, make_bytes 64) else (h, block) in
  put_words (sha256Compress h (copy_range 56 64 (be_put 8 bitLen) block)).

(** ** Blocks *)

Lemma full_blocks_range n : 0 <= n -> 0 <= full_blocks n <= n /\ n - full_blocks n = n mod 64.
Proof. unfold full_blocks. intros. dlia. Qed.

Lemma ldiff_63 n : Z.ldiff n 63 = full_blocks n.
Proof.
  unfold full_blocks. change 63 with (Z.ones 6). rewrite Z.ldiff_ones_r by lia.
  rewrite Z.shiftr_div_pow2, Z.shiftl_mul_pow2 by lia. change (2 ^ 6) with 64. lia.
Qed.

(** Enough fuel cuts the whole string. *)
Lemma chunks_fuel fuel fuel' n b :
  (0 < n)%nat -> (length b <= fuel)%nat -> (length b <= fuel')%nat -> chunks fuel n b = chunks fuel' n b.
Proof.
  intros Hn. revert fuel' b. induction fuel as [|fuel IH]; intros [|fuel'] b H H'; simpl;
    [done|by destruct b as [|? ?]; [|simpl in H; lia]|by destruct b as [|? ?]; [|simpl in H'; lia]|].
  destruct b as [|c b]; [done|]. f_equal. apply IH; rewrite length_drop; simpl in *; lia.
Qed.

Lemma chunks_app fuel n k a b :
  (0 < n)%nat -> length a = (k * n)%nat -> (length (a ++ b) <= fuel)%nat ->
  chunks fuel n (a ++ b) = chunks fuel n a ++ chunks fuel n b.
Proof.
  intros Hn. revert a fuel. induction k as [|k IH]; intros a fuel Ha Hf.
  { assert (a = []) as -> by (apply nil_length_inv; lia). by destruct fuel. }
  destruct fuel as [|fuel]; [rewrite length_app in Hf; lia|].
  destruct a as [|c a]; [simpl in Ha; lia|]. set (ca := c :: a) in *.
  assert (chunks (S fuel) n (ca ++ b) = take n (ca ++ b) :: chunks fuel n (drop n (ca ++ b))) as -> by done.
  assert (chunks (S fuel) n ca = take n ca :: chunks fuel n (drop n ca)) as -> by done.
  rewrite take_app_le, drop_app_le by lia. rewrite <- app_comm_cons. f_equal.
  rewrite length_app in Hf. rewrite IH; [|rewrite length_drop; lia|rewrite length_app, length_drop; lia].
  f_equal. apply chunks_fuel; lia.
Qed.

Lemma blocks_app a b : len a mod 64 = 0 -> blocks (a ++ b) = blocks a ++ blocks b.
Proof.
  intros H. unfold blocks. rewrite (chunks_app _ 64 (Z.to_nat (len a / 64))); [|lia| |done].
  - f_equal; apply chunks_fuel; rewrite ?length_app; lia.
  - unfold len in *. dlia.
Qed.

Lemma blocks_one b : len b = 64 -> blocks b = [b].
Proof.
  intros H. assert (length b = 64%nat) as Hl by (unfold len in H; lia). unfold blocks. rewrite Hl.
  destruct b as [|c b]; [done|]. cbn [chunks]. rewrite take_ge by lia. rewrite drop_ge by lia. done.
Qed.

(** ** What a digest stands for *)

(** The state after writing [m]. *)
Definition digest_of (m : bytes) : digest :=
  let n := full_blocks (len m) in
  mkDigest (foldl sha_block sha_init (blocks (ztake n m))) (zdrop n m) (len m).

Lemma digest_of_nil : digest_of [] = sha_new.
Proof. done. Qed.

Lemma len_full (m : bytes) : len (ztake (full_blocks (len m)) m) = full_blocks (len m).
Proof. apply len_ztake. pose proof (full_blocks_range (len m) (len_nonneg m)). lia. Qed.

Lemma sha_write_of b m : sha_write b (digest_of m) = digest_of (m ++ b).
Proof.
  pose proof (full_blocks_range (len m) (len_nonneg m)) as Hm.
  pose proof (len_nonneg b). unfold sha_write, digest_of. cbn [d_h d_x d_len].
  set (n := full_blocks (len m)) in *.
  assert (full_blocks (len (zdrop n m ++ b)) = full_blocks (len (m ++ b)) - n) as E.
  { rewrite !len_app, len_zdrop by lia. unfold n, full_blocks. dlia. }
  rewrite E. set (k := full_blocks (len (m ++ b))) in *.
  assert (n <= k) by (unfold n, k, full_blocks; rewrite len_app; dlia).
  assert (m ++ b = ztake n m ++ zdrop n m ++ b) as Hs by (by rewrite app_assoc, ztake_zdrop).
  assert (len (ztake n m) = n) as Hl by apply len_full.
  f_equal.
  - rewrite <- foldl_app, <- blocks_app by (rewrite Hl; unfold n, full_blocks; dlia).
    do 2 f_equal. rewrite Hs, (ztake_app_ge k), Hl by lia. done.
  - rewrite Hs, (zdrop_app_ge k), Hl by lia. done.
  - rewrite len_app. done.
Qed.

Lemma sha_sum_of m : sha_sum (digest_of m) = sha256 m.
Proof.
  unfold sha_sum, sha256, digest_of. cbn [d_h d_x d_len]. cbv zeta.
  rewrite <- foldl_app, <- blocks_app by (rewrite len_full; unfold full_blocks; dlia).
  rewrite app_assoc, ztake_zdrop. done.
Qed.

(** ** The binary state *)

Definition words_ok (h : list Z) : Prop := length h = 8%nat /\ Forall (fun w => 0 <= w < 2 ^ 32) h.

Lemma words_ok_block h b : words_ok h -> words_ok (sha_block h b).
Proof.
  intros [Hl _]. split.
  - apply (length_blocks [b]). done.
  - apply (Forall_zip_with_fst _ (fun _ => True)); apply Forall_forall; [done|].
    intros. unfold u32. apply Z.mod_pos_bound. lia.
Qed.

Lemma words_ok_blocks l h : words_ok h -> words_ok (foldl sha_block h l).
Proof. revert h. induction l as [|b l IH]; intros h H; simpl; [done|]. by apply IH, words_ok_block. Qed.

Lemma words_ok_init : words_ok sha_init.
Proof. split; [done|]. unfold sha_init. repeat (apply Forall_cons; split; [lia|]). done. Qed.
#[export] Hint Resolve words_ok_block words_ok_blocks words_ok_init : rgp.

Lemma chunks_cons k n a b : (0 < n)%nat -> length a = n -> chunks (S k) n (a ++ b) = a :: chunks k n b.
Proof.
  intros Hn Ha. destruct a as [|c a]; [simpl in Ha; lia|]. set (ca := c :: a) in *.
  assert (chunks (S k) n (ca ++ b) = take n (ca ++ b) :: chunks k n (drop n (ca ++ b))) as -> by done.
  rewrite <- Ha. by rewrite take_app_length, drop_app_length.
Qed.

Lemma len_put_words h : len (put_words h) = 4 * len h.
Proof.
  unfold put_words. induction h as [|w h IH]; [done|]. cbn [map concat]. rewrite len_app, IH, len_cons.
  unfold len at 1. rewrite length_be_put. lia.
Qed.

Lemma get_put_words h : words_ok h -> get_words (put_words h) = h.
Proof.
  intros [Hl Hb]. unfold get_words, put_words. rewrite <- Hl. clear Hl.
  induction h as [|w h IH]; [done|]. inversion Hb as [|? ? Hw Hr]; subst. cbn [length map concat].
  rewrite chunks_cons by (rewrite ?length_be_put; lia). cbn [map]. f_equal; [|by apply IH].
  rewrite be_get_put. apply Z.mod_small. done.
Qed.

Definition digest_ok (d : digest) : Prop :=
  words_ok (d_h d) /\ len (d_x d) = d_len d mod 64 /\ 0 <= d_len d < 2 ^ 64.

Lemma digest_of_ok m : len m < 2 ^ 64 -> digest_ok (digest_of m).
Proof.
  intros H. pose proof (len_nonneg m). pose proof (full_blocks_range (len m) (len_nonneg m)).
  unfold digest_ok, digest_of. cbn [d_h d_x d_len]. split; [auto with rgp|]. rewrite len_zdrop by lia. lia.
Qed.

Lemma unmarshal_marshal d : digest_ok d -> sha_unmarshal (sha_marshal d) = Some d.
Proof.
  intros (Hw & Hx & Hn). destruct d as [h x n]. cbn [d_h d_x d_len] in *.
  assert (len (put_words h) = 32) as L1 by (rewrite len_put_words; destruct Hw; unfold len; lia).
  pose proof (Z.mod_pos_bound n 64 ltac:(lia)) as Hm. pose proof (len_nonneg x).
  set (t := x ++ make_bytes (64 - len x)). assert (len t = 64) as L2 by (unfold t; rewrite len_app, len_make_bytes; lia).
  assert (len (be_put 8 n) = 8) as L3 by (unfold len; by rewrite length_be_put).
  unfold sha_unmarshal, sha_marshal. cbn [d_h d_x d_len]. fold t.
  replace (len (sha_magic ++ put_words h ++ t ++ be_put 8 n)) with 108
    by (rewrite !len_app, L1, L2, L3; done).
  rewrite ztake_app, (zdrop_app 4) by done. rewrite bool_decide_true by done.
  change (108 =? _) with true. cbn [negb].
  rewrite (ztake_app 32) by done.
  replace (zdrop 36 (sha_magic ++ put_words h ++ t ++ be_put 8 n)) with (t ++ be_put 8 n)
    by (rewrite app_assoc, zdrop_app; [done|rewrite len_app, L1; done]).
  replace (zdrop 100 (sha_magic ++ put_words h ++ t ++ be_put 8 n)) with (be_put 8 n)
    by (rewrite !app_assoc, zdrop_app; [done|rewrite !len_app, L1, L2; done]).
  rewrite get_put_words, be_get_put by done.
  rewrite (Z.mod_small n (256 ^ Z.of_nat 8)) by (change (256 ^ Z.of_nat 8) with (2 ^ 64); done).
  do 2 f_equal.
  unfold t. rewrite <- app_assoc. by rewrite ztake_app.
Qed.

Lemma midstate_digest p : len p < 2 ^ 64 ->
  midstateOfPrefix p = Some (mkMidstate (d_h (digest_of p)) (d_x (digest_of p)) (len p) (sha_marshal (digest_of p))).
Proof.
  intros H. pose proof (len_nonneg p). pose proof (full_blocks_range (len p) (len_nonneg p)) as Hf.
  destruct (digest_of_ok p H) as (Hw & Hx & Hn). pose proof (Z.mod_pos_bound (len p) 64 ltac:(lia)).
  unfold midstateOfPrefix. rewrite ldiff_63. set (n := full_blocks (len p)) in *.
  set (d := if 0 <? n then _ else _).
  assert (d_h d = d_h (digest_of p) /\ d_x d = [] /\ d_len d = n) as (E1 & E2 & E3).
  { unfold d. destruct (0 <? n) eqn:E; bool_hyps.
    - rewrite <- digest_of_nil, sha_write_of, app_nil_l. unfold digest_of. cbn [d_h d_x d_len].
      assert (len (ztake n p) = n) as -> by apply len_full.
      assert (full_blocks n = n) as -> by (unfold n, full_blocks; dlia). fold n.
      split_and!; [|apply len_0_nil; rewrite len_zdrop; rewrite ?len_ztake; lia|done].
      do 2 f_equal. unfold ztake. rewrite take_take. f_equal. lia.
    - assert (n = 0) as E' by lia. unfold digest_of. fold n. rewrite E'. done. }
  assert (len (put_words (d_h d)) = 32) as L1 by (rewrite len_put_words, E1; destruct Hw; unfold len; lia).
  clearbody d. cbv zeta. unfold sha_marshal at 1 2 3. rewrite !len_app, L1, E2, len_nil, len_make_bytes by lia.
  change (len sha_magic) with 4. replace (_ <? _) with false
    by (symmetry; apply Z.ltb_ge; pose proof (len_nonneg (be_put 8 (d_len d))); lia).
  f_equal. rewrite (zdrop_app 4) by done. rewrite (ztake_app 32) by done. rewrite E1, get_put_words by done.
  f_equal. unfold sha_marshal. do 2 f_equal. f_equal.
  - unfold digest_of in *. cbn [d_h d_x d_len] in *. fold n in Hx |- *. unfold copy_range. rewrite Z.min_r by lia.
    rewrite (ztake_all (len _)) by lia. unfold ztake at 1. simpl. f_equal.
    apply zdrop_make_bytes; lia.
  - cbn [d_len digest_of]. by rewrite u64_small.
Qed.

(** ** The repository's compression function is the standard one *)

Lemma RotateLeft32_rotr k x : Z.pos k < 32 -> RotateLeft32 x (Z.neg k) = rotr (Z.pos k) x.
Proof.
  intros. unfold RotateLeft32, rotr. change 31 with (Z.ones 5). rewrite Z.land_ones by lia.
  replace (Z.neg k mod 2 ^ 5) with (32 - Z.pos k) by (change (2 ^ 5) with 32; dlia).
  rewrite Z.lor_comm. do 3 f_equal. lia.
Qed.

Lemma word_rev w i : (i < length w)%nat -> word (rev w) i = nth (length w - S i) w 0.
Proof. intros. unfold word. apply rev_nth. done. Qed.

Lemma expand_schedule n w : (16 <= length w)%nat -> rev (expand_words n w) = schedule n (rev w).
Proof.
  revert w. induction n as [|n IH]; intros w Hw; [done|].
  cbn [expand_words schedule]. rewrite IH by (rewrite length_app; simpl; lia). f_equal.
  rewrite rev_app_distr. cbn [rev app]. rewrite !word_rev by lia.
  by rewrite !RotateLeft32_rotr by lia.
Qed.

Lemma compress_round_eq s kw : compress_round s kw = sha_round s kw.
Proof.
  destruct s as [|a [|b [|c [|d [|e [|f [|g [|h [|]]]]]]]]]; try done.
  cbn [compress_round sha_round]. rewrite !RotateLeft32_rotr by lia.
  fold (big_sigma1 e) (big_sigma0 a) (sha_ch e f g) (sha_maj a b c).
  unfold u32. by rewrite <- Zplus_mod, Zplus_mod_idemp_r.
Qed.

Lemma sha256Compress_block h b : len b = 64 -> sha256Compress h b = sha_block h b.
Proof.
  intros Hb. unfold sha256Compress, sha_block. cbv zeta. rewrite <- expand_schedule, rev_involutive.
  - f_equal. generalize (zip sha_k (expand_words 48 (map be_get (chunks 16 4 b)))) as l. intros l. revert h.
    induction l as [|kw l IH]; intros h; [done|]. cbn [foldl]. by rewrite compress_round_eq, IH.
  - rewrite length_map. unfold len in Hb. do 16 (destruct b as [|? [|? [|? [|? b]]]]; [simpl in Hb; lia..|]).
    assert (b = []) as -> by (apply nil_length_inv; simpl in Hb; lia). done.
Qed.

Lemma compress_full_blocks fuel h buf : len buf < 64 * (Z.of_nat fuel + 1) ->
  compress_full fuel h buf
  = (foldl sha_block h (blocks (ztake (full_blocks (len buf)) buf)), zdrop (full_blocks (len buf)) buf).
Proof.
  revert h buf. induction fuel as [|fuel IH]; intros h buf Hf; pose proof (len_nonneg buf).
  { replace (full_blocks (len buf)) with 0 by (unfold full_blocks; dlia). done. }
  cbn [compress_full]. destruct (64 <=? len buf) eqn:E; bool_hyps.
  2: { replace (full_blocks (len buf)) with 0 by (unfold full_blocks; dlia). done. }
  assert (len (ztake 64 buf) = 64) as L by (apply len_ztake; lia).
  assert (len (zdrop 64 buf) = len buf - 64) as L' by (apply len_zdrop; lia).
  rewrite IH by lia. rewrite sha256Compress_block by done. rewrite L'.
  assert (full_blocks (len buf - 64) = full_blocks (len buf) - 64) as -> by (unfold full_blocks; dlia).
  assert (64 <= full_blocks (len buf)) by (unfold full_blocks; dlia).
  rewrite (ztake_split (full_blocks (len buf)) 64), (zdrop_split (full_blocks (len buf)) 64) by lia.
  rewrite blocks_app by (rewrite L; done). rewrite (blocks_one (ztake 64 buf)) by done. done.
Qed.

(** The padded last blocks, as the fast path builds them. *)
Lemma blocks_tail x n : len x = n mod 64 -> len x < 56 ->
  blocks (x ++ sha_tail n) = [copy_range 56 64 (be_put 8 (n * 8)) (x ++ [x80] ++ make_bytes (63 - len x))].
Proof.
  intros Hx Hs. pose proof (len_nonneg x). assert (len (be_put 8 (n * 8)) = 8) as L by (unfold len; by rewrite length_be_put).
  replace (make_bytes (63 - len x)) with (make_bytes (55 - len x) ++ make_bytes 8)
    by (rewrite <- make_bytes_app by lia; f_equal; lia).
  rewrite !app_assoc, <- (app_nil_r (_ ++ make_bytes 8)), <- (app_assoc _ (make_bytes 8)).
  rewrite copy_range_block by (rewrite ?L; len_lia). rewrite app_nil_r.
  unfold sha_tail. replace ((55 - n) mod 64) with (55 - len x) by dlia.
  rewrite !app_assoc. apply blocks_one. rewrite len_app, L. len_lia.
Qed.

Lemma blocks_tail_two x n : len x = n mod 64 -> 56 <= len x ->
  blocks (x ++ sha_tail n)
  = [x ++ [x80] ++ make_bytes (63 - len x); copy_range 56 64 (be_put 8 (n * 8)) (make_bytes 64)].
Proof.
  intros Hx Hs. pose proof (Z.mod_pos_bound n 64 ltac:(lia)).
  assert (len (be_put 8 (n * 8)) = 8) as L by (unfold len; by rewrite length_be_put).
  change (make_bytes 64) with (make_bytes 56 ++ make_bytes 8 ++ []). rewrite copy_range_block by done. rewrite app_nil_r.
  unfold sha_tail. replace (make_bytes ((55 - n) mod 64)) with (make_bytes (63 - len x) ++ make_bytes 56)
    by (rewrite <- make_bytes_app by lia; f_equal; dlia).
  replace (x ++ [x80] ++ (make_bytes (63 - len x) ++ make_bytes 56) ++ be_put 8 (n * 8))
    with ((x ++ [x80] ++ make_bytes (63 - len x)) ++ make_bytes 56 ++ be_put 8 (n * 8)) by (by rewrite <- !app_assoc).
  assert (len (x ++ [x80] ++ make_bytes (63 - len x)) = 64) as E by len_lia.
  by rewrite blocks_app, !blocks_one by (rewrite ?E, ?len_app, ?L; done).
Qed.

(** C37: stamp generation hashes the workblock once.  From the midstate of a
    prefix both ways of finishing, the Go library's restored digest and the
    repository's own compression function, give the SHA-256 of prefix and
    stamp; the latter for stamps up to 64 bytes, which its buffer holds. *)
Theorem lxmf_midstate_hash prefix stamp : len prefix + len stamp < 2 ^ 61 ->
  exists ms, midstateOfPrefix prefix = Some ms
    /\ hashFromMidstateStamp ms stamp = Some (sha256 (prefix ++ stamp))
    /\ (len stamp <= 64 -> hashMidstateStamp ms stamp = sha256 (prefix ++ stamp)).
Proof.
  intros Hb. pose proof (len_nonneg prefix). pose proof (len_nonneg stamp).
  rewrite midstate_digest by lia. eexists. split; [done|]. split.
  { unfold hashFromMidstateStamp. cbn [Marshaled]. rewrite unmarshal_marshal by (apply digest_of_ok; lia).
    by rewrite sha_write_of, sha_sum_of. }
  intros Hs. rewrite <- sha_sum_of, <- sha_write_of. destruct (digest_of_ok prefix ltac:(lia)) as (Hw & Hx & Hn).
  set (d := digest_of prefix) in *. pose proof (Z.mod_pos_bound (d_len d) 64 ltac:(lia)).
  assert (d_len d = len prefix) as Hl by done.
  unfold hashMidstateStamp. cbn [Rem MidH PrefixLen]. rewrite ztake_all by (rewrite len_app; lia).
  rewrite compress_full_blocks by (rewrite len_app; lia).
  unfold sha_sum, sha_write. cbn [d_h d_x d_len]. rewrite Hl.
  set (x := zdrop _ _). set (h := foldl sha_block (d_h d) _).
  assert (len x = (len prefix + len stamp) mod 64) as Ex.
  { unfold x. pose proof (full_blocks_range (len (d_x d ++ stamp)) (len_nonneg _)). rewrite len_zdrop by lia.
    rewrite len_app in *. rewrite Hl in Hx. dlia. }
  pose proof (len_nonneg x). pose proof (Z.mod_pos_bound (len prefix + len stamp) 64 ltac:(lia)).
  rewrite (u64_small (len prefix + len stamp)), u64_small by lia.
  assert (len (x ++ [x80] ++ make_bytes (63 - len x)) = 64) as Lb by len_lia.
  assert (len (be_put 8 ((len prefix + len stamp) * 8)) = 8) as L by (unfold len at 1; by rewrite length_be_put).
  assert (forall b, len b = 64 -> len (copy_range 56 64 (be_put 8 ((len prefix + len stamp) * 8)) b) = 64) as Lc.
  { intros b E. unfold copy_range. rewrite L. rewrite (ztake_all _ (be_put _ _)) by lia.
    rewrite !len_app, L, len_ztake, len_zdrop; lia. }
  destruct (56 <=? len x) eqn:E; bool_hyps.
  - rewrite blocks_tail_two by done. cbn [foldl]. by rewrite !sha256Compress_block by (done || by apply Lc).
  - rewrite blocks_tail by (done || lia). cbn [foldl]. by rewrite sha256Compress_block by (by apply Lc).
Qed.

Lemma lxmf_midstate_hash_witness : exists ms, midstateOfPrefix (make_bytes 70) = Some ms
  /\ hashFromMidstateStamp ms (make_bytes 32) = Some (sha256 (make_bytes 70 ++ make_bytes 32))
  /\ (len (make_bytes 32) <= 64 -> hashMidstateStamp ms (make_bytes 32) = sha256 (make_bytes 70 ++ make_bytes 32)).
Proof. apply lxmf_midstate_hash. vm_compute. reflexivity. Defined.

Example midstate_runs :
  option_map (fun ms => be_get (hashMidstateStamp ms (lit "c"))) (midstateOfPrefix (lit "ab")) = Some (be_get (sha256 (lit "abc"))).
Proof. vm_compute. reflexivity. Qed.
