(* ===== verification/LxmfStamp.v ===== *)
(** * LXMF stamps ([pkg/lxmf]: [stamper.go], [workblock.go], [generate_cpu.go], [batch_validate.go], [backend.go])

    Proof of work: a workblock is derived from a message id, and a stamp is a
    32-byte string whose hash with the workblock is small.  Workers run
    concurrently; what they do is a list of steps in any interleaving.  The GPU
    engine is a parameter. *)

From stdpp Require Import base tactics list strings sorting.
From Stdlib Require Import ZArith Lia.
From S2P Require Import Prelude Sha256 ShaStream Msgpack.

Definition WorkblockExpandRounds : Z := 3000.
Definition WorkblockExpandRoundsPN : Z := 1000.
Definition WorkblockExpandRoundsPeering : Z := 25.
Definition StampSize : Z := 32.
Definition gpuWorkblockMinRounds : Z := 64.

Inductive stamp_error :=
| ErrExpandRounds | ErrMaterial | ErrStampCost   (** arguments *)
| ErrKeyLength | ErrKeyMaterial | ErrKeyMax      (** key derivation *)
| ErrStampNotFound | ErrGPUUnavailable | ErrGPU | ErrRandom.

#[export] Instance stamp_error_eq_dec : EqDecision stamp_error.
Proof. solve_decision. Defined.

(** ** Key derivation ([Reticulum-Go/pkg/cryptography/hkdf.go]) *)

(** [crypto/hmac] with SHA-256. *)
Definition hmac_key (key : bytes) : bytes :=
  let k := if 64 <? len key then sha256 key else key in k ++ make_bytes (64 - len k).

Definition xor_with (p : Z) (b : bytes) : bytes := map (fun c => Zb (Z.lxor (bZ c) p)) b.

Definition hmac_sha256 (key msg : bytes) : bytes :=
  let k := hmac_key key in sha256 (xor_with 0x5c k ++ sha256 (xor_with 0x36 k ++ msg)).

Example hmac_known : be_get (hmac_sha256 (lit "key") (lit "The quick brown fox jumps over the lazy dog")) =
  0xf7bc83f430538424b13298e6aa6fb143ef4d59a14946175997479dbc2d1a3cd8.
Proof. vm_compute. reflexivity. Qed.

(** The expansion loop: [i] blocks are out, [block] is the last one. *)
Fixpoint hkdf_expand (n : nat) (i : Z) (prk info block : bytes) : bytes :=
  match n with
  | O => []
  | S n =>
      let block := hmac_sha256 prk (block ++ info ++ [Zb (i + 1)]) in
      block ++ hkdf_expand n (i + 1) prk info block
  end.

Definition DeriveKey (secret salt info : bytes) (length : Z) : res stamp_error bytes :=
  if length <? 1 then Err ErrKeyLength
  else if len secret =? 0 then Err ErrKeyMaterial
  else
    let salt := if len salt =? 0 then make_bytes 32 else salt in
    let prk := hmac_sha256 salt secret in
    let iterations := (length + 31) / 32 in
    if 255 <? iterations then Err ErrKeyMax
    else Ok (ztake length (hkdf_expand (Z.to_nat iterations) 0 prk info [])).

(** ** Work shared among workers *)

(** [chunk := (n + workers - 1) / workers]; worker [w] does the indices from
    [w * chunk] up to the next start, none when its start is past the end. *)
Definition worker_range (workers n w : Z) : list Z :=
  let chunk := (n + workers - 1) / workers in
  let start := w * chunk in
  if n <=? start then [] else seqZ start (Z.min (start + chunk) n - start).

Definition worker_ranges (workers n : Z) : list Z := concat (map (worker_range workers n) (seqZ 0 workers)).

(** [max(min(runtime.GOMAXPROCS(0), n), 1)]. *)
Definition worker_count (procs n : Z) : Z := Z.max (Z.min procs n) 1.

(** ** Workblocks *)

(** The 256 bytes of one round. *)
Definition workblock_round (material : bytes) (n : Z) : res stamp_error bytes :=
  DeriveKey material (sha256 (material ++ EncodeInt n)) [] 256.

Definition write_round (material : bytes) (out : res stamp_error bytes) (n : Z) : res stamp_error bytes :=
  out ← out; block ← workblock_round material n;
  Ok (copy_range (n * 256) ((n + 1) * 256) block out).

(** [rounds]: the order in which the workers do the rounds. *)
Definition stampWorkblockCPU (rounds : list Z) (material : bytes) (expandRounds : Z) : res stamp_error bytes :=
  foldl (write_round material) (Ok (make_bytes (256 * expandRounds))) rounds.

Definition StampWorkblockCPU (rounds : list Z) (material : bytes) (expandRounds : Z) : res stamp_error bytes :=
  if expandRounds <=? 0 then Err ErrExpandRounds
  else if len material =? 0 then Err ErrMaterial
  else stampWorkblockCPU rounds material expandRounds.

Inductive preference := Auto | Cpu | Gpu.

(** The preferred back end and the OpenCL engine, if one was found. *)
Record backend := mkBackend {
  pref : preference;
  gpu_workblock : option (bytes -> Z -> res stamp_error bytes);
  gpu_generate : option (bytes -> Z -> res stamp_error (bytes * Z))
}.

Definition is_gpu (p : preference) : bool := match p with Gpu => true | _ => false end.
Definition is_cpu (p : preference) : bool := match p with Cpu => true | _ => false end.

Definition StampWorkblock (be : backend) (rounds : list Z) (material : bytes) (expandRounds : Z) : res stamp_error bytes :=
  if expandRounds <=? 0 then Err ErrExpandRounds
  else if len material =? 0 then Err ErrMaterial
  else
    let cpu := stampWorkblockCPU rounds material expandRounds in
    match gpu_workblock be with
    | Some run =>
        if negb (is_cpu (pref be)) && (gpuWorkblockMinRounds <=? expandRounds) then
          match run material expandRounds with
          | Ok out => Ok out
          | Err e => if is_gpu (pref be) then Err e else cpu
          end
        else cpu
    | None => cpu
    end.

(** ** Stamps *)

Definition hashWorkblockStamp (workblock stamp : bytes) : bytes :=
  sha_sum (sha_write stamp (sha_write workblock sha_new)).

(** Leading zero bits of a byte that is not zero, from bit [bit] down. *)
Fixpoint leading_bits (bit : nat) (b : Z) (value : Z) : Z :=
  if negb (Z.land b (Z.shiftl 1 (Z.of_nat bit)) =? 0) then value
  else match bit with O => value + 1 | S bit => leading_bits bit b (value + 1) end.

Fixpoint leading_zeros (sum : bytes) (value : Z) : Z :=
  match sum with
  | [] => value
  | b :: sum => if bZ b =? 0 then leading_zeros sum (value + 8) else leading_bits 7 (bZ b) value
  end.

Definition StampValue (workblock stamp : bytes) : Z :=
  if len stamp =? 0 then 0 else leading_zeros (hashWorkblockStamp workblock stamp) 0.

Definition stampTarget (cost : Z) : bytes :=
  if 256 <=? cost then make_bytes 32
  else
    let pos := 256 - cost in
    let byteIdx := 31 - Z.quot pos 8 in
    let bitIdx := Z.rem pos 8 in
    if byteIdx <? 0 then make_bytes 32
    else copy_range byteIdx (byteIdx + 1) [Zb (Z.shiftl 1 bitIdx)] (make_bytes 32).

(** [bytes.Compare(a, b) <= 0]. *)
Fixpoint bytes_le (a b : bytes) : bool :=
  match a, b with
  | [], _ => true
  | _ :: _, [] => false
  | x :: a, y :: b => if bZ x <? bZ y then true else if bZ y <? bZ x then false else bytes_le a b
  end.

Definition StampValid (stamp : bytes) (targetCost : Z) (workblock : bytes) : bool :=
  if targetCost <=? 0 then true
  else if negb (len stamp =? StampSize) then false
  else if 256 <? targetCost then false
  else bytes_le (hashWorkblockStamp workblock stamp) (stampTarget targetCost).

Definition MeetsCost (stamp : bytes) (targetCost : Z) (workblock : bytes) : bool :=
  if negb (StampValid stamp targetCost workblock) then false
  else if targetCost <=? 0 then len stamp =? StampSize
  else targetCost <=? StampValue workblock stamp.

(** Destination, source, signature, timestamp and structure of a message. *)
Definition Overhead : Z := 2 * 16 + 64 + 8 + 8.

Section validate.
(** The order in which the workers derive a workblock of some size. *)
Context (be : backend) (schedule_of : Z -> list Z).

(** [None] stands for the nil results. *)
Definition ValidatePNStamp (transientData : bytes) (targetCost : Z) : option (bytes * bytes * Z * bytes) :=
  if len transientData <=? Overhead + StampSize then None
  else
    let cut := len transientData - StampSize in
    let lxm := ztake cut transientData in
    let st := zdrop cut transientData in
    let tid := sha256 lxm in
    match StampWorkblock be (schedule_of WorkblockExpandRoundsPN) tid WorkblockExpandRoundsPN with
    | Err _ => None
    | Ok wb => if negb (StampValid st targetCost wb) then None else Some (tid, lxm, StampValue wb st, st)
    end.

Definition ValidatePeeringKey (peeringID peeringKey : bytes) (targetCost : Z) : bool :=
  match StampWorkblock be (schedule_of WorkblockExpandRoundsPeering) peeringID WorkblockExpandRoundsPeering with
  | Err _ => false
  | Ok wb => StampValid peeringKey targetCost wb
  end.

(** *** Batches: one slot per message, filled in the order [order]. *)

Definition fill {A} (f : Z -> A) (order : list Z) (slots : list A) : list A :=
  foldl (fun s i => <[Z.to_nat i := f i]> s) slots order.

Record PNStampEntry := mkEntry { e_TransientID : bytes; LxmData : bytes; e_Value : Z; e_Stamp : bytes }.

Definition ValidatePNStamps (order : list Z) (messages : list bytes) (targetCost : Z) : list PNStampEntry :=
  omap id (fill (fun i =>
    match ValidatePNStamp (nth (Z.to_nat i) messages []) targetCost with
    | Some (tid, lxm, v, st) => Some (mkEntry tid lxm v st)
    | None => None
    end) order (replicate (length messages) None)).

Record StampCandidate := mkCandidate { Material : bytes; c_Stamp : bytes }.

Definition validate_candidate (c : StampCandidate) (targetCost expandRounds : Z) : bool :=
  if negb (len (c_Stamp c) =? StampSize) || (len (Material c) =? 0) then false
  else match stampWorkblockCPU (schedule_of expandRounds) (Material c) expandRounds with
  | Err _ => false
  | Ok wb => MeetsCost (c_Stamp c) targetCost wb
  end.

Definition validateStampBatchCPU (order : list Z) (cands : list StampCandidate) (targetCost expandRounds : Z) : list bool :=
  fill (fun i => validate_candidate (nth (Z.to_nat i) cands (mkCandidate [] [])) targetCost expandRounds)
    order (replicate (length cands) false).
End validate.

(** ** Generation *)

Definition cpuCancelCheckMask : Z := 0x3fff.

(** The stamp a worker tries at a count. *)
Definition candidate (seed : bytes) (worker counter : Z) : bytes :=
  ztake 12 seed ++ be_put 4 (u32 worker)
  ++ be_put 8 (u64 counter)
  ++ be_put 4 (Z.lxor (u32 (Z.shiftr (u64 counter) 32)) (u32 (u32 worker * 0x9e3779b9)))
  ++ be_put 4 (Z.lxor (u32 (u64 counter)) (u32 (Z.shiftl (u32 worker) 16))).

(** Compare the hash from the restored midstate with the target; [None] when
    the state cannot be restored and the worker gives up. *)
Definition try_stamp (mid target stamp : bytes) : option bool :=
  match sha_unmarshal mid with
  | None => None
  | Some d => Some (bytes_le (sha_sum (sha_write stamp d)) target)
  end.

Inductive gturn :=
| Turn (w : Z)      (** one round of the loop of worker [w] *)
| Collect           (** the caller looks at the result channel *)
| Done_.            (** the caller's context is done *)

(** The counts of the workers, and the stamp in the result channel. *)
Record gstate := mkG { counts : Z -> Z; found : option bytes }.

Definition turn (mid target seed : bytes) (workers w : Z) (g : gstate) : gstate :=
  if negb ((0 <=? w) && (w <? workers)) then g
  else match found g with
  | Some _ => g
  | None =>
      let counter := u64 (counts g w + 1) in
      let stamp := candidate seed w counter in
      mkG (fun v => if v =? w then counter else counts g v)
          (match try_stamp mid target stamp with Some true => Some stamp | _ => None end)
  end.

(** The result of the caller's [select]; [None] while it waits. *)
Fixpoint search (mid target seed : bytes) (workers : Z) (turns : list gturn) (g : gstate)
    : option (res stamp_error bytes) :=
  match turns with
  | [] => None
  | Turn w :: ts => search mid target seed workers ts (turn mid target seed workers w g)
  | Collect :: ts =>
      match found g with Some s => Some (Ok s) | None => search mid target seed workers ts g end
  | Done_ :: _ => Some (Err ErrStampNotFound)
  end.

(** [seed]: what [rand.Read] gave. *)
Definition generateStampCPU (procs : Z) (seed : option bytes) (turns : list gturn) (workblock : bytes) (stampCost : Z)
    : option (res stamp_error (bytes * Z)) :=
  let mid :=
    match midstateOfPrefix workblock with
    | Some ms => if len (Marshaled ms) =? 0 then sha_marshal (sha_write workblock sha_new) else Marshaled ms
    | None => sha_marshal (sha_write workblock sha_new)      (* generateStampCPUFallback *)
    end in
  match seed with
  | None => Some (Err ErrRandom)
  | Some seed =>
      match search mid (stampTarget stampCost) seed (Z.max procs 1) turns (mkG (fun _ => 0) None) with
      | None => None
      | Some (Err e) => Some (Err e)
      | Some (Ok stamp) => Some (Ok (stamp, StampValue workblock stamp))
      end
  end.

Definition GenerateStamp (be : backend) (rounds : Z -> list Z) (procs : Z) (seed : option bytes) (turns : list gturn)
    (messageID : bytes) (stampCost expandRounds : Z) : option (res stamp_error (bytes * Z)) :=
  if stampCost <=? 0 then Some (Err ErrStampCost)
  else
    let expandRounds := if expandRounds <=? 0 then WorkblockExpandRounds else expandRounds in
    match StampWorkblock be (rounds expandRounds) messageID expandRounds with
    | Err e => Some (Err e)
    | Ok wb =>
        let cpu := generateStampCPU procs seed turns wb stampCost in
        match gpu_generate be with
        | Some run =>
            if is_cpu (pref be) then cpu
            else match run wb stampCost with
            | Ok r => Some (Ok r)
            | Err e => if is_gpu (pref be) then Some (Err e) else cpu
            end
        | None => if is_gpu (pref be) then Some (Err ErrGPUUnavailable) else cpu
        end
    end.

(** ** The workers cover the work *)

Lemma worker_ranges_upto workers n k : 0 <= n -> 1 <= workers -> 0 <= k ->
  concat (map (worker_range workers n) (seqZ 0 k)) = seqZ 0 (Z.min (k * ((n + workers - 1) / workers)) n).
Proof.
  intros Hn Hw Hk. set (chunk := (n + workers - 1) / workers).
  assert (0 <= chunk) by (apply Z.div_pos; lia).
  revert k Hk. refine (natlike_ind _ _ _); [by rewrite Z.mul_0_l, Z.min_l by lia|].
  intros k Hk IH. replace (Z.succ k) with (k + 1) by lia. rewrite seqZ_app, map_app, concat_app, IH by lia.
  change (seqZ (0 + k) 1) with [0 + k]. cbn [map concat]. rewrite app_nil_r. unfold worker_range. fold chunk.
  replace (0 + k) with k by lia.
  destruct (n <=? k * chunk) eqn:E; bool_hyps.
  - rewrite app_nil_r. f_equal. lia.
  - rewrite (Z.min_l (k * chunk)) by lia.
    replace (Z.min ((k + 1) * chunk) n) with (k * chunk + (Z.min (k * chunk + chunk) n - k * chunk)) by lia.
    rewrite seqZ_app by lia. done.
Qed.

Lemma worker_ranges_all workers n : 0 <= n -> 1 <= workers -> worker_ranges workers n = seqZ 0 n.
Proof.
  intros. unfold worker_ranges. rewrite worker_ranges_upto by lia. f_equal. apply Z.min_r.
  pose proof (Z.div_mod (n + workers - 1) workers ltac:(lia)).
  pose proof (Z.mod_pos_bound (n + workers - 1) workers ltac:(lia)). lia.
Qed.

Lemma length_fill {A} (f : Z -> A) order slots : length (fill f order slots) = length slots.
Proof.
  unfold fill. revert slots. induction order as [|i order IH]; intros slots; [done|].
  cbn [foldl]. by rewrite IH, length_insert.
Qed.

Lemma fill_out {A} (f : Z -> A) order slots k :
  Forall (fun i => 0 <= i) order -> Z.of_nat k ∉ order -> fill f order slots !! k = slots !! k.
Proof.
  unfold fill. revert slots. induction order as [|i order IH]; intros slots Hp Hk; [done|].
  inversion Hp; subst. apply not_elem_of_cons in Hk as [Hi Hk]. cbn [foldl]. rewrite IH by done.
  apply list_lookup_insert_ne. lia.
Qed.

Lemma fill_in {A} (f : Z -> A) order slots k :
  Forall (fun i => 0 <= i) order -> Z.of_nat k ∈ order -> (k < length slots)%nat ->
  fill f order slots !! k = Some (f (Z.of_nat k)).
Proof.
  revert slots. induction order as [|i order IH]; intros slots Hp Hk Hl; [by apply elem_of_nil in Hk|].
  inversion Hp; subst. change (fill f (i :: order) slots) with (fill f order (<[Z.to_nat i := f i]> slots)).
  destruct (decide (Z.of_nat k ∈ order)) as [Hin|Hout]; [by apply IH; rewrite ?length_insert|].
  apply elem_of_cons in Hk as [<-|]; [|done]. rewrite fill_out by done. rewrite Nat2Z.id.
  by apply list_lookup_insert_eq.
Qed.

(** Whatever the interleaving, every slot is filled once. *)
Lemma fill_all {A} (f : Z -> A) order slots :
  order ≡ₚ seqZ 0 (len slots) -> fill f order slots = map f (seqZ 0 (len slots)).
Proof.
  intros Ho. assert (Forall (fun i => 0 <= i) order) as Hp.
  { apply Forall_forall. intros i Hi. rewrite Ho in Hi. apply elem_of_seqZ in Hi. lia. }
  apply list_eq. intros k. rewrite list_lookup_fmap.
  destruct (decide (k < length slots)%nat) as [Hk|Hk].
  - rewrite fill_in; [|done|rewrite Ho; apply elem_of_seqZ; unfold len; lia|done].
    rewrite lookup_seqZ_lt by (unfold len; lia). done.
  - rewrite lookup_ge_None_2 by (rewrite length_fill; lia). rewrite lookup_seqZ_ge by (unfold len; lia). done.
Qed.

(** ** Workblocks *)

Lemma len_hmac k m : len (hmac_sha256 k m) = 32.
Proof. unfold hmac_sha256, len. by rewrite length_sha256. Qed.

Lemma len_hkdf_expand n i prk info block : len (hkdf_expand n i prk info block) = 32 * Z.of_nat n.
Proof.
  revert i block. induction n as [|n IH]; intros i block; [done|].
  cbn [hkdf_expand]. rewrite len_app, len_hmac, IH. lia.
Qed.

(** The bytes of a round. *)
Definition round_bytes (material : bytes) (n : Z) : bytes :=
  match workblock_round material n with Ok b => b | Err _ => [] end.

Lemma workblock_round_ok material n : material <> [] ->
  workblock_round material n = Ok (round_bytes material n) /\ length (round_bytes material n) = 256%nat.
Proof.
  intros H. unfold round_bytes, workblock_round, DeriveKey. cbn [Z.ltb Z.compare Pos.compare Pos.compare_cont].
  replace (len material =? 0) with false by (symmetry; apply Z.eqb_neq; by rewrite len_0_nil).
  change (255 <? (256 + 31) / 32) with false. cbv iota. split; [done|].
  match goal with |- length (ztake 256 ?l) = _ => assert (len (ztake 256 l) = 256) as E end.
  { apply len_ztake. rewrite len_hkdf_expand. vm_compute. split; discriminate. }
  by apply Nat2Z.inj.
Qed.

Lemma copy_concat (bs : list bytes) block n :
  Forall (fun b => length b = 256%nat) bs -> length block = 256%nat -> (n < length bs)%nat ->
  copy_range (Z.of_nat n * 256) ((Z.of_nat n + 1) * 256) block (concat bs) = concat (<[n := block]> bs).
Proof.
  intros Hb Hl Hn. destruct (lookup_lt_is_Some_2 bs n Hn) as [old Ho].
  assert (length old = 256%nat) as Hold by (by apply (Forall_lookup_1 _ _ _ _ Hb Ho)).
  rewrite <- (take_drop_middle bs n old Ho) at 1. rewrite insert_take_drop by done.
  rewrite !concat_app. cbn [concat]. apply copy_range_block.
  - assert (forall l : list bytes, Forall (fun b => length b = 256%nat) l -> len (concat l) = 256 * len l) as Hc.
    { induction 1 as [|b l E _ IH]; [done|]. cbn [concat]. rewrite len_app, IH, len_cons. unfold len at 1. lia. }
    rewrite Hc by (by apply Forall_take). unfold len. rewrite length_take. lia.
  - unfold len. lia.
  - unfold len. lia.
Qed.

Lemma workblock_fill material bs order : material <> [] ->
  Forall (fun b => length b = 256%nat) bs -> Forall (fun i => 0 <= i < len bs) order ->
  foldl (write_round material) (Ok (concat bs)) order = Ok (concat (fill (round_bytes material) order bs)).
Proof.
  intros Hm. revert bs. induction order as [|i order IH]; intros bs Hb Hi; [done|].
  inversion Hi as [|? ? Hr Hi']; subst. destruct (workblock_round_ok material i Hm) as [Er El].
  assert (write_round material (Ok (concat bs)) i = Ok (concat (<[Z.to_nat i := round_bytes material i]> bs))) as E.
  { unfold write_round. simpl. rewrite Er. simpl. f_equal.
    rewrite <- copy_concat; [do 2 f_equal; lia|done|done|unfold len in Hr; lia]. }
  cbn [foldl]. rewrite E. rewrite IH; [done| |].
  - by apply Forall_insert.
  - unfold len in *. by rewrite length_insert.
Qed.

(** One entry per message that validates, in order. *)
Definition validated (be : backend) (schedule_of : Z -> list Z) (targetCost : Z) (m : bytes) : option PNStampEntry :=
  match ValidatePNStamp be schedule_of m targetCost with
  | Some (tid, lxm, v, st) => Some (mkEntry tid lxm v st)
  | None => None
  end.

Lemma fill_indexed {A B} (f : A -> B) (d : A) (l : list A) (d' : B) order :
  order ≡ₚ seqZ 0 (len l) -> fill (fun i => f (nth (Z.to_nat i) l d)) order (replicate (length l) d') = map f l.
Proof.
  intros Ho. assert (len (replicate (length l) d') = len l) as E by (unfold len; by rewrite length_replicate).
  rewrite fill_all by (by rewrite E). rewrite E. apply list_eq. intros k. rewrite !list_lookup_fmap.
  destruct (decide (k < length l)%nat) as [Hk|Hk].
  - rewrite lookup_seqZ_lt by (unfold len; lia). destruct (lookup_lt_is_Some_2 l k Hk) as [x Hx]. rewrite Hx. simpl.
    do 2 f_equal. replace (Z.to_nat (0 + Z.of_nat k)) with k by lia. by apply nth_lookup_Some.
  - rewrite lookup_seqZ_ge by (unfold len; lia). by rewrite lookup_ge_None_2 by lia.
Qed.

(** C28: the parallel work does not depend on the machine.  For any number of
    processors and any interleaving of the workers a workblock is the
    concatenation of its rounds, and batches are validated message by message:
    one result per candidate, and one entry per valid propagated message, in
    their order. *)
Theorem lxmf_workers_agree be schedule_of procs :
  (forall material rounds order, material <> [] -> 0 <= rounds ->
     order ≡ₚ worker_ranges (worker_count procs rounds) rounds ->
     stampWorkblockCPU order material rounds = Ok (concat (map (round_bytes material) (seqZ 0 rounds))))
  /\ (forall messages cost order, order ≡ₚ worker_ranges (worker_count procs (len messages)) (len messages) ->
     ValidatePNStamps be schedule_of order messages cost = omap (validated be schedule_of cost) messages)
  /\ (forall cands cost rounds order, order ≡ₚ worker_ranges (worker_count procs (len cands)) (len cands) ->
     validateStampBatchCPU schedule_of order cands cost rounds
     = map (fun c => validate_candidate schedule_of c cost rounds) cands).
Proof.
  assert (forall n, 0 <= n -> worker_ranges (worker_count procs n) n = seqZ 0 n) as Hw.
  { intros n Hn. apply worker_ranges_all; [done|]. unfold worker_count. lia. }
  split_and!.
  - intros material rounds order Hm Hr Ho. rewrite Hw in Ho by done. unfold stampWorkblockCPU.
    assert (forall n : nat, make_bytes (256 * Z.of_nat n) = concat (replicate n (make_bytes 256))) as Hz.
    { induction n as [|n IH]; [done|]. cbn [replicate concat]. rewrite <- IH, <- make_bytes_app by lia. f_equal. lia. }
    replace rounds with (Z.of_nat (Z.to_nat rounds)) at 1 by lia. rewrite Hz.
    set (bs := replicate (Z.to_nat rounds) (make_bytes 256)).
    assert (len bs = rounds) as Hl by (unfold bs, len; rewrite length_replicate; lia).
    rewrite workblock_fill; [|done|by apply Forall_replicate|].
    + by rewrite fill_all, Hl by (by rewrite Hl).
    + apply Forall_forall. intros i Hi. rewrite Ho in Hi. apply elem_of_seqZ in Hi. lia.
  - intros messages cost order Ho. rewrite Hw in Ho by apply len_nonneg. unfold ValidatePNStamps.
    etransitivity; [exact (f_equal (omap id) (fill_indexed (validated be schedule_of cost) [] messages None order Ho))|].
    clear. induction messages as [|m l IH]; [done|]. cbn. destruct (validated _ _ _ m); cbn; by rewrite IH.
  - intros cands cost rounds order Ho. rewrite Hw in Ho by apply len_nonneg. by apply (fill_indexed (fun c => validate_candidate schedule_of c cost rounds)).
Qed.

(** ** Cost *)

Lemma be_get_acc l a : fold_left (fun acc b => acc * 256 + bZ b) l a = a * 256 ^ len l + be_get l.
Proof.
  unfold be_get. revert a. induction l as [|b l IH]; intros a; cbn [fold_left]; [rewrite len_nil; lia|].
  rewrite IH, (IH (0 * 256 + bZ b)), len_cons. rewrite Z.pow_add_r by (pose proof (len_nonneg l); lia). lia.
Qed.

Lemma be_get_cons b l : be_get (b :: l) = bZ b * 256 ^ len l + be_get l.
Proof. unfold be_get at 1. cbn [fold_left]. by rewrite be_get_acc. Qed.

Lemma bytes_le_get a b : len a = len b -> bytes_le a b = (be_get a <=? be_get b).
Proof.
  revert b. induction a as [|x a IH]; intros [|y b] H; try done; rewrite ?len_cons, ?len_nil in H;
    try (pose proof (len_nonneg a); pose proof (len_nonneg b); lia).
  cbn [bytes_le]. rewrite !be_get_cons. assert (len a = len b) as E by lia. rewrite E in *.
  pose proof (be_get_range a). pose proof (be_get_range b). rewrite E in *.
  destruct (bZ x <? bZ y) eqn:E1; bool_hyps; [symmetry; apply Z.leb_le; nia|].
  destruct (bZ y <? bZ x) eqn:E2; bool_hyps; [symmetry; apply Z.leb_gt; nia|].
  replace (bZ x) with (bZ y) by lia. rewrite IH by done.
  destruct (be_get a <=? be_get b) eqn:E3; bool_hyps; symmetry; [apply Z.leb_le|apply Z.leb_gt]; lia.
Qed.

Lemma leading_bits_acc bit b v : leading_bits bit b v = v + leading_bits bit b 0.
Proof.
  revert v. induction bit as [|bit IH]; intros v; cbn [leading_bits]; destruct (negb _); try lia.
  rewrite IH, (IH (0 + 1)). lia.
Qed.

Lemma leading_bits_byte b : bZ b <> 0 -> leading_bits 7 (bZ b) 0 = 7 - Z.log2 (bZ b).
Proof. destruct b; intros H; try (exfalso; apply H; reflexivity); reflexivity. Qed.

(** The bits of a number. *)
Definition nbits (z : Z) : Z := if z =? 0 then 0 else Z.log2 z + 1.

Lemma nbits_le z n : 0 <= z -> 0 <= n -> nbits z <= n <-> z < 2 ^ n.
Proof.
  intros Hz Hn. unfold nbits. destruct (z =? 0) eqn:E; bool_hyps.
  - subst. pose proof (Z.pow_pos_nonneg 2 n ltac:(lia) ltac:(lia)). lia.
  - rewrite Z.log2_lt_pow2 by lia. lia.
Qed.

Lemma leading_zeros_nbits l v : leading_zeros l v = v + 8 * len l - nbits (be_get l).
Proof.
  revert v. induction l as [|b l IH]; intros v;
    [change (nbits (be_get [])) with 0; rewrite (@len_nil byte); cbn [leading_zeros]; lia|].
  cbn [leading_zeros]. rewrite len_cons, be_get_cons.
  pose proof (be_get_range l). pose proof (len_nonneg l). destruct (bZ b =? 0) eqn:E; bool_hyps.
  - rewrite IH, E. replace (0 * 256 ^ len l + be_get l) with (be_get l) by lia. lia.
  - rewrite leading_bits_acc, leading_bits_byte by done. pose proof (bZ_range b) as Hr.
    assert (256 ^ len l = 2 ^ (8 * len l)) as Ep by (rewrite Z.pow_mul_r by lia; done). rewrite Ep in *.
    unfold nbits. pose proof (Z.pow_pos_nonneg 2 (8 * len l) ltac:(lia) ltac:(lia)).
    replace (_ =? 0) with false by (symmetry; apply Z.eqb_neq; nia).
    enough (Z.log2 (bZ b * 2 ^ (8 * len l) + be_get l) = Z.log2 (bZ b) + 8 * len l) by lia.
    apply Z.log2_unique'  with (c := (bZ b - 2 ^ Z.log2 (bZ b)) * 2 ^ (8 * len l) + be_get l).
    all: pose proof (Z.log2_spec (bZ b) ltac:(lia)); pose proof (Z.log2_nonneg (bZ b)).
    + lia.
    + rewrite Z.pow_add_r by lia. replace (2 ^ Z.succ (Z.log2 (bZ b))) with (2 * 2 ^ Z.log2 (bZ b)) in * by (rewrite Z.pow_succ_r; lia). nia.
    + rewrite Z.pow_add_r by lia. lia.
Qed.

Lemma hashWorkblockStamp_sha wb stamp : hashWorkblockStamp wb stamp = sha256 (wb ++ stamp).
Proof. unfold hashWorkblockStamp. by rewrite <- digest_of_nil, !sha_write_of, app_nil_l, sha_sum_of. Qed.

(** The hash of a stamp as a number. *)
Definition stamp_hash (wb stamp : bytes) : Z := be_get (sha256 (wb ++ stamp)).

Lemma stamp_hash_range wb stamp : 0 <= stamp_hash wb stamp < 2 ^ 256.
Proof.
  unfold stamp_hash. pose proof (be_get_range (sha256 (wb ++ stamp))) as H. unfold len in H.
  by rewrite length_sha256 in H.
Qed.

(** The largest hash that pays a cost. *)
Definition target_of (cost : Z) : Z := if 256 <=? cost then 0 else 2 ^ (256 - cost).

Lemma stampTarget_value cost : 1 <= cost -> len (stampTarget cost) = 32 /\ be_get (stampTarget cost) = target_of cost.
Proof.
  intros H. destruct (decide (256 <= cost)) as [E|E].
  - unfold stampTarget, target_of. by rewrite (proj2 (Z.leb_le _ _) E).
  - assert (forallb (fun c => (len (stampTarget c) =? 32) && (be_get (stampTarget c) =? target_of c)) (seqZ 1 255) = true) as Hall
      by (vm_compute; reflexivity).
    rewrite forallb_forall in Hall. specialize (Hall cost). rewrite <- list_elem_of_In, elem_of_seqZ in Hall.
    specialize (Hall ltac:(lia)). bool_hyps. lia.
Qed.

Lemma accepts_target wb stamp cost : 1 <= cost ->
  bytes_le (sha256 (wb ++ stamp)) (stampTarget cost) = (stamp_hash wb stamp <=? target_of cost).
Proof.
  intros H. destruct (stampTarget_value cost H) as [L V]. rewrite bytes_le_get by (rewrite L; unfold len; by rewrite length_sha256).
  by rewrite V.
Qed.

Lemma StampValid_iff stamp cost wb : StampValid stamp cost wb = true <->
  cost <= 0 \/ (len stamp = StampSize /\ cost <= 256 /\ stamp_hash wb stamp <= target_of cost).
Proof.
  unfold StampValid. rewrite hashWorkblockStamp_sha. destruct (cost <=? 0) eqn:E1; bool_hyps; [intuition lia|].
  destruct (len stamp =? StampSize) eqn:E2; bool_hyps; simpl; [|intuition (lia || done)].
  destruct (256 <? cost) eqn:E3; bool_hyps; [intuition (lia || done)|].
  rewrite accepts_target, Z.leb_le by lia. intuition lia.
Qed.

Lemma StampValue_ge wb stamp c : stamp <> [] -> 0 <= c <= 256 ->
  c <= StampValue wb stamp <-> stamp_hash wb stamp < 2 ^ (256 - c).
Proof.
  intros Hs Hc. unfold StampValue. replace (len stamp =? 0) with false by (symmetry; apply Z.eqb_neq; by rewrite len_0_nil).
  rewrite hashWorkblockStamp_sha, leading_zeros_nbits. fold (stamp_hash wb stamp).
  assert (len (sha256 (wb ++ stamp)) = 32) as -> by (unfold len; by rewrite length_sha256).
  rewrite <- nbits_le by (pose proof (stamp_hash_range wb stamp); lia). lia.
Qed.

(** C36: what a stamp proves.  [StampValue] counts the leading zero bits of the
    hash of workblock and stamp; [MeetsCost] accepts exactly the 32-byte stamps
    of that value or more, up to 256; [StampValid] accepts the same and, below
    256, the one hash [2 ^ (256 - cost)] besides, whose value is one less than
    the cost. *)
Theorem lxmf_stamp_cost stamp cost wb :
  let h := stamp_hash wb stamp in
  (StampValid stamp cost wb = true <->
     cost <= 0 \/ (len stamp = StampSize /\ cost <= 256 /\ h <= target_of cost))
  /\ (stamp <> [] -> forall c, 0 <= c <= 256 -> (c <= StampValue wb stamp <-> h < 2 ^ (256 - c)))
  /\ (MeetsCost stamp cost wb = true <->
     len stamp = StampSize /\ (cost <= 0 \/ (cost <= 256 /\ cost <= StampValue wb stamp)))
  /\ (0 < cost -> StampValid stamp cost wb = true -> MeetsCost stamp cost wb = false ->
     h = 2 ^ (256 - cost) /\ StampValue wb stamp = cost - 1).
Proof.
  intros h. pose proof (StampValid_iff stamp cost wb) as HV. fold h in HV.
  pose proof (stamp_hash_range wb stamp) as Hr. fold h in Hr.
  assert (stamp <> [] -> forall c, 0 <= c <= 256 -> (c <= StampValue wb stamp <-> h < 2 ^ (256 - c))) as HG
    by (intros; by apply StampValue_ge).
  assert (len stamp = StampSize -> stamp <> []) as Hne by (intros H ->; discriminate H).
  assert (0 < cost <= 256 -> 2 ^ (256 - cost) - 1 <= target_of cost <= 2 ^ (256 - cost)) as Ht.
  { intros Hc. unfold target_of. destruct (256 <=? cost) eqn:E; bool_hyps; [|lia]. by replace cost with 256 by lia. }
  split; [done|]. split; [done|]. unfold MeetsCost. split.
  - destruct (StampValid stamp cost wb) eqn:E; simpl.
    + clear E. pose proof (proj1 HV eq_refl) as E. destruct (cost <=? 0) eqn:E0; bool_hyps; [rewrite Z.eqb_eq; intuition lia|].
      rewrite Z.leb_le. intuition lia.
    + assert (~ (cost <= 0 \/ len stamp = StampSize /\ cost <= 256 /\ h <= target_of cost)) as N by (rewrite <- HV; done).
      split; [done|]. intros [H1 [H2|[H2 H3]]]; [lia|]. exfalso. apply N. right. split; [done|]. split; [done|].
      destruct (Z.le_gt_cases cost 0); [exfalso; apply N; lia|]. apply HG in H3; [|auto|lia]. lia.
  - intros Hc E. rewrite E. simpl. apply HV in E as [|(H1 & H2 & H3)]; [lia|].
    replace (cost <=? 0) with false by (symmetry; apply Z.leb_gt; lia). rewrite Z.leb_gt. intros Hlt.
    assert (~ h < 2 ^ (256 - cost)) as N by (rewrite <- HG by (auto || lia); lia).
    split; [lia|]. enough (cost - 1 <= StampValue wb stamp) by lia. apply HG; [auto|lia|].
    replace (256 - (cost - 1)) with (Z.succ (256 - cost)) by lia. rewrite Z.pow_succ_r by lia. lia.
Qed.

(** ** Generation *)

Definition mid_of (wb : bytes) : bytes := sha_marshal (digest_of wb).

Lemma generate_mid wb : len wb < 2 ^ 60 ->
  match midstateOfPrefix wb with
  | Some ms => if len (Marshaled ms) =? 0 then sha_marshal (sha_write wb sha_new) else Marshaled ms
  | None => sha_marshal (sha_write wb sha_new)
  end = mid_of wb.
Proof.
  intros H. pose proof (len_nonneg wb). rewrite midstate_digest by lia. cbn [Marshaled].
  rewrite <- digest_of_nil, sha_write_of. by destruct (_ =? 0).
Qed.

Lemma try_stamp_mid wb cost stamp : len wb < 2 ^ 60 -> 1 <= cost ->
  try_stamp (mid_of wb) (stampTarget cost) stamp = Some (stamp_hash wb stamp <=? target_of cost).
Proof.
  intros H Hc. unfold try_stamp, mid_of. rewrite unmarshal_marshal by (apply digest_of_ok; lia).
  by rewrite sha_write_of, sha_sum_of, accepts_target.
Qed.

Lemma len_candidate seed w k : len seed = 16 -> len (candidate seed w k) = StampSize.
Proof. intros H. unfold candidate. rewrite !len_app, len_ztake by lia. unfold len. by rewrite !length_be_put. Qed.

#[export] Instance gturn_eq_dec : EqDecision gturn.
Proof. solve_decision. Defined.

(** The turns worker [w] gets. *)
Definition turns_of (w : Z) (turns : list gturn) : Z := len (filter (fun t => t = Turn w) turns).

Section search.
Context (wb : bytes) (cost : Z) (seed : bytes) (workers : Z).
Context (Hwb : len wb < 2 ^ 60) (Hcost : 1 <= cost).

Abbreviation pays s := (stamp_hash wb s <= target_of cost).
Abbreviation step := (turn (mid_of wb) (stampTarget cost) seed workers).

Lemma turn_found w g : found g = None ->
  match found (step w g) with
  | Some s => exists v k, s = candidate seed v k /\ pays s
  | None => forall v, 0 <= v < workers -> counts (step w g) v = (if v =? w then u64 (counts g v + 1) else counts g v)
            /\ (v = w -> ~ pays (candidate seed v (u64 (counts g v + 1))))
  end.
Proof.
  intros Hf. unfold turn. rewrite Hf. destruct (negb _) eqn:E.
  { rewrite Hf. intros v Hv. destruct (v =? w) eqn:Ev; bool_hyps; [subst; exfalso; destruct (0 <=? w) eqn:?, (w <? workers) eqn:?; bool_hyps; try done; lia|].
    split; [done|lia]. }
  cbn [found counts]. rewrite try_stamp_mid by done. destruct (stamp_hash wb _ <=? target_of cost) eqn:Ep; [apply Z.leb_le in Ep|apply Z.leb_gt in Ep]; [by eexists _, _|].
  intros v Hv. destruct (v =? w) eqn:Ev; bool_hyps; [subst|]; split; try done; intros; lia.
Qed.

Lemma search_sound turns g s :
  (forall s', found g = Some s' -> exists v k, s' = candidate seed v k /\ pays s') ->
  search (mid_of wb) (stampTarget cost) seed workers turns g = Some (Ok s) ->
  exists v k, s = candidate seed v k /\ pays s.
Proof.
  revert g. induction turns as [|[w| |] ts IH]; intros g Hg Hs; cbn [search] in Hs; try done.
  - eapply IH; [|exact Hs]. intros s' E. destruct (found g) as [s0|] eqn:Ef.
    + apply Hg. unfold turn in E. rewrite Ef in E. destruct (negb _); congruence.
    + pose proof (turn_found w g Ef) as T. by rewrite E in T.
  - destruct (found g) as [s0|] eqn:Ef; [|by eapply IH; [|exact Hs]; rewrite Ef]. apply Hg. congruence.
Qed.

Lemma search_finds w k n turns g : 0 <= w < workers -> 1 <= k < 2 ^ 64 -> pays (candidate seed w k) ->
  Forall (fun t => t <> Done_) turns -> (found g = None -> counts g w = n /\ n < k) -> 0 <= n -> k <= n + turns_of w turns ->
  exists s, search (mid_of wb) (stampTarget cost) seed workers (turns ++ [Collect]) g = Some (Ok s).
Proof.
  intros Hw Hk Hp. revert n g. induction turns as [|t ts IH]; intros n g Hd Hg Hn Ht.
  { cbn. destruct (found g) as [s|] eqn:Ef; [by eauto|]. destruct (Hg eq_refl). change (turns_of w []) with 0 in Ht. lia. }
  inversion Hd as [|? ? Ht0 Hd']; subst. destruct t as [v| |]; [| |done].
  - cbn [app search]. destruct (found g) as [s|] eqn:Ef.
    + apply (IH (k + 1)); [done| |lia|unfold turns_of; pose proof (len_nonneg (filter (fun t => t = Turn w) ts)); lia].
      unfold turn. rewrite Ef. destruct (negb _); by rewrite Ef.
    + destruct (Hg eq_refl) as [Hc Hlt]. pose proof (turn_found v g Ef) as T.
      destruct (decide (v = w)) as [->|Hne].
      * apply (IH (n + 1)); [done| |lia|].
        -- intros E. rewrite E in T. destruct (T w Hw) as [T1 T2]. rewrite Z.eqb_refl in T1. specialize (T2 eq_refl).
           rewrite Hc in T1, T2. rewrite u64_small in T1, T2 by lia. split; [done|].
           destruct (decide (n + 1 = k)) as [<-|]; [by destruct T2|lia].
        -- unfold turns_of in *. rewrite filter_cons_True, len_cons in Ht by done. lia.
      * apply (IH n); [done| |lia|].
        -- intros E. rewrite E in T. destruct (T w Hw) as [T1 _]. rewrite (proj2 (Z.eqb_neq _ _)) in T1 by lia. by rewrite T1.
        -- unfold turns_of in *. by rewrite filter_cons_False in Ht by congruence.
  - cbn [app search]. destruct (found g) as [s|] eqn:Ef; [by eauto|]. apply (IH n); [done|by rewrite Ef|lia|].
    unfold turns_of in *. by rewrite filter_cons_False in Ht by congruence.
Qed.
End search.

(** C27: stamp generation.  Whatever the workers do, a stamp it returns is 32
    bytes long, passes [StampValid] at the requested cost and comes with its
    value.  And it does return one: if some worker's [k]-th candidate pays the
    cost and that worker gets [k] turns before the context ends, the caller gets
    a stamp. *)
Theorem lxmf_stamp_generation procs seed wb cost : len seed = 16 -> len wb < 2 ^ 60 -> 1 <= cost <= 256 ->
  (forall turns stamp v, generateStampCPU procs (Some seed) turns wb cost = Some (Ok (stamp, v)) ->
     StampValid stamp cost wb = true /\ len stamp = StampSize /\ v = StampValue wb stamp)
  /\ (forall turns w k, 0 <= w < Z.max procs 1 -> 1 <= k < 2 ^ 64 ->
     StampValid (candidate seed w k) cost wb = true -> Forall (fun t => t <> Done_) turns -> k <= turns_of w turns ->
     exists stamp v, generateStampCPU procs (Some seed) (turns ++ [Collect]) wb cost = Some (Ok (stamp, v))).
Proof.
  intros Hs Hw Hc. unfold generateStampCPU. rewrite generate_mid by done. split.
  - intros turns stamp v H. destruct (search _ _ _ _ _ _) as [[s|]|] eqn:E; try done. injection H as -> <-.
    apply search_sound in E as (w & k & -> & Hp); [|done|lia|done].
    rewrite StampValid_iff, len_candidate by done. split_and!; try done. right. split_and!; (done || lia).
  - intros turns w k Hr Hk Hv Ht Hn. apply StampValid_iff in Hv as [|(_ & _ & Hp)]; [lia|].
    edestruct (search_finds wb cost seed (Z.max procs 1) Hw ltac:(lia) w k 0 turns (mkG (fun _ => 0) None)) as [s E];
      try done; [by split; [|lia]|].
    rewrite E. eauto.
Qed.

Lemma lxmf_stamp_generation_witness :
  (len (make_bytes 16) = 16 /\ len [x01] < 2 ^ 60 /\ 1 <= 1 <= 256) /\
  (forall turns stamp v, generateStampCPU 2 (Some (make_bytes 16)) turns [x01] 1 = Some (Ok (stamp, v)) ->
     StampValid stamp 1 [x01] = true /\ len stamp = StampSize /\ v = StampValue [x01] stamp).
Proof.
  split; [vm_compute; split_and!; (done || discriminate)|].
  apply (lxmf_stamp_generation 2 (make_bytes 16) [x01] 1); vm_compute; split_and?; (done || discriminate).
Defined.

(** Two workers on a small workblock find a stamp of cost 4. *)
Example generation_runs :
  match generateStampCPU 2 (Some (make_bytes 16)) (concat (replicate 40 [Turn 0; Turn 1]) ++ [Collect]) [x01] 4 with
  | Some (Ok (stamp, v)) => StampValid stamp 4 [x01] && MeetsCost stamp 4 [x01] && (4 <=? v)
  | _ => false
  end = true.
Proof. vm_compute. reflexivity. Qed.
