(* ===== verification/MsgValue.v ===== *)
(** * Values of type [any] in MessagePack (vendored library)

    What [Encode] writes for a value and what [DecodeInterface] and
    [DecodeInterfaceLoose] make of it, with the map decoder of
    [lxmf/message.go].  Go maps have no order: the encoder writes the entries in
    the order of the list it is given, which stands for the order of the
    iteration. *)

From stdpp Require Import base tactics list strings.
From Stdlib Require Import ZArith Lia.
From S2P Require Import Prelude Msgpack.

(** ** Values *)

Inductive ikind := KI8 | KI16 | KI32 | KI64 | KU8 | KU16 | KU32 | KU64.

(** Floats are kept as their bits.  [MFields] is a [map[byte]any], its entries
    in ascending order of the keys; [MMap] is any other map. *)
Inductive mval :=
| MNil
| MBool (b : bool)
| MInt (k : ikind) (z : Z)
| MF32 (bits : Z)
| MF64 (bits : Z)
| MStr (s : bytes)
| MBin (b : bytes)
| MTime (sec nsec : Z)
| MArr (l : list mval)
| MMap (l : list (mval * mval))
| MFields (l : list (byte * mval)).

Section ind.
Context (P : mval -> Prop).
Context (Hnil : P MNil) (Hbool : forall b, P (MBool b)) (Hint : forall k z, P (MInt k z)).
Context (Hf32 : forall z, P (MF32 z)) (Hf64 : forall z, P (MF64 z)) (Hstr : forall s, P (MStr s)).
Context (Hbin : forall b, P (MBin b)) (Htime : forall s n, P (MTime s n)).
Context (Harr : forall l, Forall P l -> P (MArr l)).
Context (Hmap : forall l, Forall (fun p => P p.1 /\ P p.2) l -> P (MMap l)).
Context (Hfields : forall l, Forall (fun p => P p.2) l -> P (MFields l)).

Fixpoint mval_nested_ind (v : mval) : P v :=
  match v with
  | MNil => Hnil | MBool b => Hbool b | MInt k z => Hint k z | MF32 z => Hf32 z | MF64 z => Hf64 z
  | MStr s => Hstr s | MBin b => Hbin b | MTime s n => Htime s n
  | MArr l =>
      Harr l ((fix go l : Forall P l :=
        match l with [] => List.Forall_nil _ | x :: l => @List.Forall_cons _ _ x l (mval_nested_ind x) (go l) end) l)
  | MMap l =>
      Hmap l ((fix go l : Forall (fun p => P p.1 /\ P p.2) l :=
        match l with
        | [] => List.Forall_nil _
        | (k, x) :: l => @List.Forall_cons _ _ (k, x) l (conj (mval_nested_ind k) (mval_nested_ind x)) (go l)
        end) l)
  | MFields l =>
      Hfields l ((fix go l : Forall (fun p => P p.2) l :=
        match l with
        | [] => List.Forall_nil _
        | (k, x) :: l => @List.Forall_cons _ _ (k, x) l (mval_nested_ind x) (go l)
        end) l)
  end.
End ind.

(** ** Encoding, with compact integers *)

Definition encodeStringLen (l : Z) : bytes :=
  if l <? 32 then [Zb (Z.lor 0xa0 l)]
  else if l <? 256 then xd9 :: be_put 1 l
  else if l <=? 65535 then xda :: be_put 2 l else xdb :: be_put 4 l.

Definition EncodeString (s : bytes) : bytes := encodeStringLen (len s) ++ s.

(** [encodeTime] with its extension header. *)
Definition EncodeTime (sec nsec : Z) : bytes :=
  let secs := u64 sec in
  if Z.shiftr secs 34 =? 0 then
    let data := Z.lor (u64 (Z.shiftl nsec 34)) secs in
    if Z.land data 0xffffffff00000000 =? 0 then xd6 :: xff :: be_put 4 data else xd7 :: xff :: be_put 8 data
  else xc7 :: be_put 1 12 ++ [xff] ++ be_put 4 (u32 nsec) ++ be_put 8 secs.

Fixpoint encode (v : mval) : bytes :=
  match v with
  | MNil => [xc0]
  | MBool b => [if b then xc3 else xc2]
  | MInt _ z => EncodeInt z
  | MF32 bits => xca :: be_put 4 bits
  | MF64 bits => xcb :: be_put 8 bits
  | MStr s => EncodeString s
  | MBin b => EncodeBytes b
  | MTime s n => EncodeTime s n
  | MArr l => EncodeArrayLen (len l) ++ concat (map encode l)
  | MMap l => EncodeMapLen (len l) ++ concat (map (fun p => encode p.1 ++ encode p.2) l)
  | MFields l => EncodeMapLen (len l) ++ concat (map (fun p => EncodeInt (bZ p.1) ++ encode p.2) l)
  end.

(** ** Decoding *)

(** [float64(float32)] on bits. *)
Definition f32_to_f64 (b : Z) : Z :=
  let sign := Z.shiftl (Z.shiftr b 31) 63 in
  let e := Z.land (Z.shiftr b 23) 0xff in
  let f := Z.land b 0x7fffff in
  if e =? 255 then
    if f =? 0 then sign + Z.shiftl 0x7ff 52
    else sign + Z.shiftl 0x7ff 52 + Z.lor (Z.shiftl f 29) (2 ^ 51)
  else if e =? 0 then
    if f =? 0 then sign
    else let k := Z.log2 f in sign + Z.shiftl (k - 149 + 1023) 52 + Z.shiftl (f - 2 ^ k) (52 - k)
  else sign + Z.shiftl (e - 127 + 1023) 52 + Z.shiftl f 29.

Definition pmap {A B} (f : A -> B) (p : parser A) : parser B := andThen p (fun a r => Some (f a, r)).

(** An integer of [n] bytes, [DecodeInterface] keeping its width. *)
Definition read_kind (loose : bool) (k : ikind) : parser mval :=
  let kind small := if loose then (match k with KI8 | KI16 | KI32 | KI64 => KI64 | _ => KU64 end) else small in
  match k with
  | KU8 => pmap (MInt (kind KU8)) (read_uint 1)
  | KU16 => pmap (MInt (kind KU16)) (read_uint 2)
  | KU32 => pmap (MInt (kind KU32)) (read_uint 4)
  | KU64 => pmap (MInt (kind KU64)) (read_uint 8)
  | KI8 => pmap (fun n => MInt (kind KI8) (sint 8 n)) (read_uint 1)
  | KI16 => pmap (fun n => MInt (kind KI16) (i16 n)) (read_uint 2)
  | KI32 => pmap (fun n => MInt (kind KI32) (i32 n)) (read_uint 4)
  | KI64 => pmap (fun n => MInt (kind KI64) (i64 n)) (read_uint 8)
  end.

(** [string] and [bytes]: nil cannot occur here, the code is known. *)
Definition read_string (c : Z) : parser bytes :=
  andThen (bytesLen c) (fun n r => if n <=? 0 then Some ([], r) else readN n r).
Definition read_bytes (c : Z) : parser bytes :=
  andThen (bytesLen c) (fun n r => if n =? -1 then Some ([], r) else readN n r).

(** [time.Unix]. *)
Definition time_unix (sec nsec : Z) : mval := MTime (i64 (sec + nsec / 1000000000)) (nsec mod 1000000000).

Definition decodeTime (extLen : Z) : parser mval :=
  andThen (readN extLen) (fun b r =>
    if len b =? 4 then Some (time_unix (be_get b) 0, r)
    else if len b =? 8 then
      let v := be_get b in Some (time_unix (Z.land v 0x3ffffffff) (Z.shiftr v 34), r)
    else if len b =? 12 then Some (time_unix (i64 (be_get (zdrop 4 b))) (be_get (ztake 4 b)), r)
    else None).

(** The only registered extension is the time, [-1]. *)
Definition decodeInterfaceExt (c : Z) : parser mval :=
  andThen (parseExtLen c) (fun extLen =>
    andThen readCode (fun id => if sint 8 id =? -1 then decodeTime extLen else (fun _ => None))).

Fixpoint times {A} (n : nat) (p : parser A) : parser (list A) :=
  fun bs =>
    match n with
    | O => Some ([], bs)
    | S n => andThen p (fun a => andThen (times n p) (fun l r => Some (a :: l, r))) bs
    end.

(** Go equality of interface values that can be map keys. *)
Definition f64_zero (b : Z) : bool := (b =? 0) || (b =? 2 ^ 63).
Definition f64_nan (b : Z) : bool := (Z.land (Z.shiftr b 52) 0x7ff =? 0x7ff) && negb (Z.land b (2 ^ 52 - 1) =? 0).
Definition f64_eqb (a b : Z) : bool :=
  if f64_nan a || f64_nan b then false else (a =? b) || (f64_zero a && f64_zero b).

#[export] Instance ikind_eq_dec : EqDecision ikind.
Proof. solve_decision. Defined.

Definition key_eqb (a b : mval) : bool :=
  match a, b with
  | MNil, MNil => true
  | MBool x, MBool y => Bool.eqb x y
  | MInt k x, MInt k' y => bool_decide (k = k') && (x =? y)
  | MF32 x, MF32 y => f64_eqb (f32_to_f64 x) (f32_to_f64 y)
  | MF64 x, MF64 y => f64_eqb x y
  | MStr x, MStr y => bool_decide (x = y)
  | MTime s n, MTime s' n' => (s =? s') && (n =? n')
  | _, _ => false
  end.

Definition comparable (v : mval) : bool :=
  match v with MBin _ | MArr _ | MMap _ | MFields _ => false | _ => true end.

(** [out[k] = v] *)
Fixpoint map_put (k v : mval) (l : list (mval * mval)) : list (mval * mval) :=
  match l with
  | [] => [(k, v)]
  | (k', v') :: l => if key_eqb k' k then (k', v) :: l else (k', v') :: map_put k v l
  end.

Definition msgpackMapMaxDepth : Z := 16.
Definition msgpackMapMaxPairs : Z := 1024.
Definition defaultDecodeDepthLimit : Z := 10000.

(** The value that starts with code [c]; maps and arrays are read by [dmap] and
    [darr]. *)
Definition dispatch (loose : bool) (dmap darr : Z -> parser mval) (c : Z) : parser mval :=
  if IsFixedNum c then (fun r => Some (MInt (if loose then KI64 else KI8) (sint 8 c), r))
  else if IsFixedMap c then dmap c
  else if IsFixedArray c then darr c
  else if IsFixedString c then pmap MStr (read_string c)
  else if c =? 0xc0 then (fun r => Some (MNil, r))
  else if c =? 0xc2 then (fun r => Some (MBool false, r))
  else if c =? 0xc3 then (fun r => Some (MBool true, r))
  else if c =? 0xca then pmap (fun b => if loose then MF64 (f32_to_f64 b) else MF32 b) (read_uint 4)
  else if c =? 0xcb then pmap MF64 (read_uint 8)
  else if c =? 0xcc then read_kind loose KU8
  else if c =? 0xcd then read_kind loose KU16
  else if c =? 0xce then read_kind loose KU32
  else if c =? 0xcf then read_kind loose KU64
  else if c =? 0xd0 then read_kind loose KI8
  else if c =? 0xd1 then read_kind loose KI16
  else if c =? 0xd2 then read_kind loose KI32
  else if c =? 0xd3 then read_kind loose KI64
  else if (c =? 0xc4) || (c =? 0xc5) || (c =? 0xc6) then
    (if loose then pmap MStr (read_string c) else pmap MBin (read_bytes c))
  else if (c =? 0xd9) || (c =? 0xda) || (c =? 0xdb) then pmap MStr (read_string c)
  else if (c =? 0xdc) || (c =? 0xdd) then darr c
  else if (c =? 0xde) || (c =? 0xdf) then dmap c
  else if IsExt c then decodeInterfaceExt c
  else (fun _ => None).

(** [msgpackMapCtx.decodeMap], [md] being what is left of its nesting limit. *)
Definition decodeMap (md : Z) (item : parser mval) (c : Z) : parser mval :=
  if md <=? 0 then (fun _ => None)
  else andThen (mapLen c) (fun n =>
    if n =? -1 then (fun r => Some (MNil, r))
    else if msgpackMapMaxPairs <? n then (fun _ => None)
    else
      let entry : parser (mval * mval) :=
        andThen item (fun k =>
          if comparable k then andThen item (fun v r => Some ((k, v), r)) else (fun _ => None)) in
      pmap (fun l => MMap (foldl (fun out p => map_put p.1 p.2 out) [] l)) (times (Z.to_nat n) entry)).

Definition DecodeString : parser bytes := andThen readCode read_string.

(** [DecodeMap], for a decoder without a map decoder of its own: text keys, [dd]
    being what is left of the decoder's nesting limit. *)
Definition decodeStringMap (dd : Z) (item : parser mval) (c : Z) : parser mval :=
  andThen (mapLen c) (fun n =>
    if n =? -1 then (fun r => Some (MNil, r))
    else
      let entry : parser (mval * mval) :=
        andThen DecodeString (fun k =>
          andThen (if dd <=? 0 then (fun _ => None) else item) (fun v r => Some ((MStr k, v), r))) in
      pmap (fun l => MMap (foldl (fun out p => map_put p.1 p.2 out) [] l)) (times (Z.to_nat n) entry)).

(** [decodeSlice]. *)
Definition decodeSlice (dd : Z) (item : parser mval) (c : Z) : parser mval :=
  andThen (arrayLen c) (fun n =>
    pmap MArr (times (Z.to_nat n) (if dd <=? 0 then (fun _ => None) else item))).

(** [flag]: loose decoding is on; [custom]: [decodeMap] reads the maps; [loose]:
    this value is decoded loosely.  [fuel] is more than the two limits together. *)
Fixpoint decode (flag custom : bool) (fuel : nat) (loose : bool) (dd md : Z) : parser mval :=
  match fuel with
  | O => fun _ => None
  | S fuel =>
      let inner := fun bs => decode flag custom fuel flag (dd - 1) md bs in
      andThen readCode
        (dispatch loose
           (if custom then decodeMap md (fun bs => decode flag custom fuel false dd (md - 1) bs)
            else decodeStringMap dd inner)
           (decodeSlice dd inner))
  end.

Definition decode_fuel : nat := Z.to_nat (defaultDecodeDepthLimit + msgpackMapMaxDepth + 1).

(** [dec.DecodeInterface()] at the top of a message, where loose decoding is
    switched on for what is inside arrays and maps are read by [decodeMap]. *)
Definition DecodeInterface : parser mval :=
  decode true true decode_fuel false defaultDecodeDepthLimit msgpackMapMaxDepth.

(** [DecodeInterface] and [DecodeInterfaceLoose] of a new decoder. *)
Definition DecodeInterface_plain : parser mval :=
  decode false false decode_fuel false defaultDecodeDepthLimit msgpackMapMaxDepth.
Definition DecodeInterfaceLoose_plain : parser mval :=
  decode false false decode_fuel true defaultDecodeDepthLimit msgpackMapMaxDepth.

Example nested_bytes_become_text :
  DecodeInterface (encode (MFields [(x0c, MArr [MF64 0; MBin [x61; x62]])]))
  = Some (MMap [(MInt KI8 12, MArr [MF64 0; MStr [x61; x62]])], []).
Proof. vm_compute. reflexivity. Qed.

(** ** What the reader sees of a value *)

(** The Go type an integer comes back with. *)
Definition int_kind (z : Z) : ikind :=
  if 0 <=? z then
    if z <=? 127 then KI8 else if z <=? 255 then KU8 else if z <=? 65535 then KU16
    else if z <=? 2 ^ 32 - 1 then KU32 else KU64
  else if - 2 ^ 7 <=? z then KI8 else if - 2 ^ 15 <=? z then KI16 else if - 2 ^ 31 <=? z then KI32 else KI64.

Definition widen (k : ikind) : ikind := match k with KI8 | KI16 | KI32 | KI64 => KI64 | _ => KU64 end.

Definition view_int (loose : bool) (z : Z) : mval := MInt (if loose then widen (int_kind z) else int_kind z) z.

Definition puts (l : list (mval * mval)) : list (mval * mval) := foldl (fun out p => map_put p.1 p.2 out) [] l.

Fixpoint view (flag loose : bool) (v : mval) : mval :=
  match v with
  | MInt _ z => view_int loose z
  | MF32 b => if loose then MF64 (f32_to_f64 b) else MF32 b
  | MBin b => if loose then MStr b else MBin b
  | MArr l => MArr (map (view flag flag) l)
  | MMap l => MMap (puts (map (fun p => (view flag false p.1, view flag false p.2)) l))
  | MFields l => MMap (puts (map (fun p => (view_int false (bZ p.1), view flag false p.2)) l))
  | v => v
  end.

(** A value the decoder takes at these nesting limits. *)
Fixpoint sendable (dd md : Z) (v : mval) : bool :=
  match v with
  | MNil | MBool _ => true
  | MInt _ z => (- 2 ^ 63 <=? z) && (z <? 2 ^ 64)
  | MF32 b => (0 <=? b) && (b <? 2 ^ 32)
  | MF64 b => (0 <=? b) && (b <? 2 ^ 64)
  | MStr s | MBin s => len s <? 2 ^ 32
  | MTime _ _ => false
  | MArr l => (len l <? 2 ^ 32) && (bool_decide (l = []) || (0 <? dd)) && forallb (sendable (dd - 1) md) l
  | MMap l =>
      (len l <=? msgpackMapMaxPairs) && (0 <? md)
      && forallb (fun p => comparable p.1 && sendable dd (md - 1) p.1 && sendable dd (md - 1) p.2) l
  | MFields l =>
      (len l <=? msgpackMapMaxPairs) && (0 <? md) && forallb (fun p => sendable dd (md - 1) p.2) l
  end.

Fixpoint mapless (v : mval) : bool :=
  match v with MMap _ | MFields _ => false | MArr l => forallb mapless l | _ => true end.

(** ** The decoder reads what the encoder writes *)

Lemma pmap_Some {A B} (f : A -> B) p bs a r : p bs = Some (a, r) -> pmap f p bs = Some (f a, r).
Proof. intros H. unfold pmap, andThen. by rewrite H. Qed.

Lemma times_concat {A B} (f : A -> B) (enc : A -> bytes) (p : parser B) l r :
  Forall (fun x => forall r, p (enc x ++ r) = Some (f x, r)) l ->
  times (length l) p (concat (map enc l) ++ r) = Some (map f l, r).
Proof.
  induction 1 as [|x l Hx _ IH]; [done|]. cbn [length times map concat]. rewrite <- app_assoc.
  unfold andThen at 1. rewrite Hx. unfold andThen. by rewrite IH.
Qed.

Lemma pmap_sint {B} (f : Z -> B) (k : nat) n w z r :
  n = Z.of_nat k -> w = 8 * n -> 0 < n -> - 2 ^ (w - 1) <= z < 2 ^ (w - 1) ->
  pmap (fun n => f (sint w n)) (read_uint n) (be_put k (z mod 2 ^ w) ++ r) = Some (f z, r).
Proof.
  intros Hn Hw H0 Hz. pose proof (read_sint_put k n w z r Hn Hw H0 Hz) as H. revert H. unfold pmap, andThen.
  destruct (read_uint n _) as [[a r']|]; [|done]. by intros [= -> ->].
Qed.

Lemma dispatch_int loose dm da z r : - 2 ^ 63 <= z < 2 ^ 64 ->
  andThen readCode (dispatch loose dm da) (EncodeInt z ++ r) = Some (view_int loose z, r).
Proof.
  intros Hz. unfold EncodeInt, EncodeUint, view_int, int_kind.
  repeat match goal with |- context [?a <=? ?b] => destruct (a <=? b) eqn:? end; bool_hyps; try lia;
    unfold andThen at 1; cbn [readCode app].
  - rewrite bZ_Zb_small by lia. unfold dispatch, IsFixedNum. rewrite (proj2 (Z.leb_le z 0x7f)) by lia. cbn [orb widen].
    unfold sint. cbv zeta. rewrite Z.mod_small by lia. destruct (_ <? _) eqn:E2; bool_hyps; [by destruct loose|lia].
  - change (dispatch loose dm da (bZ xcc)) with (read_kind loose KU8). apply pmap_Some. apply (read_uint_put_small 1); lia.
  - change (dispatch loose dm da (bZ xcd)) with (read_kind loose KU16). apply pmap_Some. apply (read_uint_put_small 2); lia.
  - change (dispatch loose dm da (bZ xce)) with (read_kind loose KU32). apply pmap_Some. apply (read_uint_put_small 4); lia.
  - change (dispatch loose dm da (bZ xcf)) with (read_kind loose KU64). apply pmap_Some. apply (read_uint_put_small 8); lia.
  - rewrite bZ_Zb.
    assert (z mod 256 = z + 256) as -> by (rewrite <- (Z_mod_plus_full z 1 256), Z.mod_small by lia; lia).
    unfold dispatch, IsFixedNum. rewrite (proj2 (Z.leb_le 0xe0 (z + 256))) by lia. rewrite orb_true_r.
    unfold sint. cbv zeta. rewrite Z.mod_small by lia. destruct (_ <? _) eqn:E2; bool_hyps; [lia|].
    cbn [widen]. do 2 f_equal. by destruct loose; f_equal; lia.
  - change (dispatch loose dm da (bZ xd0)) with (read_kind loose KI8). apply (pmap_sint (MInt _) 1 1 8); lia.
  - change (dispatch loose dm da (bZ xd1)) with (read_kind loose KI16). apply (pmap_sint (MInt _) 2 2 16); lia.
  - change (dispatch loose dm da (bZ xd2)) with (read_kind loose KI32). apply (pmap_sint (MInt _) 4 4 32); lia.
  - change (dispatch loose dm da (bZ xd3)) with (read_kind loose KI64). apply (pmap_sint (MInt _) 8 8 64); lia.
Qed.

(** A statement about a short length, checked for each of them. *)
Lemma below (n : nat) (P : Z -> bool) :
  forallb (fun i => P (Z.of_nat i)) (seq 0 n) = true -> forall z, 0 <= z < Z.of_nat n -> P z = true.
Proof.
  rewrite forallb_forall. intros H z Hz. rewrite <- (Z2Nat.id z) by lia. apply H, in_seq. lia.
Qed.

Lemma array_head loose dm da l r : 0 <= l < 2 ^ 32 ->
  exists c t, EncodeArrayLen l = c :: t /\ dispatch loose dm da (bZ c) = da (bZ c)
              /\ (l <= len r -> arrayLen (bZ c) (t ++ r) = Some (l, r)).
Proof.
  intros Hl. unfold EncodeArrayLen. repeat case_match; bool_hyps; do 2 eexists; (split; [done|]).
  - each_small l; (split; [done|]); intros; apply fitting_ok; lia.
  - split; [done|]. intros. apply (read_len_put 2); lia.
  - split; [done|]. intros. apply (read_len_put 4); lia.
Qed.

Lemma map_head loose dm da l r : 0 <= l < 2 ^ 32 ->
  exists c t, EncodeMapLen l = c :: t /\ dispatch loose dm da (bZ c) = dm (bZ c)
              /\ (l * 2 <= len r -> mapLen (bZ c) (t ++ r) = Some (l, r)).
Proof.
  intros Hl. unfold EncodeMapLen. repeat case_match; bool_hyps; do 2 eexists; (split; [done|]).
  - each_small l; (split; [done|]); intros; match goal with |- _ = Some (?n, _) => apply (fitting_ok n 2); lia end.
  - split; [done|]. intros. apply (read_len_put 2); lia.
  - split; [done|]. intros. apply (read_len_put 4); lia.
Qed.

Lemma fixed_string_code l : 0 <= l < 32 ->
  let c := bZ (Zb (Z.lor 0xa0 l)) in
  IsFixedNum c = false /\ IsFixedMap c = false /\ IsFixedArray c = false /\ IsFixedString c = true
  /\ (c =? 0xc0) = false /\ Z.land c 0x1f = l.
Proof.
  intros Hl c. pose proof (below 32 (fun l => let c := bZ (Zb (Z.lor 0xa0 l)) in
    negb (IsFixedNum c) && negb (IsFixedMap c) && negb (IsFixedArray c) && IsFixedString c
    && negb (c =? 0xc0) && (Z.land c 0x1f =? l)) eq_refl l Hl) as H.
  cbv beta zeta in H. fold c in H. bool_hyps. repeat split; try done; lia.
Qed.

(** What is read after a length. *)
Lemma read_string_body c t s r :
  bytesLen c (t ++ s ++ r) = Some (len s, s ++ r) -> read_string c (t ++ s ++ r) = Some (s, r).
Proof.
  intros H. unfold read_string, andThen. rewrite H. pose proof (len_nonneg s).
  destruct (_ <=? _) eqn:E; bool_hyps; [|by apply readN_app].
  destruct s; [done|]. rewrite len_cons in *. pose proof (len_nonneg s). lia.
Qed.

Lemma read_bytes_body c t s r :
  bytesLen c (t ++ s ++ r) = Some (len s, s ++ r) -> read_bytes c (t ++ s ++ r) = Some (s, r).
Proof.
  intros H. unfold read_bytes, andThen. rewrite H. pose proof (len_nonneg s).
  destruct (_ =? _) eqn:E; bool_hyps; [lia|by apply readN_app].
Qed.

Lemma bytesLen_field (k : nat) c w s r :
  (forall r, bytesLen c r = read_len w 1 r) -> w = Z.of_nat k -> len s < 256 ^ w ->
  bytesLen c (be_put k (len s) ++ s ++ r) = Some (len s, s ++ r).
Proof.
  intros Hc -> Hs. rewrite Hc. pose proof (len_nonneg s). pose proof (len_nonneg r).
  apply read_len_put; [done..|lia|]. rewrite len_app. lia.
Qed.

Lemma string_head loose dm da s r : len s < 2 ^ 32 ->
  exists c t, encodeStringLen (len s) = c :: t /\ dispatch loose dm da (bZ c) = pmap MStr (read_string (bZ c))
              /\ read_string (bZ c) (t ++ s ++ r) = Some (s, r).
Proof.
  intros Hs. pose proof (len_nonneg s). pose proof (len_nonneg r). unfold encodeStringLen.
  repeat case_match; bool_hyps; do 2 eexists; (split; [done|]).
  - destruct (fixed_string_code (len s)) as (E1 & E2 & E3 & E4 & E5 & E6); [lia|].
    unfold dispatch. rewrite E1, E2, E3, E4. split; [done|]. apply (read_string_body _ []).
    cbn [app]. unfold bytesLen. rewrite E5, E4, E6. apply fitting_ok; [lia|]. rewrite len_app. lia.
  - split; [done|]. apply read_string_body, (bytesLen_field 1 _ 1); [done|done|lia].
  - split; [done|]. apply read_string_body, (bytesLen_field 2 _ 2); [done|done|lia].
  - split; [done|]. apply read_string_body, (bytesLen_field 4 _ 4); [done|done|lia].
Qed.

Lemma dispatch_str loose dm da s r : len s < 2 ^ 32 ->
  andThen readCode (dispatch loose dm da) (EncodeString s ++ r) = Some (MStr s, r).
Proof.
  intros Hs. destruct (string_head loose dm da s r Hs) as (c & t & Hc & Hd & Hr).
  unfold EncodeString. rewrite Hc, <- app_assoc. unfold andThen. cbn [readCode app]. rewrite Hd. by apply pmap_Some.
Qed.

Lemma DecodeString_enc s r : len s < 2 ^ 32 -> DecodeString (EncodeString s ++ r) = Some (s, r).
Proof.
  intros Hs. destruct (string_head false (fun _ _ => None) (fun _ _ => None) s r Hs) as (c & t & Hc & _ & Hr).
  unfold EncodeString, DecodeString. rewrite Hc, <- app_assoc. unfold andThen at 1. cbn [readCode app]. done.
Qed.

Lemma dispatch_bin loose dm da s r : len s < 2 ^ 32 ->
  andThen readCode (dispatch loose dm da) (EncodeBytes s ++ r) = Some (if loose then MStr s else MBin s, r).
Proof.
  intros Hs. unfold EncodeBytes, EncodeBytesLen.
  assert (forall c t, dispatch loose dm da c
            = (if loose then pmap MStr (read_string c) else pmap MBin (read_bytes c)) ->
          bytesLen c (t ++ s ++ r) = Some (len s, s ++ r) ->
          dispatch loose dm da c (t ++ s ++ r) = Some (if loose then MStr s else MBin s, r)) as Hc.
  { intros c t -> Hl. destruct loose; apply pmap_Some; [by apply read_string_body|by apply read_bytes_body]. }
  repeat match goal with |- context [if ?a <? ?b then _ else _] => destruct (a <? b) eqn:?
                      | |- context [if ?a <=? ?b then _ else _] => destruct (a <=? b) eqn:? end; bool_hyps;
    unfold andThen at 1; cbn [readCode app]; rewrite <- ?app_assoc; (apply Hc; [done|]).
  - apply (bytesLen_field 1 _ 1); [done|done|lia].
  - apply (bytesLen_field 2 _ 2); [done|done|lia].
  - apply (bytesLen_field 4 _ 4); [done|done|lia].
Qed.

(** Every value takes at least a byte. *)
Lemma encode_pos v : 1 <= len (encode v).
Proof.
  assert (forall l r, 1 <= len (EncodeArrayLen l ++ r)) as Ha
    by (intros; unfold EncodeArrayLen; repeat case_match; rewrite len_app, len_cons;
        match goal with |- _ <= 1 + len ?t + len ?r => pose proof (len_nonneg t); pose proof (len_nonneg r) end; lia).
  assert (forall l r, 1 <= len (EncodeMapLen l ++ r)) as Hm
    by (intros; unfold EncodeMapLen; repeat case_match; rewrite len_app, len_cons;
        match goal with |- _ <= 1 + len ?t + len ?r => pose proof (len_nonneg t); pose proof (len_nonneg r) end; lia).
  destruct v; cbn [encode]; try done; try apply Ha; try apply Hm.
  - unfold EncodeInt, EncodeUint. repeat case_match; done.
  - unfold EncodeString, encodeStringLen. repeat case_match; cbn [app]; rewrite len_cons;
      match goal with |- _ <= 1 + len ?t => pose proof (len_nonneg t) end; lia.
  - unfold EncodeBytes, EncodeBytesLen. repeat case_match; cbn [app]; rewrite len_cons;
      match goal with |- _ <= 1 + len ?t => pose proof (len_nonneg t) end; lia.
  - unfold EncodeTime. cbv zeta. repeat case_match; done.
Qed.

Lemma len_concat_Forall {A} (f : A -> bytes) k l : Forall (fun x => k <= len (f x)) l -> len l * k <= len (concat (map f l)).
Proof.
  induction 1 as [|x l Hx _ IH]; [done|]. cbn [map concat]. rewrite len_cons, len_app. lia.
Qed.

Lemma concat_at_least {A} (f : A -> bytes) k l : (forall x, k <= len (f x)) -> len l * k <= len (concat (map f l)).
Proof. intros Hf. apply len_concat_Forall. by apply Forall_true. Qed.

Lemma to_nat_len {A} (l : list A) : Z.to_nat (len l) = length l.
Proof. apply Nat2Z.id. Qed.

Lemma entries_decoded {A} md (item : parser mval) (ek ev : A -> bytes) (vk vv : A -> mval) l r :
  0 < md -> len l <= msgpackMapMaxPairs ->
  (forall x, 1 <= len (ek x)) -> (forall x, 1 <= len (ev x)) ->
  Forall (fun x => comparable (vk x) = true
                   /\ (forall r, item (ek x ++ r) = Some (vk x, r)) /\ forall r, item (ev x ++ r) = Some (vv x, r)) l ->
  forall loose da, andThen readCode (dispatch loose (decodeMap md item) da)
    (EncodeMapLen (len l) ++ concat (map (fun x => ek x ++ ev x) l) ++ r)
  = Some (MMap (puts (map (fun x => (vk x, vv x)) l)), r).
Proof.
  intros Hmd Hl Hek Hev Hall loose da. pose proof (len_nonneg l). pose proof (len_nonneg r).
  assert (0 <= len l < 2 ^ 32) as Hl' by (unfold msgpackMapMaxPairs in Hl; lia).
  destruct (map_head loose (decodeMap md item) da (len l) (concat (map (fun x => ek x ++ ev x) l) ++ r) Hl')
    as (c & t & -> & Hd & Hlen).
  unfold andThen at 1. cbn [readCode app]. rewrite Hd. unfold decodeMap.
  rewrite (proj2 (Z.leb_gt md 0)) by lia. unfold andThen at 1. rewrite Hlen.
  2: { pose proof (concat_at_least (fun x => ek x ++ ev x) 2 l) as Hc. rewrite len_app.
       assert (len l * 2 <= len (concat (map (fun x => ek x ++ ev x) l))); [|lia].
       apply Hc. intros x. rewrite len_app. specialize (Hek x). specialize (Hev x). lia. }
  rewrite (proj2 (Z.eqb_neq (len l) (-1))), (proj2 (Z.ltb_ge msgpackMapMaxPairs (len l))) by lia.
  cbv zeta. apply (pmap_Some (fun l => MMap (puts l))). rewrite to_nat_len.
  apply (times_concat (fun x => (vk x, vv x)) (fun x => ek x ++ ev x)).
  eapply Forall_impl; [exact Hall|]. intros x (Hk & Hik & Hiv) r'. cbv beta. rewrite <- app_assoc.
  unfold andThen at 1. rewrite Hik, Hk. unfold andThen. by rewrite Hiv.
Qed.

Lemma view_comparable flag v : comparable v = true -> comparable (view flag false v) = true.
Proof. by destruct v. Qed.

Lemma EncodeInt_pos z : 1 <= len (EncodeInt z).
Proof. apply (encode_pos (MInt KI64 z)). Qed.

(** The decoder gives back what a reader sees of the value. *)
Lemma decode_encode flag custom v : forall fuel loose dd md r,
  custom || mapless v = true -> sendable dd md v = true -> 0 <= dd -> 0 <= md -> dd + md < Z.of_nat fuel ->
  decode flag custom fuel loose dd md (encode v ++ r) = Some (view flag loose v, r).
Proof.
  induction v as [|b|k z|z|z|s|b|s n|l IH|l IH|l IH] using mval_nested_ind;
    intros [|fuel] loose dd md r Hc Hs Hdd Hmd Hf; try lia; cbn [decode encode view sendable mapless] in *; cbv zeta; bool_hyps.
  - done.
  - by destruct b.
  - apply dispatch_int. lia.
  - apply (pmap_Some (fun b => if loose then MF64 (f32_to_f64 b) else MF32 b)), (read_uint_put_small 4); lia.
  - apply (pmap_Some MF64), (read_uint_put_small 8); lia.
  - apply dispatch_str. lia.
  - apply dispatch_bin. lia.
  - done.
  - set (dm := if custom then _ else _). destruct (array_head loose dm (decodeSlice dd (fun bs => decode flag custom fuel flag (dd - 1) md bs))
                (len l) (concat (map encode l) ++ r)) as (c & t & -> & Hd & Hlen); [pose proof (len_nonneg l); lia|].
    unfold andThen at 1. cbn [readCode app]. rewrite <- app_assoc, Hd. unfold decodeSlice. unfold andThen at 1. rewrite Hlen.
    2: { rewrite len_app. pose proof (concat_at_least encode 1 l encode_pos). pose proof (len_nonneg r). lia. }
    apply (pmap_Some MArr). rewrite to_nat_len. apply times_concat.
    apply Forall_forall. intros x Hx r'. rewrite Forall_forall in IH.
    match goal with H : _ || _ = true |- _ => apply orb_true_iff in H as [H|H]; bool_hyps end; [subst l; by apply not_elem_of_nil in Hx|].
    rewrite (proj2 (Z.leb_gt dd 0)) by lia. apply IH; [done| | |lia..].
    { destruct custom; [done|]. cbn in Hc |- *. rewrite forallb_forall in Hc. by apply Hc, list_elem_of_In. }
    match goal with H : forallb _ _ = true |- _ => rewrite forallb_forall in H; apply H, list_elem_of_In, Hx end.
  - rewrite orb_false_r in Hc. subst custom. rewrite <- app_assoc. apply (entries_decoded md _ (fun p => encode p.1) (fun p => encode p.2)
      (fun p => view flag false p.1) (fun p => view flag false p.2)); [lia|lia|intros; apply encode_pos..|].
    apply Forall_forall. intros p Hp. rewrite Forall_forall in IH. destruct (IH p Hp) as [IH1 IH2].
    match goal with H : forallb _ _ = true |- _ => rewrite forallb_forall in H; specialize (H p (proj1 (list_elem_of_In _ _) Hp)) end.
    bool_hyps. split; [by apply view_comparable|]. split; intros; [apply IH1|apply IH2]; (done || lia).
  - rewrite orb_false_r in Hc. subst custom. rewrite <- app_assoc. apply (entries_decoded md _ (fun p => EncodeInt (bZ p.1)) (fun p => encode p.2)
      (fun p => view_int false (bZ p.1)) (fun p => view flag false p.2));
      [lia|lia|intros; apply EncodeInt_pos|intros; apply encode_pos|].
    apply Forall_forall. intros p Hp. rewrite Forall_forall in IH.
    match goal with H : forallb _ _ = true |- _ => rewrite forallb_forall in H; specialize (H p (proj1 (list_elem_of_In _ _) Hp)) end.
    split; [done|]. split; intros; [|apply IH; (done || lia)].
    destruct fuel; [lia|]. cbn [decode]. apply dispatch_int. pose proof (bZ_range p.1). lia.
Qed.

(** A value that [DecodeInterface] takes at the top of a message. *)
Definition sendable_top (v : mval) : bool := sendable defaultDecodeDepthLimit msgpackMapMaxDepth v.

Lemma DecodeInterface_encode v r : sendable_top v = true -> DecodeInterface (encode v ++ r) = Some (view true false v, r).
Proof.
  intros H. apply decode_encode; [done|done|vm_compute; done..|]. unfold decode_fuel. rewrite Z2Nat.id; vm_compute; done.
Qed.

Lemma DecodeInterface_plain_encode v r : mapless v = true ->
  sendable_top v = true -> DecodeInterface_plain (encode v ++ r) = Some (view false false v, r).
Proof.
  intros Hm H. apply decode_encode; [done|done|vm_compute; done..|]. unfold decode_fuel. rewrite Z2Nat.id; vm_compute; done.
Qed.
