(* ===== verification/LxmfMessage.v ===== *)
(** * LXMF messages ([lxmf/message.go])

    A message is packed as destination, source, signature and a MessagePack array
    of timestamp, title, content, fields and, if it has one, stamp; the signature
    and the message id cover the array without the stamp.

    Go visits the entries of a map in no particular order.  Where the code
    encodes or walks a map, the definitions take the order as a function
    [order] on values, which is only known to permute the entries of the maps
    inside a value ([reorders]).  The signer, the identities of the senders and the
    stamp workblocks are parameters.  Slices that are nil and slices that are
    empty are told apart only where the encoding does (title and content). *)

From stdpp Require Import base tactics list gmap strings sorting.
From Stdlib Require Import ZArith Lia SpecFloat.
From S2P Require Import Prelude GoFloat Sha256 Msgpack MsgValue LxmfStamp.

(** ** Floats as bits *)

(** [float64(x)] of an integer. *)
Definition f64_bits_of_int (z : Z) : Z := bits_of_f64 (f_of_Z z).

(** [float64(time.Now().UnixNano()) / 1e9] *)
Definition seconds_of_nanos (ns : Z) : Z := bits_of_f64 (fdiv (f_of_Z ns) (f_of_Z 1000000000)).

Example float_bits : f64_bits_of_int 1 = 0x3ff0000000000000 /\ f64_bits_of_int (-2) = 0xc000000000000000
  /\ seconds_of_nanos 1500000000 = 0x3ff8000000000000 /\ bits_of_f64 (f64_of_bits 0x3ff8000000000000) = 0x3ff8000000000000.
Proof. vm_compute. done. Qed.

(** ** Constants *)

Definition DestinationLength : Z := 16.
Definition SignatureLength : Z := 64.
Definition TicketLength : Z := 16.
Definition TimestampSize : Z := 8.
Definition StructOverhead : Z := 8.

Definition MethodUnknown : Z := 0x00.
Definition MethodOpportunistic : Z := 0x01.
Definition MethodDirect : Z := 0x02.
Definition MethodPropagated : Z := 0x03.
Definition MethodPaper : Z := 0x05.

Definition StateGenerating : Z := 0x00.
Definition RepresentationUnknown : Z := 0x00.
Definition RepresentationPacket : Z := 0x01.
Definition RepresentationResource : Z := 0x02.
Definition UnverifiedSourceUnknown : Z := 0x01.
Definition UnverifiedSignatureInvalid : Z := 0x02.
Definition FieldTicket : byte := x0c.
Definition StampValueTicket : Z := 0x100.

Definition DestinationTypeSingle : Z := 0x00.
Definition DestinationTypeGroup : Z := 0x01.
Definition DestinationTypePlain : Z := 0x02.

Definition EncryptedPacketMaxContent : Z := 383 + TimestampSize - Overhead + DestinationLength.
Definition LinkPacketMaxContent : Z := 431 - Overhead.
Definition PlainPacketMaxContent : Z := 464 - Overhead + DestinationLength.
Definition PaperMDU : Z := ((2953 - len (lit "lxm://")) * 6) / 8.

Inductive lxmf_err :=
| ErrInvalidHashLength | ErrMessageTooShort | ErrInvalidPayload | ErrSignatureInvalid
| ErrNoSigner | ErrSign | ErrSignatureLength | ErrResolve | ErrNotPacked | ErrNoHash
| ErrMethod | ErrPaperSize | ErrEncrypt | ErrStampGeneration | ErrWorkblock.

#[export] Instance lxmf_err_eq_dec : EqDecision lxmf_err.
Proof. solve_decision. Defined.

(** ** Messages *)

(** [map[byte]any], in ascending order of the keys. *)
Abbreviation fields := (list (byte * mval)).

Record LXMessage := mkMsg {
  DestinationHash : bytes;
  SourceHash : bytes;
  Title : option bytes;
  Content : option bytes;
  Fields : option fields;
  Timestamp : Z;                 (** the bits of the float *)
  Stamp : bytes;
  Hash : bytes;
  Signature : bytes;
  Packed : bytes;
  State : Z;
  Method : Z;
  Representation : Z;
  Incoming : bool;
  SignatureValidated : bool;
  UnverifiedReason : Z;
  IncludeTicket : bool;
  OutboundTicket : bytes;
  StampCost : option Z;
  StampValue_ : Z;
  StampValid_ : bool;
  PropagationStamp : bytes;
  PropagationPacked : bytes;
  TransientID : bytes
}.

Definition Msg_eta (m : LXMessage) : LXMessage :=
  mkMsg (DestinationHash m) (SourceHash m) (Title m) (Content m) (Fields m) (Timestamp m) (Stamp m) (Hash m)
    (Signature m) (Packed m) (State m) (Method m) (Representation m) (Incoming m) (SignatureValidated m)
    (UnverifiedReason m) (IncludeTicket m) (OutboundTicket m) (StampCost m) (StampValue_ m) (StampValid_ m)
    (PropagationStamp m) (PropagationPacked m) (TransientID m).

Definition set_Title : option bytes -> LXMessage -> LXMessage := ltac:(field_setter Msg_eta Title).
Definition set_Content : option bytes -> LXMessage -> LXMessage := ltac:(field_setter Msg_eta Content).
Definition set_Fields : option fields -> LXMessage -> LXMessage := ltac:(field_setter Msg_eta Fields).
Definition set_Timestamp : Z -> LXMessage -> LXMessage := ltac:(field_setter Msg_eta Timestamp).
Definition set_Stamp : bytes -> LXMessage -> LXMessage := ltac:(field_setter Msg_eta Stamp).
Definition set_Hash : bytes -> LXMessage -> LXMessage := ltac:(field_setter Msg_eta Hash).
Definition set_Signature : bytes -> LXMessage -> LXMessage := ltac:(field_setter Msg_eta Signature).
Definition set_Packed : bytes -> LXMessage -> LXMessage := ltac:(field_setter Msg_eta Packed).
Definition set_Method : Z -> LXMessage -> LXMessage := ltac:(field_setter Msg_eta Method).
Definition set_Representation : Z -> LXMessage -> LXMessage := ltac:(field_setter Msg_eta Representation).
Definition set_SignatureValidated : bool -> LXMessage -> LXMessage := ltac:(field_setter Msg_eta SignatureValidated).
Definition set_UnverifiedReason : Z -> LXMessage -> LXMessage := ltac:(field_setter Msg_eta UnverifiedReason).
Definition set_StampCost : option Z -> LXMessage -> LXMessage := ltac:(field_setter Msg_eta StampCost).
Definition set_StampValue : Z -> LXMessage -> LXMessage := ltac:(field_setter Msg_eta StampValue_).
Definition set_StampValid : bool -> LXMessage -> LXMessage := ltac:(field_setter Msg_eta StampValid_).
Definition set_OutboundTicket : bytes -> LXMessage -> LXMessage := ltac:(field_setter Msg_eta OutboundTicket).
Definition set_PropagationStamp : bytes -> LXMessage -> LXMessage := ltac:(field_setter Msg_eta PropagationStamp).
Definition set_PropagationPacked : bytes -> LXMessage -> LXMessage := ltac:(field_setter Msg_eta PropagationPacked).
Definition set_TransientID : bytes -> LXMessage -> LXMessage := ltac:(field_setter Msg_eta TransientID).

(** [append([]byte(nil), b...)]: a copy of nothing is nil. *)
Definition clone (b : option bytes) : option bytes :=
  match b with Some (c :: r) => Some (c :: r) | _ => None end.

(** [out[k] = v] on a [map[byte]any]; the entries by ascending key. *)
Definition all_bytes : list byte := map Zb (seqZ 0 256).
Definition put_all (l : fields) : gmap byte mval := foldl (fun out p => <[p.1 := p.2]> out) ∅ l.
Definition ascending (m : gmap byte mval) : fields := omap (fun k => (fun v => (k, v)) <$> m !! k) all_bytes.

Definition NewMessage (destinationHash sourceHash : bytes) (title content : option bytes) (fs : option fields)
    : res lxmf_err LXMessage :=
  if negb (len destinationHash =? DestinationLength) then Err ErrInvalidHashLength
  else if negb (len sourceHash =? DestinationLength) then Err ErrInvalidHashLength
  else Ok (mkMsg destinationHash sourceHash (clone title) (clone content) (Some (default [] fs)) 0 [] [] [] []
             StateGenerating MethodUnknown RepresentationUnknown false false 0 false [] None 0 false [] [] []).

Definition SetTitle (t : bytes) (m : LXMessage) : LXMessage := set_Title (Some t) m.
Definition SetContent (t : bytes) (m : LXMessage) : LXMessage := set_Content (Some t) m.
Definition TitleString (m : LXMessage) : bytes := default [] (Title m).
Definition ContentString (m : LXMessage) : bytes := default [] (Content m).

Definition ContentSize (m : LXMessage) : res lxmf_err Z :=
  if len (Packed m) =? 0 then Err ErrNotPacked
  else
    let payloadLen := len (Packed m) - 2 * DestinationLength - SignatureLength in
    if payloadLen <=? TimestampSize + StructOverhead then Ok 0
    else Ok (payloadLen - TimestampSize - StructOverhead).

(** ** Fields *)

Definition field_lookup (k : byte) (l : fields) : option mval := put_all l !! k.

Definition GetField (k : byte) (m : LXMessage) : option mval :=
  match Fields m with None => None | Some l => field_lookup k l end.

Definition GetFieldString (k : byte) (m : LXMessage) : bytes :=
  match GetField k m with Some (MStr s) => s | Some (MBin b) => b | _ => [] end.

(** [nil] and the empty slice are not told apart. *)
Definition GetFieldBytes (k : byte) (m : LXMessage) : bytes :=
  match GetField k m with Some (MBin b) => b | Some (MStr s) => s | _ => [] end.

(** [asInt64] of helpers.go. *)
Definition asInt64 (v : mval) : option Z :=
  match v with
  | MInt KU64 z => if 2 ^ 63 - 1 <? z then None else Some z
  | MInt _ z => Some z
  | _ => None
  end.

Definition GetFieldInt (k : byte) (m : LXMessage) : Z := default 0 (GetField k m ≫= asInt64).

Definition GetFieldBool (k : byte) (m : LXMessage) : bool :=
  match GetField k m with Some (MBool b) => b | _ => false end.

Definition SetField (k : byte) (v : mval) (m : LXMessage) : LXMessage :=
  set_Fields (Some (ascending (<[k := v]> (put_all (default [] (Fields m)))))) m.

(** ** Choice of the delivery method *)

Definition MaxContentForMethod (method destinationType : Z) : option Z :=
  if method =? MethodOpportunistic then
    if destinationType =? DestinationTypeSingle then Some EncryptedPacketMaxContent
    else if destinationType =? DestinationTypePlain then Some PlainPacketMaxContent
    else Some EncryptedPacketMaxContent
  else if (method =? MethodDirect) || (method =? MethodPropagated) then Some LinkPacketMaxContent
  else if method =? MethodPaper then Some PaperMDU
  else None.

Definition ChooseDeliveryMethod (m : LXMessage) (desiredMethod destinationType : Z) : res lxmf_err (Z * Z) :=
  if len (Packed m) =? 0 then Err ErrNotPacked
  else
    let desiredMethod := if desiredMethod =? MethodUnknown then MethodDirect else desiredMethod in
    contentSize ← ContentSize m;
    if desiredMethod =? MethodOpportunistic then
      match MaxContentForMethod MethodOpportunistic destinationType with
      | None => Err ErrMethod
      | Some limit =>
          if limit <? contentSize then Ok (MethodDirect, RepresentationPacket)
          else Ok (MethodOpportunistic, RepresentationPacket)
      end
    else if (desiredMethod =? MethodDirect) || (desiredMethod =? MethodPropagated) then
      if contentSize <=? LinkPacketMaxContent then Ok (desiredMethod, RepresentationPacket)
      else Ok (desiredMethod, RepresentationResource)
    else if desiredMethod =? MethodPaper then
      if PaperMDU <? len (Packed m) then Err ErrPaperSize else Ok (MethodPaper, RepresentationUnknown)
    else Err ErrMethod.

Definition EncryptionDescriptionAES : bytes := lit "AES-128".
Definition EncryptionDescriptionEC : bytes := lit "Curve25519".
Definition EncryptionDescriptionUnencrypted : bytes := lit "Unencrypted".

Definition DetermineTransportEncryption (method destinationType : Z) : bool * bytes :=
  if (method =? MethodOpportunistic) || (method =? MethodPropagated) || (method =? MethodPaper) then
    if destinationType =? DestinationTypeSingle then (true, EncryptionDescriptionEC)
    else if destinationType =? DestinationTypeGroup then (true, EncryptionDescriptionAES)
    else (false, EncryptionDescriptionUnencrypted)
  else if method =? MethodDirect then (true, EncryptionDescriptionEC)
  else (false, EncryptionDescriptionUnencrypted).

(** ** Stamps and tickets *)

Definition truncatedHash (ticket messageID : bytes) : bytes := ztake DestinationLength (sha256 (ztake 48 (ticket ++ messageID))).

(** [workblock]: [StampWorkblock] on this machine.  The updated message and the
    verdict. *)
Definition ValidateStamp (workblock : bytes -> Z -> res stamp_error bytes) (targetCost : Z) (tickets : list bytes) (m : LXMessage)
    : LXMessage * res lxmf_err bool :=
  if len (Hash m) =? 0 then (m, Err ErrNoHash)
  else if (0 <? len tickets) && (0 <? len (Stamp m))
          && existsb (fun t => (len t =? TicketLength) && bool_decide (truncatedHash t (Hash m) = Stamp m)) tickets
  then (set_StampValid true (set_StampValue StampValueTicket m), Ok true)
  else if len (Stamp m) =? 0 then (set_StampValid false m, Ok false)
  else
    match workblock (Hash m) WorkblockExpandRounds with
    | Err _ => (m, Err ErrWorkblock)
    | Ok wb =>
        if negb (StampValid (Stamp m) targetCost wb) then (set_StampValid false m, Ok false)
        else (set_StampValid true (set_StampValue (StampValue wb (Stamp m)) m), Ok true)
    end.

(** ** Packing *)

Definition bytes_value (b : option bytes) : mval := match b with None => MNil | Some b => MBin b end.
Definition fields_value (f : option fields) : mval := match f with None => MNil | Some f => MFields f end.

Definition payloadList (includeStamp : bool) (m : LXMessage) : list mval :=
  [MF64 (Timestamp m); bytes_value (Title m); bytes_value (Content m); fields_value (Fields m)]
  ++ (if includeStamp && (0 <? len (Stamp m)) then [MBin (Stamp m)] else []).

Definition encodePayload (order : mval -> mval) (payload : list mval) : bytes := encode (MArr (map order payload)).

(** What is signed and hashed. *)
Definition hashed_part (dest source hashedPayload : bytes) : bytes := dest ++ source ++ hashedPayload.
Definition signed_part (dest source hashedPayload : bytes) : bytes :=
  hashed_part dest source hashedPayload ++ sha256 (hashed_part dest source hashedPayload).

(** [now]: the clock in nanoseconds; [order] and [order']: how the two encodings
    visit the maps. *)
Definition Pack (order order' : mval -> mval) (now : Z) (signer : option (bytes -> option bytes)) (m : LXMessage)
    : LXMessage * res lxmf_err bytes :=
  match signer with
  | None => (m, Err ErrNoSigner)
  | Some sign =>
    if negb (len (DestinationHash m) =? DestinationLength) then (m, Err ErrInvalidHashLength)
    else if negb (len (SourceHash m) =? DestinationLength) then (m, Err ErrInvalidHashLength)
    else
      let m := if f64_zero (Timestamp m) then set_Timestamp (seconds_of_nanos now) m else m in
      let hashedPayload := encodePayload order (payloadList false m) in
      let m := set_Hash (sha256 (hashed_part (DestinationHash m) (SourceHash m) hashedPayload)) m in
      match sign (signed_part (DestinationHash m) (SourceHash m) hashedPayload) with
      | None => (m, Err ErrSign)
      | Some signature =>
          if negb (len signature =? SignatureLength) then (m, Err ErrSignatureLength)
          else
            let m := set_SignatureValidated true (set_Signature signature m) in
            let packedPayload := if 0 <? len (Stamp m) then encodePayload order' (payloadList true m) else hashedPayload in
            let packed := DestinationHash m ++ SourceHash m ++ signature ++ packedPayload in
            (set_Packed packed m, Ok packed)
      end
  end.

(** [None]: a slice of a packed message shorter than its destination, which
    panics. *)
Definition EncryptedPayload (m : LXMessage) : option (res lxmf_err bytes) :=
  if len (Packed m) =? 0 then Some (Err ErrNotPacked)
  else if len (Packed m) <? DestinationLength then None
  else Some (Ok (zdrop DestinationLength (Packed m))).

(** The outer array of a propagated message. *)
Definition propagation_outer (now : Z) (messages : list bytes) : bytes :=
  encode (MArr [MF64 (seconds_of_nanos now); MArr (map MBin messages)]).

(** [encrypt]: the recipient's [Encrypt]; [generate]: [GenerateStamp] on the
    transient id within its time.  (A packed message is never shorter than its
    destination hash.) *)
Definition PackPropagated (encrypt : bytes -> option bytes) (generate : bytes -> Z -> Z -> res stamp_error (bytes * Z))
    (now : Z) (pnStampCost : Z) (m : LXMessage) : LXMessage * option lxmf_err :=
  if len (Packed m) =? 0 then (m, Some ErrNotPacked)
  else
    match encrypt (zdrop DestinationLength (Packed m)) with
    | None => (m, Some ErrEncrypt)
    | Some encrypted =>
        let lxmfData := ztake DestinationLength (Packed m) ++ encrypted in
        let m := set_TransientID (sha256 lxmfData) m in
        let finish m lxmfData :=
          let outer := propagation_outer now [lxmfData] in
          let m := set_Method MethodPropagated (set_PropagationPacked outer m) in
          (set_Representation (if LinkPacketMaxContent <? len outer then RepresentationResource else RepresentationPacket) m,
           None) in
        if 0 <? pnStampCost then
          match generate (TransientID m) pnStampCost WorkblockExpandRoundsPN with
          | Err _ => (m, Some ErrStampGeneration)
          | Ok (stamp, _) => finish (set_PropagationStamp stamp m) (lxmfData ++ stamp)
          end
        else finish m lxmfData
    end.

(** ** Unpacking *)

Definition asBytes (v : mval) : option (option bytes) :=
  match v with
  | MNil => Some None
  | MBin b => Some (clone (Some b))
  | MStr s => Some (Some s)
  | _ => None
  end.

Definition hex_digit (c : byte) : option Z :=
  let c := bZ c in
  if (0x30 <=? c) && (c <=? 0x39) then Some (c - 0x30)
  else if (0x61 <=? c) && (c <=? 0x66) then Some (c - 0x61 + 10)
  else if (0x41 <=? c) && (c <=? 0x46) then Some (c - 0x41 + 10)
  else None.

Definition parseHexByte (s : bytes) : option byte :=
  if len s =? 0 then None
  else Zb <$> foldl (fun n c => n ← n; d ← hex_digit c; Some (Z.lor (u8 (Z.shiftl n 4)) d)) (Some 0) s.

Definition fieldKeyFromString (s : bytes) : option byte :=
  match s with
  | [c] => Some c
  | x30 :: c :: d :: r => if bool_decide (c = x78) || bool_decide (c = x58) then parseHexByte (d :: r) else None
  | _ => None
  end.

Definition asByteKey (v : mval) : option byte :=
  match v with
  | MInt KI8 z => if z <? 0 then None else Some (Zb z)
  | MInt _ z => if (z <? 0) || (0xff <? z) then None else Some (Zb z)
  | MStr s => fieldKeyFromString s
  | _ => None
  end.

(** [normalizeFieldValue]; on a map it is [asFields].  The result of a loop over a
    map depends on the order of the entries, that of the list. *)
Fixpoint normalizeFieldValue (v : mval) : option mval :=
  match v with
  | MMap l =>
      (fun out => MFields (ascending (put_all out)))
      <$> mapM (fun p => k ← asByteKey p.1; x ← normalizeFieldValue p.2; Some (k, x)) l
  | MFields l =>
      (fun out => MFields (ascending (put_all out)))
      <$> mapM (fun p => x ← normalizeFieldValue p.2; Some (p.1, x)) l
  | MArr l => MArr <$> mapM normalizeFieldValue l
  | v => Some v
  end.

Definition asFields (v : mval) : option fields :=
  match v with
  | MNil => Some []
  | MMap l =>
      (fun out => ascending (put_all out))
      <$> mapM (fun p => k ← asByteKey p.1; x ← normalizeFieldValue p.2; Some (k, x)) l
  | _ => None
  end.

Definition asTimestamp (v : mval) : option Z :=
  match v with
  | MF64 b => Some b
  | MF32 b => Some (f32_to_f64 b)
  | MInt _ z => Some (f64_bits_of_int z)
  | _ => None
  end.

(** [order]: how the fields are walked. *)
Definition applyPayload (order : mval -> mval) (payload : list mval) (m : LXMessage) : option LXMessage :=
  match payload with
  | ts :: t :: c :: f :: rest =>
      ts ← asTimestamp ts;
      t ← asBytes t;
      c ← asBytes c;
      f ← asFields (order f);
      let m := set_Fields (Some f) (set_Content c (set_Title t (set_Timestamp ts m))) in
      match rest with
      | [] => Some m
      | s :: _ => s ← asBytes s; Some (set_Stamp (default [] s) m)
      end
  | _ => None
  end.

Definition decodePayloadAndSplit (data : bytes) : option (list mval * bytes) :=
  '(arrLen, body) ← DecodeArrayLen data;
  if (arrLen <? 4) || (15 <? arrLen) then None
  else
    '(four, r) ← times 4 DecodeInterface body;
    let hashed := if arrLen =? 4 then data else x94 :: ztake (len body - len r) body in
    '(more, r) ← times (Z.to_nat (arrLen - 4)) DecodeInterface r;
    if negb (len r =? 0) then None
    else if negb (arrLen =? 4) && negb (arrLen =? 5) then None
    else Some (four ++ more, hashed).

(** What a resolver answers about a source. *)
Inductive resolution :=
| Failed
| Unknown
| Known (verify : bytes -> bytes -> bool).

(** The message, if there is one, and the error: an invalid signature has
    both. *)
Definition UnpackFromBytes (order : mval -> mval) (resolver : option (bytes -> resolution)) (destinationHash inner : bytes)
    : option LXMessage * option lxmf_err :=
  if negb (len destinationHash =? DestinationLength) then (None, Some ErrInvalidHashLength)
  else if len inner <? DestinationLength + SignatureLength then (None, Some ErrMessageTooShort)
  else
    let source := ztake DestinationLength inner in
    let signature := ztake SignatureLength (zdrop DestinationLength inner) in
    let packedPayload := zdrop (DestinationLength + SignatureLength) inner in
    match decodePayloadAndSplit packedPayload with
    | None => (None, Some ErrInvalidPayload)
    | Some (payload, hashedPayload) =>
        let m := mkMsg destinationHash source None None None 0 [] [] signature [] StateGenerating MethodUnknown
                   RepresentationUnknown true false 0 false [] None 0 false [] [] [] in
        match applyPayload order payload m with
        | None => (None, Some ErrInvalidPayload)
        | Some m =>
            let m := set_Hash (sha256 (hashed_part destinationHash source hashedPayload)) m in
            let m := set_Packed (destinationHash ++ source ++ signature ++ packedPayload) m in
            match resolver with
            | None => (Some (set_UnverifiedReason UnverifiedSourceUnknown m), None)
            | Some resolve =>
                match resolve source with
                | Failed => (None, Some ErrResolve)
                | Unknown => (Some (set_UnverifiedReason UnverifiedSourceUnknown m), None)
                | Known verify =>
                    if negb (verify (signed_part destinationHash source hashedPayload) signature)
                    then (Some (set_UnverifiedReason UnverifiedSignatureInvalid m), Some ErrSignatureInvalid)
                    else (Some (set_SignatureValidated true m), None)
                end
            end
        end
    end.

Definition Unpack (order : mval -> mval) (resolver : option (bytes -> resolution)) (data : bytes)
    : option LXMessage * option lxmf_err :=
  if len data <? 2 * DestinationLength + SignatureLength then (None, Some ErrMessageTooShort)
  else UnpackFromBytes order resolver (ztake DestinationLength data) (zdrop DestinationLength data).

(** ** Orders of maps *)

(** [w] is [v] with the entries of its maps in some order. *)
Inductive reorders : mval -> mval -> Prop :=
| ro_scalar v : match v with MArr _ | MMap _ | MFields _ => False | _ => True end -> reorders v v
| ro_arr l l' : Forall2 reorders l l' -> reorders (MArr l) (MArr l')
| ro_map l l' l'' : Forall2 (fun p q => reorders p.1 q.1 /\ reorders p.2 q.2) l l' -> l' ≡ₚ l'' ->
    reorders (MMap l) (MMap l'')
| ro_fields l l' l'' : Forall2 (fun p q => p.1 = q.1 /\ reorders p.2 q.2) l l' -> l' ≡ₚ l'' ->
    reorders (MFields l) (MFields l'').

Fixpoint ascends (l : list byte) : bool :=
  match l with
  | k :: (k' :: _) as r => (bZ k <? bZ k') && ascends r
  | _ => true
  end.

(** Values made of scalars, arrays and maps keyed by bytes, in the
    representation of [MFields]. *)
Fixpoint plain (v : mval) : bool :=
  match v with
  | MMap _ => false
  | MArr l => forallb plain l
  | MFields l => ascends l.*1 && forallb (fun p => plain p.2) l
  | _ => true
  end.

(** What the receiver's message holds of a field value: integers in the narrowest
    type, byte strings inside arrays as text. *)
Fixpoint received (loose : bool) (v : mval) : mval :=
  match v with
  | MInt _ z => view_int loose z
  | MF32 b => if loose then MF64 (f32_to_f64 b) else MF32 b
  | MBin b => if loose then MStr b else MBin b
  | MArr l => MArr (map (received true) l)
  | MFields l => MFields (map (fun p => (p.1, received false p.2)) l)
  | v => v
  end.

(** ** Maps keyed by bytes *)

Definition below_key {A} (p q : byte * A) : Prop := bZ p.1 < bZ q.1.

Lemma ascends_sorted l : ascends l = true -> StronglySorted (fun k k' => bZ k < bZ k') l.
Proof.
  intros H. apply Sorted_StronglySorted; [intros ???; lia|].
  induction l as [|k l IH]; constructor; destruct l as [|k' l]; cbn [ascends] in H; bool_hyps; auto.
Qed.

Lemma all_bytes_sorted : StronglySorted (fun k k' => bZ k < bZ k') all_bytes.
Proof. apply ascends_sorted. vm_compute. done. Qed.

Lemma all_bytes_all k : k ∈ all_bytes.
Proof.
  unfold all_bytes. apply list_elem_of_fmap. exists (bZ k). rewrite Zb_bZ. split; [done|].
  apply elem_of_seqZ. pose proof (bZ_range k). lia.
Qed.

Lemma sorted_keys {A} (l : list (byte * A)) :
  StronglySorted (fun k k' => bZ k < bZ k') l.*1 -> StronglySorted below_key l.
Proof.
  induction l as [|p l IH]; [constructor|]. cbn. inversion_clear 1 as [|?? Hs Hf]. constructor; [auto|].
  rewrite Forall_fmap in Hf. done.
Qed.

Lemma sorted_NoDup {A} (l : list (byte * A)) : StronglySorted below_key l -> NoDup l.*1.
Proof.
  induction 1 as [|p l Hs IH Hf]; cbn; constructor; [|done].
  intros Hin. apply list_elem_of_fmap in Hin as (q & Hq & Hin). rewrite Forall_forall in Hf.
  specialize (Hf q Hin). unfold below_key in Hf. rewrite Hq in Hf. lia.
Qed.

Lemma put_all_elem l k v : NoDup l.*1 -> put_all l !! k = Some v <-> (k, v) ∈ l.
Proof.
  induction l as [|[k' v'] l IH] using rev_ind; intros Hn; [split; [done|by intros ?%not_elem_of_nil]|].
  unfold put_all in *. rewrite foldl_app. cbn [foldl]. rewrite fmap_app in Hn. apply NoDup_app in Hn as (Hn & Hd & _).
  rewrite elem_of_app, list_elem_of_singleton, lookup_insert. cbn [fst snd]. specialize (IH Hn). case_decide as E.
  - subst k'. split; [intros [= ->]; by right|]. intros [Hin|[= ->]]; [|done].
    destruct (Hd k); [apply list_elem_of_fmap; by exists (k, v)|]. cbn. apply list_elem_of_here.
  - rewrite IH. split; [by left|]. intros [?|[= -> ->]]; [done|]. by destruct E.
Qed.

Lemma ascending_elem m k v : (k, v) ∈ ascending m <-> m !! k = Some v.
Proof.
  unfold ascending. rewrite list_elem_of_omap. split.
  - intros (k' & _ & H). destruct (m !! k') as [v'|] eqn:E; [|done]. cbn in H. by injection H as -> ->.
  - intros H. exists k. split; [apply all_bytes_all|]. by rewrite H.
Qed.

Lemma ascending_sorted m : StronglySorted below_key (ascending m).
Proof.
  unfold ascending. generalize all_bytes_sorted. generalize all_bytes as ks.
  induction ks as [|k ks IH]; [constructor|]. inversion_clear 1 as [|?? Hs Hf]. cbn.
  destruct (m !! k) as [v|] eqn:E; cbn; [|by apply IH]. constructor; [by apply IH|].
  apply Forall_forall. intros [k' v'] Hin. apply list_elem_of_omap in Hin as (k'' & Hk & Hin).
  destruct (m !! k''); [|done]. cbn in Hin. injection Hin as -> ->. rewrite Forall_forall in Hf. by apply Hf.
Qed.

(** Filling a map in any order gives the same entries. *)
Lemma ascending_put_all (l l' : fields) : ascends l.*1 = true -> l' ≡ₚ l -> ascending (put_all l') = l.
Proof.
  intros Hl Hp. pose proof (sorted_keys _ (ascends_sorted _ Hl)) as Hs. pose proof (sorted_NoDup _ Hs) as Hn.
  assert (NoDup l'.*1) as Hn' by (by rewrite Hp).
  apply (StronglySorted_unique_strong below_key); [unfold below_key; lia|apply ascending_sorted|done|].
  apply NoDup_Permutation.
  - apply NoDup_fmap_1 with (f := fst), sorted_NoDup, ascending_sorted.
  - by apply NoDup_fmap_1 in Hn.
  - intros [k v]. rewrite ascending_elem, put_all_elem by done. by rewrite Hp.
Qed.

(** ** The fields at the receiver *)

Lemma shuffle_compose {A B C D} (R : A -> B -> Prop) (g : B -> C) (S : C -> D -> Prop) l l1 l1' l2 l2' :
  Forall2 R l l1 -> l1 ≡ₚ l1' -> Forall2 S (map g l1') l2 -> l2 ≡ₚ l2' ->
  exists l5, l ≡ₚ l5 /\ Forall2 (fun p q => exists r, R p r /\ S (g r) q) l5 l2'.
Proof.
  intros HR Hp HS Hp'. apply Forall2_flip in HS.
  destruct (Permutation_Forall2 Hp' HS) as (l3 & Hl3 & HS3).
  symmetry in Hl3. destruct (Permutation_map_inv g _ Hl3) as (l4 & -> & Hl4).
  apply Forall2_flip in HR. rewrite Hl4 in Hp.
  destruct (Permutation_Forall2 Hp HR) as (l5 & Hl5 & HR5).
  exists l5. split; [done|]. apply Forall2_flip in HS3. apply Forall2_fmap_l in HS3. apply Forall2_flip in HR5.
  clear -HR5 HS3. revert l2' HS3. induction HR5; inversion 1; subst; constructor; eauto.
Qed.

Lemma map_put_fresh k v l : Forall (fun p => key_eqb p.1 k = false) l -> map_put k v l = l ++ [(k, v)].
Proof. induction 1 as [|[k' v'] l H _ IH]; [done|]. cbn in *. by rewrite H, IH. Qed.

Lemma puts_distinct {A} (kf vf : A -> mval) l :
  (forall x y, key_eqb (kf x) (kf y) = true -> kf x = kf y) -> NoDup (map kf l) ->
  puts (map (fun x => (kf x, vf x)) l) = map (fun x => (kf x, vf x)) l.
Proof.
  intros Hk. unfold puts. induction l as [|x l IH] using rev_ind; [done|].
  rewrite !map_app. intros Hn. apply NoDup_app in Hn as (Hn & Hd & _). rewrite foldl_app, IH by done.
  cbn [foldl map fst snd]. apply map_put_fresh. apply Forall_forall. intros p Hp.
  apply list_elem_of_fmap in Hp as (y & -> & Hy). cbn.
  destruct (key_eqb _ _) eqn:E; [|done]. apply Hk in E. exfalso. apply (Hd (kf y)).
  - apply list_elem_of_fmap. eauto.
  - rewrite E. cbn. apply list_elem_of_here.
Qed.

Lemma key_int_eqb x y : key_eqb (view_int false x) (view_int false y) = true -> x = y.
Proof. unfold view_int, key_eqb. intros H. bool_hyps. lia. Qed.

Lemma asByteKey_view k : asByteKey (view_int false (bZ k)) = Some k.
Proof.
  pose proof (bZ_range k). unfold view_int, int_kind. rewrite (proj2 (Z.leb_le 0 (bZ k))) by lia.
  destruct (bZ k <=? 127) eqn:E; bool_hyps; cbn.
  - rewrite (proj2 (Z.ltb_ge (bZ k) 0)) by lia. by rewrite Zb_bZ.
  - rewrite (proj2 (Z.leb_le (bZ k) 255)), (proj2 (Z.ltb_ge (bZ k) 0)), (proj2 (Z.ltb_ge 255 (bZ k))) by lia. cbn. by rewrite Zb_bZ.
Qed.

Lemma reorders_scalar_inv v w : match v with MArr _ | MMap _ | MFields _ => False | _ => True end ->
  reorders v w -> w = v.
Proof. intros Hs H. by inversion H; subst. Qed.

(** The entries of a map keyed by bytes, encoded in one order and walked in
    another. *)
Lemma entries_received (l : fields) w w2 :
  ascends l.*1 = true -> reorders (MFields l) w -> reorders (view true false w) w2 ->
  exists l' l2, w2 = MMap l2 /\ l' ≡ₚ l
    /\ Forall2 (fun p q => q.1 = view_int false (bZ p.1)
                           /\ exists x, reorders p.2 x /\ reorders (view true false x) q.2) l' l2.
Proof.
  intros Ha H1 H2. inversion H1 as [v Hv|?|?|? l1 l1' HR Hp]; subst; [done|]. cbn [view] in H2.
  assert (NoDup (map fst l1')) as Hn.
  { rewrite <- Hp. replace (map fst l1) with (map fst l); [apply sorted_NoDup, sorted_keys, ascends_sorted, Ha|].
    clear -HR. induction HR as [|??? ? [E _] _ IH]; [done|]. cbn. by rewrite E, IH. }
  rewrite (puts_distinct (fun p : byte * mval => view_int false (bZ p.1)) (fun p => view true false p.2)) in H2.
  2: { intros x y E. f_equal. by apply key_int_eqb. }
  2: { change (NoDup (map (fun p : byte * mval => (fun k => view_int false (bZ k)) p.1) l1')). rewrite <- map_map.
       apply NoDup_fmap_2; [|done]. intros x y [= _ E]. by apply bZ_inj. }
  inversion H2 as [v Hv|?|? l2 l2' HS Hp2|?]; subst; [done|].
  destruct (shuffle_compose _ _ _ _ _ _ _ _ HR Hp HS Hp2) as (l5 & Hl5 & HF).
  exists l5, l2'. split; [done|]. split; [by symmetry|].
  eapply Forall2_impl; [exact HF|]. intros p q (r & (E & Hr) & Hk & Hx). cbn in *. rewrite E.
  split; [by apply reorders_scalar_inv in Hk|eauto].
Qed.

Lemma mapM_Forall2 {A B C} (f : B -> option C) (g : A -> C) (l : list A) k :
  Forall2 (fun a b => f b = Some (g a)) l k -> mapM f k = Some (map g l).
Proof. induction 1 as [|a b l k H _ IH]; [done|]. cbn. rewrite H. cbn. by rewrite IH. Qed.

Lemma entries_normalized (l : fields) w w2 :
  ascends l.*1 = true -> reorders (MFields l) w -> reorders (view true false w) w2 ->
  Forall (fun p => forall x y, reorders p.2 x -> reorders (view true false x) y ->
                               normalizeFieldValue y = Some (received false p.2)) l ->
  asFields w2 = Some (map (fun p => (p.1, received false p.2)) l).
Proof.
  intros Ha H1 H2 IH. destruct (entries_received _ _ _ Ha H1 H2) as (l' & l2 & -> & Hp & HF). cbn [asFields].
  rewrite (mapM_Forall2 _ (fun p : byte * mval => (p.1, received false p.2)) l').
  - cbn. f_equal. apply ascending_put_all; [|by rewrite Hp].
    rewrite <- Ha. f_equal. unfold fmap. change list_fmap with map. by rewrite map_map.
  - rewrite <- Hp in IH. clear -HF IH. induction HF as [|p q l l2 (Hk & x & Hx & Hy) HF IHF]; constructor.
    + inversion_clear IH as [|?? Hh _]. rewrite Hk, asByteKey_view. cbn. by rewrite (Hh x q.2) by done.
    + inversion_clear IH. auto.
Qed.

Lemma normalize_received v : forall loose w w2, plain v = true -> reorders v w -> reorders (view true loose w) w2 ->
  normalizeFieldValue w2 = Some (received loose v).
Proof.
  induction v as [|b|k z|z|z|s|b|s n|l IH|l IH|l IH] using mval_nested_ind; intros loose w w2 Hpl H1 H2.
  1-8: apply reorders_scalar_inv in H1; [|done]; subst w; cbn [view] in H2;
       (apply reorders_scalar_inv in H2; [|by destruct loose]); subst w2; by destruct loose.
  - inversion H1 as [v Hv|? l1 HR|?|?]; subst; [done|]. cbn [view] in H2.
    inversion H2 as [v Hv|? l2 HS|?|?]; subst; [done|]. cbn [normalizeFieldValue received].
    rewrite (mapM_Forall2 _ (received true) l); [done|]. cbn [plain] in Hpl. clear H1 H2.
    apply Forall2_fmap_l in HS. revert l2 HS. induction HR as [|x y l l1 Hxy HR IHR]; inversion 1 as [|? z ? l2' Hyz HS']; subst; constructor.
    + cbn in Hpl. bool_hyps. inversion_clear IH as [|?? Hh _]. by apply (Hh true y).
    + cbn in Hpl. bool_hyps. inversion_clear IH. auto.
  - done.
  - cbn [plain] in Hpl. bool_hyps.
    assert (asFields w2 = Some (map (fun p => (p.1, received false p.2)) l)) as E.
    { assert (reorders (view true false w) w2) as H2'.
      { inversion H1; subst; [done|]. exact H2. }
      apply (entries_normalized l w); [done..|]. apply Forall_forall. intros p Hp x y Hx Hy.
      rewrite Forall_forall in IH. apply (IH p Hp false x); [|done..].
      match goal with H : forallb _ _ = true |- _ => rewrite forallb_forall in H; by apply H, list_elem_of_In end. }
    assert (exists l2, w2 = MMap l2) as [l2 ->].
    { inversion H1; subst; [done|]. cbn [view] in H2. inversion H2; subst; [done|eauto]. }
    cbn [normalizeFieldValue received]. cbn [asFields] in E.
    destruct (mapM _ l2) as [out|]; [|done]. cbn in *. by injection E as ->.
Qed.

(** ** Reading a packed payload *)

Lemma reorders_refl v : reorders v v.
Proof.
  induction v as [| | | | | | | |l IH|l IH|l IH] using mval_nested_ind; try by constructor.
  - apply ro_arr. by apply Forall_Forall2_diag.
  - apply (ro_map _ l); [by apply Forall_Forall2_diag|done].
  - apply (ro_fields _ l); [|done]. apply Forall_Forall2_diag. eapply Forall_impl; [exact IH|done].
Qed.

Lemma forallb_perm {A} (f : A -> bool) l l' : l ≡ₚ l' -> forallb f l = forallb f l'.
Proof. induction 1 as [|x l l' _ IH|x y l|l l' l'' _ IH1 _ IH2]; cbn; [done|by rewrite IH|by destruct (f x), (f y)|congruence]. Qed.

Lemma len_perm {A} (l l' : list A) : l ≡ₚ l' -> len l = len l'.
Proof. intros H. unfold len. by rewrite H. Qed.

Lemma Forall2_forallb {A} (R : A -> A -> Prop) (f : A -> bool) l l' :
  Forall2 R l l' -> Forall (fun x => forall y, R x y -> f x = true -> f y = true) l ->
  forallb f l = true -> forallb f l' = true.
Proof.
  induction 1 as [|x y l l' Hxy _ IH]; [done|]. inversion_clear 1 as [|?? Hx Hl]. cbn. intros H. bool_hyps.
  rewrite (Hx y) by done. by apply IH.
Qed.

(** The order of the entries does not matter to the decoder's limits. *)
Lemma sendable_reorders v : forall dd md w, plain v = true -> reorders v w -> sendable dd md v = true -> sendable dd md w = true.
Proof.
  induction v as [| | | | | | | |l IH|l IH|l IH] using mval_nested_ind; intros dd md w Hpl Hr Hs.
  1-8: by apply reorders_scalar_inv in Hr as ->.
  - inversion Hr as [v Hv|? l1 HR|?|?]; subst; [done|]. cbn [plain sendable] in *. bool_hyps.
    pose proof (Forall2_length _ _ _ HR) as HL. unfold len in *. rewrite <- HL.
    repeat (apply andb_true_iff; split); [by apply Z.ltb_lt| |].
    + match goal with H : _ || _ = true |- _ => apply orb_true_iff in H as [H|H]; bool_hyps end.
      * subst l. inversion HR; subst. done.
      * apply orb_true_iff. right. by apply Z.ltb_lt.
    + eapply (Forall2_forallb _ _ _ _ HR); [|done]. apply Forall_forall. intros x Hx y Hxy Hsx.
      rewrite Forall_forall in IH. apply (IH x Hx _ _ y); [|done..].
      match goal with H : forallb plain _ = true |- _ => rewrite forallb_forall in H; by apply H, list_elem_of_In end.
  - done.
  - inversion Hr as [v Hv|?|?|? l1 l1' HR Hp]; subst; [done|]. cbn [plain sendable] in *. bool_hyps.
    rewrite <- (len_perm _ _ Hp), <- (forallb_perm _ _ _ Hp).
    pose proof (Forall2_length _ _ _ HR) as HL. unfold len in *. rewrite <- HL.
    repeat (apply andb_true_iff; split); [by apply Z.leb_le|by apply Z.ltb_lt|].
    eapply (Forall2_forallb _ _ _ _ HR); [|done]. apply Forall_forall. intros x Hx y [_ Hxy] Hsx.
    rewrite Forall_forall in IH. apply (IH x Hx _ _ y.2); [|done..].
    match goal with H : forallb (fun p => plain p.2) _ = true |- _ => rewrite forallb_forall in H; by apply H, list_elem_of_In end.
Qed.

#[local] Opaque DecodeInterface.

Lemma times_values vs r : forallb sendable_top vs = true ->
  times (length vs) DecodeInterface (concat (map encode vs) ++ r) = Some (map (view true false) vs, r).
Proof.
  intros H. apply times_concat. apply Forall_forall. intros v Hv r'. apply DecodeInterface_encode.
  rewrite forallb_forall in H. by apply H, list_elem_of_In.
Qed.

(** What is hashed is the encoding of the first four elements. *)
Lemma split_payload vs extra : length vs = 4%nat -> (length extra <= 1)%nat -> forallb sendable_top (vs ++ extra) = true ->
  decodePayloadAndSplit (encode (MArr (vs ++ extra))) = Some (map (view true false) (vs ++ extra), encode (MArr vs)).
Proof.
  intros Hv He Hs. rewrite forallb_app in Hs. bool_hyps. unfold decodePayloadAndSplit. cbn [encode].
  assert (len (vs ++ extra) = 4 + len extra) as HL by (rewrite len_app; unfold len; lia).
  assert (0 <= len extra <= 1) as HE by (unfold len; lia).
  rewrite HL, DecodeArrayLen_enc.
  2: lia.
  2: { pose proof (concat_at_least encode 1 (vs ++ extra) encode_pos). lia. }
  cbn [mbind option_bind]. rewrite (proj2 (Z.ltb_ge (4 + len extra) 4)), (proj2 (Z.ltb_ge 15 (4 + len extra))) by lia.
  cbn [orb]. rewrite map_app, concat_app, <- Hv, times_values by done. cbn [mbind option_bind].
  replace (Z.to_nat (4 + len extra - 4)) with (length extra) by (unfold len; lia).
  rewrite <- (app_nil_r (concat (map encode extra))), times_values by done. cbn [mbind option_bind]. cbn [len length Z.of_nat Z.eqb negb].
  rewrite <- map_app, !app_nil_r.
  assert (len vs = 4) as HV by (unfold len; lia). rewrite HV.
  destruct extra as [|s [|]]; [|  |cbn in He; lia].
  - rewrite len_nil. cbn. by rewrite !app_nil_r.
  - rewrite len_cons, len_nil. cbn [Z.add Z.eqb negb andb]. do 3 f_equal.
    rewrite len_app. replace (_ + _ - _) with (len (concat (map encode vs))) by lia. by rewrite ztake_app.
Qed.

(** ** Packing and unpacking *)

(** The message once [Pack] has given it its time. *)
Definition timed (now : Z) (m : LXMessage) : LXMessage :=
  if f64_zero (Timestamp m) then set_Timestamp (seconds_of_nanos now) m else m.

(** A message the receiver can decode: hashes and lengths in range, fields within
    the decoder's limits. *)
Definition packable (now : Z) (m : LXMessage) : bool :=
  (len (DestinationHash m) =? DestinationLength) && (len (SourceHash m) =? DestinationLength)
  && (0 <=? Timestamp (timed now m)) && (Timestamp (timed now m) <? 2 ^ 64)
  && (len (default [] (Title m)) <? 2 ^ 32) && (len (default [] (Content m)) <? 2 ^ 32) && (len (Stamp m) <? 2 ^ 32)
  && plain (fields_value (Fields m)) && sendable_top (fields_value (Fields m)).

Definition received_fields (f : option fields) : fields := map (fun p => (p.1, received false p.2)) (default [] f).

(** The message the receiver makes of [m], signed over [hashed]. *)
Definition unpacked (m : LXMessage) (hashed signature packed : bytes) : LXMessage :=
  mkMsg (DestinationHash m) (SourceHash m) (clone (Title m)) (clone (Content m)) (Some (received_fields (Fields m)))
    (Timestamp m) (Stamp m) (sha256 (hashed_part (DestinationHash m) (SourceHash m) hashed)) signature packed
    StateGenerating MethodUnknown RepresentationUnknown true false 0 false [] None 0 false [] [] [].

Lemma asFields_received order order2 m now :
  (forall v, reorders v (order v)) -> (forall v, reorders v (order2 v)) -> packable now m = true ->
  asFields (order2 (view true false (order (fields_value (Fields m))))) = Some (received_fields (Fields m)).
Proof.
  intros Ho Ho2 Hp. unfold packable in Hp. bool_hyps. unfold received_fields. destruct (Fields m) as [l|]; cbn [fields_value default] in *.
  - cbn [plain] in *. bool_hyps. apply (entries_normalized l (order (MFields l))); [done|done|done|].
    apply Forall_forall. intros p Hin x y Hx Hy. apply (normalize_received p.2 false x); [|done..].
    match goal with H : forallb _ l = true |- _ => rewrite forallb_forall in H; by apply H, list_elem_of_In end.
  - rewrite (reorders_scalar_inv MNil (order MNil)) by done. cbn [view]. by rewrite (reorders_scalar_inv MNil (order2 MNil)).
Qed.

Lemma bytes_value_scalar order b : (forall v, reorders v (order v)) -> order (bytes_value b) = bytes_value b.
Proof. intros H. apply reorders_scalar_inv; [by destruct b|done]. Qed.

Lemma asBytes_view b : asBytes (view true false (bytes_value b)) = Some (clone b).
Proof. by destruct b as [[|]|]. Qed.

Lemma bytes_value_sendable b : len (default [] b) < 2 ^ 32 -> sendable_top (bytes_value b) = true.
Proof. intros H. destruct b; [|done]. by apply Z.ltb_lt. Qed.

Lemma fresh_message dest source sig ts t c f st h p :
  set_Packed p (set_Hash h (set_Stamp st (set_Fields f (set_Content c (set_Title t (set_Timestamp ts
    (mkMsg dest source None None None 0 [] [] sig [] StateGenerating MethodUnknown RepresentationUnknown true false 0 false []
       None 0 false [] [] [])))))))
  = mkMsg dest source t c f ts st h sig p StateGenerating MethodUnknown RepresentationUnknown true false 0 false []
      None 0 false [] [] [].
Proof. reflexivity. Qed.

Section packed.
Context (order order' order2 : mval -> mval) (now : Z) (m : LXMessage).
Context (Ho : forall v, reorders v (order v)) (Ho' : forall v, reorders v (order' v)) (Ho2 : forall v, reorders v (order2 v)).
Context (Hm : packable now m = true).

(** The order of the encoding that is sent. *)
Definition sent_order : mval -> mval := if 0 <? len (Stamp m) then order' else order.

Definition sent_payload : bytes := encodePayload sent_order (payloadList true (timed now m)).
Definition hashed_payload : bytes := encodePayload sent_order (payloadList false (timed now m)).

Lemma sent_order_ok v : reorders v (sent_order v).
Proof. unfold sent_order. destruct (_ <? _); auto. Qed.

Lemma timed_same : Title (timed now m) = Title m /\ Content (timed now m) = Content m /\ Fields (timed now m) = Fields m
  /\ Stamp (timed now m) = Stamp m /\ DestinationHash (timed now m) = DestinationHash m /\ SourceHash (timed now m) = SourceHash m.
Proof. unfold timed. by destruct (f64_zero _). Qed.

Lemma decode_sent : exists vs,
  decodePayloadAndSplit sent_payload = Some (vs, hashed_payload)
  /\ forall m0, applyPayload order2 vs m0
     = Some (set_Stamp (if 0 <? len (Stamp m) then Stamp m else Stamp m0)
         (set_Fields (Some (received_fields (Fields m))) (set_Content (clone (Content m)) (set_Title (clone (Title m))
           (set_Timestamp (Timestamp (timed now m)) m0))))).
Proof.
  pose proof sent_order_ok as Hs. pose proof timed_same as (ET & EC & EF & ES & ED & ESH).
  pose proof (asFields_received sent_order order2 m now Hs Ho2 Hm) as Hf.
  pose proof Hm as Hm'. unfold packable in Hm'. bool_hyps.
  set (four := [MF64 (Timestamp (timed now m)); bytes_value (Title m); bytes_value (Content m); sent_order (fields_value (Fields m))]).
  set (extra := if 0 <? len (Stamp m) then [MBin (Stamp m)] else []).
  assert (map sent_order (payloadList true (timed now m)) = four ++ extra) as E1.
  { unfold payloadList. rewrite ET, EC, EF, ES, map_app. cbn [map andb].
    rewrite (reorders_scalar_inv (MF64 (Timestamp (timed now m))) (sent_order (MF64 (Timestamp (timed now m))))), !bytes_value_scalar by done. unfold extra.
    destruct (_ <? _); [|done]. cbn [map]. by rewrite (reorders_scalar_inv (MBin (Stamp m)) (sent_order (MBin (Stamp m)))). }
  assert (map sent_order (payloadList false (timed now m)) = four) as E2.
  { unfold payloadList. rewrite ET, EC, EF, map_app. cbn [map andb app].
    by rewrite (reorders_scalar_inv (MF64 (Timestamp (timed now m))) (sent_order (MF64 (Timestamp (timed now m))))), !bytes_value_scalar by done. }
  unfold sent_payload, hashed_payload, encodePayload. rewrite E1, E2. exists (map (view true false) (four ++ extra)). split.
  - apply split_payload; [done|unfold extra; destruct (_ <? _); cbn; lia|]. rewrite forallb_app. apply andb_true_iff. split.
    + cbn [forallb four]. repeat (apply andb_true_iff; split); try done.
      * by apply Z.leb_le.
      * by apply Z.ltb_lt.
      * by apply bytes_value_sendable.
      * by apply bytes_value_sendable.
      * by apply (sendable_reorders (fields_value (Fields m))).
    + unfold extra. destruct (_ <? _); [|done]. cbn. rewrite andb_true_r. by apply Z.ltb_lt.
  - intros m0. rewrite map_app. subst four. cbn [map app applyPayload asTimestamp view mbind option_bind].
    rewrite !asBytes_view. cbn [mbind option_bind]. rewrite Hf. cbn [mbind option_bind]. unfold extra.
    destruct (0 <? len (Stamp m)) eqn:E; [|by destruct m0]. cbn [map view asBytes mbind option_bind].
    destruct (Stamp m); [done|]. done.
Qed.

(** What [Unpack] makes of the bytes, up to the check of the signature. *)
Lemma unpack_sent resolver signature :
  len signature = SignatureLength ->
  let packed := DestinationHash m ++ SourceHash m ++ signature ++ sent_payload in
  let m' := unpacked (timed now m) hashed_payload signature packed in
  Unpack order2 resolver packed =
    match resolver with
    | None => (Some (set_UnverifiedReason UnverifiedSourceUnknown m'), None)
    | Some resolve =>
        match resolve (SourceHash m) with
        | Failed => (None, Some ErrResolve)
        | Unknown => (Some (set_UnverifiedReason UnverifiedSourceUnknown m'), None)
        | Known verify =>
            if verify (signed_part (DestinationHash m) (SourceHash m) hashed_payload) signature
            then (Some (set_SignatureValidated true m'), None)
            else (Some (set_UnverifiedReason UnverifiedSignatureInvalid m'), Some ErrSignatureInvalid)
        end
    end.
Proof.
  intros Hsig packed m'. pose proof timed_same as (ET & EC & EF & ES & ED & ESH).
  pose proof Hm as Hm'. unfold packable in Hm'. bool_hyps. unfold DestinationLength, SignatureLength in *.
  pose proof (len_nonneg sent_payload).
  assert (len packed = 96 + len sent_payload) as HL by (unfold packed; rewrite !len_app; lia).
  unfold Unpack, UnpackFromBytes, DestinationLength, SignatureLength. rewrite (proj2 (Z.ltb_ge (len packed) _)) by lia.
  assert (ztake 16 packed = DestinationHash m) as -> by (apply ztake_app; lia).
  assert (zdrop 16 packed = SourceHash m ++ signature ++ sent_payload) as -> by (apply zdrop_app; lia).
  match goal with H : len (DestinationHash m) = 16 |- _ => rewrite H end. cbn [Z.eqb Pos.eqb negb].
  rewrite (proj2 (Z.ltb_ge (len (SourceHash m ++ _)) _)) by (rewrite !len_app; lia).
  rewrite (ztake_app 16), (zdrop_app 16), (ztake_app 64) by lia.
  rewrite app_assoc, (zdrop_app (16 + 64)) by (rewrite len_app; lia).
  destruct decode_sent as (vs & -> & Happ). cbv zeta. rewrite Happ. cbv zeta. rewrite fresh_message. cbn [Stamp].
  assert ((if 0 <? len (Stamp m) then Stamp m else []) = Stamp m) as ->.
  { destruct (0 <? len (Stamp m)) eqn:E; [done|]. bool_hyps. pose proof (len_nonneg (Stamp m)). symmetry. apply len_0_nil. lia. }
  subst m'. unfold unpacked. rewrite ET, EC, EF, ES, ED, ESH. fold packed.
  destruct resolver as [resolve|]; [|done]. destruct (resolve _) as [| |verify]; [done..|]. by destruct (verify _ _).
Qed.

Lemma pack_sent sign signature :
  sign (signed_part (DestinationHash m) (SourceHash m) (encodePayload order (payloadList false (timed now m)))) = Some signature ->
  len signature = SignatureLength ->
  Pack order order' now (Some sign) m =
    let packed := DestinationHash m ++ SourceHash m ++ signature ++ sent_payload in
    (set_Packed packed (set_SignatureValidated true (set_Signature signature (set_Hash
       (sha256 (hashed_part (DestinationHash m) (SourceHash m) (encodePayload order (payloadList false (timed now m))))) (timed now m)))),
     Ok packed).
Proof.
  intros Hs Hl. pose proof timed_same as (ET & EC & EF & ES & ED & ESH).
  pose proof Hm as Hm'. unfold packable in Hm'. bool_hyps. unfold Pack.
  rewrite (proj2 (Z.eqb_eq (len (DestinationHash m)) _)), (proj2 (Z.eqb_eq (len (SourceHash m)) _)) by done. cbn [negb].
  change (if f64_zero (Timestamp m) then set_Timestamp (seconds_of_nanos now) m else m) with (timed now m). cbv zeta.
  change (DestinationHash (set_Hash _ ?x)) with (DestinationHash x). change (SourceHash (set_Hash _ ?x)) with (SourceHash x).
  rewrite ED, ESH, Hs, Hl. cbn [negb Z.eqb Pos.eqb SignatureLength].
  change (Stamp (set_SignatureValidated _ (set_Signature _ (set_Hash _ ?x)))) with (Stamp x).
  change (DestinationHash (set_SignatureValidated _ (set_Signature _ (set_Hash _ ?x)))) with (DestinationHash x).
  change (SourceHash (set_SignatureValidated _ (set_Signature _ (set_Hash _ ?x)))) with (SourceHash x).
  rewrite ED, ESH, ES. unfold sent_payload, sent_order. destruct (0 <? len (Stamp m)) eqn:E; [done|].
  assert (payloadList true (timed now m) = payloadList false (timed now m)) as -> by (unfold payloadList; by rewrite ES, E).
  done.
Qed.
End packed.

(** What arrives of a message that was packed, whoever signed it. *)
Lemma arrived order order' order2 now signer resolver m m1 packed m2 e :
  (forall v, reorders v (order v)) -> (forall v, reorders v (order' v)) -> (forall v, reorders v (order2 v)) ->
  packable now m = true -> Pack order order' now signer m = (m1, Ok packed) -> Unpack order2 resolver packed = (Some m2, e) ->
  Fields m2 = Some (received_fields (Fields m)) /\ SourceHash m2 = SourceHash m /\ DestinationHash m2 = DestinationHash m.
Proof.
  intros Ho Ho' Ho2 Hm Hp Hu. destruct (timed_same now m) as (ET & EC & EF & ES & ED & ESH).
  assert (exists sign s, signer = Some sign
    /\ sign (signed_part (DestinationHash m) (SourceHash m) (encodePayload order (payloadList false (timed now m)))) = Some s
    /\ len s = SignatureLength) as (sign & s & -> & Hs & Hl).
  { revert Hp. unfold Pack. destruct signer as [sign|]; [|done]. do 2 (destruct (negb _); [done|]).
    change (if f64_zero (Timestamp m) then set_Timestamp (seconds_of_nanos now) m else m) with (timed now m). cbv zeta.
    change (DestinationHash (set_Hash _ ?x)) with (DestinationHash x). change (SourceHash (set_Hash _ ?x)) with (SourceHash x).
    rewrite ED, ESH. destruct (sign _) as [s|] eqn:E; [|done]. destruct (negb _) eqn:E2; [done|]. bool_hyps. eauto. }
  rewrite (pack_sent order order' now m Hm sign s Hs Hl) in Hp. injection Hp as _ <-.
  rewrite (unpack_sent order order' order2 now m Ho Ho' Ho2 Hm resolver s Hl) in Hu.
  revert Hu. repeat case_match; intros [= <- _]; unfold unpacked; cbn; by rewrite EF, ED, ESH.
Qed.

(** C8: packing and unpacking.  A message that fits the decoder's limits, packed
    with any signer whose signatures verify, is unpacked with a validated
    signature, its own message id, times, texts and stamp, and its fields as
    [received] describes them, whatever order the maps were visited in at either
    end; a stamped message needs its fields encoded in the same order both times. *)
Theorem lxmf_pack_unpack order order' order2 now sign verify resolve m :
  (forall v, reorders v (order v)) -> (forall v, reorders v (order' v)) -> (forall v, reorders v (order2 v)) ->
  packable now m = true ->
  Stamp m = [] \/ order' (fields_value (Fields m)) = order (fields_value (Fields m)) ->
  (forall d, exists s, sign d = Some s /\ len s = SignatureLength /\ verify d s = true) ->
  resolve (SourceHash m) = Known verify ->
  exists m1 packed, Pack order order' now (Some sign) m = (m1, Ok packed)
    /\ Packed m1 = packed
    /\ Unpack order2 (Some resolve) packed =
         (Some (mkMsg (DestinationHash m) (SourceHash m) (clone (Title m)) (clone (Content m))
                  (Some (received_fields (Fields m))) (Timestamp m1) (Stamp m) (Hash m1) (Signature m1) packed
                  StateGenerating MethodUnknown RepresentationUnknown true true 0 false [] None 0 false [] [] []), None).
Proof.
  intros Ho Ho' Ho2 Hm Hst Hsign Hres. destruct (timed_same now m) as (ET & EC & EF & ES & ED & ESH).
  set (hp := encodePayload order (payloadList false (timed now m))).
  destruct (Hsign (signed_part (DestinationHash m) (SourceHash m) hp)) as (s & Hs & Hl & Hv).
  rewrite (pack_sent order order' now m Hm sign s Hs Hl). cbv zeta. do 2 eexists. split; [done|]. split; [done|].
  rewrite (unpack_sent order order' order2 now m Ho Ho' Ho2 Hm (Some resolve) s Hl). rewrite Hres.
  assert (hashed_payload order order' now m = hp) as ->.
  { unfold hashed_payload, hp, sent_order. destruct Hst as [Hst|Hst]; [by rewrite Hst|].
    destruct (0 <? len (Stamp m)); [|done]. unfold encodePayload, payloadList. rewrite EF, map_app, map_app. cbn [map andb].
    rewrite Hst. f_equal. f_equal. f_equal.
    rewrite !(reorders_scalar_inv (MF64 (Timestamp (timed now m))) (_ (MF64 (Timestamp (timed now m))))), !bytes_value_scalar by done. done. }
  rewrite Hv. unfold unpacked. by rewrite ET, EC, EF, ES, ED, ESH.
Qed.

(** A signature of 64 bytes that verifies: the end of what is signed. *)
Definition toy_sign (d : bytes) : option bytes := Some (zdrop (len d) (make_bytes 64 ++ d)).
Definition toy_verify (d s : bytes) : bool := bool_decide (toy_sign d = Some s).

Lemma toy_signs d : exists s, toy_sign d = Some s /\ len s = SignatureLength /\ toy_verify d s = true.
Proof.
  eexists. split; [reflexivity|]. split; [|by apply bool_decide_eq_true_2]. pose proof (len_nonneg d).
  rewrite len_zdrop, len_app, len_make_bytes; [unfold SignatureLength; lia|lia|rewrite len_app, len_make_bytes; lia].
Qed.

(** A message with two fields, an array with bytes in one of them. *)
Definition example_message (stamp : bytes) : LXMessage :=
  mkMsg (make_bytes 16) (make_bytes 16) (Some (lit "title")) None
    (Some [(x05, MArr [MBin (lit "name"); MInt KI64 (-7)]); (x30, MBin (lit "reply"))]) 0 stamp [] [] []
    StateGenerating MethodUnknown RepresentationUnknown false false 0 false [] None 0 false [] [] [].

Lemma lxmf_pack_unpack_witness : exists m1 packed,
  Pack id id 1500000000 (Some toy_sign) (example_message (make_bytes 32)) = (m1, Ok packed)
  /\ (Unpack id (Some (fun _ => Known toy_verify)) packed).2 = None
  /\ (Fields <$> (Unpack id (Some (fun _ => Known toy_verify)) packed).1)
     = Some (Some [(x05, MArr [MStr (lit "name"); MInt KI64 (-7)]); (x30, MBin (lit "reply"))]).
Proof.
  destruct (lxmf_pack_unpack id id id 1500000000 toy_sign toy_verify (fun _ => Known toy_verify) (example_message (make_bytes 32)))
    as (m1 & packed & H1 & H2 & H3);
    [apply reorders_refl|apply reorders_refl|apply reorders_refl|vm_compute; reflexivity|by right|apply toy_signs|done|].
  exists m1, packed. split; [done|]. rewrite H3. split; [done|]. vm_compute. reflexivity.
Defined.

(** Another order for a map of two entries. *)
Definition swap_two (v : mval) : mval := match v with MFields [a; b] => MFields [b; a] | v => v end.

Lemma swap_two_reorders v : reorders v (swap_two v).
Proof.
  destruct v as [| | | | | | | | | |[|a [|b [|]]]]; try apply reorders_refl. cbn.
  apply (ro_fields _ [a; b]); [|apply perm_swap]. constructor; [|constructor; [|constructor]]; (split; [done|apply reorders_refl]).
Qed.

(** A stamped message is encoded twice, and Go visits the fields in a new
    order each time: the signature and the message id cover one encoding, the
    packet carries the other.  So there are orders for which a well-formed stamped
    message with two fields, signed by a signer whose signatures verify, is
    refused at the receiver as wrongly signed. *)
Theorem lxmf_stamped_order : exists order order' m,
  (forall v, reorders v (order v)) /\ (forall v, reorders v (order' v)) /\ packable 0 m = true /\ Stamp m <> []
  /\ (forall d, exists s, toy_sign d = Some s /\ len s = SignatureLength /\ toy_verify d s = true)
  /\ exists m1 packed, Pack order order' 0 (Some toy_sign) m = (m1, Ok packed)
     /\ forall order2, (forall v, reorders v (order2 v)) -> exists m2,
          Unpack order2 (Some (fun _ => Known toy_verify)) packed = (Some m2, Some ErrSignatureInvalid) /\ Hash m2 <> Hash m1.
Proof.
  exists id, swap_two, (example_message (make_bytes 32)).
  assert (packable 0 (example_message (make_bytes 32)) = true) as Hm by (vm_compute; reflexivity).
  set (m := example_message (make_bytes 32)) in *.
  split; [apply reorders_refl|]. split; [apply swap_two_reorders|]. split; [done|]. split; [done|]. split; [apply toy_signs|].
  destruct (toy_signs (signed_part (DestinationHash m) (SourceHash m) (encodePayload id (payloadList false (timed 0 m))))) as (s & Hs & Hl & _).
  rewrite (pack_sent id swap_two 0 m Hm toy_sign s Hs Hl). cbv zeta. do 2 eexists. split; [done|].
  intros order2 Ho2. rewrite (unpack_sent id swap_two order2 0 m reorders_refl swap_two_reorders Ho2 Hm (Some (fun _ => Known toy_verify)) s Hl).
  assert (toy_verify (signed_part (DestinationHash m) (SourceHash m) (hashed_payload id swap_two 0 m)) s = false) as ->.
  { unfold toy_verify. rewrite <- Hs. vm_compute. reflexivity. }
  eexists. split; [done|]. intros E. apply (f_equal be_get) in E. revert E. vm_compute. discriminate.
Qed.


(** What [Pack] gives for the example. *)
Definition example_packed : bytes :=
  match (Pack id id 1500000000 (Some toy_sign) (example_message [])).2 with Ok b => b | Err _ => [] end.


(** The limits of the delivery methods.  An opportunistic message fits its
    packet; a direct or propagated message is a packet exactly when its content
    fits a link packet, and a resource otherwise; a paper message fits the paper
    size.  Only the fallback from opportunistic to direct delivery does not
    look: it always chooses a packet. *)
Theorem lxmf_method_limits m desired t method rep :
  ChooseDeliveryMethod m desired t = Ok (method, rep) ->
  exists size, ContentSize m = Ok size
  /\ ((desired = MethodOpportunistic /\
       (if size <=? (if t =? DestinationTypePlain then PlainPacketMaxContent else EncryptedPacketMaxContent)
        then method = MethodOpportunistic else method = MethodDirect) /\ rep = RepresentationPacket)
      \/ ((method = MethodDirect \/ method = MethodPropagated)
          /\ method = (if desired =? MethodUnknown then MethodDirect else desired)
          /\ rep = (if size <=? LinkPacketMaxContent then RepresentationPacket else RepresentationResource))
      \/ (desired = MethodPaper /\ method = MethodPaper /\ rep = RepresentationUnknown /\ len (Packed m) <= PaperMDU)).
Proof.
  unfold ChooseDeliveryMethod. destruct (len (Packed m) =? 0) eqn:E0; [done|]. intros H. res_inv. exists x. split; [done|].
  unfold MaxContentForMethod, MethodUnknown, MethodDirect, MethodOpportunistic, MethodPropagated, MethodPaper in *.
  unfold DestinationTypeSingle, DestinationTypePlain in *.
  destruct (desired =? 0) eqn:E1; bool_hyps; cbn [Z.eqb Pos.eqb orb andb negb] in *.
  - right. left. destruct (x <=? LinkPacketMaxContent); injection H as <- <-; auto.
  - destruct (desired =? 1) eqn:E2; bool_hyps.
    + left. split; [done|]. destruct (t =? 0) eqn:E3; bool_hyps; [subst t; cbn [Z.eqb]|destruct (t =? 2)];
        match type of H with context [if ?a <? x then _ else _] =>
          rewrite (Z.leb_antisym x a) || rewrite Z.leb_antisym; destruct (a <? x); by injection H as <- <- end.
    + right. destruct ((desired =? 2) || (desired =? 3)) eqn:E3.
      * left. apply orb_true_iff in E3 as [E3|E3]; bool_hyps; subst desired;
          destruct (x <=? LinkPacketMaxContent); injection H as <- <-; auto.
      * right. destruct (desired =? 5) eqn:E4; bool_hyps; [|done]. destruct (PaperMDU <? len (Packed m)) eqn:E5; bool_hyps; [done|].
        injection H as <- <-. auto.
Qed.

(** A message of [n] packed bytes. *)
Definition packed_of_size (n : Z) : LXMessage := set_Packed (make_bytes n) (example_message []).

Lemma lxmf_method_limits_witness :
  ChooseDeliveryMethod (packed_of_size 500) MethodOpportunistic DestinationTypeSingle = Ok (MethodDirect, RepresentationPacket)
  /\ exists size, ContentSize (packed_of_size 500) = Ok size /\ LinkPacketMaxContent < size.
Proof.
  split; [reflexivity|].
  destruct (lxmf_method_limits (packed_of_size 500) MethodOpportunistic DestinationTypeSingle MethodDirect RepresentationPacket)
    as (size & H & _); [reflexivity|].
  exists size. split; [done|]. injection H as <-. vm_compute. reflexivity.
Defined.
