(* ===== verification/LxmfTicket.v ===== *)
(** * Tickets and stamp costs ([lxmf/tickets.go])

    A ticket lets a peer skip the proof of work: the messenger hands out tickets
    to the peers it writes to and accepts the stamps derived from them, and keeps
    the tickets it was given for its own messages.  Both books are kept in a
    MessagePack file.

    Times are floats, kept as bits; [now] is [time.Now().Unix()].  Where the code
    walks a map the order is an argument.  [storage] is the file: [None] when no path
    was set. *)

From stdpp Require Import base tactics list gmap strings.
From Stdlib Require Import ZArith Lia SpecFloat.
From S2P Require Import Prelude GoText HexHash GoFloat Sha256 Msgpack MsgValue LxmfStamp LxmfMessage.

Definition TicketExpirySecs : Z := 21 * 24 * 60 * 60.
Definition TicketGraceSecs : Z := 5 * 24 * 60 * 60.
Definition TicketRenewSecs : Z := 14 * 24 * 60 * 60.
Definition TicketIntervalSecs : Z := 1 * 24 * 60 * 60.
Definition stampCostExpirySecs : Z := 45 * 24 * 60 * 60.

(** ** Keys *)

Definition peerKey (hash : bytes) : bytes := hex_Encode hash.

(** [decodeHashHex] of config.go. *)
Definition hexDecodeKey (key : bytes) : option bytes :=
  let s := TrimSpace key in
  if negb (len s =? 2 * DestinationLength) then None
  else match hex_Decode s with Ok h => Some h | Err _ => None end.

(** ** The ticket book *)

Record outboundTicketEntry := mkOutbound { expires : Z; ticket : bytes }.

Record ticketBook := mkBook {
  outbound : gmap bytes outboundTicketEntry;
  inbound : gmap bytes (gmap bytes Z);
  lastDeliveries : gmap bytes Z;
  storage : option (option bytes)
}.

Definition set_storage (f : option (option bytes)) (b : ticketBook) : ticketBook :=
  mkBook (outbound b) (inbound b) (lastDeliveries b) f.

Definition f_after (a : f64) (b : f64) : bool := fltb b a.

(** The order in which the maps are walked. *)
Record orders := mkOrders {
  ord_out : list (bytes * outboundTicketEntry) -> list (bytes * outboundTicketEntry);
  ord_in : list (bytes * gmap bytes Z) -> list (bytes * gmap bytes Z);
  ord_tickets : bytes -> list (bytes * Z) -> list (bytes * Z);
  ord_last : list (bytes * Z) -> list (bytes * Z)
}.

Definition good_orders (o : orders) : Prop :=
  (forall l, ord_out o l ≡ₚ l) /\ (forall l, ord_in o l ≡ₚ l) /\ (forall k l, ord_tickets o k l ≡ₚ l) /\ (forall l, ord_last o l ≡ₚ l).

Definition out_entry (p : bytes * outboundTicketEntry) : bytes :=
  match hexDecodeKey p.1 with
  | None => []
  | Some dh => EncodeBytes dh ++ encode (MArr [MF64 (expires p.2); MBin (ticket p.2)])
  end.

Definition ticket_entry (p : bytes * Z) : bytes :=
  match hexDecodeKey p.1 with None => [] | Some t => EncodeBytes t ++ encode (MArr [MF64 p.2]) end.

Definition in_entry (o : orders) (p : bytes * gmap bytes Z) : bytes :=
  match hexDecodeKey p.1 with
  | None => []
  | Some dh =>
      EncodeBytes dh ++ EncodeMapLen (Z.of_nat (size p.2))
      ++ concat (map ticket_entry (ord_tickets o p.1 (map_to_list p.2)))
  end.

Definition last_entry (p : bytes * Z) : bytes :=
  match hexDecodeKey p.1 with None => [] | Some dh => EncodeBytes dh ++ encode (MF64 p.2) end.

Definition book_file (o : orders) (b : ticketBook) : bytes :=
  EncodeMapLen 3
  ++ EncodeString (lit "outbound") ++ EncodeMapLen (Z.of_nat (size (outbound b)))
  ++ concat (map out_entry (ord_out o (map_to_list (outbound b))))
  ++ EncodeString (lit "inbound") ++ EncodeMapLen (Z.of_nat (size (inbound b)))
  ++ concat (map (in_entry o) (ord_in o (map_to_list (inbound b))))
  ++ EncodeString (lit "last_deliveries") ++ EncodeMapLen (Z.of_nat (size (lastDeliveries b)))
  ++ concat (map last_entry (ord_last o (map_to_list (lastDeliveries b)))).

(** [disk]: the directory and the file could be written. *)
Definition saveLocked (o : orders) (disk : bool) (b : ticketBook) : ticketBook :=
  match storage b with
  | None => b
  | Some _ => if disk then set_storage (Some (Some (book_file o b))) b else b
  end.

(** [order]: the order of the peer's tickets; [random]: 16 random bytes, or an
    error.  The ticket and its expiry are returned. *)
Definition generateTicket (o : orders) (disk : bool) (order : list (bytes * Z) -> list (bytes * Z)) (random : option bytes)
    (now : Z) (destHash : bytes) (expiry : Z) (b : ticketBook) : ticketBook * option (Z * bytes) :=
  let nowf := f_of_Z now in
  let key := peerKey destHash in
  let recent := match lastDeliveries b !! key with
                | Some last => fltb (fsub nowf (f64_of_bits last)) (f_of_Z TicketIntervalSecs)
                | None => false end in
  if recent then (b, None)
  else
    let reusable (p : bytes * Z) :=
      if f_after (fsub (f64_of_bits p.2) nowf) (f_of_Z TicketRenewSecs)
      then (fun t => (p.2, t)) <$> hexDecodeKey p.1 else None in
    let known := default ∅ (inbound b !! key) in
    match head (omap reusable (order (map_to_list known))) with
    | Some r => (b, Some r)
    | None =>
        let b := mkBook (outbound b) (<[key := known]> (inbound b)) (lastDeliveries b) (storage b) in
        match random with
        | None => (b, None)
        | Some t =>
            let e := bits_of_f64 (fadd nowf (f64_of_bits expiry)) in
            let b := mkBook (outbound b) (<[key := <[peerKey t := e]> known]> (inbound b)) (lastDeliveries b) (storage b) in
            (saveLocked o disk b, Some (e, t))
        end
    end.

Definition rememberTicket (o : orders) (disk : bool) (destHash : bytes) (e : Z) (t : bytes) (b : ticketBook) : ticketBook :=
  if negb (len t =? TicketLength) then b
  else saveLocked o disk (mkBook (<[peerKey destHash := mkOutbound e t]> (outbound b)) (inbound b) (lastDeliveries b) (storage b)).

Definition outboundTicket (now : Z) (destHash : bytes) (b : ticketBook) : option bytes :=
  match outbound b !! peerKey destHash with
  | Some en => if f_after (f64_of_bits (expires en)) (f_of_Z now) then Some (ticket en) else None
  | None => None
  end.

Definition outboundTicketExpiry (now : Z) (destHash : bytes) (b : ticketBook) : option Z :=
  match outbound b !! peerKey destHash with
  | Some en => if f_after (f64_of_bits (expires en)) (f_of_Z now) then Some (expires en) else None
  | None => None
  end.

Definition inboundTickets (order : list (bytes * Z) -> list (bytes * Z)) (now : Z) (destHash : bytes) (b : ticketBook) : list bytes :=
  omap (fun p => if fltb (f_of_Z now) (f64_of_bits p.2) then hexDecodeKey p.1 else None)
    (order (map_to_list (default ∅ (inbound b !! peerKey destHash)))).

Definition live_inbound (now : Z) (e : Z) : bool :=
  negb (f_after (f_of_Z now) (fadd (f64_of_bits e) (f_of_Z TicketGraceSecs))).

Definition cleanLocked (now : Z) (b : ticketBook) : ticketBook :=
  mkBook (filter (fun p => negb (f_after (f_of_Z now) (f64_of_bits (expires p.2))) = true) (outbound b))
    (filter (fun p => p.2 <> ∅) (filter (fun p => live_inbound now p.2 = true) <$> inbound b))
    (lastDeliveries b) (storage b).

(** ** Loading *)

(** A number and whether there was one; [ParseFloat] is the one of strconv, whose
    value counts even when it reports an error. *)
Definition numericField (ParseFloat : bytes -> Z * bool) (v : mval) : Z * bool :=
  match v with
  | MF64 b => (b, true)
  | MF32 b => (f32_to_f64 b, true)
  | MInt _ _ => match asInt64 v with Some z => (f64_bits_of_int z, true) | None => (f64_bits_of_int 0, false) end
  | MStr s | MBin s => ParseFloat (TrimSpace s)
  | _ => (0, false)
  end.

Section load.
Context (ParseFloat : bytes -> Z * bool).
(** Where a read that fails leaves the decoder. *)
Context (after_error : bytes -> bytes).

(** The loops over the entries of a map.  A step gives the new state, the unread
    input and whether to go on. *)
Fixpoint entries {S} (n : nat) (step : S -> bytes -> S * bytes * bool) (s : S) (r : bytes) : S * bytes * bool :=
  match n with
  | O => (s, r, true)
  | Datatypes.S n =>
      match step s r with
      | (s, r, true) => entries n step s r
      | (s, r, false) => (s, r, false)
      end
  end.

(** [a, err := read(); if err != nil { return }] *)
Definition attempt {A S} (p : parser A) (s : S) (r : bytes) (k : A -> bytes -> S * bytes * bool) : S * bytes * bool :=
  match p r with None => (s, after_error r, false) | Some (a, r) => k a r end.

(** A result of [numericField] whose [ok] is ignored. *)
Definition number (v : mval) : Z := (numericField ParseFloat v).1.

Definition load_out (b : ticketBook) (r : bytes) : ticketBook * bytes * bool :=
  attempt DecodeBytes b r (fun dh r =>
  attempt DecodeInterface_plain b r (fun entry r =>
    match entry with
    | MArr (e :: t :: _) =>
        match t with
        | MBin t =>
            if len t =? TicketLength
            then (mkBook (<[peerKey dh := mkOutbound (number e) t]> (outbound b)) (inbound b) (lastDeliveries b) (storage b), r, true)
            else (b, r, true)
        | _ => (b, r, true)
        end
    | _ => (b, r, true)
    end)).

Definition loadOutboundTickets (b : ticketBook) (r : bytes) : ticketBook * bytes * bool :=
  attempt DecodeMapLen b r (fun n r => entries (Z.to_nat n) load_out b r).

Definition load_ticket (dh : bytes) (b : ticketBook) (r : bytes) : ticketBook * bytes * bool :=
  attempt DecodeBytes b r (fun t r =>
  attempt DecodeInterface_plain b r (fun entry r =>
    match entry with
    | MArr (e :: _) =>
        if negb (len t =? TicketLength) then (b, r, true)
        else
          let known := default ∅ (inbound b !! peerKey dh) in
          (mkBook (outbound b) (<[peerKey dh := <[peerKey t := number e]> known]> (inbound b)) (lastDeliveries b) (storage b), r, true)
    | _ => (b, r, true)
    end)).

Definition load_in (b : ticketBook) (r : bytes) : ticketBook * bytes * bool :=
  attempt DecodeBytes b r (fun dh r =>
  attempt DecodeMapLen b r (fun tn r => entries (Z.to_nat tn) (load_ticket dh) b r)).

Definition loadInboundTickets (b : ticketBook) (r : bytes) : ticketBook * bytes * bool :=
  attempt DecodeMapLen b r (fun n r => entries (Z.to_nat n) load_in b r).

Definition load_last (b : ticketBook) (r : bytes) : ticketBook * bytes * bool :=
  attempt DecodeBytes b r (fun dh r =>
  attempt DecodeInterface_plain b r (fun v r =>
    match numericField ParseFloat v with
    | (at_, true) => (mkBook (outbound b) (inbound b) (<[peerKey dh := at_]> (lastDeliveries b)) (storage b), r, true)
    | (_, false) => (b, r, true)
    end)).

Definition loadLastDeliveries (b : ticketBook) (r : bytes) : ticketBook * bytes * bool :=
  attempt DecodeMapLen b r (fun n r => entries (Z.to_nat n) load_last b r).

(** A section; those that fail inside leave the rest to the loop. *)
Definition load_section (b : ticketBook) (r : bytes) : ticketBook * bytes * bool :=
  attempt DecodeString b r (fun key r =>
    if bool_decide (key = lit "outbound") then ((loadOutboundTickets b r).1, true)
    else if bool_decide (key = lit "inbound") then ((loadInboundTickets b r).1, true)
    else if bool_decide (key = lit "last_deliveries") then ((loadLastDeliveries b r).1, true)
    else attempt DecodeInterfaceLoose_plain b r (fun _ r => (b, r, true))).

Definition load (now : Z) (b : ticketBook) : ticketBook :=
  match storage b with
  | Some (Some data) =>
      match DecodeMapLen data with
      | None => b
      | Some (sections, r) =>
          match entries (Z.to_nat sections) load_section b r with
          | (b, _, true) => cleanLocked now b
          | (b, _, false) => b
          end
      end
  | _ => b
  end.

Definition newTicketBook (now : Z) (file : option (option bytes)) : ticketBook := load now (mkBook ∅ ∅ ∅ file).
End load.

(** ** The stamp cost book *)

Record stampCostEntry := mkCost { at_ : Z; cost : Z }.

Record stampCostBook := mkCosts { costs : gmap bytes stampCostEntry; cost_storage : option (option bytes) }.

(** Without compact integers. *)
Definition EncodeInt64 (n : Z) : bytes := xd3 :: be_put 8 (u64 n).

Definition cost_entry (p : bytes * stampCostEntry) : bytes :=
  match hexDecodeKey p.1 with
  | None => []
  | Some dh => EncodeBytes dh ++ EncodeArrayLen 2 ++ encode (MF64 (at_ p.2)) ++ EncodeInt64 (cost p.2)
  end.

Definition costs_file (order : list (bytes * stampCostEntry) -> list (bytes * stampCostEntry)) (b : stampCostBook) : bytes :=
  EncodeMapLen (Z.of_nat (size (costs b))) ++ concat (map cost_entry (order (map_to_list (costs b)))).

Definition save_costs (order : list (bytes * stampCostEntry) -> list (bytes * stampCostEntry)) (disk : bool) (b : stampCostBook)
    : stampCostBook :=
  match cost_storage b with
  | None => b
  | Some _ => if disk then mkCosts (costs b) (Some (Some (costs_file order b))) else b
  end.

Definition update (order : list (bytes * stampCostEntry) -> list (bytes * stampCostEntry)) (disk : bool)
    (now : Z) (destHash : bytes) (c : Z) (ok : bool) (b : stampCostBook) : stampCostBook :=
  if negb (len destHash =? DestinationLength) || negb ok then b
  else save_costs order disk (mkCosts (<[peerKey destHash := mkCost (f64_bits_of_int now) c]> (costs b)) (cost_storage b)).

Definition get (destHash : bytes) (b : stampCostBook) : option Z := cost <$> costs b !! peerKey destHash.

Definition clean_costs (now : Z) (b : stampCostBook) : stampCostBook :=
  mkCosts (filter (fun p => negb (f_after (f_of_Z now) (fadd (f64_of_bits (at_ p.2)) (f_of_Z stampCostExpirySecs))) = true) (costs b))
    (cost_storage b).

Section load_costs.
Context (ParseFloat : bytes -> Z * bool) (after_error : bytes -> bytes).
(** [int64(f)] of a value it does not hold, which the language leaves open. *)
Context (not_int64 : f64 -> Z).

Definition f64_to_int64 (f : f64) : Z :=
  match trunc_int f with
  | Some z => if (- 2 ^ 63 <=? z) && (z <? 2 ^ 63) then z else not_int64 f
  | None => not_int64 f
  end.

Definition load_cost (b : stampCostBook) (r : bytes) : stampCostBook * bytes * bool :=
  attempt after_error DecodeBytes b r (fun dh r =>
  attempt after_error DecodeInterface_plain b r (fun entry r =>
    match entry with
    | MArr (a :: c :: _) =>
        if negb (len dh =? DestinationLength) then (b, r, true)
        else
          match numericField ParseFloat c with
          | (c, true) =>
              let c := f64_to_int64 (f64_of_bits c) in
              (mkCosts (<[peerKey dh := mkCost (numericField ParseFloat a).1 c]> (costs b)) (cost_storage b), r, true)
          | (_, false) => (b, r, true)
          end
    | _ => (b, r, true)
    end)).

Definition load_costs (now : Z) (b : stampCostBook) : stampCostBook :=
  match cost_storage b with
  | Some (Some data) =>
      match DecodeMapLen data with
      | None => b
      | Some (n, r) =>
          match entries (Z.to_nat n) load_cost b r with
          | (b, _, true) => clean_costs now b
          | (b, _, false) => b
          end
      end
  | _ => b
  end.

Definition newStampCostBook (now : Z) (file : option (option bytes)) : stampCostBook := load_costs now (mkCosts ∅ file).
End load_costs.

(** ** Tickets in messages *)

Definition rememberTicketField (ParseFloat : bytes -> Z * bool) (o : orders) (disk : bool) (now : Z) (m : LXMessage) (b : ticketBook)
    : ticketBook :=
  if negb (SignatureValidated m) then b
  else
    match GetField FieldTicket m with
    | Some (MArr (e :: t :: _)) =>
        let e := (numericField ParseFloat e).1 in
        let t := match t with MBin t => t | _ => [] end in
        if SFleb (f64_of_bits e) (f_of_Z now) || negb (len t =? TicketLength) then b
        else rememberTicket o disk (SourceHash m) e t b
    | _ => b
    end.

(** ** Keys and maps *)

Lemma hexDecodeKey_peerKey h : len h = DestinationLength -> hexDecodeKey (peerKey h) = Some h.
Proof.
  intros Hl. unfold hexDecodeKey, peerKey. pose proof (hex_Encode_hexish h) as Hx. rewrite Forall_forall in Hx.
  rewrite TrimSpace_ascii.
  - unfold len. rewrite length_hex_Encode. unfold len in Hl. cbv zeta.
    replace (Z.of_nat (2 * length h)) with (2 * DestinationLength) by lia. rewrite Z.eqb_refl. cbn [negb]. by rewrite hex_Decode_Encode.
  - apply Forall_forall. intros c Hc. by apply hexish_ascii, Hx.
  - intros c Hc. apply hexish_ascii, Hx. destruct (hex_Encode h); [done|]. injection Hc as ->. apply list_elem_of_here.
  - intros c Hc. apply hexish_ascii, Hx. by apply last_Some_elem_of.
Qed.

Lemma peerKey_inj h h' : peerKey h = peerKey h' -> h = h'.
Proof.
  intros H. apply (f_equal hex_Decode) in H. unfold peerKey in H. rewrite !hex_Decode_Encode in H. congruence.
Qed.

(** A key the code makes of a hash. *)
Definition key_ok (k : bytes) : Prop := exists h, len h = DestinationLength /\ k = peerKey h.
Definition f64_ok (b : Z) : Prop := 0 <= b < 2 ^ 64.

Lemma key_ok_decode k : key_ok k -> exists h, hexDecodeKey k = Some h /\ k = peerKey h /\ len h = DestinationLength.
Proof. intros (h & Hl & ->). exists h. by rewrite hexDecodeKey_peerKey. Qed.

(** Filling a map with the entries of another, in any order. *)
Definition inserts {A} (l : list (bytes * A)) (m : gmap bytes A) : gmap bytes A := foldl (fun m p => <[p.1 := p.2]> m) m l.

Lemma inserts_lookup {A} (l : list (bytes * A)) m k :
  NoDup l.*1 -> inserts l m !! k = match list_to_map (M := gmap bytes A) l !! k with Some v => Some v | None => m !! k end.
Proof.
  revert m. induction l as [|[k' v'] l IH]; intros m Hn; [done|]. cbn. inversion_clear Hn as [|?? Hk Hn'].
  change (inserts l (<[k' := v']> m) !! k = match <[k' := v']> (list_to_map (M := gmap bytes A) l) !! k with Some v => Some v | None => m !! k end).
  rewrite IH by done. destruct (decide (k = k')) as [->|Hne].
  - rewrite lookup_insert_eq. rewrite (not_elem_of_list_to_map_1 l k') by done. by rewrite lookup_insert_eq.
  - by rewrite !lookup_insert_ne by done.
Qed.

Lemma inserts_perm {A} (l : list (bytes * A)) m : l ≡ₚ map_to_list m -> inserts l ∅ = m.
Proof.
  intros H. assert (NoDup l.*1) as Hn by (rewrite H; apply NoDup_fst_map_to_list).
  apply map_eq. intros k. rewrite inserts_lookup by done. rewrite (list_to_map_proper l (map_to_list m)) by done.
  rewrite list_to_map_to_list. by destruct (m !! k).
Qed.

(** ** What the file holds *)

Lemma entries_fold {S A} (step : S -> bytes -> S * bytes * bool) (enc : A -> bytes) (upd : S -> A -> S) l r : forall s,
  Forall (fun x => forall s r, step s (enc x ++ r) = (upd s x, r, true)) l ->
  entries (length l) step s (concat (map enc l) ++ r) = (foldl upd s l, r, true).
Proof.
  induction l as [|x l IH]; intros s H; [done|]. inversion_clear H as [|?? Hx Hl]. cbn [length entries map concat].
  rewrite <- app_assoc, Hx. by apply IH.
Qed.

Definition wf_book (b : ticketBook) : Prop :=
  map_Forall (fun k e => key_ok k /\ len (ticket e) = TicketLength /\ f64_ok (expires e)) (outbound b)
  /\ map_Forall (fun k m => key_ok k /\ map_Forall (fun t e => key_ok t /\ f64_ok e) m) (inbound b)
  /\ map_Forall (fun k e => key_ok k /\ f64_ok e) (lastDeliveries b).

(** No map has more entries than a MessagePack map can. *)
Definition small_book (b : ticketBook) : Prop :=
  Z.of_nat (size (outbound b)) < 2 ^ 32 /\ Z.of_nat (size (inbound b)) < 2 ^ 32 /\ Z.of_nat (size (lastDeliveries b)) < 2 ^ 32
  /\ map_Forall (fun _ (m : gmap bytes Z) => Z.of_nat (size m) < 2 ^ 32) (inbound b).

Lemma EncodeBytes_pos b : 2 <= len (EncodeBytes b).
Proof.
  unfold EncodeBytes, EncodeBytesLen. repeat case_match; cbn [app]; rewrite len_cons, len_app; unfold len at 1;
    rewrite length_be_put; pose proof (len_nonneg b); lia.
Qed.

Lemma size_order {A} (l : list (bytes * A)) (m : gmap bytes A) : l ≡ₚ map_to_list m -> length l = size m.
Proof. intros ->. apply length_map_to_list. Qed.

Lemma DecodeMapLen_entries {A} (enc : bytes * A -> bytes) (m : gmap bytes A) (l : list (bytes * A)) (r : bytes) :
  l ≡ₚ map_to_list m -> Z.of_nat (size m) < 2 ^ 32 -> Forall (fun p => 2 <= len (enc p)) l ->
  DecodeMapLen (EncodeMapLen (Z.of_nat (size m)) ++ concat (map enc l) ++ r) = Some (Z.of_nat (size m), concat (map enc l) ++ r).
Proof.
  intros Hp Hs Hl. apply DecodeMapLen_enc; [lia|]. apply len_concat_Forall in Hl. rewrite len_app.
  unfold len at 1 in Hl. rewrite (size_order _ _ Hp) in Hl. pose proof (len_nonneg r). lia.
Qed.

Section persistence.
Context (ParseFloat : bytes -> Z * bool) (after_error : bytes -> bytes) (o : orders) (b : ticketBook).
Context (Ho : good_orders o) (Hwf : wf_book b) (Hsmall : small_book b).

Abbreviation set_outbound x c := (mkBook x (inbound c) (lastDeliveries c) (storage c)).
Abbreviation set_inbound x c := (mkBook (outbound c) x (lastDeliveries c) (storage c)).
Abbreviation set_last x c := (mkBook (outbound c) (inbound c) x (storage c)).

Lemma load_out_entry k e c r : outbound b !! k = Some e ->
  load_out ParseFloat after_error c (out_entry (k, e) ++ r) = (set_outbound (<[k := e]> (outbound c)) c, r, true).
Proof.
  intros H. destruct Hwf as (HO & _). destruct (HO k e H) as (Hk & Ht & Hf). destruct (key_ok_decode k Hk) as (h & Hd & Hkh & Hl).
  unfold out_entry, load_out, attempt. cbn [fst snd]. rewrite Hd, <- app_assoc, DecodeBytes_enc by (rewrite Hl; done).
  rewrite DecodeInterface_plain_encode; [|done|].
  - cbn [view map]. rewrite Ht. cbn. unfold number. cbn. rewrite <- Hkh. by destruct e.
  - unfold sendable_top. cbn [sendable forallb]. rewrite Ht. unfold f64_ok in Hf.
    rewrite (proj2 (Z.leb_le _ _)), (proj2 (Z.ltb_lt _ (2 ^ 64))) by lia. done.
Qed.

Lemma load_last_entry k e c r : lastDeliveries b !! k = Some e ->
  load_last ParseFloat after_error c (last_entry (k, e) ++ r) = (set_last (<[k := e]> (lastDeliveries c)) c, r, true).
Proof.
  intros H. destruct Hwf as (_ & _ & HL). destruct (HL k e H) as (Hk & Hf). destruct (key_ok_decode k Hk) as (h & Hd & Hkh & Hl).
  unfold last_entry, load_last, attempt. cbn [fst snd]. rewrite Hd, <- app_assoc, DecodeBytes_enc by (rewrite Hl; done).
  rewrite DecodeInterface_plain_encode; [|done|].
  - cbn. by rewrite <- Hkh.
  - unfold sendable_top. cbn [sendable]. unfold f64_ok in Hf. by rewrite (proj2 (Z.leb_le _ _)), (proj2 (Z.ltb_lt _ (2 ^ 64))) by lia.
Qed.

Lemma load_ticket_entry dh t e c r : key_ok t -> f64_ok e ->
  load_ticket ParseFloat after_error dh c (ticket_entry (t, e) ++ r)
  = (set_inbound (<[peerKey dh := <[t := e]> (default ∅ (inbound c !! peerKey dh))]> (inbound c)) c, r, true).
Proof.
  intros Hk Hf. destruct (key_ok_decode t Hk) as (h & Hd & Hkh & Hl).
  unfold ticket_entry, load_ticket, attempt. cbn [fst snd]. rewrite Hd, <- app_assoc, DecodeBytes_enc by (rewrite Hl; done).
  rewrite DecodeInterface_plain_encode; [|done|].
  - cbn [view map]. change TicketLength with DestinationLength. rewrite Hl, Z.eqb_refl. cbn [negb]. unfold number. cbn.
    by rewrite <- Hkh.
  - unfold sendable_top. cbn [sendable forallb]. unfold f64_ok in Hf.
    rewrite (proj2 (Z.leb_le _ _)), (proj2 (Z.ltb_lt _ (2 ^ 64))) by lia. done.
Qed.

(** Loading the tickets of one peer. *)
Lemma load_tickets_fold dh l c :
  foldl (fun c p => set_inbound (<[peerKey dh := <[p.1 := p.2]> (default ∅ (inbound c !! peerKey dh))]> (inbound c)) c) c l
  = if decide (l = []) then c
    else set_inbound (<[peerKey dh := inserts l (default ∅ (inbound c !! peerKey dh))]> (inbound c)) c.
Proof.
  revert c. induction l as [|p l IH]; intros c; [done|]. cbn [foldl]. rewrite IH. cbn [outbound inbound lastDeliveries storage].
  rewrite lookup_insert_eq. cbn [default]. destruct (decide (l = [])) as [->|Hl]; [done|]. by rewrite insert_insert_eq.
Qed.

Definition add_peer (c : ticketBook) (p : bytes * gmap bytes Z) : ticketBook :=
  if decide (p.2 = ∅) then c
  else set_inbound (<[p.1 := inserts (ord_tickets o p.1 (map_to_list p.2)) (default ∅ (inbound c !! p.1))]> (inbound c)) c.

Lemma load_in_entry k m c r : inbound b !! k = Some m ->
  load_in ParseFloat after_error c (in_entry o (k, m) ++ r) = (add_peer c (k, m), r, true).
Proof.
  intros H. destruct Hwf as (_ & HI & _). destruct (HI k m H) as (Hk & Hm). destruct (key_ok_decode k Hk) as (h & Hd & Hkh & Hl).
  destruct Ho as (_ & _ & Hot & _). destruct Hsmall as (_ & _ & _ & Hsz). specialize (Hsz k m H). cbn in Hsz.
  unfold in_entry, load_in, attempt. cbn [fst snd]. rewrite Hd, <- !app_assoc, DecodeBytes_enc by (rewrite Hl; done).
  assert (Forall (fun p => key_ok p.1 /\ f64_ok p.2) (ord_tickets o k (map_to_list m))) as Hall.
  { rewrite Hot. apply Forall_forall. intros [t e] Hin. apply elem_of_map_to_list in Hin. by apply (Hm t e). }
  rewrite DecodeMapLen_entries; [|apply Hot|done|].
  2: { eapply Forall_impl; [exact Hall|]. intros [t e] [Ht _]. destruct (key_ok_decode t Ht) as (ht & Hdt & _).
       unfold ticket_entry. cbn [fst snd] in *. rewrite Hdt, len_app. pose proof (EncodeBytes_pos ht).
       pose proof (encode_pos (MArr [MF64 e])). lia. }
  rewrite Nat2Z.id, <- (size_order _ _ (Hot k (map_to_list m))).
  rewrite (entries_fold _ ticket_entry
    (fun c p => set_inbound (<[peerKey h := <[p.1 := p.2]> (default ∅ (inbound c !! peerKey h))]> (inbound c)) c)).
  2: { eapply Forall_impl; [exact Hall|]. intros [t e] [Ht He] c' r'. by apply load_ticket_entry. }
  rewrite load_tickets_fold. unfold add_peer. cbn [fst snd]. rewrite <- Hkh.
  destruct (decide (m = ∅)) as [->|Hne].
  - rewrite decide_True; [done|]. apply Permutation_nil. symmetry. apply Hot.
  - rewrite decide_False; [done|]. intros E. apply Hne. apply (map_to_list_empty_iff m).
    apply Permutation_nil. rewrite <- E. apply Hot.
Qed.

(** The peers loaded so far. *)
Lemma add_peers_fold l : forall c, NoDup l.*1 -> (forall k, k ∈ l.*1 -> inbound c !! k = None) ->
  foldl add_peer c l
  = set_inbound (inserts (List.filter (fun p => bool_decide (p.2 <> ∅)) l) (inbound c)) c.
Proof.
  induction l as [|[k m] l IH]; intros c Hn Hc; [by destruct c|]. cbn [foldl]. inversion_clear Hn as [|?? Hk Hn'].
  rewrite IH; [|done|].
  - unfold add_peer. cbn [fst snd List.filter]. destruct (decide (m = ∅)) as [->|Hne].
    + rewrite bool_decide_eq_false_2 by (intros F; by apply F). done.
    + rewrite bool_decide_eq_true_2 by done. cbn [inserts foldl fst snd].
      rewrite (Hc k) by (cbn; apply list_elem_of_here). cbn [default inbound outbound lastDeliveries storage].
      destruct Ho as (_ & _ & Hot & _). by rewrite (inserts_perm _ m) by apply Hot.
  - intros k' Hk'. unfold add_peer. destruct (decide _); [apply Hc; by right|]. cbn [inbound fst].
    rewrite lookup_insert_ne; [apply Hc; by right|]. cbn. intros ->. done.
Qed.

Lemma set_outbound_fold l : forall c,
  foldl (fun c p => set_outbound (<[p.1 := p.2]> (outbound c)) c) c l = set_outbound (inserts l (outbound c)) c.
Proof. induction l as [|p l IH]; intros c; [by destruct c|]. cbn. by rewrite IH. Qed.

Lemma set_last_fold l : forall c,
  foldl (fun c p => set_last (<[p.1 := p.2]> (lastDeliveries c)) c) c l = set_last (inserts l (lastDeliveries c)) c.
Proof. induction l as [|p l IH]; intros c; [by destruct c|]. cbn. by rewrite IH. Qed.

Lemma entry_pos k h rest : hexDecodeKey k = Some h -> 2 <= len (EncodeBytes h ++ rest).
Proof. intros _. rewrite len_app. pose proof (EncodeBytes_pos h). pose proof (len_nonneg rest). lia. Qed.

Lemma outbound_loaded c r : outbound c = ∅ ->
  loadOutboundTickets ParseFloat after_error c (EncodeMapLen (Z.of_nat (size (outbound b)))
    ++ concat (map out_entry (ord_out o (map_to_list (outbound b)))) ++ r) = (set_outbound (outbound b) c, r, true).
Proof.
  intros Hc. destruct Ho as (Hoo & _). destruct Hsmall as (Hs & _). pose proof Hwf as (HO & _).
  assert (forall p, p ∈ ord_out o (map_to_list (outbound b)) -> outbound b !! p.1 = Some p.2) as Hin.
  { intros [k e] H. rewrite Hoo in H. by apply elem_of_map_to_list in H. }
  unfold loadOutboundTickets, attempt. rewrite DecodeMapLen_entries; [|apply Hoo|done|].
  2: { apply Forall_forall. intros [k e] H. apply Hin in H. destruct (HO k e H) as [Hk _]. destruct (key_ok_decode k Hk) as (h & Hd & _).
       unfold out_entry. cbn [fst snd]. rewrite Hd. by apply (entry_pos k). }
  rewrite Nat2Z.id, <- (size_order _ _ (Hoo (map_to_list (outbound b)))).
  rewrite (entries_fold _ out_entry (fun c p => set_outbound (<[p.1 := p.2]> (outbound c)) c)).
  - rewrite set_outbound_fold, Hc. by rewrite (inserts_perm _ (outbound b)) by apply Hoo.
  - apply Forall_forall. intros [k e] H c' r'. apply load_out_entry. by apply Hin in H.
Qed.

Lemma last_loaded c r : lastDeliveries c = ∅ ->
  loadLastDeliveries ParseFloat after_error c (EncodeMapLen (Z.of_nat (size (lastDeliveries b)))
    ++ concat (map last_entry (ord_last o (map_to_list (lastDeliveries b)))) ++ r) = (set_last (lastDeliveries b) c, r, true).
Proof.
  intros Hc. destruct Ho as (_ & _ & _ & Hol). destruct Hsmall as (_ & _ & Hs & _). pose proof Hwf as (_ & _ & HL).
  assert (forall p, p ∈ ord_last o (map_to_list (lastDeliveries b)) -> lastDeliveries b !! p.1 = Some p.2) as Hin.
  { intros [k e] H. rewrite Hol in H. by apply elem_of_map_to_list in H. }
  unfold loadLastDeliveries, attempt. rewrite DecodeMapLen_entries; [|apply Hol|done|].
  2: { apply Forall_forall. intros [k e] H. apply Hin in H. destruct (HL k e H) as [Hk _]. destruct (key_ok_decode k Hk) as (h & Hd & _).
       unfold last_entry. cbn [fst snd]. rewrite Hd. by apply (entry_pos k). }
  rewrite Nat2Z.id, <- (size_order _ _ (Hol (map_to_list (lastDeliveries b)))).
  rewrite (entries_fold _ last_entry (fun c p => set_last (<[p.1 := p.2]> (lastDeliveries c)) c)).
  - rewrite set_last_fold, Hc. by rewrite (inserts_perm _ (lastDeliveries b)) by apply Hol.
  - apply Forall_forall. intros [k e] H c' r'. apply load_last_entry. by apply Hin in H.
Qed.

(** Peers without tickets are not in the file's effect. *)
Definition with_tickets (m : gmap bytes (gmap bytes Z)) : gmap bytes (gmap bytes Z) := filter (fun p => p.2 <> ∅) m.

Lemma inserts_with_tickets : inserts (List.filter (fun p => bool_decide (p.2 <> ∅)) (ord_in o (map_to_list (inbound b)))) ∅
  = with_tickets (inbound b).
Proof.
  destruct Ho as (_ & Hoi & _). set (l := ord_in o (map_to_list (inbound b))).
  assert (NoDup l.*1) as Hn by (unfold l; rewrite Hoi; apply NoDup_fst_map_to_list).
  assert (forall l : list (bytes * gmap bytes Z), List.filter (fun p => bool_decide (p.2 <> ∅)) l = filter (fun p => p.2 <> ∅) l) as ->.
  { clear. intros l. induction l as [|p l IH]; [done|]. cbn [List.filter]. rewrite filter_cons, IH. by repeat case_match; bool_hyps. }
  apply map_eq. intros k. rewrite inserts_lookup, lookup_empty.
  2: { eapply sublist_NoDup; [exact Hn|]. apply fmap_sublist, sublist_filter. }
  unfold with_tickets. apply option_eq. intros m.
  assert (list_to_map (M := gmap bytes (gmap bytes Z)) (filter (λ p : bytes * gmap bytes Z, p.2 ≠ ∅) l) !! k = Some m
          <-> (k, m) ∈ filter (fun p => p.2 <> ∅) l) as Hl.
  { symmetry. apply elem_of_list_to_map. eapply sublist_NoDup; [exact Hn|]. apply fmap_sublist, sublist_filter. }
  rewrite map_lookup_filter_Some. 
  assert ((k, m) ∈ l <-> inbound b !! k = Some m) as Hlm by (unfold l; by rewrite Hoi, elem_of_map_to_list).
  rewrite list_elem_of_filter, Hlm in Hl. clear Hlm.
  destruct (list_to_map _ !! k) as [m'|]; [rewrite Hl; naive_solver|]. split; [done|]. intros H. apply Hl. naive_solver.
Qed.

Lemma inbound_loaded c r : inbound c = ∅ ->
  loadInboundTickets ParseFloat after_error c (EncodeMapLen (Z.of_nat (size (inbound b)))
    ++ concat (map (in_entry o) (ord_in o (map_to_list (inbound b)))) ++ r) = (set_inbound (with_tickets (inbound b)) c, r, true).
Proof.
  intros Hc. pose proof Ho as (_ & Hoi & _). pose proof Hsmall as (_ & Hs & _). pose proof Hwf as (_ & HI & _).
  assert (forall p, p ∈ ord_in o (map_to_list (inbound b)) -> inbound b !! p.1 = Some p.2) as Hin.
  { intros [k e] H. rewrite Hoi in H. by apply elem_of_map_to_list in H. }
  unfold loadInboundTickets, attempt. rewrite DecodeMapLen_entries; [|apply Hoi|done|].
  2: { apply Forall_forall. intros [k e] H. apply Hin in H. destruct (HI k e H) as [Hk _]. destruct (key_ok_decode k Hk) as (h & Hd & _).
       unfold in_entry. cbn [fst snd]. rewrite Hd. by apply (entry_pos k). }
  rewrite Nat2Z.id, <- (size_order _ _ (Hoi (map_to_list (inbound b)))).
  rewrite (entries_fold _ (in_entry o) add_peer).
  - rewrite add_peers_fold; [|rewrite Hoi; apply NoDup_fst_map_to_list|intros; by rewrite Hc].
    rewrite Hc. by rewrite inserts_with_tickets.
  - apply Forall_forall. intros [k e] H c' r'. apply load_in_entry. by apply Hin in H.
Qed.

Lemma clean_with_tickets now c : with_tickets (inbound b) = inbound c ->
  outbound c = outbound b -> lastDeliveries c = lastDeliveries b ->
  cleanLocked now c = set_storage (storage c) (cleanLocked now b).
Proof.
  intros Hi Hou Hl. unfold cleanLocked, set_storage. cbn [outbound inbound lastDeliveries]. rewrite Hou, Hl, <- Hi. f_equal.
  apply map_eq. intros k. apply option_eq. intros m. rewrite !map_lookup_filter_Some, !lookup_fmap. unfold with_tickets. cbn [snd].
  split; intros [H Hne]; (split; [|done]); apply fmap_Some in H as (m' & Hm' & ->).
  - apply map_lookup_filter_Some in Hm' as [-> _]. done.
  - rewrite (proj2 (map_lookup_filter_Some _ _ _ m')); [done|]. split; [done|]. cbn. intros ->. apply Hne. apply map_filter_empty.
Qed.
End persistence.

(** C29: the ticket book survives a restart.  A book of well-formed tickets, saved
    in whatever order the maps are walked and loaded by a new book, is the old one
    without the tickets that have expired by then; whatever the decoder does after
    errors, there are none. *)
Theorem lxmf_tickets_saved ParseFloat after_error o b now :
  good_orders o -> wf_book b -> small_book b ->
  newTicketBook ParseFloat after_error now (Some (Some (book_file o b)))
  = set_storage (Some (Some (book_file o b))) (cleanLocked now b).
Proof.
  intros Ho Hwf Hs. unfold newTicketBook, load. cbn [storage]. set (file := Some (Some (book_file o b))).
  unfold book_file at 1. rewrite DecodeMapLen_enc; [|lia|].
  2: { rewrite len_app. pose proof (len_nonneg (EncodeMapLen (Z.of_nat (size (outbound b)))
         ++ concat (map out_entry (ord_out o (map_to_list (outbound b)))) ++ EncodeString (lit "inbound")
         ++ EncodeMapLen (Z.of_nat (size (inbound b))) ++ concat (map (in_entry o) (ord_in o (map_to_list (inbound b))))
         ++ EncodeString (lit "last_deliveries") ++ EncodeMapLen (Z.of_nat (size (lastDeliveries b)))
         ++ concat (map last_entry (ord_last o (map_to_list (lastDeliveries b)))))).
       change (len (EncodeString (lit "outbound"))) with 9. lia. }
  rewrite <- (app_nil_r (concat (map last_entry _))).
  change (Z.to_nat 3) with 3%nat. cbn [entries]. unfold load_section, attempt.
  rewrite DecodeString_enc by (vm_compute; done). rewrite bool_decide_eq_true_2 by done.
  rewrite (outbound_loaded ParseFloat after_error o b Ho Hwf Hs (mkBook ∅ ∅ ∅ file)) by done. cbn [fst].
  rewrite DecodeString_enc by (vm_compute; done). rewrite bool_decide_eq_false_2, bool_decide_eq_true_2 by done.
  rewrite (inbound_loaded ParseFloat after_error o b Ho Hwf Hs) by done. cbn [fst].
  rewrite DecodeString_enc by (vm_compute; done). rewrite 2!bool_decide_eq_false_2, bool_decide_eq_true_2 by done.
  rewrite (last_loaded ParseFloat after_error o b Ho Hwf Hs) by done. cbn [fst].
  by rewrite (clean_with_tickets b).
Qed.

Definition id_orders : orders := mkOrders id id (fun _ => id) id.

Lemma id_orders_good : good_orders id_orders.
Proof. repeat split; done. Qed.

(** A book with a ticket in each direction. *)
Definition example_book : ticketBook :=
  mkBook {[ peerKey (make_bytes 16) := mkOutbound (f64_bits_of_int 2000) (replicate 16 x07) ]}
    {[ peerKey (make_bytes 16) := {[ peerKey (replicate 16 x09) := f64_bits_of_int 3000 ]} ]} ∅ (Some None).

Lemma example_book_wf : wf_book example_book /\ small_book example_book.
Proof.
  assert (key_ok (peerKey (make_bytes 16)) /\ key_ok (peerKey (replicate 16 x09))) as [K1 K2] by (split; [by exists (make_bytes 16)|by exists (replicate 16 x09)]).
  unfold wf_book, small_book, example_book. cbn [outbound inbound lastDeliveries].
  rewrite !map_Forall_singleton, !map_size_singleton, map_size_empty.
  repeat split; try done; apply map_Forall_empty.
Qed.

Lemma lxmf_tickets_saved_witness :
  let parse := fun _ => (0, false) in let file := Some (Some (book_file id_orders example_book)) in
  newTicketBook parse id 2500 file = set_storage file (cleanLocked 2500 example_book)
  /\ outbound (newTicketBook parse id 2500 file) = ∅
  /\ inbound (newTicketBook parse id 2500 file) = inbound example_book.
Proof.
  cbv zeta. destruct example_book_wf as [Hw Hs].
  rewrite (lxmf_tickets_saved (fun _ => (0, false)) id id_orders example_book 2500 id_orders_good Hw Hs). repeat split; vm_compute; reflexivity.
Defined.

(** ** Redeeming a ticket *)

Lemma inboundTickets_elem order now dest b k e t :
  (forall l, order l ≡ₚ l) -> default ∅ (inbound b !! peerKey dest) !! k = Some e -> hexDecodeKey k = Some t ->
  fltb (f_of_Z now) (f64_of_bits e) = true -> t ∈ inboundTickets order now dest b.
Proof.
  intros Ho Hk Hd He. unfold inboundTickets. apply list_elem_of_omap. exists (k, e). split.
  - rewrite Ho. by apply elem_of_map_to_list.
  - cbn. by rewrite He.
Qed.

Lemma generated_known o disk order random now dest expiry b b' e t :
  (forall l, order l ≡ₚ l) -> (forall r, random = Some r -> len r = TicketLength) ->
  generateTicket o disk order random now dest expiry b = (b', Some (e, t)) ->
  exists k, default ∅ (inbound b' !! peerKey dest) !! k = Some e /\ hexDecodeKey k = Some t.
Proof.
  intros Ho Hr. unfold generateTicket. destruct (match _ with Some _ => _ | None => _ end); [done|].
  destruct (head _) as [r|] eqn:Eh.
  - intros [= <- ->]. apply head_Some_elem_of in Eh. apply list_elem_of_omap in Eh as ([k x] & Hin & Hx).
    rewrite Ho in Hin. apply elem_of_map_to_list in Hin. cbn in Hx. destruct (f_after _ _); [|done].
    destruct (hexDecodeKey k) as [t'|] eqn:Ek; [|done]. cbn in Hx. injection Hx as -> ->. eauto.
  - destruct random as [r|]; [|done]. intros [= <- <- <-]. exists (peerKey r).
    rewrite (hexDecodeKey_peerKey r) by (by apply Hr). split; [|done].
    match goal with |- context [saveLocked o disk ?c] => assert (inbound (saveLocked o disk c) = inbound c) as -> by (unfold saveLocked; repeat case_match; done) end.
    cbn [inbound]. rewrite lookup_insert_eq. cbn. by rewrite lookup_insert_eq.
Qed.

(** C35: a ticket replaces the proof of work.  While a ticket handed out to a peer
    has not expired, a message from that peer whose stamp was derived from it is
    valid at any cost, with the ticket's stamp value, whatever the other tickets
    are and whether the ticket is new or an older one handed out again. *)
Theorem lxmf_ticket_redeemed o disk order order2 random now now2 dest expiry b b' e t workblock cost m :
  (forall l, order l ≡ₚ l) -> (forall l, order2 l ≡ₚ l) -> (forall r, random = Some r -> len r = TicketLength) ->
  generateTicket o disk order random now dest expiry b = (b', Some (e, t)) ->
  fltb (f_of_Z now2) (f64_of_bits e) = true ->
  0 < len (Hash m) -> Stamp m = truncatedHash t (Hash m) ->
  ValidateStamp workblock cost (inboundTickets order2 now2 dest b') m
  = (set_StampValid true (set_StampValue StampValueTicket m), Ok true).
Proof.
  intros Ho Ho2 Hr Hg He Hh Hs. destruct (generated_known _ _ _ _ _ _ _ _ _ _ _ Ho Hr Hg) as (k & Hk & Hd).
  pose proof (inboundTickets_elem order2 now2 dest b' k e t Ho2 Hk Hd He) as Hin.
  assert (len t = TicketLength) as Ht.
  { revert Hd. unfold hexDecodeKey. cbv zeta. destruct (negb _) eqn:E; [done|]. bool_hyps.
    destruct (hex_Decode (TrimSpace k)) as [h|] eqn:Ed; [|done]. intros [= ->].
    assert (forall s h, hex_Decode s = Ok h -> len s = 2 * len h) as Hlen.
    { clear. fix IH 1. intros [|p [|q s]] h; cbn [hex_Decode].
      - by intros [= <-].
      - by destruct (hex_value p).
      - destruct (hex_value p); [|done]. destruct (hex_value q); [|done]. intros H. res_inv.
        match goal with H : hex_Decode s = Ok _ |- _ => apply IH in H end. rewrite !len_cons. lia. }
    apply Hlen in Ed. unfold DestinationLength, TicketLength in *. lia. }
  unfold ValidateStamp. rewrite (proj2 (Z.eqb_neq (len (Hash m)) 0)) by lia.
  assert (0 < len (Stamp m)) as Hst.
  { rewrite Hs. unfold truncatedHash, DestinationLength. rewrite len_ztake; [lia|]. unfold len. rewrite length_sha256. lia. }
  rewrite (proj2 (Z.ltb_lt 0 (len (Stamp m)))) by lia.
  assert (0 < len (inboundTickets order2 now2 dest b')) as Hn.
  { destruct (inboundTickets _ _ _ _) as [|x l]; [by apply not_elem_of_nil in Hin|]. rewrite len_cons. pose proof (len_nonneg l). lia. }
  rewrite (proj2 (Z.ltb_lt 0 _)) by lia. cbn [andb].
  assert (existsb (fun t => (len t =? TicketLength) && bool_decide (truncatedHash t (Hash m) = Stamp m))
            (inboundTickets order2 now2 dest b') = true) as ->; [|done].
  apply existsb_exists. exists t. split; [by apply list_elem_of_In|]. rewrite Ht, Hs. cbn. by apply bool_decide_eq_true_2.
Qed.

Lemma lxmf_ticket_redeemed_witness :
  let t := replicate 16 x05 in let d := make_bytes 16 in
  let m := set_Stamp (truncatedHash t (make_bytes 32)) (set_Hash (make_bytes 32) (example_message [])) in
  let b' := (generateTicket id_orders true id (Some t) 1000 d (f64_bits_of_int TicketExpirySecs) (mkBook ∅ ∅ ∅ None)).1 in
  (ValidateStamp (fun _ _ => Err ErrMaterial) 200 (inboundTickets id 2000 d b') m).2 = Ok true
  /\ inboundTickets id 2000 d b' = [t].
Proof.
  cbv zeta. split; [|vm_compute; reflexivity].
  rewrite (lxmf_ticket_redeemed id_orders true id id (Some (replicate 16 x05)) 1000 2000 (make_bytes 16) (f64_bits_of_int TicketExpirySecs)
    (mkBook ∅ ∅ ∅ None) _ (f64_bits_of_int (1000 + TicketExpirySecs)) (replicate 16 x05));
    [done|done|done|by intros r [= <-]|vm_compute; reflexivity|vm_compute; reflexivity|vm_compute; reflexivity|reflexivity].
Defined.

(** ** Tickets that never arrive *)

Lemma received_field k v m : ascends (default [] (Fields m)).*1 = true -> (k, v) ∈ default [] (Fields m) ->
  field_lookup k (received_fields (Fields m)) = Some (received false v).
Proof.
  intros Ha Hin. unfold field_lookup, received_fields. apply put_all_elem.
  - replace ((map (fun p : byte * mval => (p.1, received false p.2)) (default [] (Fields m))).*1) with (default [] (Fields m)).*1.
    + apply sorted_NoDup, sorted_keys, ascends_sorted, Ha.
    + unfold fmap. change list_fmap with map. by rewrite map_map.
  - apply list_elem_of_fmap. by exists (k, v).
Qed.

(** A ticket sent as FIELD_TICKET is never remembered.  The receiver decodes the
    bytes inside the field's array as text, and the ticket book only takes bytes:
    whatever the two ends do with the orders of maps, and whoever signed, the
    receiver's book does not change. *)
Theorem lxmf_ticket_field_lost ParseFloat o disk order order' order2 now now2 signer resolver m m1 packed m2 err e t rest b :
  (forall v, reorders v (order v)) -> (forall v, reorders v (order' v)) -> (forall v, reorders v (order2 v)) ->
  packable now m = true -> (FieldTicket, MArr (e :: MBin t :: rest)) ∈ default [] (Fields m) ->
  Pack order order' now signer m = (m1, Ok packed) -> Unpack order2 resolver packed = (Some m2, err) ->
  GetField FieldTicket m2 = Some (MArr (received true e :: MStr t :: map (received true) rest))
  /\ rememberTicketField ParseFloat o disk now2 m2 b = b.
Proof.
  intros Ho Ho' Ho2 Hm Hf Hp Hu. destruct (arrived _ _ _ _ _ _ _ _ _ _ _ Ho Ho' Ho2 Hm Hp Hu) as (HF & _).
  assert (GetField FieldTicket m2 = Some (MArr (received true e :: MStr t :: map (received true) rest))) as HG.
  { unfold GetField. rewrite HF. apply (received_field FieldTicket (MArr (e :: MBin t :: rest))); [|done].
    unfold packable in Hm. bool_hyps. destruct (Fields m); [|done]. cbn [fields_value plain default] in *. by bool_hyps. }
  split; [done|]. unfold rememberTicketField. rewrite HG. destruct (negb (SignatureValidated m2)); [done|]. cbn. by rewrite orb_true_r.
Qed.

(** A message that carries a ticket. *)
Definition ticket_message : LXMessage :=
  SetField FieldTicket (MArr [MF64 (f64_bits_of_int 5000); MBin (replicate 16 x05)]) (example_message []).

Definition ticket_packed : bytes := Eval vm_compute in
  match (Pack id id 1500000000 (Some toy_sign) ticket_message).2 with Ok b => b | Err _ => [] end.

Lemma lxmf_ticket_field_lost_witness : exists m1 m2,
  Pack id id 1500000000 (Some toy_sign) ticket_message = (m1, Ok ticket_packed)
  /\ Unpack id (Some (fun _ => Known toy_verify)) ticket_packed = (Some m2, None)
  /\ SignatureValidated m2 = true
  /\ rememberTicketField (fun _ => (0, false)) id_orders true 1 m2 example_book = example_book.
Proof.
  assert ((Pack id id 1500000000 (Some toy_sign) ticket_message).2 = Ok ticket_packed) as H0 by (vm_compute; reflexivity).
  assert ((Unpack id (Some (fun _ => Known toy_verify)) ticket_packed).2 = None
          /\ SignatureValidated <$> (Unpack id (Some (fun _ => Known toy_verify)) ticket_packed).1 = Some true) as [H1 H2]
    by (vm_compute; split; reflexivity).
  destruct (Pack id id 1500000000 (Some toy_sign) ticket_message) as [m1 r] eqn:E. cbn [snd] in H0. rewrite H0 in E.
  destruct (Unpack id (Some (fun _ => Known toy_verify)) ticket_packed) as [[m2|] e] eqn:E2; cbn [fst snd] in H1, H2; [|discriminate H2].
  rewrite H1 in E2. exists m1, m2. subst r e. split; [reflexivity|]. split; [reflexivity|]. split; [by injection H2|].
  apply (lxmf_ticket_field_lost (fun _ => (0, false)) id_orders true id id id 1500000000 1 (Some toy_sign) (Some (fun _ => Known toy_verify))
    ticket_message m1 ticket_packed m2 None (MF64 (f64_bits_of_int 5000)) (replicate 16 x05) [] example_book
    reorders_refl reorders_refl reorders_refl).
  - vm_compute. reflexivity.
  - apply list_elem_of_In. vm_compute. auto.
  - exact E.
  - exact E2.
Defined.
