(* ===== verification/LxmfMessenger.v ===== *)
(** * The LXMF messenger ([lxmf/messenger.go])

    Outbound messages are given the stamp the recipient asks for (a ticket's or a
    proof of work) and packed; inbound ones are unpacked, checked against the
    required stamp cost and handed to the application once per message id.

    Identities, encryption and the transport are parameters, as are the clock
    (Unix seconds, [unix]; their conversion to float64 is exact and so are the
    differences, so the delivery times are kept as integers), the random bytes and
    the orders of maps. *)

From stdpp Require Import base tactics list gmap strings.
From Stdlib Require Import ZArith Lia.
From S2P Require Import Prelude HexHash GoFloat Sha256 Msgpack MsgValue LxmfStamp LxmfMessage LxmfTicket.

Definition messageExpirySeconds : Z := 30 * 24 * 60 * 60.

(** ** State *)

Record Messenger := mkMessenger {
  localHash : bytes;                       (** [m.DestinationHash()] *)
  resolver : bytes -> resolution;
  handler : bool;                          (** a handler is set *)
  deliveredTIDs : gmap bytes Z;
  tickets : ticketBook;
  stampCosts : stampCostBook;
  inboundStampCost : option Z;
  enforceStamps : bool;
  handled : list (Z * LXMessage);          (** calls of the handler, with the time of their mark *)
  recvErrors : list lxmf_err               (** calls of [onRecvErr] *)
}.

Definition Messenger_eta (m : Messenger) : Messenger :=
  mkMessenger (localHash m) (resolver m) (handler m) (deliveredTIDs m) (tickets m) (stampCosts m) (inboundStampCost m)
    (enforceStamps m) (handled m) (recvErrors m).

Definition set_handler : bool -> Messenger -> Messenger := ltac:(field_setter Messenger_eta handler).
Definition set_resolver : (bytes -> resolution) -> Messenger -> Messenger := ltac:(field_setter Messenger_eta resolver).
Definition set_deliveredTIDs : gmap bytes Z -> Messenger -> Messenger := ltac:(field_setter Messenger_eta deliveredTIDs).
Definition set_tickets : ticketBook -> Messenger -> Messenger := ltac:(field_setter Messenger_eta tickets).
Definition set_stampCosts : stampCostBook -> Messenger -> Messenger := ltac:(field_setter Messenger_eta stampCosts).
Definition set_inboundStampCost : option Z -> Messenger -> Messenger := ltac:(field_setter Messenger_eta inboundStampCost).
Definition set_enforceStamps : bool -> Messenger -> Messenger := ltac:(field_setter Messenger_eta enforceStamps).
Definition set_handled : list (Z * LXMessage) -> Messenger -> Messenger := ltac:(field_setter Messenger_eta handled).
Definition set_recvErrors : list lxmf_err -> Messenger -> Messenger := ltac:(field_setter Messenger_eta recvErrors).

Definition NewMessenger (hash : bytes) (recall : bytes -> resolution) : Messenger :=
  mkMessenger hash recall false ∅ (mkBook ∅ ∅ ∅ None) (mkCosts ∅ None) None false [] [].

Definition SetMessageHandler (h : bool) (m : Messenger) : Messenger := set_handler h m.

(** [recall]: [RecallSource], taken for nil. *)
Definition SetSourceResolver (recall : bytes -> resolution) (r : option (bytes -> resolution)) (m : Messenger) : Messenger :=
  set_resolver (default recall r) m.

Definition SetInboundStampCost (cost : option Z) (m : Messenger) : Messenger :=
  set_inboundStampCost (match cost with Some c => if (c <? 1) || (255 <=? c) then None else Some c | None => None end) m.

Definition EnforceStamps (enabled : bool) (m : Messenger) : Messenger := set_enforceStamps enabled m.

Definition SetStoragePath (ParseFloat : bytes -> Z * bool) (after_error : bytes -> bytes) (not_int64 : f64 -> Z) (unix : Z)
    (tfile cfile : option bytes) (m : Messenger) : Messenger :=
  set_stampCosts (newStampCostBook ParseFloat after_error not_int64 unix (Some cfile))
    (set_tickets (newTicketBook ParseFloat after_error unix (Some tfile)) m).

(** [ReceivedAnnounce] of the announce handler; [announced]: what
    [StampCostFromAppData] makes of the app data ([None]: an error). *)
Definition ReceivedAnnounce (order : list (bytes * stampCostEntry) -> list (bytes * stampCostEntry)) (disk : bool) (unix : Z)
    (destHash : bytes) (announced : option (Z * bool)) (m : Messenger) : Messenger :=
  match announced with
  | None => m
  | Some (c, ok) => set_stampCosts (update order disk unix destHash c ok (stampCosts m)) m
  end.

(** ** Delivered messages *)

Definition noteDelivered (unix : Z) (lxmfData : bytes) (m : Messenger) : Messenger :=
  if len lxmfData <? DestinationLength then m
  else
    set_deliveredTIDs
      (filter (fun p => negb (messageExpirySeconds * 6 <? unix - p.2) = true)
         (<[hex_Encode (sha256 lxmfData) := unix]> (deliveredTIDs m))) m.

Definition hasDelivered (transientID : bytes) (m : Messenger) : bool :=
  match deliveredTIDs m !! hex_Encode transientID with Some _ => true | None => false end.

(** Nil for what is not for this destination. *)
Definition directInner (data : bytes) (m : Messenger) : bytes :=
  if len data <=? DestinationLength then []
  else if negb (bool_decide (ztake DestinationLength data = localHash m)) then []
  else zdrop DestinationLength data.

(** ** Inbound *)

(** What a call of [onPacket] meets: orders, the disk, the clock at its three
    readings, and the library. *)
Record surroundings := mkSurroundings {
  s_fields : mval -> mval;
  s_tickets : list (bytes * Z) -> list (bytes * Z);
  s_orders : orders;
  s_disk : bool;
  s_ticket_time : Z;
  s_stamp_time : Z;
  s_mark_time : Z;
  s_workblock : bytes -> Z -> res stamp_error bytes;
  s_ParseFloat : bytes -> Z * bool
}.

Definition receiveError (e : lxmf_err) (m : Messenger) : Messenger := set_recvErrors (recvErrors m ++ [e]) m.

(** The stamp check: the message with its verdict, [None] when it is dropped. *)
Definition check_stamp (s : surroundings) (m : Messenger) (msg : LXMessage) : option LXMessage :=
  match inboundStampCost m with
  | Some c =>
      if 0 <? c then
        let '(msg, ok) := ValidateStamp (s_workblock s) c (inboundTickets (s_tickets s) (s_stamp_time s) (SourceHash msg) (tickets m)) msg in
        let msg := match ok with Ok ok => set_StampValid ok msg | Err _ => msg end in
        if negb (StampValid_ msg) && enforceStamps m then None else Some msg
      else Some msg
  | None => Some msg
  end.

(** Handing over a message unless its id was seen; the id is marked under the
    lock. *)
Definition deliver (s : surroundings) (msg : LXMessage) (m : Messenger) : Messenger :=
  let hand m := if handler m then set_handled (handled m ++ [(s_mark_time s, msg)]) m else m in
  if 0 <? len (Hash msg) then
    let hashKey := hex_Encode (Hash msg) in
    match deliveredTIDs m !! hashKey with
    | Some _ => m
    | None => hand (set_deliveredTIDs (<[hashKey := s_mark_time s]> (deliveredTIDs m)) m)
    end
  else hand m.

Definition onPacket (s : surroundings) (plaintext : bytes) (m : Messenger) : Messenger :=
  if len plaintext <? DestinationLength + SignatureLength then receiveError ErrMessageTooShort m
  else
    match UnpackFromBytes (s_fields s) (Some (resolver m)) (localHash m) plaintext with
    | (None, e) => match e with Some e => receiveError e m | None => m end
    | (Some msg, _) =>
        let m := set_tickets (rememberTicketField (s_ParseFloat s) (s_orders s) (s_disk s) (s_ticket_time s) msg (tickets m)) m in
        match check_stamp s m msg with
        | None => m
        | Some msg => deliver s msg m
        end
    end.

(** A packet on a delivery link, or a resource of one. *)
Definition onLinkPacket (s : surroundings) (unix : Z) (data : bytes) (m : Messenger) : Messenger :=
  let m := noteDelivered unix data m in onPacket s (directInner data m) m.

(** [Receive] on a data packet; [plaintext]: its decryption. *)
Definition Receive (s : surroundings) (unix : Z) (plaintext : option bytes) (data : bytes) (m : Messenger) : Messenger :=
  match plaintext with
  | None => receiveError ErrEncrypt m
  | Some p => onPacket s p (noteDelivered unix (localHash m ++ data) m)
  end.

(** ** Outbound *)

Definition prepareOutbound (o : orders) (disk : bool) (order : list (bytes * Z) -> list (bytes * Z)) (random : option bytes) (unix : Z)
    (m : Messenger) (msg : LXMessage) : Messenger * LXMessage :=
  let msg := match StampCost msg with
             | Some _ => msg
             | None => match get (DestinationHash msg) (stampCosts m) with
                       | Some c => if 0 <? c then set_StampCost (Some c) msg else msg
                       | None => msg
                       end
             end in
  let msg := if len (OutboundTicket msg) =? 0
             then set_OutboundTicket (default [] (outboundTicket unix (DestinationHash msg) (tickets m))) msg else msg in
  if IncludeTicket msg then
    match generateTicket o disk order random unix (DestinationHash msg) (f64_bits_of_int TicketExpirySecs) (tickets m) with
    | (b, Some (e, t)) => (set_tickets b m, SetField FieldTicket (MArr [MF64 e; MBin t]) msg)
    | (b, None) => (set_tickets b m, msg)
    end
  else (m, msg).

(** [generate]: [GenerateStamp] within the time there is. *)
Definition stampOutbound (generate : bytes -> Z -> Z -> res stamp_error (bytes * Z)) (msg : LXMessage) : LXMessage * res lxmf_err bool :=
  if len (OutboundTicket msg) =? TicketLength then
    (set_StampValid true (set_StampValue StampValueTicket (set_Stamp (truncatedHash (OutboundTicket msg) (Hash msg)) msg)), Ok true)
  else
    match StampCost msg with
    | Some c =>
        if (0 <? len (Stamp msg)) || (c <=? 0) then (msg, Ok false)
        else match generate (Hash msg) c WorkblockExpandRounds with
        | Err _ => (msg, Err ErrStampGeneration)
        | Ok (stamp, value) => (set_StampValid true (set_StampValue value (set_Stamp stamp msg)), Ok true)
        end
    | None => (msg, Ok false)
    end.

(** The orders of the two encodings of each of the two calls of [Pack], and their
    clocks in nanoseconds. *)
Record packing := mkPacking {
  p_first : mval -> mval; p_first' : mval -> mval; p_second : mval -> mval; p_second' : mval -> mval;
  p_now : Z; p_now' : Z
}.

(** Packing, stamping, and packing again with the stamp. *)
Definition pack_stamped (p : packing) (sign : bytes -> option bytes) (generate : bytes -> Z -> Z -> res stamp_error (bytes * Z))
    (msg : LXMessage) : LXMessage * option lxmf_err :=
  match Pack (p_first p) (p_first' p) (p_now p) (Some sign) msg with
  | (msg, Err e) => (msg, Some e)
  | (msg, Ok _) =>
      match stampOutbound generate msg with
      | (msg, Err e) => (msg, Some e)
      | (msg, Ok false) => (msg, None)
      | (msg, Ok true) =>
          match Pack (p_second p) (p_second' p) (p_now' p) (Some sign) msg with
          | (msg, Err e) => (msg, Some e)
          | (msg, Ok _) => (msg, None)
          end
      end
  end.

Inductive send_error := ErrHash | ErrDestinationUnknown | ErrPacking (e : lxmf_err) | ErrNoPayload | ErrEncryption | ErrTransport.

Definition StateSent : Z := 0x04.

Definition set_State : Z -> LXMessage -> LXMessage := ltac:(field_setter Msg_eta State).

(** [recall]: the encryption to the identity behind a hash, if it is known;
    [transmit]: the transport takes the packet. *)
Definition send (o : orders) (disk : bool) (order : list (bytes * Z) -> list (bytes * Z)) (random : option bytes) (unix : Z)
    (p : packing) (sign : bytes -> option bytes) (generate : bytes -> Z -> Z -> res stamp_error (bytes * Z))
    (recall : bytes -> option (bytes -> option bytes)) (transmit : bytes -> bool)
    (m : Messenger) (msg : LXMessage) : Messenger * LXMessage * res send_error bytes :=
  if negb (len (DestinationHash msg) =? DestinationLength) then (m, msg, Err ErrHash)
  else
    match recall (DestinationHash msg) with
    | None => (m, msg, Err ErrDestinationUnknown)
    | Some encrypt =>
        let '(m, msg) := prepareOutbound o disk order random unix m msg in
        match pack_stamped p sign generate msg with
        | (msg, Some e) => (m, msg, Err (ErrPacking e))
        | (msg, None) =>
            match EncryptedPayload msg with
            | Some (Ok inner) =>
                match encrypt inner with
                | None => (m, msg, Err ErrEncryption)
                | Some data =>
                    if transmit data
                    then (m, set_State StateSent (set_Representation RepresentationPacket (set_Method MethodOpportunistic msg)), Ok data)
                    else (m, msg, Err ErrTransport)
                end
            | _ => (m, msg, Err ErrNoPayload)
            end
        end
    end.

(** ** At most one delivery per message id *)

Inductive event :=
| EvReceive (s : surroundings) (unix : Z) (plaintext : option bytes) (data : bytes)
| EvLink (s : surroundings) (unix : Z) (data : bytes)
| EvHandler (h : bool)
| EvStampCost (c : option Z)
| EvEnforce (b : bool).

Definition step (m : Messenger) (e : event) : Messenger :=
  match e with
  | EvReceive s unix p d => Receive s unix p d m
  | EvLink s unix d => onLinkPacket s unix d m
  | EvHandler h => SetMessageHandler h m
  | EvStampCost c => SetInboundStampCost c m
  | EvEnforce b => EnforceStamps b m
  end.

(** The clock during an event, and during a sequence of them. *)
Definition ev_times (e : event) : list Z :=
  match e with EvReceive s unix _ _ | EvLink s unix _ => [unix; s_mark_time s] | _ => [] end.

Fixpoint clock_ok (t : Z) (l : list Z) : Prop :=
  match l with [] => True | t' :: l => t <= t' /\ clock_ok t' l end.

Definition window : Z := messageExpirySeconds * 6.

(** By time [t], the marks of the messages handed over are in place or too old,
    and messages with the same id are a window apart. *)
Definition marked (t : Z) (m : Messenger) : Prop :=
  (forall t0 msg, (t0, msg) ∈ handled m -> t0 <= t /\ 0 < len (Hash msg)
     /\ ((exists ts, deliveredTIDs m !! hex_Encode (Hash msg) = Some ts /\ t0 <= ts) \/ window < t - t0))
  /\ (forall i j t1 t2 m1 m2, (i < j)%nat -> handled m !! i = Some (t1, m1) -> handled m !! j = Some (t2, m2) ->
      Hash m1 = Hash m2 -> window < t2 - t1).

Lemma marked_same t t' m m' : t <= t' -> handled m' = handled m -> deliveredTIDs m' = deliveredTIDs m -> marked t m -> marked t' m'.
Proof.
  intros Ht Hh Hd [H1 H2]. split; rewrite Hh; [|exact H2]. rewrite Hd.
  intros t0 msg Hin. destruct (H1 t0 msg Hin) as (? & ? & [?|?]); (split; [lia|]); (split; [done|]); [by left|right; lia].
Qed.

Lemma marked_note t unix data m : t <= unix -> marked t m -> marked unix (noteDelivered unix data m).
Proof.
  intros Ht [H1 H2]. unfold noteDelivered. destruct (len data <? _); [by apply (marked_same t unix m)|].
  split; [|exact H2]. intros t0 msg Hin. destruct (H1 t0 msg Hin) as (? & Hl & Hm). split; [lia|]. split; [done|].
  cbn [deliveredTIDs set_deliveredTIDs]. set (k := hex_Encode (Hash msg)) in *. set (k' := hex_Encode (sha256 data)).
  destruct Hm as [(ts & Hts & Hle)|?]; [|right; lia].
  assert (exists ts', <[k' := unix]> (deliveredTIDs m) !! k = Some ts' /\ t0 <= ts') as (ts' & Hts' & Hle').
  { destruct (decide (k' = k)) as [->|Hne]; [rewrite lookup_insert_eq|rewrite lookup_insert_ne by done; eauto]. exists unix. split; [done|lia]. }
  destruct (messageExpirySeconds * 6 <? unix - ts') eqn:E; bool_hyps.
  - right. unfold window. lia.
  - left. exists ts'. split; [|done]. apply map_lookup_filter_Some. split; [done|]. cbn. by rewrite (proj2 (Z.ltb_ge _ _)) by lia.
Qed.

Lemma marked_deliver t s msg m : t <= s_mark_time s -> 0 < len (Hash msg) -> marked t m -> marked (s_mark_time s) (deliver s msg m).
Proof.
  intros Ht Hl Hm. unfold deliver. rewrite (proj2 (Z.ltb_lt 0 _)) by done. cbv zeta.
  destruct (deliveredTIDs m !! hex_Encode (Hash msg)) as [ts|] eqn:E; [by apply (marked_same t _ m)|].
  destruct Hm as [H1 H2].
  assert (forall t0 msg0, (t0, msg0) ∈ handled m -> Hash msg0 = Hash msg -> window < t - t0) as Hold.
  { intros t0 msg0 Hin Hh. destruct (H1 t0 msg0 Hin) as (_ & _ & [(ts & Hts & _)|?]); [|done]. rewrite Hh in Hts. congruence. }
  assert (forall t0 msg0, (t0, msg0) ∈ handled m -> t0 <= s_mark_time s /\ 0 < len (Hash msg0)
     /\ ((exists ts, <[hex_Encode (Hash msg) := s_mark_time s]> (deliveredTIDs m) !! hex_Encode (Hash msg0) = Some ts /\ t0 <= ts)
         \/ window < s_mark_time s - t0)) as Hkeep.
  { intros t0 msg0 Hin. destruct (H1 t0 msg0 Hin) as (? & ? & [(ts & Hts & ?)|?]); (split; [lia|]); (split; [done|]); [|right; lia].
    left. exists ts. split; [|done]. rewrite lookup_insert_ne; [done|]. intros Heq. rewrite <- Heq in Hts. congruence. }
  destruct (handler _) eqn:Eh; [|by split; [exact Hkeep|exact H2]].
  cbn [handled set_deliveredTIDs set_handled deliveredTIDs]. split.
  - cbn [handled set_deliveredTIDs set_handled deliveredTIDs]. intros t0 msg0 Hin. apply elem_of_app in Hin as [Hin|Hin]; [by apply Hkeep|].
    apply list_elem_of_singleton in Hin. injection Hin as -> ->. split; [lia|]. split; [done|]. left. rewrite lookup_insert_eq. eauto with lia.
  - cbn [handled set_deliveredTIDs set_handled]. intros i j t1 t2 m1 m2 Hij Hi Hj Hh.
    apply lookup_app_Some in Hj as [Hj|[Hge Hj]].
    + rewrite lookup_app_l in Hi by (apply lookup_lt_Some in Hj; lia). by apply (H2 i j t1 t2 m1 m2).
    + apply list_lookup_singleton_Some in Hj as [Hj [= <- <-]]. rewrite lookup_app_l in Hi by lia.
      apply list_elem_of_lookup_2 in Hi. specialize (Hold t1 m1 Hi Hh). lia.
Qed.

Lemma unpack_hash order resolver dest inner msg e : UnpackFromBytes order resolver dest inner = (Some msg, e) -> len (Hash msg) = 32.
Proof.
  unfold UnpackFromBytes. repeat case_match; intros [= <- <-]; cbn; unfold len; by rewrite length_sha256.
Qed.

Lemma ValidateStamp_keeps wb c ts msg : Hash (ValidateStamp wb c ts msg).1 = Hash msg /\ SourceHash (ValidateStamp wb c ts msg).1 = SourceHash msg
  /\ Stamp (ValidateStamp wb c ts msg).1 = Stamp msg.
Proof. unfold ValidateStamp. repeat case_match; done. Qed.

Lemma check_stamp_hash s m msg msg' : check_stamp s m msg = Some msg' -> Hash msg' = Hash msg.
Proof.
  unfold check_stamp. destruct (inboundStampCost m) as [c|]; [|by intros [= <-]]. destruct (0 <? c); [|by intros [= <-]].
  destruct (ValidateStamp _ _ _ _) as [msg1 ok] eqn:E. intros H.
  pose proof (ValidateStamp_keeps (s_workblock s) c (inboundTickets (s_tickets s) (s_stamp_time s) (SourceHash msg) (tickets m)) msg) as (Hh & _).
  rewrite E in Hh. cbn in Hh. revert H. destruct (_ && _); [done|]. intros [= <-]. destruct ok; done.
Qed.

Lemma marked_onPacket t s p m : t <= s_mark_time s -> marked t m -> marked (s_mark_time s) (onPacket s p m).
Proof.
  intros Ht Hm. unfold onPacket. destruct (len p <? _); [by apply (marked_same t _ m)|].
  destruct (UnpackFromBytes _ _ _ _) as [[msg|] e] eqn:E; [|destruct e; by apply (marked_same t _ m)]. cbv zeta.
  destruct (check_stamp _ _ _) as [msg'|] eqn:Ec; [|by apply (marked_same t _ m)].
  apply (marked_deliver t); [done| |by apply (marked_same t _ m)].
  rewrite (check_stamp_hash _ _ _ _ Ec). apply unpack_hash in E. lia.
Qed.

Lemma marked_run evs : forall t m, clock_ok t (concat (map ev_times evs)) -> marked t m -> exists t', marked t' (foldl step m evs).
Proof.
  induction evs as [|e evs IH]; intros t m Hc Hm; [eauto|]. cbn [foldl map concat] in *.
  destruct e as [s unix p d|s unix d|h|c|b]; cbn [ev_times app clock_ok step] in *.
  - destruct Hc as (H1 & H2 & Hc). apply (IH (s_mark_time s)); [done|]. unfold Receive. destruct p as [p|].
    + apply (marked_onPacket unix); [done|]. by apply (marked_note t).
    + apply (marked_same t _ m); try done. lia.
  - destruct Hc as (H1 & H2 & Hc). apply (IH (s_mark_time s)); [done|]. unfold onLinkPacket.
    apply (marked_onPacket unix); [done|]. by apply (marked_note t).
  - apply (IH t); [done|]. by apply (marked_same t _ m).
  - apply (IH t); [done|]. by apply (marked_same t _ m).
  - apply (IH t); [done|]. by apply (marked_same t _ m).
Qed.

Definition run (hash : bytes) (recall : bytes -> resolution) (evs : list event) : Messenger := foldl step (NewMessenger hash recall) evs.

(** C7: at most one delivery.  Whatever packets arrive, on whatever way and in
    whatever copies, the handler sees two messages with the same id only if more
    than six message lifetimes (180 days) passed between them. *)
Theorem lxmf_delivered_once hash recall evs t i j t1 t2 m1 m2 :
  clock_ok t (concat (map ev_times evs)) ->
  (i < j)%nat -> handled (run hash recall evs) !! i = Some (t1, m1) -> handled (run hash recall evs) !! j = Some (t2, m2) ->
  Hash m1 = Hash m2 ->
  6 * messageExpirySeconds < t2 - t1.
Proof.
  intros Hc Hij H1 H2 Hh. unfold run in *. destruct (marked_run evs t (NewMessenger hash recall) Hc) as (t' & _ & Hm).
  - split; [by intros ?? ?%not_elem_of_nil|done].
  - specialize (Hm i j t1 t2 m1 m2 Hij H1 H2 Hh). unfold window in Hm. lia.
Qed.

Definition quiet (t : Z) : surroundings :=
  mkSurroundings id id id_orders true t t t (fun _ _ => Err ErrMaterial) (fun _ => (0, false)).

(** A message without text or fields. *)
Definition short_message (title : option bytes) : LXMessage := set_Fields (Some []) (set_Title title (example_message [])).

Definition short_packed : bytes := Eval vm_compute in
  match (Pack id id 1500000000 (Some toy_sign) (short_message None)).2 with Ok b => b | Err _ => [] end.

(** The same packet now, a little later, and half a year later. *)
Definition three_copies : list event :=
  [EvHandler true; EvLink (quiet 1000) 1000 short_packed; EvLink (quiet 2000) 2000 short_packed;
   EvLink (quiet 15554001) 15554001 short_packed].

Abbreviation copies_run := (run (make_bytes 16) (fun _ => Known toy_verify) three_copies).

Lemma lxmf_delivered_once_witness : length (handled copies_run) = 2%nat
  /\ exists t1 t2 m1 m2, handled copies_run !! 0%nat = Some (t1, m1) /\ handled copies_run !! 1%nat = Some (t2, m2)
     /\ 6 * messageExpirySeconds < t2 - t1.
Proof.
  assert (length (handled copies_run) = 2%nat /\ (fun p => Hash p.2) <$> handled copies_run !! 0%nat = (fun p => Hash p.2) <$> handled copies_run !! 1%nat)
    as [Hl Hh] by (vm_compute; split; reflexivity).
  assert (clock_ok 0 (concat (map ev_times three_copies))) as Hc by (vm_compute; repeat split; discriminate).
  split; [exact Hl|]. destruct (handled copies_run !! 0%nat) as [[t1 m1]|] eqn:E1; [|apply lookup_ge_None in E1; rewrite Hl in E1; lia].
  destruct (handled copies_run !! 1%nat) as [[t2 m2]|] eqn:E2; [|apply lookup_ge_None in E2; rewrite Hl in E2; lia].
  exists t1, t2, m1, m2. split; [reflexivity|]. split; [reflexivity|].
  exact (lxmf_delivered_once (make_bytes 16) (fun _ => Known toy_verify) three_copies 0 0 1 t1 t2 m1 m2 Hc ltac:(lia) E1 E2 ltac:(by injection Hh)).
Defined.

(** ** Stamps are enforced *)

(** C17: no message without its stamp.  When stamps of cost [c] are enforced, a
    message reaches the handler only if its stamp is valid: derived from a ticket
    handed out to its source that has not expired, or a proof of work of cost [c]
    over its own id.  And the cost a user can set is between 1 and 254. *)
Theorem lxmf_stamp_enforced s p m :
  (forall c m', inboundStampCost (SetInboundStampCost (Some c) m') = Some c <-> 1 <= c <= 254)
  /\ (forall c t msg, inboundStampCost m = Some c -> 0 < c -> enforceStamps m = true ->
      handled (onPacket s p m) = handled m ++ [(t, msg)] ->
      StampValid_ msg = true
      /\ ((exists tk, tk ∈ inboundTickets (s_tickets s) (s_stamp_time s) (SourceHash msg) (tickets (onPacket s p m))
             /\ len tk = TicketLength /\ Stamp msg = truncatedHash tk (Hash msg))
          \/ exists wb, s_workblock s (Hash msg) WorkblockExpandRounds = Ok wb /\ Stamp msg <> [] /\ StampValid (Stamp msg) c wb = true)).
Proof.
  split.
  - intros c m'. unfold SetInboundStampCost. cbn. destruct ((c <? 1) || (255 <=? c)) eqn:E.
    + apply orb_true_iff in E as [E|E]; bool_hyps; split; (done || lia).
    + bool_hyps. split; [lia|done].
  - intros c t msg Hc H0 He Hh. unfold onPacket in *.
    assert (forall x, handled m <> handled m ++ [x]) as Hne.
    { intros x E. apply (f_equal length) in E. rewrite length_app in E. cbn in E. lia. }
    destruct (len p <? _); [by apply Hne in Hh|].
    destruct (UnpackFromBytes _ _ _ _) as [[msg0|] e] eqn:E; [|destruct e; by apply Hne in Hh].
    cbv zeta in *. set (m1 := set_tickets _ m) in *.
    destruct (check_stamp s m1 msg0) as [msg1|] eqn:Ec; [|by apply Hne in Hh].
    assert (tickets (deliver s msg1 m1) = tickets m1 /\ msg = msg1) as [-> ->].
    { revert Hh. unfold deliver. cbv zeta. change (handler (set_deliveredTIDs _ ?x)) with (handler x).
      repeat case_match; intros Hh; try (by apply Hne in Hh); (split; [done|]);
        cbn [handled set_handled set_deliveredTIDs] in Hh; apply app_inv_head in Hh; by injection Hh. }
    revert Ec. unfold check_stamp. change (inboundStampCost m1) with (inboundStampCost m). rewrite Hc, (proj2 (Z.ltb_lt 0 c)) by done.
    change (enforceStamps m1) with (enforceStamps m). rewrite He.
    pose proof (ValidateStamp_keeps (s_workblock s) c (inboundTickets (s_tickets s) (s_stamp_time s) (SourceHash msg0) (tickets m1)) msg0) as (Kh & Ks & Kst).
    destruct (ValidateStamp _ _ _ _) as [msg2 ok] eqn:Ev. cbn [fst] in Kh, Ks, Kst. rewrite andb_true_r.
    destruct (negb _) eqn:Evalid; [done|]. intros [= <-]. apply negb_false_iff in Evalid. split; [done|].
    assert (Hash (match ok with Ok ok => set_StampValid ok msg2 | Err _ => msg2 end) = Hash msg0
      /\ SourceHash (match ok with Ok ok => set_StampValid ok msg2 | Err _ => msg2 end) = SourceHash msg0
      /\ Stamp (match ok with Ok ok => set_StampValid ok msg2 | Err _ => msg2 end) = Stamp msg0) as (-> & -> & ->) by (destruct ok; done).
    assert (StampValid_ msg0 = false) as H00.
    { clear -E. revert E. unfold UnpackFromBytes, applyPayload. repeat case_match; intros [= <- _]; simplify_option_eq; done. }
    revert Ev Evalid. unfold ValidateStamp. destruct (len (Hash msg0) =? 0); [intros [= <- <-]; by rewrite H00|].
    destruct (_ && _ && existsb _ _) eqn:Et.
    + intros _ _. left. bool_hyps. match goal with H : existsb _ _ = true |- _ => apply existsb_exists in H as (tk & Hin & Htk) end.
      bool_hyps. exists tk. split; [by apply list_elem_of_In|]. by split.
    + destruct (len (Stamp msg0) =? 0) eqn:Es; [intros [= <- <-]; done|]. bool_hyps.
      destruct (s_workblock s (Hash msg0) _) as [wb|]; [|intros [= <- <-]; by rewrite H00].
      destruct (StampValid _ _ _) eqn:Esv; cbn [negb]; [|intros [= <- <-]; done]. intros _ _. right. exists wb.
      split; [done|]. split; [|done]. intros F. rewrite F in Es. done.
Qed.

(** ** From the sender to the handler *)

Lemma StampValid_less stamp c c' wb : c' <= c -> 0 < c -> StampValid stamp c wb = true -> StampValid stamp c' wb = true.
Proof.
  intros Hle Hc H. apply StampValid_iff. apply StampValid_iff in H as [|(Hl & Hc' & Hh)]; [lia|].
  destruct (Z.le_gt_cases c' 0); [by left|]. right. split; [done|]. split; [lia|]. etrans; [exact Hh|]. unfold target_of.
  repeat case_match; bool_hyps; try lia. apply Z.pow_le_mono_r; lia.
Qed.

Lemma Unpack_inner order resolver dest inner : len dest = DestinationLength -> DestinationLength + SignatureLength <= len inner ->
  Unpack order resolver (dest ++ inner) = UnpackFromBytes order resolver dest inner.
Proof.
  intros Hd Hi. unfold Unpack. rewrite len_app, (proj2 (Z.ltb_ge _ _)) by lia. by rewrite ztake_app, zdrop_app.
Qed.

(** Encodings of the fields in the same order hash alike. *)
Lemma same_payload order order' now m now' m' :
  (forall v, reorders v (order v)) -> (forall v, reorders v (order' v)) ->
  order (fields_value (Fields m)) = order' (fields_value (Fields m)) ->
  Timestamp (timed now m) = Timestamp (timed now' m') -> Title m = Title m' -> Content m = Content m' -> Fields m = Fields m' ->
  encodePayload order (payloadList false (timed now m)) = encodePayload order' (payloadList false (timed now' m')).
Proof.
  intros Ho Ho' He Ht H1 H2 H3. destruct (timed_same now m) as (ET & EC & EF & _). destruct (timed_same now' m') as (ET' & EC' & EF' & _).
  unfold encodePayload, payloadList. rewrite ET, EC, EF, ET', EC', EF', <- H1, <- H2, <- H3, <- Ht. cbn [map app andb]. rewrite He.
  by rewrite !(reorders_scalar_inv (MF64 (Timestamp (timed now m))) (_ (MF64 (Timestamp (timed now m))))), !bytes_value_scalar by done.
Qed.

Section end_to_end.
Context (p : packing) (sign : bytes -> option bytes) (verify : bytes -> bytes -> bool).
Context (generate : bytes -> Z -> Z -> res stamp_error (bytes * Z)) (workblock : bytes -> Z -> res stamp_error bytes).
Context (msg : LXMessage) (c : Z).
Context (Ho1 : forall v, reorders v (p_first p v)) (Ho1' : forall v, reorders v (p_first' p v)).
Context (Ho2 : forall v, reorders v (p_second p v)) (Ho2' : forall v, reorders v (p_second' p v)).
Context (Hsame : p_second p (fields_value (Fields msg)) = p_first p (fields_value (Fields msg))
                 /\ p_second' p (fields_value (Fields msg)) = p_first p (fields_value (Fields msg))).
Context (Hm : packable (p_now p) msg = true) (Htime : f64_zero (Timestamp (timed (p_now p) msg)) = false).
Context (Hst : Stamp msg = []) (Htk : OutboundTicket msg = []) (Hsc : StampCost msg = Some c) (Hc : 0 < c).
Context (Hsign : forall d, exists s, sign d = Some s /\ len s = SignatureLength /\ verify d s = true).
Context (Hgen : forall id, exists stamp v wb, generate id c WorkblockExpandRounds = Ok (stamp, v)
                  /\ workblock id WorkblockExpandRounds = Ok wb /\ StampValid stamp c wb = true).

(** What both calls of [Pack] sign, and its id. *)
Definition the_payload : bytes := encodePayload (p_first p) (payloadList false (timed (p_now p) msg)).
Definition the_id : bytes := sha256 (hashed_part (DestinationHash msg) (SourceHash msg) the_payload).

Lemma pack_stamped_sent : exists stamp v wb sig m1,
  generate the_id c WorkblockExpandRounds = Ok (stamp, v) /\ workblock the_id WorkblockExpandRounds = Ok wb /\ StampValid stamp c wb = true
  /\ len sig = SignatureLength /\ verify (signed_part (DestinationHash msg) (SourceHash msg) the_payload) sig = true
  /\ pack_stamped p sign generate msg = (m1, None)
  /\ Hash m1 = the_id /\ Stamp m1 = stamp
  /\ let m0 := set_Stamp stamp (timed (p_now p) msg) in
     packable (p_now' p) m0 = true /\ timed (p_now' p) m0 = m0
     /\ hashed_payload (p_second p) (p_second' p) (p_now' p) m0 = the_payload
     /\ Packed m1 = DestinationHash msg ++ SourceHash msg ++ sig ++ sent_payload (p_second p) (p_second' p) (p_now' p) m0.
Proof.
  destruct (timed_same (p_now p) msg) as (ET & EC & EF & ES & ED & ESH). destruct Hsame as [Hs1 Hs2].
  destruct (Hsign (signed_part (DestinationHash msg) (SourceHash msg) the_payload)) as (sig & Hs & Hl & Hv).
  destruct (Hgen the_id) as (stamp & v & wb & Hg & Hw & Hsv).
  pose proof Hsv as Hsv'. apply StampValid_iff in Hsv' as [|(Hlen & _ & _)]; [lia|].
  unfold pack_stamped. rewrite (pack_sent (p_first p) (p_first' p) (p_now p) msg Hm sign sig Hs Hl). cbv zeta.
  set (m1 := set_Packed _ _). unfold stampOutbound.
  assert (OutboundTicket m1 = [] /\ StampCost m1 = Some c /\ Stamp m1 = [] /\ Hash m1 = the_id) as (E1 & E2 & E3 & E4).
  { change (OutboundTicket m1) with (OutboundTicket (timed (p_now p) msg)). change (StampCost m1) with (StampCost (timed (p_now p) msg)).
    change (Stamp m1) with (Stamp (timed (p_now p) msg)). rewrite ES, Hst. change (Hash m1) with the_id.
    unfold timed. destruct (f64_zero (Timestamp msg)); done. }
  rewrite E1, E2, E3, E4, Hg. change (len (@nil byte)) with 0. cbn [Z.eqb TicketLength Z.ltb Z.compare orb].
  rewrite (proj2 (Z.leb_gt c 0)) by lia.
  set (m2 := set_StampValid true (set_StampValue v (set_Stamp stamp m1))).
  set (m0 := set_Stamp stamp (timed (p_now p) msg)).
  assert (timed (p_now' p) m0 = m0) as Htm.
  { unfold timed at 1. change (Timestamp m0) with (Timestamp (timed (p_now p) msg)). by rewrite Htime. }
  assert (timed (p_now' p) m2 = m2) as Htm2.
  { unfold timed. change (Timestamp m2) with (Timestamp (timed (p_now p) msg)). by rewrite Htime. }
  assert (packable (p_now' p) m0 = true) as Hp0.
  { pose proof Hm as Hm'. unfold packable in Hm' |- *. rewrite Htm. bool_hyps.
    change (Stamp m0) with stamp. change (DestinationHash m0) with (DestinationHash (timed (p_now p) msg)).
    change (SourceHash m0) with (SourceHash (timed (p_now p) msg)). change (Title m0) with (Title (timed (p_now p) msg)).
    change (Content m0) with (Content (timed (p_now p) msg)). change (Fields m0) with (Fields (timed (p_now p) msg)).
    change (Timestamp m0) with (Timestamp (timed (p_now p) msg)). rewrite ED, ESH, ET, EC, EF, Hlen.
    rewrite !(proj2 (Z.eqb_eq _ _)), (proj2 (Z.leb_le _ _)), !(proj2 (Z.ltb_lt _ _)) by done.
    repeat (apply andb_true_iff; split); done. }
  assert (packable (p_now' p) m2 = true) as Hp2.
  { revert Hp0. unfold packable. rewrite Htm, Htm2. done. }
  assert (forall o, (forall v, reorders v (o v)) -> o (fields_value (Fields msg)) = p_first p (fields_value (Fields msg)) ->
            encodePayload o (payloadList false (timed (p_now' p) m0)) = the_payload) as Hpay.
  { intros o Ho Hof. unfold the_payload. symmetry.
    apply same_payload; [done|done|by rewrite Hof|by rewrite Htm| | |].
    - change (Title m0) with (Title (timed (p_now p) msg)). by rewrite ET.
    - change (Content m0) with (Content (timed (p_now p) msg)). by rewrite EC.
    - change (Fields m0) with (Fields (timed (p_now p) msg)). by rewrite EF. }
  assert (encodePayload (p_second p) (payloadList false (timed (p_now' p) m2)) = the_payload) as Hpay2.
  { rewrite <- (Hpay (p_second p) Ho2 Hs1). rewrite Htm, Htm2. done. }
  assert (DestinationHash m2 = DestinationHash msg /\ SourceHash m2 = SourceHash msg) as [ED2 ES2].
  { change (DestinationHash m2) with (DestinationHash (timed (p_now p) msg)). change (SourceHash m2) with (SourceHash (timed (p_now p) msg)). done. }
  rewrite (pack_sent (p_second p) (p_second' p) (p_now' p) m2 Hp2 sign sig); [|rewrite Hpay2, ED2, ES2; exact Hs|done].
  cbv zeta. rewrite Hpay2, ED2, ES2. exists stamp, v, wb, sig. eexists.
  split; [done|]. split; [done|]. split; [done|]. split; [done|]. split; [done|]. split; [reflexivity|]. split; [reflexivity|].
  split; [change (Stamp (timed (p_now' p) m2) = stamp); by rewrite Htm2|]. split; [exact Hp0|]. split; [exact Htm|]. split.
  - unfold hashed_payload. apply Hpay; [|unfold sent_order; destruct (_ <? _); done].
    intros w. unfold sent_order. destruct (_ <? _); auto.
  - change (Packed (set_Packed ?x _)) with x. fold m0. unfold sent_payload, sent_order. rewrite Htm, Htm2. reflexivity.
Qed.
End end_to_end.

(** A new message that asks for nothing special. *)
Definition fresh (msg : LXMessage) : bool :=
  (len (Stamp msg) =? 0) && (len (OutboundTicket msg) =? 0) && negb (IncludeTicket msg)
  && match StampCost msg with None => true | Some _ => false end.

(** All encodings visit the fields in the same order, as when there is at most
    one of them. *)
Definition one_order (p : packing) (msg : LXMessage) : Prop :=
  (forall v, reorders v (p_first p v)) /\ (forall v, reorders v (p_first' p v))
  /\ (forall v, reorders v (p_second p v)) /\ (forall v, reorders v (p_second' p v))
  /\ p_second p (fields_value (Fields msg)) = p_first p (fields_value (Fields msg))
  /\ p_second' p (fields_value (Fields msg)) = p_first p (fields_value (Fields msg)).

(** The receiver is the destination, knows the source and asks for no more than
    the announced cost. *)
Definition expects (mB : Messenger) (msg : LXMessage) (verify : bytes -> bytes -> bool) (c : Z) : Prop :=
  localHash mB = DestinationHash msg /\ resolver mB (SourceHash msg) = Known verify /\ handler mB = true
  /\ match inboundStampCost mB with Some c' => c' <= c | None => True end.

(** The sender knows the cost and has no ticket. *)
Definition knows_cost (mA : Messenger) (unix : Z) (msg : LXMessage) (c : Z) : Prop :=
  get (DestinationHash msg) (stampCosts mA) = Some c /\ outboundTicket unix (DestinationHash msg) (tickets mA) = None.

Lemma prepare_fresh o disk order random unix mA msg c : fresh msg = true -> knows_cost mA unix msg c -> 0 < c ->
  prepareOutbound o disk order random unix mA msg = (mA, set_OutboundTicket [] (set_StampCost (Some c) msg)).
Proof.
  unfold fresh, prepareOutbound. intros Hf [Hget Hnt] Hc. bool_hyps. destruct (StampCost msg); [done|]. rewrite Hget, (proj2 (Z.ltb_lt 0 c)) by done.
  change (OutboundTicket (set_StampCost _ msg)) with (OutboundTicket msg). rewrite (proj2 (Z.eqb_eq (len (OutboundTicket msg)) 0)) by done.
  change (DestinationHash (set_StampCost _ msg)) with (DestinationHash msg). rewrite Hnt. cbn [default].
  change (IncludeTicket (set_OutboundTicket _ _)) with (IncludeTicket msg). by match goal with H : IncludeTicket msg = false |- _ => rewrite H end.
Qed.

(** The hand-over only touches the stamp's verdict. *)
Lemma verdict_keeps m2 m3 : m3 = m2 \/ (exists v, m3 = set_StampValid true (set_StampValid true (set_StampValue v m2))) ->
  SignatureValidated m3 = SignatureValidated m2 /\ Hash m3 = Hash m2 /\ Stamp m3 = Stamp m2 /\ SourceHash m3 = SourceHash m2
  /\ Title m3 = Title m2 /\ Content m3 = Content m2 /\ Fields m3 = Fields m2.
Proof. by intros [->|[v ->]]. Qed.

(** What the receiver does with a stamped message of the sender. *)
Lemma receive_stamped s unix plaintext data mB m2 c wb :
  DestinationLength + SignatureLength <= len plaintext ->
  UnpackFromBytes (s_fields s) (Some (resolver mB)) (localHash mB) plaintext = (Some m2, None) ->
  s_workblock s (Hash m2) WorkblockExpandRounds = Ok wb -> StampValid (Stamp m2) c wb = true -> 0 < c -> 0 < len (Stamp m2) ->
  match inboundStampCost mB with Some c' => c' <= c | None => True end -> handler mB = true ->
  hasDelivered (Hash m2) (noteDelivered unix (localHash mB ++ data) mB) = false ->
  exists m3, handled (Receive s unix (Some plaintext) data mB) = handled mB ++ [(s_mark_time s, m3)]
    /\ (m3 = m2 \/ exists v, m3 = set_StampValid true (set_StampValid true (set_StampValue v m2)))
    /\ (match inboundStampCost mB with Some c' => 0 < c' | None => False end -> StampValid_ m3 = true).
Proof.
  intros Hl Hu Hw Hv Hc Hs Hcost Hh Hd. unfold Receive, onPacket. set (m := noteDelivered unix _ mB) in *.
  assert (localHash m = localHash mB /\ resolver m = resolver mB /\ handler m = true /\ inboundStampCost m = inboundStampCost mB
          /\ enforceStamps m = enforceStamps mB /\ handled m = handled mB) as (E1 & E2 & E3 & E4 & E5 & E6)
    by (unfold m, noteDelivered; destruct (_ <? _); done).
  rewrite (proj2 (Z.ltb_ge _ _)) by lia. rewrite E1, E2, Hu. cbv zeta. set (mt := set_tickets _ m).
  assert (exists m3, check_stamp s mt m2 = Some m3 /\ Hash m3 = Hash m2
    /\ (m3 = m2 \/ exists v, m3 = set_StampValid true (set_StampValid true (set_StampValue v m2)))
    /\ (match inboundStampCost mB with Some c' => 0 < c' | None => False end -> StampValid_ m3 = true)) as (m3 & Hck & Hh3 & Hm3 & Hv3).
  { unfold check_stamp. change (inboundStampCost mt) with (inboundStampCost m). rewrite E4.
    destruct (inboundStampCost mB) as [c'|]; [|exists m2; auto]. destruct (0 <? c') eqn:Ec; bool_hyps; [|exists m2; repeat split; auto; lia].
    unfold ValidateStamp. rewrite (proj2 (Z.eqb_neq (len (Hash m2)) 0)) by (apply unpack_hash in Hu; lia).
    destruct (_ && _ && existsb _ _).
    - cbn [StampValid_ set_StampValid negb andb]. eexists. split; [reflexivity|]. split; [done|]. split; [|done]. right. by eexists.
    - rewrite (proj2 (Z.eqb_neq (len (Stamp m2)) 0)), Hw, (StampValid_less _ c c' wb Hcost Hc Hv) by lia. cbn [negb].
      cbn [StampValid_ set_StampValid negb andb]. eexists. split; [reflexivity|]. split; [done|]. split; [|done]. right. by eexists. }
  rewrite Hck. exists m3. split; [|done]. unfold deliver. rewrite Hh3, (proj2 (Z.ltb_lt 0 _)) by (apply unpack_hash in Hu; lia). cbv zeta.
  unfold hasDelivered in Hd. change (deliveredTIDs mt) with (deliveredTIDs m). destruct (deliveredTIDs m !! _); [done|].
  change (handler (set_deliveredTIDs _ mt)) with (handler m). rewrite E3. change (handled mt) with (handled m).
  cbn [handled set_handled set_deliveredTIDs]. change (handled mt) with (handled m). by rewrite E6.
Qed.


Definition sender : Messenger :=
  ReceivedAnnounce id true 900 (make_bytes 16) (Some (1, true)) (NewMessenger (make_bytes 16) (fun _ => Unknown)).
Definition recipient : Messenger :=
  EnforceStamps true (SetInboundStampCost (Some 1) (SetMessageHandler true (NewMessenger (make_bytes 16) (fun _ => Known toy_verify)))).
Definition toy_surroundings : surroundings :=
  mkSurroundings id id id_orders true 1000 1000 1000 (fun _ _ => Ok []) (fun _ => (0, false)).
Definition toy_generate (_ : bytes) (_ _ : Z) : res stamp_error (bytes * Z) := Ok (make_bytes 32, 1).
Abbreviation toy_send := (send id_orders true id None 1000 (mkPacking id id id id 1500000000 1500000000) toy_sign toy_generate
  (fun _ => Some Some) (fun _ => true) sender (short_message (Some (lit "title")))).

