(* ===== verification/GoConv.v ===== *)
(** * Go's [strings], [bufio] and [strconv], the parts the hub daemon uses

    Splitting and joining of text, sorted strings, [bufio.Scanner] by lines,
    quoted string literals, and the text of integers and of [float64] values.
    The round trips at the end (a quoted string unquotes to itself, the printed
    form of a whole number parses back) are what the registry and configuration
    files of [internal/gorrcd] rest on.

    [strconv.IsPrint] is exact on Latin-1; above it the Unicode table is the
    parameter [print_above], and no theorem depends on it. *)

From stdpp Require Import base tactics list sorting strings.
From Stdlib Require Import ZArith Lia SpecFloat.
From S2P Require Import Prelude GoText HexHash GoFloat.

(** ** [strings] *)

Fixpoint HasPrefix (s p : bytes) : bool :=
  match p, s with
  | [], _ => true
  | _, [] => false
  | x :: p, y :: s => bool_decide (x = y) && HasPrefix s p
  end.

Definition HasSuffix (s p : bytes) : bool := HasPrefix (reverse s) (reverse p).

Definition TrimPrefix (s p : bytes) : bytes := if HasPrefix s p then drop (length p) s else s.

(** [strings.IndexByte], without the -1. *)
Fixpoint IndexByte (s : bytes) (c : byte) : option nat :=
  match s with
  | [] => None
  | x :: s => if bool_decide (x = c) then Some O else S <$> IndexByte s c
  end.

(** [strings.Split] by a one-byte separator: never empty. *)
Fixpoint Split (s : bytes) (sep : byte) : list bytes :=
  match s with
  | [] => [[]]
  | x :: s =>
      if bool_decide (x = sep) then [] :: Split s sep
      else match Split s sep with
           | w :: ws => (x :: w) :: ws
           | [] => [[x]]
           end
  end.

Fixpoint Join (l : list bytes) (sep : bytes) : bytes :=
  match l with
  | [] => []
  | [x] => x
  | x :: l => x ++ sep ++ Join l sep
  end.

(** [strings.Contains] and [strings.ReplaceAll] for a non-empty pattern. *)
Fixpoint Contains (s p : bytes) : bool :=
  HasPrefix s p || match s with [] => false | _ :: s => Contains s p end.

Fixpoint replace_fuel (n : nat) (s old new : bytes) : bytes :=
  match n, s with
  | O, _ | _, [] => []
  | S n, x :: s' =>
      if HasPrefix s old then new ++ replace_fuel n (drop (length old) s) old new
      else x :: replace_fuel n s' old new
  end.
Definition ReplaceAll (s old new : bytes) : bytes := replace_fuel (length s) s old new.

(** [strings.Fields]: the runs of units that are not white space. *)
Fixpoint field_units (us cur : list runit) : list (list runit) :=
  match us with
  | [] => match cur with [] => [] | _ => [reverse cur] end
  | u :: us =>
      if space_unit u then match cur with [] => field_units us [] | _ => reverse cur :: field_units us [] end
      else field_units us (u :: cur)
  end.
Definition Fields (s : bytes) : list bytes := map encode (field_units (decode s) []).

(** [strings.TrimLeft] with a set of bytes. *)
Fixpoint TrimLeftBytes (cut : list byte) (s : bytes) : bytes :=
  match s with
  | x :: s' => if bool_decide (x ∈ cut) then TrimLeftBytes cut s' else s
  | [] => []
  end.

Example ex_split : Split (lit "a,b,,c") x2c = [lit "a"; lit "b"; []; lit "c"].
Proof. reflexivity. Qed.
Example ex_fields : Fields (lit "  /mode  #a +k x ") = [lit "/mode"; lit "#a"; lit "+k"; lit "x"].
Proof. reflexivity. Qed.
Example ex_replace : ReplaceAll (lit "a\'b\'") (lit "\'") (lit "'") = lit "a'b'".
Proof. reflexivity. Qed.

(** [strings.EqualFold] against a lower-case ASCII word: a rune folds to a letter
    when it is the letter in either case, the long s for s or the Kelvin sign
    for k. *)
Definition folds_to (r c : Z) : bool :=
  (r =? c) || (between 97 c 122 && (r =? c - 32))
  || ((c =? 115) && (r =? 383)) || ((c =? 107) && (r =? 8490)).
Definition EqualFoldWord (s word : bytes) : bool :=
  let us := map rune_of (decode s) in
  bool_decide (length us = length word)
  && forallb (fun p => folds_to p.1 (bZ p.2)) (zip us word).

(** [sort.Strings]: byte order. *)
Fixpoint bytes_le (a b : bytes) : bool :=
  match a, b with
  | [], _ => true
  | _, [] => false
  | x :: a, y :: b => if bool_decide (x = y) then bytes_le a b else bZ x <? bZ y
  end.
Definition bytes_order (a b : bytes) : Prop := bytes_le a b = true.
#[export] Instance bytes_order_dec : RelDecision bytes_order := fun a b => decide (bytes_le a b = true).
Definition sort_Strings : list bytes -> list bytes := merge_sort bytes_order.

Example ex_sort : sort_Strings [lit "b"; lit "abc"; lit "ab"] = [lit "ab"; lit "abc"; lit "b"].
Proof. reflexivity. Qed.

(** ** [bufio.Scanner] by lines *)

Definition MaxScanTokenSize : Z := 65536.

Definition drop_cr (l : bytes) : bytes :=
  match last l with Some x0d => removelast l | _ => l end.

(** The lines of a text and whether a line was too long for the scanner, which
    then stops. *)
Fixpoint scan_split (ls : list bytes) : list bytes * bool :=
  match ls with
  | [] => ([], false)
  | l :: ls =>
      if MaxScanTokenSize <=? len l then ([], true)
      else let '(out, e) := scan_split ls in (drop_cr l :: out, e)
  end.

(** The text after the last newline is a line of its own unless it is empty. *)
Definition text_lines (text : bytes) : list bytes :=
  let ls := Split text x0a in
  match last ls with Some [] => removelast ls | _ => ls end.

Definition scan_lines (text : bytes) : list bytes * bool := scan_split (text_lines text).

Example ex_scan : scan_lines (lit "a" ++ [x0d; x0a; x0a] ++ lit "b") = ([lit "a"; []; lit "b"], false).
Proof. reflexivity. Qed.

(** ** Integers *)

Fixpoint dec_loop (fuel : nat) (n : Z) (acc : bytes) : bytes :=
  match fuel with
  | O => acc
  | S fuel =>
      let acc := Zb (48 + n mod 10) :: acc in
      if n <? 10 then acc else dec_loop fuel (n / 10) acc
  end.

(** [%d]. *)
Definition Itoa (n : Z) : bytes :=
  if n <? 0 then x2d :: dec_loop (S (Z.to_nat (Z.log2 (- n)))) (- n) []
  else dec_loop (S (Z.to_nat (Z.log2 n))) n [].

Definition is_digit (c : byte) : bool := between 48 (bZ c) 57.
Definition digit_val (c : byte) : option Z := if is_digit c then Some (bZ c - 48) else None.

(** The number a string of digits denotes. *)
Fixpoint dec_val (s : bytes) (acc : Z) : option Z :=
  match s with
  | [] => Some acc
  | c :: s => match digit_val c with Some d => dec_val s (acc * 10 + d) | None => None end
  end.

(** [strconv.ParseUint(s, 10, 64)] with its error dropped: 0 for a syntax error,
    the largest value when out of range. *)
Definition ParseUint (s : bytes) : Z :=
  if bool_decide (s = []) then 0
  else match dec_val s 0 with Some n => Z.min n max_u64 | None => 0 end.

Example ex_itoa : Itoa 0 = lit "0" /\ Itoa 1203 = lit "1203" /\ Itoa (-7) = lit "-7".
Proof. repeat split. Qed.
Example ex_uint : ParseUint (lit "64") = 64 /\ ParseUint (lit "6x") = 0
  /\ ParseUint (lit "18446744073709551616") = max_u64 /\ ParseUint (lit "+1") = 0.
Proof. repeat split. Qed.

(** ** [float64] *)

(** The nearest value to [m * 10^e], ties to even; out of range is infinite. *)
Definition f_abs_ratio (n d : positive) : f64 :=
  let '(q, e, l) := SFdiv_core_binary 53 1024 (Zpos n) 0 (Zpos d) 0 in
  binary_round_aux 53 1024 false q e l.

Definition f_scaled (base m e : Z) : f64 :=
  if m <=? 0 then S754_zero false
  else if 0 <=? e then f_of_Z (m * base ^ e)
  else f_abs_ratio (Z.to_pos m) (Z.to_pos (base ^ (- e))).

Definition f_neg (neg : bool) (f : f64) : f64 := if neg then SFopp f else f.

(** *** [strconv.ParseFloat] *)

Definition lower_ascii (c : byte) : byte := if between 65 (bZ c) 90 then Zb (bZ c + 32) else c.

Definition float_digit (base : Z) (c : byte) : option Z :=
  let z := bZ (lower_ascii c) in
  if between 48 z 57 then Some (z - 48)
  else if (base =? 16) && between 97 z 102 then Some (z - 87) else None.

(** The digit loop of [readFloat]: mantissa, digits after the point, whether a
    point, a digit and an underscore were seen, and the rest. *)
Record mant := mkMant { m_val : Z; m_frac : Z; m_dot : bool; m_digits : bool; m_under : bool }.

Fixpoint read_mant (base : Z) (s : bytes) (m : mant) : mant * bytes :=
  match s with
  | [] => (m, [])
  | c :: s' =>
      if bool_decide (c = x5f) then read_mant base s' (mkMant (m_val m) (m_frac m) (m_dot m) (m_digits m) true)
      else if bool_decide (c = x2e) then
        if m_dot m then (m, s) else read_mant base s' (mkMant (m_val m) 0 true (m_digits m) (m_under m))
      else match float_digit base c with
           | Some d => read_mant base s' (mkMant (m_val m * base + d) (m_frac m + 1) (m_dot m) true (m_under m))
           | None => (m, s)
           end
  end.

(** The digits of an exponent; the loop stops adding at 10000. *)
Fixpoint read_exp (s : bytes) (e : Z) (under : bool) : Z * bool * bytes :=
  match s with
  | [] => (e, under, [])
  | c :: s' =>
      if bool_decide (c = x5f) then read_exp s' e true
      else match digit_val c with
           | Some d => read_exp s' (if e <? 10000 then e * 10 + d else e) under
           | None => (e, under, s)
           end
  end.

(** [underscoreOK]: an underscore stands between digits, or between the base
    prefix and a digit.  The state is the kind of the previous character: a digit
    (or the prefix), an underscore, or another. *)
Inductive under_prev := PBegin | PDigit | PUnder | POther.
Fixpoint under_loop (hex : bool) (s : bytes) (i : under_prev) : bool :=
  match s with
  | [] => match i with PUnder => false | _ => true end
  | c :: s =>
      if is_digit c || (hex && between 97 (bZ (lower_ascii c)) 102) then under_loop hex s PDigit
      else if bool_decide (c = x5f) then match i with PDigit => under_loop hex s PUnder | _ => false end
      else match i with PUnder => false | _ => under_loop hex s POther end
  end.
Definition underscoreOK (s : bytes) : bool :=
  let s := match s with c :: s' => if bool_decide (c = x2b \/ c = x2d) then s' else s | [] => s end in
  match s with
  | x30 :: c :: s' =>
      let l := lower_ascii c in
      if bool_decide (l = x62 \/ l = x6f \/ l = x78) then under_loop (bool_decide (l = x78)) s' PDigit
      else under_loop false s PBegin
  | _ => under_loop false s PBegin
  end.

Definition parse_number (s : bytes) : option f64 :=
  let '(neg, t) := match s with
                   | x2b :: t => (false, t)
                   | x2d :: t => (true, t)
                   | _ => (false, s)
                   end in
  let '(base, t) := match t with
                    | x30 :: c :: t' => if bool_decide (lower_ascii c = x78) && negb (bool_decide (t' = []))
                                        then (16, t') else (10, t)
                    | _ => (10, t)
                    end in
  let '(m, rest) := read_mant base t (mkMant 0 0 false false false) in
  let frac := if m_dot m then m_frac m else 0 in
  let finish e under := if under && negb (underscoreOK s) then None
    else Some (f_neg neg (if base =? 16 then f_scaled 2 (m_val m) (e - 4 * frac)
                          else f_scaled 10 (m_val m) (e - frac))) in
  if negb (m_digits m) then None
  else match rest with
       | [] => if base =? 16 then None else finish 0 (m_under m)
       | c :: rest =>
           if negb (bool_decide (lower_ascii c = if base =? 16 then x70 else x65)) then None
           else
             let '(esign, rest) := match rest with
                                   | x2b :: r => (1, r)
                                   | x2d :: r => (-1, r)
                                   | _ => (1, rest)
                                   end in
             match rest with
             | d :: _ =>
                 if negb (is_digit d) then None
                 else let '(e, under, rest) := read_exp rest 0 (m_under m) in
                      if bool_decide (rest = []) then finish (esign * e) under else None
             | [] => None
             end
       end.

Definition parse_special (s : bytes) : option f64 :=
  let l := map lower_ascii s in
  let '(sign, body) := match l with
                       | x2b :: t => (Some false, t)
                       | x2d :: t => (Some true, t)
                       | _ => (None, l)
                       end in
  if bool_decide (body = lit "inf") || bool_decide (body = lit "infinity")
  then Some (S754_infinity (default false sign))
  else if bool_decide (l = lit "nan") then Some S754_nan else None.

(** [strconv.ParseFloat(s, 64)] with its error dropped: 0 for a syntax error. *)
Definition ParseFloat (s : bytes) : f64 :=
  match parse_special s with
  | Some f => f
  | None => default (S754_zero false) (parse_number s)
  end.

Example ex_float : ParseFloat (lit "900") = f_of_Z 900 /\ ParseFloat (lit "1.7e+09") = f_of_Z 1700000000
  /\ ParseFloat (lit "0.5") = f_const 1 2 /\ ParseFloat (lit "-2.5") = f_const (-5) 2
  /\ ParseFloat (lit "0x1p-2") = f_const 1 4 /\ ParseFloat (lit "1_000") = f_of_Z 1000
  /\ ParseFloat (lit "1__0") = f_of_Z 0 /\ ParseFloat (lit "ten") = f_of_Z 0
  /\ ParseFloat (lit "-Inf") = S754_infinity true /\ ParseFloat (lit "1e400") = S754_infinity false
  /\ ParseFloat (lit "4.9e-324") = S754_finite false 1 (-1074).
Proof. vm_compute. repeat split. Qed.

(** *** [%v]: the shortest decimal that parses back *)

(** A positive finite value as a fraction. *)
Definition f_num (m : positive) (e : Z) : Z := Zpos m * 2 ^ Z.max e 0.
Definition f_den (e : Z) : Z := 2 ^ Z.max (- e) 0.

(** The position of the decimal point: [10^(k-1) <= n/d < 10^k]. *)
Fixpoint point_below (fuel : nat) (n d : Z) : Z :=
  match fuel with
  | O => 0
  | S fuel => if d <=? n * 10 then 0 else point_below fuel (n * 10) d - 1
  end.
Definition point_of (n d : Z) : Z :=
  if d <=? n then len (Itoa (n / d)) else point_below 400 n d.

(** The two decimals of [nd] digits around the value, the nearer first (ties to
    even), as a mantissa and an exponent. *)
Definition around (n d k : Z) (nd : Z) : list (Z * Z) :=
  let p := k - nd in
  let '(a, b) := if 0 <=? p then (n, d * 10 ^ p) else (n * 10 ^ (- p), d) in
  let q := a / b in
  let r := a mod b in
  let up := (b <? 2 * r) || ((2 * r =? b) && negb (Z.even q)) in
  if up then [(q + 1, p); (q, p)] else [(q, p); (q + 1, p)].

#[export] Instance f64_eq_dec : EqDecision f64.
Proof. unfold EqDecision, f64. solve_decision. Defined.

Definition parses_to (f : f64) (c : Z * Z) : bool := bool_decide (f_scaled 10 c.1 c.2 = f).

Fixpoint shortest_loop (fuel : nat) (nd : Z) (f : f64) (n d k : Z) : Z * Z :=
  match fuel with
  | O => default (0, 0) (head (around n d k 17))
  | S fuel =>
      match List.filter (parses_to f) (around n d k nd) with
      | c :: _ => c
      | [] => shortest_loop fuel (nd + 1) f n d k
      end
  end.

(** Digits and the position of the point, as in [strconv]'s [decimalSlice]. *)
Definition shortest (m : positive) (e : Z) : bytes * Z :=
  let n := f_num m e in
  let d := f_den e in
  let '(D, p) := shortest_loop 17 1 (S754_finite false m e) n d (point_of n d) in
  (Itoa D, p + len (Itoa D)).

Definition exp_text (e : Z) : bytes :=
  let a := Z.abs e in
  (if e <? 0 then [x2d] else [x2b]) ++ (if a <? 10 then x30 :: Itoa a else Itoa a).

(** [%e] and [%f] with all the digits. *)
Definition fmtE (digs : bytes) (dp : Z) : bytes :=
  match digs with
  | [] => []
  | c :: rest => c :: (match rest with [] => [] | _ => x2e :: rest end) ++ x65 :: exp_text (dp - 1)
  end.
Definition fmtF (digs : bytes) (dp : Z) : bytes :=
  if 0 <? dp then
    ztake dp digs ++ replicate (Z.to_nat (dp - len digs)) x30
    ++ (if dp <? len digs then x2e :: zdrop dp digs else [])
  else [x30; x2e] ++ replicate (Z.to_nat (- dp)) x30 ++ digs.

Definition fmt_abs (digs : bytes) (dp : Z) : bytes :=
  if (dp - 1 <? -4) || (6 <=? dp - 1) then fmtE digs dp else fmtF digs dp.

Definition FormatFloat (f : f64) : bytes :=
  match f with
  | S754_nan => lit "NaN"
  | S754_infinity s => if s then lit "-Inf" else lit "+Inf"
  | S754_zero s => if s then lit "-0" else lit "0"
  | S754_finite s m e =>
      let '(digs, dp) := shortest m e in
      (if s then [x2d] else []) ++ fmt_abs digs dp
  end.

(** [%.1f]: the value rounded to one decimal, ties to even. *)
Definition Format1f (f : f64) : bytes :=
  match f with
  | S754_finite s m e =>
      let n := f_num m e * 10 in
      let d := f_den e in
      let q := n / d in
      let r := n mod d in
      let v := if (d <? 2 * r) || ((2 * r =? d) && negb (Z.even q)) then q + 1 else q in
      (if s then [x2d] else []) ++ Itoa (v / 10) ++ x2e :: Itoa (v mod 10)
  | S754_zero s => if s then lit "-0.0" else lit "0.0"
  | S754_infinity s => if s then lit "-Inf" else lit "+Inf"
  | S754_nan => lit "NaN"
  end.

Example ex_format_float : FormatFloat (f_of_Z 900) = lit "900" /\ FormatFloat (f_of_Z 1700000000) = lit "1.7e+09"
  /\ FormatFloat (f_of_Z 1700000123) = lit "1.700000123e+09" /\ FormatFloat (f_const 1 10) = lit "0.1"
  /\ FormatFloat (f_const 3 10) = lit "0.3" /\ FormatFloat (f_const 5 2) = lit "2.5"
  /\ FormatFloat (S754_finite false 1 (-1074)) = lit "5e-324" /\ FormatFloat (f_const 1 100000) = lit "1e-05"
  /\ FormatFloat (f_of_Z 2592000) = lit "2.592e+06" /\ FormatFloat (f_const (-1) 3) = lit "-0.3333333333333333"
  /\ Format1f (f_const 61 20) = lit "3.0" /\ Format1f (f_const 25 2) = lit "12.5".
Proof. vm_compute. repeat split. Qed.

(** ** Quoted strings *)

Section quote.
Context (print_above : Z -> bool).

(** [strconv.IsPrint]. *)
Definition IsPrint (r : Z) : bool :=
  if r <=? 255 then between 32 r 126 || (between 161 r 255 && negb (r =? 173)) else print_above r.

(** The last [n] hex digits of [v]. *)
Fixpoint hex_of (n : nat) (v : Z) : bytes :=
  match n with O => [] | S n => hex_of n (v / 16) ++ [hex_digit (v mod 16)] end.

Definition bslash (c : byte) : bytes := [x5c; c].

(** [appendEscapedRune] with double quotes. *)
Definition escape_rune (r : Z) : bytes :=
  if (r =? 34) || (r =? 92) then bslash (Zb r)
  else if IsPrint r then encode_rune r
  else if r =? 7 then bslash x61 else if r =? 8 then bslash x62 else if r =? 12 then bslash x66
  else if r =? 10 then bslash x6e else if r =? 13 then bslash x72 else if r =? 9 then bslash x74
  else if r =? 11 then bslash x76
  else if (r <? 32) || (r =? 127) then bslash x78 ++ hex_of 2 r
  else if r <? 65536 then bslash x75 ++ hex_of 4 r
  else bslash x55 ++ hex_of 8 r.

Definition quote_unit (u : runit) : bytes :=
  match u with R r => escape_rune r | B b => bslash x78 ++ hex_of 2 (bZ b) end.

(** [strconv.Quote], the same as [%q]. *)
Definition Quote (s : bytes) : bytes := x22 :: concat (map quote_unit (decode s)) ++ [x22].
End quote.

Fixpoint unhex_loop (n : nat) (s : bytes) (v : Z) : option (Z * bytes) :=
  match n, s with
  | O, _ => Some (v, s)
  | S n, c :: s => match hex_value c with Some x => unhex_loop n s (v * 16 + x) | None => None end
  | S _, [] => None
  end.

(** [strconv.UnquoteChar] inside double quotes: the value, whether it is a rune of
    a multibyte encoding, and the rest. *)
Definition UnquoteChar (s : bytes) : option (Z * bool * bytes) :=
  match s with
  | [] => None
  | c :: s1 =>
      if bool_decide (c = x22) then None
      else if 128 <=? bZ c then
        match decode1 s with Some (u, rest) => Some (rune_of u, true, rest) | None => None end
      else if negb (bool_decide (c = x5c)) then Some (bZ c, false, s1)
      else
        match s1 with
        | [] => None
        | c :: t =>
            match c with
            | x61 => Some (7, false, t) | x62 => Some (8, false, t) | x66 => Some (12, false, t)
            | x6e => Some (10, false, t) | x72 => Some (13, false, t) | x74 => Some (9, false, t)
            | x76 => Some (11, false, t)
            | x78 => match unhex_loop 2 t 0 with Some (v, t) => Some (v, false, t) | None => None end
            | x75 => match unhex_loop 4 t 0 with
                     | Some (v, t) => if valid_rune v then Some (v, true, t) else None
                     | None => None
                     end
            | x55 => match unhex_loop 8 t 0 with
                     | Some (v, t) => if valid_rune v then Some (v, true, t) else None
                     | None => None
                     end
            | x5c => Some (92, false, t)
            | x22 => Some (34, false, t)
            | _ =>
                if between 48 (bZ c) 55 then
                  match t with
                  | a :: b :: t =>
                      if between 48 (bZ a) 55 && between 48 (bZ b) 55 then
                        let v := (bZ c - 48) * 64 + (bZ a - 48) * 8 + (bZ b - 48) in
                        if 255 <? v then None else Some (v, false, t)
                      else None
                  | _ => None
                  end
                else None
            end
        end
  end.

Fixpoint unquote_loop (fuel : nat) (s : bytes) : option bytes :=
  match fuel, s with
  | O, _ | _, [] => None
  | S fuel, c :: s' =>
      if bool_decide (c = x22) then if bool_decide (s' = []) then Some [] else None
      else if bool_decide (c = x0a) then None
      else match UnquoteChar s with
           | None => None
           | Some (r, multi, rest) =>
               let out := if (r <? 128) || negb multi then [Zb r] else encode_rune r in
               app out <$> unquote_loop fuel rest
           end
  end.

(** [strconv.Unquote] of a string that starts with a double quote. *)
Definition Unquote (s : bytes) : option bytes :=
  match s with x22 :: s => unquote_loop (S (length s)) s | _ => None end.

Example ex_quote : Quote (fun _ => true) (lit "a\b" ++ [x22; x0a; xff; xc3; xa9; xc2; xad; x00])
  = x22 :: lit "a\\b\" ++ [x22] ++ lit "\n\xff" ++ [xc3; xa9] ++ lit "\u00ad\x00" ++ [x22].
Proof. vm_compute. reflexivity. Qed.
Example ex_unquote : Unquote (x22 :: lit "\101\x42\u00e9" ++ [xff; x22]) = Some (lit "AB" ++ [xc3; xa9; xef; xbf; xbd])
  /\ Unquote (x22 :: lit "a" ++ [x22; x22]) = None /\ Unquote (lit "a") = None.
Proof. vm_compute. repeat split. Qed.

(** ** Unquoting inverts quoting *)

Lemma unhex_loop_app n m s acc : unhex_loop (n + m) s acc =
  match unhex_loop n s acc with Some (v, t) => unhex_loop m t v | None => None end.
Proof.
  revert s acc. induction n as [|n IH]; intros s acc; [done|]. destruct s as [|c s]; [done|]. simpl.
  destruct (hex_value c); [apply IH|done].
Qed.

Lemma unhex_hex_of n v rest acc : 0 <= v ->
  unhex_loop n (hex_of n v ++ rest) acc = Some (acc * 16 ^ Z.of_nat n + v mod 16 ^ Z.of_nat n, rest).
Proof.
  revert v rest acc. induction n as [|n IH]; intros v rest acc Hv.
  { simpl. rewrite Z.mod_1_r. repeat f_equal. lia. }
  cbn [hex_of]. rewrite <- app_assoc. replace (S n) with (n + 1)%nat at 1 by lia.
  rewrite unhex_loop_app, IH by (apply Z.div_pos; lia). cbn [app unhex_loop].
  assert (Hm : 0 <= v mod 16 < 16) by (apply Z.mod_pos_bound; lia). rewrite hex_value_digit by done.
  rewrite Nat2Z.inj_succ, Z.pow_succ_r by lia. rewrite Z.rem_mul_r by lia. do 2 f_equal. lia.
Qed.

Lemma escape_x t : UnquoteChar (x5c :: x78 :: t) =
  match unhex_loop 2 t 0 with Some (v, t) => Some (v, false, t) | None => None end.
Proof. reflexivity. Qed.
Lemma escape_u t : UnquoteChar (x5c :: x75 :: t) =
  match unhex_loop 4 t 0 with Some (v, t) => if valid_rune v then Some (v, true, t) else None | None => None end.
Proof. reflexivity. Qed.
Lemma escape_U t : UnquoteChar (x5c :: x55 :: t) =
  match unhex_loop 8 t 0 with Some (v, t) => if valid_rune v then Some (v, true, t) else None | None => None end.
Proof. reflexivity. Qed.

(** What [unquote_loop] appends for a character. *)
Definition char_out (r : Z) (multi : bool) : bytes :=
  if (r <? 128) || negb multi then [Zb r] else encode_rune r.

(** The text [q] of one character: it can start a character, and it reads as
    [out]. *)
Definition reads_as (q out rest : bytes) : Prop :=
  head (q ++ rest) <> Some x22 /\ head (q ++ rest) <> Some x0a /\ q <> []
  /\ exists r multi, UnquoteChar (q ++ rest) = Some (r, multi, rest) /\ char_out r multi = out.

Lemma encode_rune_low r : 0 <= r < 128 -> encode_rune r = [Zb r].
Proof.
  intros H. unfold encode_rune, valid_rune. replace (_ || _) with true by (symmetry; lia). cbv zeta.
  by rewrite (proj2 (Z.ltb_lt r 128)) by lia.
Qed.

Lemma encode_rune_high r : valid_rune r = true -> 128 <= r ->
  exists b t, encode_rune r = b :: t /\ 128 <= bZ b.
Proof.
  intros Hv H. unfold encode_rune. rewrite Hv. cbv zeta. unfold valid_rune in Hv.
  rewrite (proj2 (Z.ltb_ge r 128)) by lia.
  case_tests; bool_hyps; do 2 eexists; (split; [reflexivity|]); rewrite bZ_Zb_small by dlia; dlia.
Qed.

Lemma bZ_inj b c : bZ b = bZ c -> b = c.
Proof. intros H. rewrite <- (Zb_bZ b), <- (Zb_bZ c). by rewrite H. Qed.

Lemma reads_raw r rest : valid_rune r = true -> 32 <= r -> r <> 34 -> r <> 92 -> r <> 127 ->
  reads_as (encode_rune r) (encode_rune r) rest.
Proof.
  intros Hv H1 H2 H3 H4. destruct (Z.lt_ge_cases r 128) as [Hl|Hh].
  - rewrite encode_rune_low by lia. unfold reads_as. simpl.
    assert (Hb : bZ (Zb r) = r) by (apply bZ_Zb_small; lia).
    assert (Zb r <> x22 /\ Zb r <> x0a /\ Zb r <> x5c) as (N1 & N2 & N3).
    { repeat split; intros E; rewrite E in Hb; vm_compute in Hb; lia. }
    split; [congruence|]. split; [congruence|]. split; [done|]. exists r, false.
    rewrite (bool_decide_false _ N1), (bool_decide_false _ N3), Hb.
    rewrite (proj2 (Z.leb_gt 128 r)) by lia. split; [done|]. unfold char_out. by rewrite orb_true_r.
  - destruct (encode_rune_high r Hv Hh) as (b & t & E & Hb). unfold reads_as.
    pose proof (decode1_rune r rest Hv) as Hd. rewrite E in *. cbn [app head] in *.
    assert (b <> x22 /\ b <> x0a) as [N1 N2] by (split; intros ->; by vm_compute in Hb).
    split; [congruence|]. split; [congruence|]. split; [done|]. exists r, true.
    unfold UnquoteChar. rewrite (bool_decide_false _ N1), (proj2 (Z.leb_le 128 (bZ b)) Hb), Hd.
    split; [done|]. unfold char_out. by rewrite (proj2 (Z.ltb_ge r 128)), <- E.
Qed.

Lemma reads_named q c r rest : q = bslash c -> UnquoteChar (bslash c ++ rest) = Some (r, false, rest) ->
  0 <= r < 128 -> reads_as q (encode_rune r) rest.
Proof.
  intros -> H Hr. split; [done|]. split; [done|]. split; [done|]. exists r, false. split; [done|].
  unfold char_out. rewrite orb_true_r. by rewrite encode_rune_low.
Qed.

Lemma reads_hex2 r rest : 0 <= r < 256 -> reads_as (bslash x78 ++ hex_of 2 r) [Zb r] rest.
Proof.
  intros Hr. split; [done|]. split; [done|]. split; [done|]. exists r, false.
  unfold bslash. rewrite <- app_assoc. cbn [app]. rewrite escape_x, unhex_hex_of by lia.
  change (16 ^ Z.of_nat 2) with 256. rewrite Z.mod_small by lia. split; [done|]. unfold char_out.
  by rewrite orb_true_r.
Qed.

Lemma reads_hex_rune (c : byte) n r rest :
  (forall t, UnquoteChar (x5c :: c :: t) =
    match unhex_loop n t 0 with Some (v, t) => if valid_rune v then Some (v, true, t) else None | None => None end) ->
  128 <= r < 16 ^ Z.of_nat n -> valid_rune r = true -> reads_as (bslash c ++ hex_of n r) (encode_rune r) rest.
Proof.
  intros Hc Hr Hv. split; [done|]. split; [done|]. split; [done|]. exists r, true.
  unfold bslash. rewrite <- app_assoc. cbn [app]. rewrite Hc, unhex_hex_of by lia.
  rewrite Z.mod_small by lia. rewrite Z.mul_0_l, Z.add_0_l, Hv. split; [done|]. unfold char_out.
  by rewrite (proj2 (Z.ltb_ge r 128)) by lia.
Qed.

Section quoting.
Context (print_above : Z -> bool).

Lemma IsPrint_low r : r <= 255 -> IsPrint print_above r = true -> 32 <= r /\ r <> 127.
Proof. unfold IsPrint, between. intros H. rewrite (proj2 (Z.leb_le r 255)) by done. intros E. lia. Qed.

Lemma quote_unit_reads u rest : valid_unit u = true -> reads_as (quote_unit print_above u) (encode1 u) rest.
Proof.
  destruct u as [r|b]; cbn [valid_unit quote_unit encode1]; intros Hv.
  2: { rewrite <- (Zb_bZ b) at 2. apply reads_hex2, bZ_range. }
  assert (Hr : 0 <= r <= 1114111) by (unfold valid_rune in Hv; lia).
  unfold escape_rune. repeat case_match; bool_hyps; subst.
  all: try (eapply reads_named; [reflexivity|reflexivity|lia]).
  - assert (r = 34 \/ r = 92) as [-> | ->] by lia; (eapply reads_named; [reflexivity|reflexivity|lia]).
  - assert (32 <= r /\ r <> 127) by (destruct (Z.le_gt_cases r 255); [by apply IsPrint_low|lia]).
    apply reads_raw; [done|lia..].
  - rewrite (encode_rune_low r) by lia. apply reads_hex2. lia.
  - apply (reads_hex_rune x75 4); [apply escape_u| |done].
    unfold IsPrint, between in *. change (16 ^ Z.of_nat 4) with 65536. case_match; lia.
  - apply (reads_hex_rune x55 8); [apply escape_U| |done]. change (16 ^ Z.of_nat 8) with 4294967296. lia.
Qed.

Lemma unquote_units us fuel : forallb valid_unit us = true ->
  (length (concat (map (quote_unit print_above) us)) < fuel)%nat ->
  unquote_loop fuel (concat (map (quote_unit print_above) us) ++ [x22]) = Some (encode us).
Proof.
  revert fuel. induction us as [|u us IH]; intros fuel Hv Hf; (destruct fuel as [|fuel]; [lia|]).
  { reflexivity. }
  cbn [forallb map concat] in *. bool_hyps. rewrite <- app_assoc, encode_cons.
  destruct (quote_unit_reads u (concat (map (quote_unit print_above) us) ++ [x22])) as (H1 & H2 & Hne & r & multi & Hu & Ho); [done|].
  rewrite length_app in Hf. assert (0 < length (quote_unit print_above u))%nat by (destruct (quote_unit print_above u); [done|simpl; lia]).
  destruct (quote_unit print_above u ++ _) as [|c s'] eqn:E; [by destruct (quote_unit print_above u)|].
  cbn [unquote_loop]. rewrite bool_decide_false by (intros ->; by apply H1).
  rewrite bool_decide_false by (intros ->; by apply H2). rewrite Hu. rewrite IH by (done || lia). simpl.
  by rewrite <- Ho.
Qed.

(** Unquoting a quoted string gives it back, whatever its bytes. *)
Lemma Unquote_Quote s : Unquote (Quote print_above s) = Some s.
Proof.
  unfold Unquote, Quote. rewrite unquote_units.
  - by rewrite encode_decode.
  - apply forallb_forall. intros u Hu. pose proof (decode_valid s) as Hv. rewrite List.Forall_forall in Hv. by apply Hv.
  - rewrite length_app. simpl. lia.
Qed.
End quoting.

(** ** Trimming and splitting assembled text *)

Lemma decode_snoc s c : bZ c < 128 -> decode (s ++ [c]) = decode s ++ [R (bZ c)].
Proof.
  intros Hc. induction s as [|s u rest Hd IH] using decode_ind.
  { rewrite decode_ascii by by constructor. done. }
  rewrite (decode_unfold (s ++ [c])), (decode_unfold s), Hd.
  assert (decode1 (s ++ [c]) = Some (u, rest ++ [c])) as ->; [|by rewrite IH].
  revert Hd. destruct s as [|b0 s1]; [done|]. cbn [app decode1].
  destruct (bZ b0 <? 128) eqn:E0; [by intros [= <- <-]|].
  assert (Hnc : is_cont c = false) by (unfold is_cont, between; lia).
  assert (Hno2 : ok2 b0 c = false) by (unfold ok2; by rewrite Hnc, andb_false_r).
  destruct s1 as [|b1 s2]; cbn [app].
  { intros [= <- <-]. by rewrite Hno2. }
  destruct (ok2 b0 b1); [by intros [= <- <-]|].
  assert (Hno3 : ok3 b0 b1 c = false) by (unfold ok3; by rewrite Hnc, andb_false_r).
  destruct s2 as [|b2 s3]; cbn [app].
  { intros [= <- <-]. by rewrite Hno3. }
  destruct (ok3 b0 b1 b2); [by intros [= <- <-]|].
  assert (Hno4 : ok4 b0 b1 b2 c = false) by (unfold ok4; by rewrite Hnc, andb_false_r).
  destruct s3 as [|b3 s4]; cbn [app].
  { intros [= <- <-]. by rewrite Hno4. }
  destruct (ok4 b0 b1 b2 b3); by intros [= <- <-].
Qed.

(** Text whose first and last bytes are ASCII and not blank is trimmed already. *)
Definition tight (s : bytes) : Prop :=
  (forall c, head s = Some c -> bZ c < 128 /\ isSpace (bZ c) = false)
  /\ (forall c, last s = Some c -> bZ c < 128 /\ isSpace (bZ c) = false).

Lemma decode_head c s : bZ c < 128 -> decode (c :: s) = R (bZ c) :: decode s.
Proof. intros H. rewrite decode_unfold. cbn [decode1]. by rewrite (proj2 (Z.ltb_lt _ 128)). Qed.

Lemma tight_units s : tight s -> no_space_ends (decode s).
Proof.
  intros [Hh Hl]. split; intros u Hu.
  - destruct s as [|c s]; [done|]. destruct (Hh c eq_refl). rewrite decode_head in Hu by done.
    injection Hu as <-. done.
  - destruct s as [|c s] using rev_ind; [done|]. destruct (Hl c) as [Ha Hb]; [by rewrite last_snoc|].
    rewrite decode_snoc in Hu by done. rewrite last_snoc in Hu. injection Hu as <-. done.
Qed.

Lemma TrimSpace_tight s : tight s -> TrimSpace s = s.
Proof. intros H. unfold TrimSpace. rewrite trim_units_id by by apply tight_units. apply encode_decode. Qed.

Lemma TrimSpace_blank_left c s : bZ c < 128 -> isSpace (bZ c) = true -> TrimSpace (c :: s) = TrimSpace s.
Proof.
  intros Ha Hs. unfold TrimSpace, trim_units. rewrite decode_head by done. cbn [trim_left space_unit].
  by rewrite Hs.
Qed.

Lemma trim_left_snoc us v : Exists (fun u => space_unit u = false) us -> trim_left (us ++ [v]) = trim_left us ++ [v].
Proof. induction 1 as [u us H|u us H IH]; cbn [app trim_left]; [by rewrite H|]. by destruct (space_unit u). Qed.

Lemma TrimSpace_blank_right s c : bZ c < 128 -> isSpace (bZ c) = true -> s <> [] -> tight s ->
  TrimSpace (s ++ [c]) = s.
Proof.
  intros Ha Hs Hne Ht. unfold TrimSpace, trim_units. rewrite decode_snoc by done.
  pose proof (tight_units s Ht) as [Hh _].
  destruct (decode s) as [|u us] eqn:E; [by apply decode_nil_iff in E|].
  assert (Hu : space_unit u = false) by by apply Hh.
  rewrite trim_left_snoc by (by constructor). cbn [trim_left]. rewrite Hu.
  rewrite reverse_snoc. cbn [trim_left space_unit]. rewrite Hs.
  pose proof (trim_units_id (u :: us)) as Hid. unfold trim_units in Hid. cbn [trim_left] in Hid. rewrite Hu in Hid.
  rewrite Hid by (rewrite <- E; by apply tight_units). rewrite <- E. apply encode_decode.
Qed.

Lemma Split_free s sep : sep ∉ s -> Split s sep = [s].
Proof.
  induction s as [|x s IH]; intros H; [done|]. apply not_elem_of_cons in H as [H1 H2].
  cbn [Split]. rewrite bool_decide_false by congruence. by rewrite IH.
Qed.

Lemma Split_app s sep t : sep ∉ s -> Split (s ++ sep :: t) sep = s :: Split t sep.
Proof.
  induction s as [|x s IH]; intros H; cbn [app Split].
  { by rewrite bool_decide_true. }
  apply not_elem_of_cons in H as [H1 H2]. rewrite bool_decide_false by congruence. by rewrite IH.
Qed.

Lemma Split_prefix w sep t : sep ∉ w -> Split (w ++ t) sep =
  match Split t sep with h :: r => (w ++ h) :: r | [] => [w] end.
Proof.
  intros Hw. assert (Hne : Split t sep <> []).
  { destruct t; cbn [Split]; [done|]. repeat case_match; done. }
  induction w as [|c w IH]; cbn [app]; [by destruct (Split t sep)|].
  apply not_elem_of_cons in Hw as [Hc Hw]. cbn [Split]. rewrite bool_decide_false by congruence.
  rewrite IH by done. by destruct (Split t sep).
Qed.

(** Splitting a joined list; the separator is a byte and a blank tail. *)
Lemma Split_Join sep w x l : sep ∉ w -> Forall (fun s => sep ∉ s) (x :: l) ->
  Split (Join (x :: l) (sep :: w)) sep = x :: map (app w) l.
Proof.
  intros Hw. revert x. induction l as [|y l IH]; intros x H; inversion_clear H as [|?? Hx Hl].
  { by apply Split_free. }
  change (Join (x :: y :: l) (sep :: w)) with (x ++ sep :: w ++ Join (y :: l) (sep :: w)).
  rewrite Split_app by done. f_equal. by rewrite Split_prefix, (IH y) by done.
Qed.

(** Lines written one after another, each with its newline, are scanned back. *)
Definition line_ok (l : bytes) : bool :=
  negb (bool_decide (x0a ∈ l)) && negb (bool_decide (last l = Some x0d)) && (len l <? MaxScanTokenSize).

Definition unlines (ls : list bytes) : bytes := concat (map (fun l => l ++ [x0a]) ls).

Lemma Split_unlines ls : Forall (fun l => x0a ∉ l) ls -> Split (unlines ls) x0a = ls ++ [[]].
Proof.
  induction 1 as [|l ls Hl _ IH]; [done|]. unfold unlines in *. cbn [map concat]. rewrite <- app_assoc.
  cbn [app]. rewrite Split_app by done. by rewrite IH.
Qed.

Lemma scan_unlines ls : forallb line_ok ls = true -> scan_lines (unlines ls) = (ls, false).
Proof.
  intros H. unfold scan_lines, text_lines. rewrite Split_unlines.
  2: { apply List.Forall_forall. intros l Hl. rewrite forallb_forall in H. specialize (H l Hl).
       unfold line_ok in H. by bool_hyps. }
  rewrite last_snoc, List.removelast_last. induction ls as [|l ls IH]; [done|].
  cbn [forallb scan_split] in *. bool_hyps. unfold line_ok in H. bool_hyps.
  rewrite (proj2 (Z.leb_gt _ _)) by done. rewrite IH by done. f_equal. f_equal. unfold drop_cr.
  destruct (last l) as [c|]; [|done]. by destruct c.
Qed.

(** ** Printed numbers parse back *)

Definition all_digits (s : bytes) : Prop := Forall (fun c => is_digit c = true) s.

Lemma digit_char v : 0 <= v < 10 -> is_digit (Zb (48 + v)) = true /\ digit_val (Zb (48 + v)) = Some v
  /\ bZ (Zb (48 + v)) = 48 + v.
Proof.
  intros H. assert (E : bZ (Zb (48 + v)) = 48 + v) by (apply bZ_Zb_small; lia).
  unfold digit_val, is_digit, between. rewrite E. replace (_ && _) with true by (symmetry; lia).
  repeat split. f_equal. lia.
Qed.

Lemma dec_loop_acc fuel n acc : dec_loop fuel n acc = dec_loop fuel n [] ++ acc.
Proof.
  revert n acc. induction fuel as [|fuel IH]; intros n acc; [done|]. cbn [dec_loop].
  case_match; [done|]. rewrite IH. symmetry. rewrite IH. by rewrite <- app_assoc.
Qed.

(** The digits of [n]: they are digits, at least one, and they denote [n]. *)
Definition spells (s : bytes) (n : Z) : Prop :=
  all_digits s /\ s <> [] /\ forall rest a, dec_val (s ++ rest) a = dec_val rest (a * 10 ^ len s + n).

Lemma dec_loop_spells fuel n : 0 <= n < 10 ^ Z.of_nat fuel -> (0 < fuel)%nat -> spells (dec_loop fuel n []) n.
Proof.
  revert n. induction fuel as [|fuel IH]; intros n Hn Hf; [lia|]. cbn [dec_loop].
  assert (Hm : 0 <= n mod 10 < 10) by (apply Z.mod_pos_bound; lia).
  destruct (digit_char _ Hm) as (D1 & D2 & _). destruct (n <? 10) eqn:E; bool_hyps.
  - split; [by repeat constructor|]. split; [done|]. intros rest a. cbn [app dec_val]. rewrite D2.
    f_equal. rewrite len_cons, len_nil, Z.mod_small by lia. lia.
  - rewrite dec_loop_acc. rewrite Nat2Z.inj_succ, Z.pow_succ_r in Hn by lia.
    assert (Hf' : (0 < fuel)%nat) by (destruct fuel; [simpl in Hn; lia|lia]).
    destruct (IH (n / 10)) as (H1 & H2 & H3); [dlia|done|]. split; [|split].
    + apply Forall_app. split; [done|]. by repeat constructor.
    + by destruct (dec_loop fuel (n / 10) []).
    + intros rest a. rewrite <- app_assoc, H3. cbn [app dec_val]. rewrite D2. f_equal.
      rewrite len_app, len_cons, len_nil, Z.pow_add_r by (try apply len_nonneg; lia). change (10 ^ (1 + 0)) with 10.
      pose proof (Z.div_mod n 10). lia.
Qed.

Lemma Itoa_spells n : 0 <= n -> spells (Itoa n) n.
Proof.
  intros Hn. unfold Itoa. rewrite (proj2 (Z.ltb_ge n 0)) by lia. apply dec_loop_spells; [|lia].
  split; [done|]. rewrite Nat2Z.inj_succ, Z2Nat.id by apply Z.log2_nonneg.
  destruct (Z.eq_dec n 0) as [->|]; [reflexivity|].
  apply Z.lt_le_trans with (2 ^ Z.succ (Z.log2 n)); [apply Z.log2_spec; lia|].
  apply Z.pow_le_mono_l. split; [lia|lia].
Qed.

Lemma ParseUint_Itoa n : 0 <= n <= max_u64 -> ParseUint (Itoa n) = n.
Proof.
  intros Hn. destruct (Itoa_spells n) as (_ & Hne & Hv); [lia|]. unfold ParseUint.
  rewrite bool_decide_false by done. specialize (Hv [] 0). rewrite app_nil_r in Hv. rewrite Hv.
  cbn [dec_val]. lia.
Qed.

(** *** Floats *)

Lemma read_mant_digits s rest m : all_digits s -> read_mant 10 (s ++ rest) m =
  read_mant 10 rest (mkMant (default 0 (dec_val s (m_val m))) (m_frac m + len s) (m_dot m)
                       (m_digits m || negb (bool_decide (s = []))) (m_under m)).
Proof.
  intros H. revert m. induction H as [|c s Hc _ IH]; intros m.
  { destruct m. cbn. rewrite orb_false_r, Z.add_0_r. done. }
  cbn [app read_mant]. unfold is_digit, between in Hc.
  assert (Hn : c <> x5f /\ c <> x2e) by (split; intros ->; vm_compute in Hc; discriminate).
  rewrite !bool_decide_false by tauto. unfold float_digit, lower_ascii, between. replace (65 <=? bZ c) with false by (symmetry; lia).
  cbn [andb]. rewrite Hc. rewrite IH. cbn [m_val m_frac m_dot m_digits m_under dec_val].
  unfold digit_val, is_digit, between. rewrite Hc. f_equal. rewrite len_cons, orb_true_r. f_equal; lia.
Qed.

Lemma read_exp_digits s e under : all_digits s -> (forall p q, s = p ++ q -> default 0 (dec_val p e) < 10000) ->
  read_exp s e under = (default 0 (dec_val s e), under, []).
Proof.
  intros H. revert e. induction H as [|c s Hc _ IH]; intros e Hb; [done|].
  cbn [read_exp dec_val]. rewrite bool_decide_false by (intros ->; vm_compute in Hc; discriminate).
  pose proof (Hb [] _ eq_refl) as H0. simpl in H0. unfold digit_val. rewrite Hc.
  rewrite (proj2 (Z.ltb_lt _ _) H0). apply IH. intros p q ->. specialize (Hb (c :: p) q eq_refl).
  cbn [dec_val] in Hb. unfold digit_val in Hb. by rewrite Hc in Hb.
Qed.

Lemma dec_val_total s e : all_digits s -> dec_val s e = Some (default 0 (dec_val s e)).
Proof.
  intros H. revert e. induction H as [|c s Hc _ IH]; intros e; [done|].
  cbn [dec_val]. unfold digit_val. by rewrite Hc.
Qed.

Lemma dec_val_app p q e : all_digits p -> dec_val (p ++ q) e = dec_val q (default 0 (dec_val p e)).
Proof.
  intros H. revert e. induction H as [|c s Hc _ IH]; intros e; [done|].
  cbn [app dec_val]. unfold digit_val. by rewrite Hc.
Qed.

Lemma dec_val_ge s v : all_digits s -> 0 <= v -> v <= default 0 (dec_val s v).
Proof.
  intros H. revert v. induction H as [|c s Hc _ IH]; intros v Hv; [done|].
  cbn [dec_val]. unfold digit_val. rewrite Hc. unfold is_digit, between in Hc.
  etransitivity; [|apply IH]; lia.
Qed.

Lemma read_exp_spells s e under : spells s e -> 0 <= e < 10000 -> read_exp s 0 under = (e, under, []).
Proof.
  intros (Hd & _ & Hv) He. specialize (Hv [] 0). rewrite app_nil_r in Hv. cbn [dec_val] in Hv.
  rewrite read_exp_digits; [by rewrite Hv|done|]. intros p q E.
  rewrite E in Hd. apply Forall_app in Hd as [Hp Hq].
  assert (Hpq : default 0 (dec_val s 0) = 0 * 10 ^ len s + e) by by rewrite Hv.
  rewrite E in Hpq at 1. rewrite dec_val_app in Hpq by done.
  pose proof (dec_val_ge q (default 0 (dec_val p 0)) Hq) as Hge. pose proof (dec_val_ge p 0 Hp). lia.
Qed.

Lemma spells_zero s n : spells s n -> spells (x30 :: s) n.
Proof.
  intros (Hd & _ & Hv). split; [by constructor|]. split; [done|]. intros rest a.
  cbn [app dec_val]. change (digit_val x30) with (Some 0). cbn iota beta. rewrite Hv. f_equal. rewrite len_cons.
  rewrite Z.pow_add_r by (try apply len_nonneg; lia). lia.
Qed.

(** The number part of a text: the loop stops at the end or at an [e]. *)
Definition number_of (neg : bool) (m : mant) (rest : bytes) : option f64 :=
  let frac := if m_dot m then m_frac m else 0 in
  match rest with
  | [] => Some (f_neg neg (f_scaled 10 (m_val m) (0 - frac)))
  | x65 :: x2b :: ds => let '(e, _, r) := read_exp ds 0 false in
      if bool_decide (r = []) then Some (f_neg neg (f_scaled 10 (m_val m) (1 * e - frac))) else None
  | x65 :: x2d :: ds => let '(e, _, r) := read_exp ds 0 false in
      if bool_decide (r = []) then Some (f_neg neg (f_scaled 10 (m_val m) (-1 * e - frac))) else None
  | _ => None
  end.

(** What the printers emit after the mantissa. *)
Inductive tail_ok : bytes -> Prop :=
| tail_none : tail_ok []
| tail_exp c ds e : (c = x2b \/ c = x2d) -> spells ds e -> 0 <= e < 10000 -> tail_ok (x65 :: c :: ds).

Lemma parse_number_mant (neg : bool) c t m rest : is_digit c = true ->
  (forall d u, t = d :: u -> lower_ascii d <> x78) ->
  read_mant 10 (c :: t) (mkMant 0 0 false false false) = (m, rest) ->
  m_digits m = true -> m_under m = false -> tail_ok rest ->
  parse_number ((if neg then [x2d] else []) ++ c :: t) = number_of neg m rest.
Proof.
  intros Hc Hx Hm Hd Hu Ht. unfold parse_number.
  assert (Hs : forall (A : Type) (a b d : A), match c with x2b => a | x2d => b | _ => d end = d).
  { intros A a b d. destruct c; try reflexivity; vm_compute in Hc; discriminate. }
  replace (match (if neg then [x2d] else []) ++ c :: t with
           | x2b :: t0 => (false, t0) | x2d :: t0 => (true, t0) | _ => (false, (if neg then [x2d] else []) ++ c :: t) end)
    with (neg, c :: t).
  2: { destruct neg; [done|]. cbn [app]. symmetry. apply (Hs (bool * bytes)%type). }
  replace (match c :: t with
    | x30 :: d :: t' => if bool_decide (lower_ascii d = x78) && negb (bool_decide (t' = [])) then (16, t') else (10, c :: t)
    | _ => (10, c :: t) end) with (10, c :: t).
  2: { destruct t as [|d u]; [by destruct c|]. rewrite (bool_decide_false _ (Hx d u eq_refl)). by destruct c. }
  rewrite Hm, Hd, Hu. cbn [negb andb]. change (10 =? 16) with false. cbn iota.
  destruct Ht as [|c' ds e Hc' Hsp He]; [done|].
  pose proof Hsp as (Hds & Hne & _). destruct ds as [|d ds]; [done|].
  inversion Hds as [|?? Hd0 Hds']; subst. rewrite bool_decide_true by reflexivity. cbn [negb].
  destruct Hc' as [-> | ->]; cbn [number_of]; rewrite Hd0, (read_exp_spells _ e) by done;
    rewrite bool_decide_true by done; reflexivity.
Qed.

Lemma read_mant_tail rest m : tail_ok rest -> read_mant 10 rest m = (m, rest).
Proof. destruct 1; reflexivity. Qed.

(** Whole digits, then maybe a point and more digits, then a tail. *)
Lemma read_mant_whole ip rest : all_digits ip -> ip <> [] -> tail_ok rest ->
  read_mant 10 (ip ++ rest) (mkMant 0 0 false false false)
  = (mkMant (default 0 (dec_val ip 0)) (len ip) false true false, rest).
Proof.
  intros Hi Hne Ht. rewrite read_mant_digits, read_mant_tail by done. cbn [m_val m_frac m_dot m_digits m_under].
  by rewrite bool_decide_false.
Qed.

Lemma read_mant_point ip fp rest : all_digits ip -> ip <> [] -> all_digits fp -> tail_ok rest ->
  read_mant 10 (ip ++ x2e :: fp ++ rest) (mkMant 0 0 false false false)
  = (mkMant (default 0 (dec_val (ip ++ fp) 0)) (len fp) true true false, rest).
Proof.
  intros Hi Hne Hf Ht. rewrite read_mant_digits by done. cbn [read_mant m_val m_frac m_dot m_digits m_under].
  rewrite bool_decide_false by done. rewrite bool_decide_true by done.
  rewrite read_mant_digits, read_mant_tail by done. cbn [m_val m_frac m_dot m_digits m_under].
  by rewrite (bool_decide_false (ip = [])), dec_val_app.
Qed.

Lemma exp_tail e : -10000 < e < 10000 -> tail_ok (x65 :: exp_text e) /\ forall neg m,
  number_of neg m (x65 :: exp_text e)
  = Some (f_neg neg (f_scaled 10 (m_val m) (e - if m_dot m then m_frac m else 0))).
Proof.
  intros He. set (ds := if Z.abs e <? 10 then x30 :: Itoa (Z.abs e) else Itoa (Z.abs e)).
  assert (Hs : spells ds (Z.abs e)).
  { unfold ds. case_match; [apply spells_zero|]; apply Itoa_spells; lia. }
  unfold exp_text. fold ds. destruct (e <? 0) eqn:E; bool_hyps; cbn [app].
  - split; [apply tail_exp with (Z.abs e); [by right|done|lia]|]. intros neg m. cbn [number_of].
    rewrite (read_exp_spells _ (Z.abs e)) by (done || lia). rewrite bool_decide_true by done. do 3 f_equal. lia.
  - split; [apply tail_exp with (Z.abs e); [by left|done|lia]|]. intros neg m. cbn [number_of].
    rewrite (read_exp_spells _ (Z.abs e)) by (done || lia). rewrite bool_decide_true by done. do 3 f_equal. lia.
Qed.

Lemma lower_digit c : is_digit c = true -> lower_ascii c <> x78.
Proof. destruct c; vm_compute; congruence. Qed.

Lemma digits_next ip rest : all_digits ip -> (forall d u, rest = d :: u -> lower_ascii d <> x78) ->
  forall d u, ip ++ rest = d :: u -> lower_ascii d <> x78.
Proof.
  intros H Hr d u. destruct H as [|c s Hc _]; cbn [app]; [apply Hr|]. intros [= <- <-]. by apply lower_digit.
Qed.

Lemma tail_next rest : tail_ok rest -> forall d u, rest = d :: u -> lower_ascii d <> x78.
Proof. destruct 1; intros d u [= <- <-]. vm_compute. discriminate. Qed.

Lemma parse_whole (neg : bool) ip rest : all_digits ip -> ip <> [] -> tail_ok rest ->
  parse_number ((if neg then [x2d] else []) ++ ip ++ rest)
  = number_of neg (mkMant (default 0 (dec_val ip 0)) (len ip) false true false) rest.
Proof.
  intros Hi Hne Ht. pose proof (read_mant_whole ip rest Hi Hne Ht) as Hm.
  destruct Hi as [|c s Hc Hs]; [done|]. cbn [app] in *.
  eapply parse_number_mant; [done| |exact Hm|done|done|done].
  apply digits_next; [done|]. by apply tail_next.
Qed.

Lemma parse_point (neg : bool) ip fp rest : all_digits ip -> ip <> [] -> all_digits fp -> tail_ok rest ->
  parse_number ((if neg then [x2d] else []) ++ ip ++ x2e :: fp ++ rest)
  = number_of neg (mkMant (default 0 (dec_val (ip ++ fp) 0)) (len fp) true true false) rest.
Proof.
  intros Hi Hne Hf Ht. pose proof (read_mant_point ip fp rest Hi Hne Hf Ht) as Hm.
  destruct Hi as [|c s Hc Hs]; [done|]. cbn [app] in *.
  eapply parse_number_mant; [done| |exact Hm|done|done|done].
  apply digits_next; [done|]. intros d u [= <- <-]. vm_compute. discriminate.
Qed.

Lemma zeros_digits n : all_digits (replicate n x30).
Proof. apply Forall_replicate. reflexivity. Qed.

Lemma dec_val_zeros n v : dec_val (replicate n x30) v = Some (v * 10 ^ Z.of_nat n).
Proof.
  revert v. induction n as [|n IH]; intros v; [simpl; f_equal; lia|]. cbn [replicate dec_val].
  change (digit_val x30) with (Some 0). cbn iota beta. rewrite IH, Nat2Z.inj_succ, Z.pow_succ_r by lia. f_equal. lia.
Qed.

Lemma f_scaled_shift D k : 0 < D -> 0 <= k -> f_scaled 10 (D * 10 ^ k) 0 = f_scaled 10 D k.
Proof.
  intros HD Hk. assert (0 < 10 ^ k) by (apply Z.pow_pos_nonneg; lia). assert (0 < D * 10 ^ k) by by apply Z.mul_pos_pos.
  unfold f_scaled. rewrite (proj2 (Z.leb_gt D 0)), (proj2 (Z.leb_gt (D * 10 ^ k) 0)) by lia.
  rewrite (proj2 (Z.leb_le 0 k)) by lia. change (0 <=? 0) with true. cbn iota.
  by replace (D * 10 ^ k * 10 ^ 0) with (D * 10 ^ k) by ring.
Qed.

Lemma parse_fmt_abs (neg : bool) digs D dp : spells digs D -> 0 < D -> -5000 < dp < 5000 ->
  parse_number ((if neg then [x2d] else []) ++ fmt_abs digs dp) = Some (f_neg neg (f_scaled 10 D (dp - len digs))).
Proof.
  intros (Hd & Hne & Hv) HD Hdp. assert (HvD : dec_val digs 0 = Some D).
  { specialize (Hv [] 0). rewrite app_nil_r in Hv. rewrite Hv. cbn [dec_val]. f_equal; lia. }
  unfold fmt_abs. destruct (_ || _).
  - destruct digs as [|c rest]; [done|]. cbn [fmtE]. inversion Hd as [|?? Hc Hr]; subst.
    destruct (exp_tail (dp - 1)) as [Ht Hn]; [lia|]. destruct rest as [|c2 rest].
    + cbn [app]. change (c :: x65 :: exp_text (dp - 1)) with ([c] ++ x65 :: exp_text (dp - 1)).
      rewrite parse_whole, Hn, HvD by (done || by constructor). cbn [m_val m_dot default]. do 3 f_equal.
      unfold len. cbn [length]. lia.
    + cbn [app]. change (c :: x2e :: c2 :: rest ++ x65 :: exp_text (dp - 1))
        with ([c] ++ x2e :: (c2 :: rest) ++ x65 :: exp_text (dp - 1)).
      rewrite parse_point, Hn by (done || by repeat constructor). cbn [app]. rewrite HvD.
      cbn [m_val m_dot m_frac default]. do 3 f_equal. rewrite (len_cons c). lia.
  - unfold fmtF. destruct (0 <? dp) eqn:Hp; bool_hyps.
    + destruct (dp <? len digs) eqn:Hl; bool_hyps.
      * replace (Z.to_nat (dp - len digs)) with 0%nat by lia. cbn [replicate app].
        rewrite <- (app_nil_r (zdrop dp digs)).
        rewrite <- (ztake_zdrop dp digs) in Hd. apply Forall_app in Hd as [H1 H2].
        rewrite parse_point; [|done| |done|constructor].
        2: { intros E. assert (len (ztake dp digs) = dp) as Hlt by (apply len_ztake; lia). rewrite E in Hlt. change (len []) with 0 in Hlt. lia. }
        rewrite ztake_zdrop, HvD. cbn [number_of m_val m_dot m_frac default]. do 3 f_equal.
        rewrite len_zdrop by lia. lia.
      * rewrite app_nil_r, ztake_all by lia. rewrite <- (app_nil_r (digs ++ _)).
        rewrite parse_whole; [|by apply Forall_app; split; [|apply zeros_digits]|by destruct digs|constructor].
        rewrite Hv, dec_val_zeros. cbn [number_of m_val m_dot default]. rewrite Z2Nat.id by lia.
        replace (0 * 10 ^ len digs + D) with D by lia. change (0 - 0) with 0. unfold id. by rewrite f_scaled_shift by lia.
    + rewrite <- (app_nil_r digs) at 1. change ([x30; x2e] ++ ?x) with ([x30] ++ x2e :: x).
      rewrite (app_assoc (replicate _ _)).
      rewrite parse_point; [|by repeat constructor|done|apply Forall_app; split; [apply zeros_digits|done]|constructor].
      cbn [app]. cbn [dec_val]. change (digit_val x30) with (Some 0). cbn iota beta.
      rewrite dec_val_app, dec_val_zeros by apply zeros_digits. cbn [default].
      unfold id. change (0 * 10 + 0) with 0. rewrite Z.mul_0_l, HvD. cbn [number_of m_val m_dot m_frac default].
      do 3 f_equal. unfold len. rewrite length_app, length_replicate. lia.
Qed.

(** A finite value whose printed digits denote it, as [strconv] promises of every
    finite one. *)
Definition prints_back (f : f64) : bool :=
  match f with
  | S754_finite s m e =>
      let '(D, p) := shortest_loop 17 1 (S754_finite false m e) (f_num m e) (f_den e) (point_of (f_num m e) (f_den e)) in
      (0 <? D) && (-5000 <? p + len (Itoa D)) && (p + len (Itoa D) <? 5000) && parses_to (S754_finite false m e) (D, p)
  | S754_zero s => negb s
  | _ => false
  end.

Lemma fmt_abs_digit digs dp : all_digits digs -> digs <> [] -> exists c t, fmt_abs digs dp = c :: t /\ is_digit c = true.
Proof.
  intros Hd Hne. unfold fmt_abs, fmtE, fmtF. destruct digs as [|c rest]; [done|]. inversion Hd; subst.
  repeat case_match; bool_hyps; try (by eauto).
  - unfold ztake. destruct (Z.to_nat dp) eqn:E; [lia|]. cbn [take app]. eauto.
  - unfold ztake. destruct (Z.to_nat dp) eqn:E; [lia|]. cbn [take app]. eauto.
Qed.

Lemma parse_special_number (neg : bool) c t : is_digit c = true -> parse_special ((if neg then [x2d] else []) ++ c :: t) = None.
Proof.
  intros Hc. assert (Hl : lower_ascii c = c) by (destruct c; reflexivity || (vm_compute in Hc; discriminate)).
  unfold parse_special. destruct neg; cbn [app map]; rewrite Hl.
  - change (lower_ascii x2d) with x2d. cbn iota.
    rewrite !bool_decide_false; [done|..]; intros [=]; subst; vm_compute in Hc; discriminate.
  - assert (Hm : match c with x2b => (Some false, map lower_ascii t) | x2d => (Some true, map lower_ascii t)
                 | _ => (None, c :: map lower_ascii t) end = (None, c :: map lower_ascii t))
      by (destruct c; try reflexivity; vm_compute in Hc; discriminate).
    rewrite Hm. rewrite !bool_decide_false; [done|..]; intros [=]; subst; vm_compute in Hc; discriminate.
Qed.

Lemma ParseFloat_FormatFloat f : prints_back f = true -> ParseFloat (FormatFloat f) = f.
Proof.
  destruct f as [s|s| |s m e]; try done; cbn [prints_back FormatFloat].
  { destruct s; [done|]. intros _. vm_compute. reflexivity. }
  unfold shortest. destruct (shortest_loop _ _ _ _ _ _) as [D p]. intros H. bool_hyps.
  unfold parses_to in H0. cbn [fst snd] in H0. bool_hyps.
  pose proof (Itoa_spells D ltac:(lia)) as Hs. pose proof Hs as (Hd & Hne & _).
  unfold ParseFloat. destruct (fmt_abs_digit (Itoa D) (p + len (Itoa D)) Hd Hne) as (c & t & E & Hc).
  rewrite E, parse_special_number by done. rewrite <- E.
  rewrite (parse_fmt_abs s _ D) by (done || lia).
  replace (p + len (Itoa D) - len (Itoa D)) with p by lia. rewrite H0. by destruct s.
Qed.

Example ex_prints_back : prints_back (f_of_Z 1700000000) = true /\ prints_back (f_const 1 3) = true
  /\ prints_back (S754_finite false 1 (-1074)) = true.
Proof. vm_compute. repeat split. Qed.

(** The characters of a printed number: no blank, comma, bracket or quote. *)
Definition number_char (c : byte) : bool :=
  is_digit c || bool_decide (c ∈ [x2b; x2d; x2e; x49; x4e; x61; x65; x66; x6e]).

Lemma digits_number s : all_digits s -> Forall (fun c => number_char c = true) s.
Proof. intros H. eapply Forall_impl; [exact H|]. intros c Hc. unfold number_char. by rewrite Hc. Qed.

Lemma Itoa_nat_digits n : 0 <= n -> all_digits (Itoa n).
Proof. intros H. by destruct (Itoa_spells n H). Qed.

Lemma fmt_abs_chars digs dp : all_digits digs -> Forall (fun c => number_char c = true) (fmt_abs digs dp).
Proof.
  intros Hd. apply digits_number in Hd as Hn. unfold fmt_abs, fmtE, fmtF, exp_text, ztake, zdrop. destruct digs as [|c rest].
  { repeat case_match; repeat (apply Forall_app; split); repeat constructor; rewrite ?take_nil, ?drop_nil; try constructor;
      apply Forall_replicate; reflexivity. }
  inversion Hn; subst. repeat case_match; repeat first
    [ assumption | apply Forall_app; split | constructor | done | apply Forall_take | apply Forall_drop
    | by apply Forall_replicate | apply digits_number, Itoa_nat_digits; lia ].
Qed.


Lemma FormatFloat_chars f : prints_back f = true -> Forall (fun c => number_char c = true) (FormatFloat f) /\ FormatFloat f <> [].
Proof.
  destruct f as [s|s| |s m e]; try done; cbn [prints_back FormatFloat].
  { destruct s; [done|]. intros _. split; [|done]. repeat constructor. }
  unfold shortest. destruct (shortest_loop _ _ _ _ _ _) as [D p]. intros H. bool_hyps.
  pose proof (Itoa_spells D ltac:(lia)) as (Hd & Hne & _).
  destruct (fmt_abs_digit (Itoa D) (p + len (Itoa D)) Hd Hne) as (c & t & E & Hc).
  split; [|rewrite E; by destruct s]. apply Forall_app. split; [destruct s; repeat constructor|]. by apply fmt_abs_chars.
Qed.
