(* ===== verification/GorrcdConfig.v ===== *)
(** * The hub daemon's identities and configuration file
      ([internal/gorrcd/hash.go], [config.go], [paths.go])

    Identity hashes in text form, the line-based TOML reader and the writer of
    the configuration.  [Host] is the machine: environment variables, the home
    directory and the joining of paths are its operations, and it holds the
    Unicode tables of the Go runtime beyond Latin-1 and ASCII. *)

From stdpp Require Import base tactics list strings.
From Stdlib Require Import ZArith Lia SpecFloat.
From S2P Require Import Prelude GoText HexHash GoFloat GoConv RrcBodies RrcHub.

(** ** The machine *)

Class Host := {
  ExpandEnv : bytes -> bytes;              (** [os.ExpandEnv] *)
  UserHomeDir : option bytes;              (** [os.UserHomeDir] *)
  Getenv_home : bytes;                     (** the variable [GORRCD_HOME] *)
  filepath_Join : bytes -> bytes -> bytes; (** [filepath.Join] of two elements *)
  read_error : bytes -> bytes;             (** the error of reading a file, as text *)
  write_error : bytes -> bytes;            (** the error of writing a file, as text *)
  print_above : Z -> bool;                 (** [strconv.IsPrint] above U+00FF *)
  upper_above : Z -> Z;                    (** [unicode.ToUpper] above U+007F *)
}.

(** [strings.ToUpper]. *)
Definition upper_rune `{Host} (r : Z) : Z :=
  if r <? 128 then (if between 97 r 122 then r - 32 else r) else upper_above r.
Definition ToUpper `{Host} (s : bytes) : bytes := encode (map (fun u => R (upper_rune (rune_of u))) (decode s)).

(** ** [hash.go] *)

Definition zero_ID : bytes := make_bytes IdentityLength.

Definition idFrom (b : bytes) : option bytes := if len b =? IdentityLength then Some b else None.

Definition ID_Hex (id : bytes) : bytes := hex_Encode id.

Definition trimHex (s : bytes) (n : Z) : bytes := if (n <=? 0) || (len s <=? n) then s else ztake n s.

Definition ID_Prefix (id : bytes) (n : Z) : bytes := trimHex (ID_Hex id) n.

(** [strings.Map] with the blanks and tabs dropped. *)
Definition drop_blanks (s : bytes) : bytes :=
  encode (map R (List.filter (fun r => negb ((r =? 32) || (r =? 9))) (map rune_of (decode s)))).

Section ids.
Context `{Host}.

(** An error is its text. *)
Definition parseIdentityHash (text : bytes) : res bytes bytes :=
  let s := TrimSpace (ToLower text) in
  let s := drop_blanks (TrimPrefix s (lit "0x")) in
  match hex_Decode s with
  | Err _ => Err (lit "invalid identity hash " ++ Quote print_above text)
  | Ok b => if len b <? 4 then Err (lit "identity hash too short: " ++ Quote print_above text) else Ok b
  end.

Definition parseFullID (text : bytes) : res bytes bytes :=
  b ← parseIdentityHash text;
  match idFrom b with
  | Some id => Ok id
  | None => Err (lit "identity hash must be " ++ Itoa IdentityLength ++ lit " bytes")
  end.
End ids.

Definition lower_hex (r : Z) : bool := between 48 r 57 || between 97 r 102.

Definition hasHexPrefix (token : bytes) : option bytes :=
  let s := TrimPrefix (TrimSpace (ToLower token)) (lit "0x") in
  if len s <? 6 then None
  else if negb (forallb lower_hex (map rune_of (decode s))) then None
  else match hex_Decode s with Ok b => Some b | Err _ => None end.

(** ** [config.go]: reading *)

(** [splitKV]. *)
Definition splitKV (line : bytes) : option (bytes * bytes) :=
  match IndexByte line x3d with
  | None | Some O => None
  | Some i => Some (ToLower (TrimSpace (take i line)), TrimSpace (drop (S i) line))
  end.

(** Text in a pair of the quote [q]. *)
Definition quoted_by (q : byte) (v : bytes) : bool :=
  (2 <=? len v) && bool_decide (head v = Some q) && bool_decide (last v = Some q).

Definition inner (v : bytes) : bytes := ztake (len v - 2) (zdrop 1 v).

Definition unquote (v : bytes) : bytes :=
  let v := TrimSpace v in
  if quoted_by x22 v then
    match Unquote v with
    | Some s => s
    | None => ReplaceAll (inner v) [x5c; x22] [x22]
    end
  else if quoted_by x27 v then inner v
  else v.

Definition parseBool (v : bytes) : bool :=
  let s := ToLower (unquote v) in
  bool_decide (s = lit "true") || bool_decide (s = lit "1") || bool_decide (s = lit "yes").

Definition parseFloat (v : bytes) : f64 := ParseFloat (unquote v).
Definition parseU64 (v : bytes) : Z := ParseUint (unquote v).

Definition parseStringList (v : bytes) : list bytes :=
  let v := TrimSpace v in
  if bool_decide (v = []) || bool_decide (v = lit "[]") then []
  else
    let v := if HasPrefix v (lit "[") && HasSuffix v (lit "]") then TrimSpace (inner v) else v in
    if bool_decide (v = []) then []
    else List.filter (fun s => negb (bool_decide (s = []))) (map (fun p => unquote (TrimSpace p)) (Split v x2c)).

Module Cfg.
Record Config := mk {
  ConfigPath : bytes; RoomRegistryPath : bytes; ConfigDir : bytes; IdentityPath : bytes;
  AnnounceOnStart : bool; AnnouncePeriodS : f64; HubName : bytes; Greeting : bytes;
  TrustedIdentities : list bytes; BannedIdentities : list bytes;
  RoomRegistryPruneAfterS : f64; RoomRegistryPruneIntervalS : f64; RoomInviteTimeoutS : f64;
  IncludeJoinedMemberList : bool;
  MaxNickBytes : Z; MaxRoomsPerSession : Z; MaxRoomNameBytes : Z; MaxMsgBodyBytes : Z;
  RateLimitMsgsPerMinute : Z; PingIntervalS : f64; PingTimeoutS : f64; MaxResourceBytes : Z;
  MaxPendingResourceExpectations : Z; ResourceExpectationTTLS : f64; EnableResourceTransfer : bool;
  LogLevel : bytes; LogRNSLevel : bytes; LogConsole : bool; ServiceMode : bool; LogFile : bytes;
  LogFormat : bytes; UDPListen : bytes; UDPForward : bytes; ReadyPath : bytes;
}.

Definition eta (c : Config) : Config :=
  mk (ConfigPath c) (RoomRegistryPath c) (ConfigDir c) (IdentityPath c) (AnnounceOnStart c) (AnnouncePeriodS c)
    (HubName c) (Greeting c) (TrustedIdentities c) (BannedIdentities c) (RoomRegistryPruneAfterS c)
    (RoomRegistryPruneIntervalS c) (RoomInviteTimeoutS c) (IncludeJoinedMemberList c) (MaxNickBytes c)
    (MaxRoomsPerSession c) (MaxRoomNameBytes c) (MaxMsgBodyBytes c) (RateLimitMsgsPerMinute c) (PingIntervalS c)
    (PingTimeoutS c) (MaxResourceBytes c) (MaxPendingResourceExpectations c) (ResourceExpectationTTLS c)
    (EnableResourceTransfer c) (LogLevel c) (LogRNSLevel c) (LogConsole c) (ServiceMode c) (LogFile c)
    (LogFormat c) (UDPListen c) (UDPForward c) (ReadyPath c).

Definition set_ConfigPath : bytes -> Config -> Config := ltac:(field_setter eta ConfigPath).
Definition set_RoomRegistryPath : bytes -> Config -> Config := ltac:(field_setter eta RoomRegistryPath).
Definition set_ConfigDir : bytes -> Config -> Config := ltac:(field_setter eta ConfigDir).
Definition set_IdentityPath : bytes -> Config -> Config := ltac:(field_setter eta IdentityPath).
Definition set_AnnounceOnStart : bool -> Config -> Config := ltac:(field_setter eta AnnounceOnStart).
Definition set_AnnouncePeriodS : f64 -> Config -> Config := ltac:(field_setter eta AnnouncePeriodS).
Definition set_HubName : bytes -> Config -> Config := ltac:(field_setter eta HubName).
Definition set_Greeting : bytes -> Config -> Config := ltac:(field_setter eta Greeting).
Definition set_TrustedIdentities : list bytes -> Config -> Config := ltac:(field_setter eta TrustedIdentities).
Definition set_BannedIdentities : list bytes -> Config -> Config := ltac:(field_setter eta BannedIdentities).
Definition set_RoomRegistryPruneAfterS : f64 -> Config -> Config := ltac:(field_setter eta RoomRegistryPruneAfterS).
Definition set_RoomRegistryPruneIntervalS : f64 -> Config -> Config := ltac:(field_setter eta RoomRegistryPruneIntervalS).
Definition set_RoomInviteTimeoutS : f64 -> Config -> Config := ltac:(field_setter eta RoomInviteTimeoutS).
Definition set_IncludeJoinedMemberList : bool -> Config -> Config := ltac:(field_setter eta IncludeJoinedMemberList).
Definition set_MaxNickBytes : Z -> Config -> Config := ltac:(field_setter eta MaxNickBytes).
Definition set_MaxRoomsPerSession : Z -> Config -> Config := ltac:(field_setter eta MaxRoomsPerSession).
Definition set_MaxRoomNameBytes : Z -> Config -> Config := ltac:(field_setter eta MaxRoomNameBytes).
Definition set_MaxMsgBodyBytes : Z -> Config -> Config := ltac:(field_setter eta MaxMsgBodyBytes).
Definition set_RateLimitMsgsPerMinute : Z -> Config -> Config := ltac:(field_setter eta RateLimitMsgsPerMinute).
Definition set_PingIntervalS : f64 -> Config -> Config := ltac:(field_setter eta PingIntervalS).
Definition set_PingTimeoutS : f64 -> Config -> Config := ltac:(field_setter eta PingTimeoutS).
Definition set_MaxResourceBytes : Z -> Config -> Config := ltac:(field_setter eta MaxResourceBytes).
Definition set_MaxPendingResourceExpectations : Z -> Config -> Config := ltac:(field_setter eta MaxPendingResourceExpectations).
Definition set_ResourceExpectationTTLS : f64 -> Config -> Config := ltac:(field_setter eta ResourceExpectationTTLS).
Definition set_EnableResourceTransfer : bool -> Config -> Config := ltac:(field_setter eta EnableResourceTransfer).
Definition set_LogLevel : bytes -> Config -> Config := ltac:(field_setter eta LogLevel).
Definition set_LogRNSLevel : bytes -> Config -> Config := ltac:(field_setter eta LogRNSLevel).
Definition set_LogConsole : bool -> Config -> Config := ltac:(field_setter eta LogConsole).
Definition set_LogFile : bytes -> Config -> Config := ltac:(field_setter eta LogFile).
Definition set_LogFormat : bytes -> Config -> Config := ltac:(field_setter eta LogFormat).
End Cfg.

(** ** [paths.go] and the default configuration *)

Section config.
Context `{Host}.
Import Cfg.

Definition DefaultHome : bytes :=
  if bool_decide (Getenv_home = []) then
    match UserHomeDir with Some home => filepath_Join home (lit ".gorrcd") | None => lit ".gorrcd" end
  else Getenv_home.
Definition DefaultConfigPath : bytes := filepath_Join DefaultHome (lit "gorrcd.toml").
Definition DefaultIdentityPath : bytes := filepath_Join DefaultHome (lit "hub_identity").
Definition DefaultRoomsPath : bytes := filepath_Join DefaultHome (lit "rooms.toml").

Definition DefaultConfig : Config :=
  {| ConfigPath := DefaultConfigPath; RoomRegistryPath := DefaultRoomsPath; ConfigDir := [];
     IdentityPath := DefaultIdentityPath; AnnounceOnStart := true; AnnouncePeriodS := f_of_Z 0;
     HubName := lit "rrc"; Greeting := []; TrustedIdentities := []; BannedIdentities := [];
     RoomRegistryPruneAfterS := f_of_Z (30 * 24 * 3600); RoomRegistryPruneIntervalS := f_of_Z 3600;
     RoomInviteTimeoutS := f_of_Z 900; IncludeJoinedMemberList := false;
     MaxNickBytes := DefaultMaxNickBytes; MaxRoomsPerSession := DefaultMaxRoomsPerSession;
     MaxRoomNameBytes := DefaultMaxRoomNameBytes; MaxMsgBodyBytes := DefaultMaxMsgBodyBytes;
     RateLimitMsgsPerMinute := 240; PingIntervalS := f_of_Z 0; PingTimeoutS := f_of_Z 0;
     MaxResourceBytes := DefaultMaxResourceBytes; MaxPendingResourceExpectations := 8;
     ResourceExpectationTTLS := f_of_Z 30; EnableResourceTransfer := true;
     LogLevel := lit "INFO"; LogRNSLevel := lit "WARNING"; LogConsole := true; ServiceMode := false;
     LogFile := []; LogFormat := []; UDPListen := []; UDPForward := []; ReadyPath := [] |}.

Definition HubLimits_of (c : Config) : HubLimits :=
  mkLimitsHub (MaxNickBytes c) (MaxRoomsPerSession c) (MaxRoomNameBytes c) (MaxMsgBodyBytes c)
    (RateLimitMsgsPerMinute c).

Definition expandPath (p : bytes) : bytes :=
  let p := TrimSpace p in
  if bool_decide (p = []) then p
  else
    let p := ExpandEnv p in
    if HasPrefix p (lit "~/") || bool_decide (p = lit "~") then
      match UserHomeDir with Some home => filepath_Join home (TrimPrefix p (lit "~")) | None => p end
    else p.

Definition key_is (k : bytes) (s : string) : bool := bool_decide (k = lit s).

Definition applyHubKey (cfg : Config) (k v : bytes) : Config :=
  if key_is k "configdir" then set_ConfigDir (unquote v) cfg
  else if key_is k "identity_path" then set_IdentityPath (expandPath (unquote v)) cfg
  else if key_is k "room_registry_path" then set_RoomRegistryPath (expandPath (unquote v)) cfg
  else if key_is k "announce_on_start" || key_is k "announce" then set_AnnounceOnStart (parseBool v) cfg
  else if key_is k "announce_period_s" then set_AnnouncePeriodS (parseFloat v) cfg
  else if key_is k "hub_name" then set_HubName (unquote v) cfg
  else if key_is k "greeting" then set_Greeting (unquote v) cfg
  else if key_is k "trusted_identities" then set_TrustedIdentities (parseStringList v) cfg
  else if key_is k "banned_identities" then set_BannedIdentities (parseStringList v) cfg
  else if key_is k "room_registry_prune_after_s" then set_RoomRegistryPruneAfterS (parseFloat v) cfg
  else if key_is k "room_registry_prune_interval_s" then set_RoomRegistryPruneIntervalS (parseFloat v) cfg
  else if key_is k "room_invite_timeout_s" then set_RoomInviteTimeoutS (parseFloat v) cfg
  else if key_is k "include_joined_member_list" then set_IncludeJoinedMemberList (parseBool v) cfg
  else if key_is k "max_nick_bytes" then set_MaxNickBytes (parseU64 v) cfg
  else if key_is k "max_room_name_bytes" then set_MaxRoomNameBytes (parseU64 v) cfg
  else if key_is k "max_msg_body_bytes" then set_MaxMsgBodyBytes (parseU64 v) cfg
  else if key_is k "max_rooms_per_session" then set_MaxRoomsPerSession (parseU64 v) cfg
  else if key_is k "rate_limit_msgs_per_minute" then set_RateLimitMsgsPerMinute (parseU64 v) cfg
  else if key_is k "ping_interval_s" then set_PingIntervalS (parseFloat v) cfg
  else if key_is k "ping_timeout_s" then set_PingTimeoutS (parseFloat v) cfg
  else if key_is k "enable_resource_transfer" then set_EnableResourceTransfer (parseBool v) cfg
  else if key_is k "max_resource_bytes" then set_MaxResourceBytes (parseU64 v) cfg
  else if key_is k "max_pending_resource_expectations"
  then set_MaxPendingResourceExpectations (Z.min (parseU64 v) (2 ^ 63 - 1)) cfg
  else if key_is k "resource_expectation_ttl_s" then set_ResourceExpectationTTLS (parseFloat v) cfg
  else cfg.

Definition applyLogKey (cfg : Config) (k v : bytes) : Config :=
  if key_is k "level" then set_LogLevel (ToUpper (unquote v)) cfg
  else if key_is k "rns_level" then set_LogRNSLevel (ToUpper (unquote v)) cfg
  else if key_is k "console" then set_LogConsole (parseBool v) cfg
  else if key_is k "file" then set_LogFile (expandPath (unquote v)) cfg
  else if key_is k "format" then set_LogFormat (unquote v) cfg
  else cfg.

(** One line of [applyTOML]: the state is the section and the configuration. *)
Definition config_line (acc : bytes * Config) (l : bytes) : bytes * Config :=
  let '(section, cfg) := acc in
  let line := TrimSpace l in
  if bool_decide (line = []) || HasPrefix line (lit "#") then acc
  else if HasPrefix line (lit "[") && HasSuffix line (lit "]")
  then (ToLower (TrimSpace (inner line)), cfg)
  else
    match splitKV line with
    | None => acc
    | Some (k, v) =>
        if key_is section "hub" || key_is section "" then (section, applyHubKey cfg k v)
        else if key_is section "logging" then (section, applyLogKey cfg k v)
        else acc
    end.

(** [applyTOML]: the configuration, and whether the scanner gave up. *)
Definition applyTOML (cfg : Config) (text : bytes) : Config * bool :=
  let '(ls, err) := scan_lines text in
  ((foldl config_line ([], cfg) ls).2, err).

(** [LoadConfigFile] on the contents of the file. *)
Definition LoadConfigFile (path raw : bytes) : Config * bool :=
  applyTOML (set_ConfigPath path DefaultConfig) raw.

(** ** [config.go]: writing *)

Definition formatStringList (vals : list bytes) : bytes :=
  match vals with
  | [] => lit "[]"
  | _ => lit "[" ++ Join (map (Quote print_above) vals) (lit ", ") ++ lit "]"
  end.

Definition bool_text (b : bool) : bytes := if b then lit "true" else lit "false".

(** [key = value]. *)
Definition kv (k : string) (v : bytes) : bytes := lit k ++ lit " = " ++ v.

Definition hub_lines (c : Config) : list bytes :=
  [kv "configdir" (Quote print_above (ConfigDir c)); kv "identity_path" (Quote print_above (IdentityPath c));
   kv "room_registry_path" (Quote print_above (RoomRegistryPath c)); kv "announce_on_start" (bool_text (AnnounceOnStart c));
   kv "announce_period_s" (FormatFloat (AnnouncePeriodS c)); kv "hub_name" (Quote print_above (HubName c));
   kv "greeting" (Quote print_above (Greeting c));
   kv "trusted_identities" (formatStringList (TrustedIdentities c));
   kv "banned_identities" (formatStringList (BannedIdentities c));
   kv "room_registry_prune_after_s" (FormatFloat (RoomRegistryPruneAfterS c));
   kv "room_registry_prune_interval_s" (FormatFloat (RoomRegistryPruneIntervalS c));
   kv "room_invite_timeout_s" (FormatFloat (RoomInviteTimeoutS c));
   kv "include_joined_member_list" (bool_text (IncludeJoinedMemberList c));
   kv "max_nick_bytes" (Itoa (MaxNickBytes c)); kv "max_room_name_bytes" (Itoa (MaxRoomNameBytes c));
   kv "max_msg_body_bytes" (Itoa (MaxMsgBodyBytes c)); kv "max_rooms_per_session" (Itoa (MaxRoomsPerSession c));
   kv "rate_limit_msgs_per_minute" (Itoa (RateLimitMsgsPerMinute c));
   kv "ping_interval_s" (FormatFloat (PingIntervalS c)); kv "ping_timeout_s" (FormatFloat (PingTimeoutS c));
   kv "enable_resource_transfer" (bool_text (EnableResourceTransfer c));
   kv "max_resource_bytes" (Itoa (MaxResourceBytes c));
   kv "max_pending_resource_expectations" (Itoa (MaxPendingResourceExpectations c));
   kv "resource_expectation_ttl_s" (FormatFloat (ResourceExpectationTTLS c))].

Definition log_lines (c : Config) : list bytes :=
  [kv "level" (Quote print_above (LogLevel c)); kv "rns_level" (Quote print_above (LogRNSLevel c));
   kv "console" (bool_text (LogConsole c)); kv "file" (Quote print_above (LogFile c))].

Definition config_lines (c : Config) : list bytes :=
  [lit "# gorrcd configuration"; []; lit "[hub]"] ++ hub_lines c ++ [[]; lit "[logging]"] ++ log_lines c.

Definition marshalConfig (c : Config) : bytes := unlines (config_lines c).

(** [persistBannedIdentities] on the text of the file: [None] when a line is too
    long for the scanner. *)
Definition banned_line (banned : list bytes) : bytes := lit "banned_identities = " ++ formatStringList banned.

Definition is_banned_line (l : bytes) : bool :=
  HasPrefix (TrimSpace l) (lit "banned_identities") && Contains (TrimSpace l) (lit "=").

Definition rewriteBanned (raw : bytes) (banned : list bytes) : option bytes :=
  let '(ls, err) := scan_lines raw in
  if err then None
  else
    let out := map (fun l => if is_banned_line l then banned_line banned else l) ls in
    Some (unlines (if existsb is_banned_line ls then out else out ++ [banned_line banned])).
End config.

(** A machine for examples: no variables, home [/root]. *)
Definition plain_host : Host :=
  Build_Host (fun s => s) (Some (lit "/root")) [] (fun a b => a ++ lit "/" ++ b)
    (fun p => lit "open " ++ p ++ lit ": permission denied") (fun p => lit "write " ++ p ++ lit ": no space left on device") (fun _ => true) (fun r => r).
