(* ===== verification/GorrcdRooms.v ===== *)
(** * Rooms, trust and the room registry of the hub daemon
      ([internal/gorrcd/rooms.go], [rooms_mut.go], [trust.go])

    The state a room keeps beside its members (founder, modes, key, operators,
    voices, bans, invitations), the registry of rooms with its file, and the
    lists of trusted and banned identities.  Each operation is the whole method;
    [now] is the clock in nanoseconds.  The registry file is part of the state:
    [disk] is what the file system holds and [disk_ok n] says whether the [n]-th
    atomic write succeeds. *)

From stdpp Require Import base tactics list gmap sets strings.
From Stdlib Require Import ZArith Lia SpecFloat.
From S2P Require Import Prelude GoText HexHash GoFloat GoConv Cbor RrcRoom RrcBodies RrcHub GorrcdConfig.

(** ** The refusals of [rrcd_strings.go] *)

Definition rrcdInviteOnly : bytes := lit "invite-only (+i)".
Definition rrcdBadKey : bytes := lit "bad key (+k)".
Definition rrcdBannedFromRoom : bytes := lit "banned from room".
Definition rrcdNoOutside : bytes := lit "no outside messages (+n)".
Definition rrcdModerated : bytes := lit "room is moderated (+m)".
Definition rrcdNotAuthorized : bytes := lit "not authorized".
Definition rrcdNotAuthorizedTopic : bytes := lit "not authorized (+t)".
Definition rrcdUnrecognized : bytes := lit "unrecognized command".
Definition rrcdBanned : bytes := lit "banned".

(** ** Room state *)

Record RoomState := mkRoom {
  Founder : bytes; HasFounder : bool; Registered : bool; Topic : bytes;
  Moderated : bool; InviteOnly : bool; TopicOpsOnly : bool; NoOutsideMsgs : bool; Private : bool;
  RoomKey : bytes; Ops : gset bytes; Voiced : gset bytes; Bans : gset bytes; Invited : gmap bytes f64;
  LastUsed : f64;
}.

Definition Room_eta (s : RoomState) : RoomState :=
  mkRoom (Founder s) (HasFounder s) (Registered s) (Topic s) (Moderated s) (InviteOnly s) (TopicOpsOnly s)
    (NoOutsideMsgs s) (Private s) (RoomKey s) (Ops s) (Voiced s) (Bans s) (Invited s) (LastUsed s).

Definition set_Registered : bool -> RoomState -> RoomState := ltac:(field_setter Room_eta Registered).
Definition set_Topic : bytes -> RoomState -> RoomState := ltac:(field_setter Room_eta Topic).
Definition set_Moderated : bool -> RoomState -> RoomState := ltac:(field_setter Room_eta Moderated).
Definition set_InviteOnly : bool -> RoomState -> RoomState := ltac:(field_setter Room_eta InviteOnly).
Definition set_TopicOpsOnly : bool -> RoomState -> RoomState := ltac:(field_setter Room_eta TopicOpsOnly).
Definition set_NoOutsideMsgs : bool -> RoomState -> RoomState := ltac:(field_setter Room_eta NoOutsideMsgs).
Definition set_Private : bool -> RoomState -> RoomState := ltac:(field_setter Room_eta Private).
Definition set_Key : bytes -> RoomState -> RoomState := ltac:(field_setter Room_eta RoomKey).
Definition set_Ops : gset bytes -> RoomState -> RoomState := ltac:(field_setter Room_eta Ops).
Definition set_Voiced : gset bytes -> RoomState -> RoomState := ltac:(field_setter Room_eta Voiced).
Definition set_Bans : gset bytes -> RoomState -> RoomState := ltac:(field_setter Room_eta Bans).
Definition set_Invited : gmap bytes f64 -> RoomState -> RoomState := ltac:(field_setter Room_eta Invited).
Definition set_LastUsed : f64 -> RoomState -> RoomState := ltac:(field_setter Room_eta LastUsed).
(** [st.Founder = founder; st.HasFounder = true; st.Ops[founder] = struct{}{}]. *)
Definition set_Founder (founder : bytes) (s : RoomState) : RoomState :=
  mkRoom founder true (Registered s) (Topic s) (Moderated s) (InviteOnly s) (TopicOpsOnly s)
    (NoOutsideMsgs s) (Private s) (RoomKey s) ({[founder]} ∪ Ops s) (Voiced s) (Bans s) (Invited s) (LastUsed s).

Definition f0 : f64 := S754_zero false.

Definition newRoomState (founder : bytes) (hasFounder : bool) : RoomState :=
  mkRoom founder hasFounder false [] false false false false false []
    (if hasFounder then {[founder]} else ∅) ∅ ∅ ∅ f0.

(** [float64(time.Now().Unix())]. *)
Definition unix (now : Z) : f64 := f_of_Z (now / Second).

Record RoomRegistry := mkReg {
  r_path : bytes; inviteTO : f64; r_rooms : gmap bytes RoomState;
  (** the file system and the number of atomic writes tried on it; a file
      that cannot be read is [None] *)
  disk : gmap bytes (option bytes); writes : nat;
}.

Definition with_rooms (rs : gmap bytes RoomState) (r : RoomRegistry) : RoomRegistry :=
  mkReg (r_path r) (inviteTO r) rs (disk r) (writes r).
Definition with_room (room : bytes) (st : RoomState) (r : RoomRegistry) : RoomRegistry :=
  with_rooms (<[room := st]> (r_rooms r)) r.

Definition NewRoomRegistry (path : bytes) (inviteTimeoutS : f64) (d : gmap bytes (option bytes)) : RoomRegistry :=
  mkReg path inviteTimeoutS ∅ d 0.

Definition SetInviteTimeout (s : f64) (r : RoomRegistry) : RoomRegistry :=
  mkReg (r_path r) s (r_rooms r) (disk r) (writes r).

(** The state of a room that has just been looked up or created. *)
Definition ensured (o : option RoomState) (founder : bytes) (hasFounder : bool) : RoomState :=
  match o with
  | Some st => if negb (HasFounder st) && hasFounder then set_Founder founder st else st
  | None => newRoomState founder hasFounder
  end.

Definition ensureLocked (room founder : bytes) (hasFounder : bool) (r : RoomRegistry) : RoomRegistry * RoomState :=
  let st := ensured (r_rooms r !! room) founder hasFounder in
  (with_room room st r, st).

Definition Ensure (room founder : bytes) (hasFounder : bool) (r : RoomRegistry) : RoomRegistry :=
  (ensureLocked room founder hasFounder r).1.

Definition Touch (now : Z) (room : bytes) (r : RoomRegistry) : RoomRegistry :=
  let '(r, st) := ensureLocked room zero_ID false r in
  with_room room (set_LastUsed (unix now) st) r.

(** *** Who may do what *)

Definition is_op (st : RoomState) (peer : bytes) : bool :=
  (HasFounder st && bool_decide (Founder st = peer)) || bool_decide (peer ∈ Ops st).

Definition IsOp (room peer : bytes) (serverOp : bool) (r : RoomRegistry) : bool :=
  serverOp || match r_rooms r !! room with Some st => is_op st peer | None => false end.

Definition IsVoiced (room peer : bytes) (serverOp : bool) (r : RoomRegistry) : bool :=
  IsOp room peer serverOp r
  || match r_rooms r !! room with Some st => bool_decide (peer ∈ Voiced st) | None => false end.

Definition IsBanned (room peer : bytes) (r : RoomRegistry) : bool :=
  match r_rooms r !! room with Some st => bool_decide (peer ∈ Bans st) | None => false end.

(** [exp > now]. *)
Definition live_invite (now : Z) (st : RoomState) (peer : bytes) : bool :=
  match Invited st !! peer with Some exp => fltb (unix now) exp | None => false end.

(** An expired invitation is dropped when it is looked at. *)
Definition IsInvited (now : Z) (room peer : bytes) (r : RoomRegistry) : RoomRegistry * bool :=
  match r_rooms r !! room with
  | None => (r, false)
  | Some st =>
      match Invited st !! peer with
      | None => (r, false)
      | Some exp =>
          if SFleb exp (unix now) then (with_room room (set_Invited (delete peer (Invited st)) st) r, false)
          else (r, true)
      end
  end.

Definition ConsumeInvite (room peer : bytes) (r : RoomRegistry) : RoomRegistry :=
  match r_rooms r !! room with
  | Some st => with_room room (set_Invited (delete peer (Invited st)) st) r
  | None => r
  end.

(** [subtle.ConstantTimeCompare] answers whether the bytes are equal. *)
Definition keyEqual (a b : bytes) : bool := if len a =? len b then bool_decide (a = b) else false.

Definition AllowJoin (now : Z) (room peer : bytes) (body : any) (serverOp : bool) (r : RoomRegistry)
  : RoomRegistry * option bytes :=
  let '(r, st) := ensureLocked room peer true r in
  let isOp := serverOp || is_op st peer in
  let invited := live_invite now st peer in
  (r, if bool_decide (peer ∈ Bans st) then Some rrcdBannedFromRoom
      else if InviteOnly st && negb isOp && negb invited then Some rrcdInviteOnly
      else if negb (bool_decide (RoomKey st = [])) && negb isOp && negb invited
              && negb (keyEqual (default [] (BodyAsString body)) (RoomKey st)) then Some rrcdBadKey
      else None).

Definition AllowContent (room peer : bytes) (isMember serverOp : bool) (r : RoomRegistry) : option bytes :=
  let st := r_rooms r !! room in
  let test (f : RoomState -> bool) := match st with Some st => f st | None => false end in
  if negb (present st) && negb isMember then Some (lit "no such room")
  else if test (fun st => bool_decide (peer ∈ Bans st)) then Some rrcdBannedFromRoom
  else if negb isMember && test NoOutsideMsgs then Some rrcdNoOutside
  else if test Moderated && negb (IsVoiced room peer serverOp r) then Some rrcdModerated
  else None.

(** *** What is shown of a room *)

Definition flag_if (b : bool) (c : byte) : bytes := if b then [c] else [].

Definition mode_flags (st : RoomState) : bytes :=
  flag_if (InviteOnly st) x69 ++ flag_if (negb (bool_decide (RoomKey st = []))) x6b ++ flag_if (Moderated st) x6d
  ++ flag_if (NoOutsideMsgs st) x6e ++ flag_if (Private st) x70 ++ flag_if (Registered st) x72
  ++ flag_if (TopicOpsOnly st) x74.

Definition ModeString (room : bytes) (r : RoomRegistry) : bytes :=
  match r_rooms r !! room with
  | None => lit "(none)"
  | Some st => if bool_decide (mode_flags st = []) then lit "(none)" else lit "+" ++ mode_flags st
  end.

Definition InfoLine (room : bytes) (r : RoomRegistry) : bytes :=
  let st := r_rooms r !! room in
  let kind := match st with Some st => if Registered st then lit "registered" else lit "unregistered"
              | None => lit "unregistered" end in
  let topic := match st with Some st => if bool_decide (Topic st = []) then lit "(none)" else Topic st
               | None => lit "(none)" end in
  lit "room " ++ room ++ lit ": " ++ kind ++ lit "; mode=" ++ ModeString room r ++ lit "; topic=" ++ topic.

(** The registered rooms by name. *)
Definition registered_names (rs : gmap bytes RoomState) : list bytes :=
  sort_Strings (omap (fun p => if Registered p.2 then Some p.1 else None) (map_to_list rs)).

Definition PublicRegistered (r : RoomRegistry) : list (bytes * bytes) :=
  omap (fun name => match r_rooms r !! name with
                    | Some st => if Private st then None else Some (name, Topic st)
                    | None => None
                    end) (registered_names (r_rooms r)).

Definition Count (r : RoomRegistry) : nat := length (registered_names (r_rooms r)).

Definition ReplaceAll (rs : gmap bytes RoomState) (r : RoomRegistry) : RoomRegistry := with_rooms rs r.

Definition GetFounder (room : bytes) (r : RoomRegistry) : option bytes :=
  match r_rooms r !! room with Some st => if HasFounder st then Some (Founder st) else None | None => None end.
Definition GetTopic (room : bytes) (r : RoomRegistry) : bytes :=
  match r_rooms r !! room with Some st => Topic st | None => [] end.
Definition GetTopicOpsOnly (room : bytes) (r : RoomRegistry) : bool :=
  match r_rooms r !! room with Some st => TopicOpsOnly st | None => false end.
Definition HasKey (room : bytes) (r : RoomRegistry) : bool :=
  match r_rooms r !! room with Some st => negb (bool_decide (RoomKey st = [])) | None => false end.
Definition NeedsStoredInvite (room : bytes) (r : RoomRegistry) : bool :=
  match r_rooms r !! room with Some st => InviteOnly st || negb (bool_decide (RoomKey st = [])) | None => false end.
Definition IsPrivate (room : bytes) (r : RoomRegistry) : bool :=
  match r_rooms r !! room with Some st => Private st | None => false end.

Definition ListBans (room : bytes) (r : RoomRegistry) : list bytes :=
  match r_rooms r !! room with Some st => sort_Strings (map ID_Hex (elements (Bans st))) | None => [] end.

Definition ListInvites (now : Z) (room : bytes) (r : RoomRegistry) : list bytes :=
  match r_rooms r !! room with
  | Some st => sort_Strings (omap (fun p => if fltb (unix now) p.2
      then Some (ID_Hex p.1 ++ lit " expires_in=" ++ Itoa (default 0 (trunc_int (fsub p.2 (unix now)))) ++ lit "s")
      else None) (map_to_list (Invited st)))
  | None => []
  end.

(** ** The registry file *)

Section file.
Context `{Host} (disk_ok : nat -> bool).

Definition isBareTOMLKey (s : bytes) : bool :=
  negb (bool_decide (s = []))
  && forallb (fun r => between 65 r 90 || between 97 r 122 || between 48 r 57 || (r =? 95) || (r =? 45))
       (map rune_of (decode s)).

Definition quoteTableKey (name : bytes) : bytes := if isBareTOMLKey name then name else Quote print_above name.

Definition formatIDList (m : gset bytes) : bytes :=
  if bool_decide (m = ∅) then lit "[]"
  else lit "[" ++ Join (sort_Strings (map (fun id => Quote print_above (ID_Hex id)) (elements m))) (lit ", ") ++ lit "]".

Definition formatInvited (now : Z) (m : gmap bytes f64) : bytes :=
  if bool_decide (m = ∅) then lit "{}"
  else lit "{ " ++ Join (sort_Strings (omap (fun p =>
         if fltb (unix now) p.2 then Some (Quote print_above (ID_Hex p.1) ++ lit " = " ++ FormatFloat p.2) else None)
         (map_to_list m))) (lit ", ") ++ lit " }".

Definition line_if (b : bool) (l : bytes) : list bytes := if b then [l] else [].

Definition room_lines (now : Z) (name : bytes) (st : RoomState) : list bytes :=
  [[]; lit "[rooms." ++ quoteTableKey name ++ lit "]"]
  ++ line_if (HasFounder st) (kv "founder" (Quote print_above (ID_Hex (Founder st))))
  ++ line_if (negb (bool_decide (Topic st = []))) (kv "topic" (Quote print_above (Topic st)))
  ++ [kv "moderated" (bool_text (Moderated st)); kv "invite_only" (bool_text (InviteOnly st));
      kv "topic_ops_only" (bool_text (TopicOpsOnly st)); kv "no_outside_msgs" (bool_text (NoOutsideMsgs st));
      kv "private" (bool_text (Private st))]
  ++ line_if (negb (bool_decide (RoomKey st = []))) (kv "key" (Quote print_above (RoomKey st)))
  ++ [kv "operators" (formatIDList (Ops st)); kv "voiced" (formatIDList (Voiced st));
      kv "bans" (formatIDList (Bans st)); kv "invited" (formatInvited now (Invited st))]
  ++ line_if (fltb f0 (LastUsed st)) (kv "last_used_ts" (FormatFloat (LastUsed st))).

Definition registry_lines (now : Z) (rs : gmap bytes RoomState) : list bytes :=
  [lit "# gorrcd room registry"; []; lit "[rooms]"]
  ++ concat (map (fun name => match rs !! name with Some st => room_lines now name st | None => [] end)
               (registered_names rs)).

Definition registry_text (now : Z) (rs : gmap bytes RoomState) : bytes := unlines (registry_lines now rs).

(** [atomicWrite]: the file is replaced as a whole or left as it was. *)
Definition atomicWrite (path data : bytes) (r : RoomRegistry) : RoomRegistry * bool :=
  if disk_ok (writes r)
  then (mkReg (r_path r) (inviteTO r) (r_rooms r) (<[path := Some data]> (disk r)) (S (writes r)), true)
  else (mkReg (r_path r) (inviteTO r) (r_rooms r) (disk r) (S (writes r)), false).

(** [writeLocked]; the answer is whether there was no error. *)
Definition writeLocked (now : Z) (r : RoomRegistry) : RoomRegistry * bool :=
  if bool_decide (r_path r = []) then (r, true)
  else atomicWrite (r_path r) (registry_text now (r_rooms r)) r.

Definition Persist (now : Z) (r : RoomRegistry) : RoomRegistry := (writeLocked now r).1.

Definition Delete (now : Z) (room : bytes) (r : RoomRegistry) : RoomRegistry * bool :=
  writeLocked now (with_rooms (delete room (r_rooms r)) r).

(** [PruneUnused]: the names that are dropped. *)
Definition unused (now : Z) (afterS : f64) (occupied : gset bytes) (started : Z) (p : bytes * RoomState) : option bytes :=
  if negb (Registered p.2) then None
  else if bool_decide (p.1 ∈ occupied) then None
  else
    let last := if SFeqb (LastUsed p.2) f0 then f_of_Z (started / Second) else LastUsed p.2 in
    if SFleb afterS (fsub (unix now) last) then Some p.1 else None.

Definition PruneUnused (now : Z) (afterS : f64) (occupied : gset bytes) (started : Z) (r : RoomRegistry)
  : RoomRegistry * list bytes :=
  let gone := omap (unused now afterS occupied started) (map_to_list (r_rooms r)) in
  let r := with_rooms (foldr delete (r_rooms r) gone) r in
  (match gone with [] => r | _ => (writeLocked now r).1 end, gone).

(** *** Mutators ([rooms_mut.go]) *)

Definition SetTopic (now : Z) (room topic : bytes) (r : RoomRegistry) : RoomRegistry :=
  let '(r, st) := ensureLocked room zero_ID false r in
  with_room room (set_LastUsed (unix now) (set_Topic topic st)) r.

Definition Register (now : Z) (room founder : bytes) (r : RoomRegistry) : RoomRegistry * bool :=
  let '(r, st) := ensureLocked room founder true r in
  let st := set_Ops ({[founder]} ∪ Ops st) (set_TopicOpsOnly true (set_NoOutsideMsgs true (set_Registered true st))) in
  writeLocked now (with_room room (set_LastUsed (unix now) st) r).

(** [Unregister]: the error of a room that is not registered, or of the write. *)
Inductive unregister_error := NotRegistered | WriteFailed.
Definition Unregister (now : Z) (room : bytes) (r : RoomRegistry) : RoomRegistry * option unregister_error :=
  match r_rooms r !! room with
  | Some st =>
      if Registered st then
        let '(r, ok) := writeLocked now (with_room room (set_Registered false st) r) in
        (r, if ok then None else Some WriteFailed)
      else (r, Some NotRegistered)
  | None => (r, Some NotRegistered)
  end.

Inductive flag_error := EmptyKey | UnknownFlag | FlagWriteFailed.

(** The flag of one letter. *)
Definition flag_setter (flag : bytes) (on : bool) (key : bytes) (st : RoomState) : RoomState + flag_error :=
  if key_is flag "m" then inl (set_Moderated on st)
  else if key_is flag "i" then inl (set_InviteOnly on st)
  else if key_is flag "t" then inl (set_TopicOpsOnly on st)
  else if key_is flag "n" then inl (set_NoOutsideMsgs on st)
  else if key_is flag "p" then inl (set_Private on st)
  else if key_is flag "k" then
    if on then (if bool_decide (key = []) then inr EmptyKey else inl (set_Key key st)) else inl (set_Key [] st)
  else inr UnknownFlag.

(** The write of a registered room after a change. *)
Definition write_registered (now : Z) (st : RoomState) (r : RoomRegistry) : RoomRegistry * bool :=
  if Registered st then writeLocked now r else (r, true).

Definition SetFlag (now : Z) (room flag : bytes) (on : bool) (key : bytes) (r : RoomRegistry)
  : RoomRegistry * option flag_error :=
  let '(r, st) := ensureLocked room zero_ID false r in
  match flag_setter flag on key st with
  | inr e => (r, Some e)
  | inl st =>
      let st := set_LastUsed (unix now) st in
      let '(r, ok) := write_registered now st (with_room room st r) in
      (r, if ok then None else Some FlagWriteFailed)
  end.

Definition mutateSet (now : Z) (room : bytes) (fn : RoomState -> RoomState) (r : RoomRegistry) : RoomRegistry :=
  let '(r, st) := ensureLocked room zero_ID false r in
  let st := set_LastUsed (unix now) (fn st) in
  (write_registered now st (with_room room st r)).1.

Definition AddOp now room target := mutateSet now room (fun st => set_Ops ({[target]} ∪ Ops st) st).
Definition DelOp now room target := mutateSet now room (fun st => set_Ops (Ops st ∖ {[target]}) st).
Definition AddVoice now room target := mutateSet now room (fun st => set_Voiced ({[target]} ∪ Voiced st) st).
Definition DelVoice now room target := mutateSet now room (fun st => set_Voiced (Voiced st ∖ {[target]}) st).
Definition AddBan now room target := mutateSet now room (fun st => set_Bans ({[target]} ∪ Bans st) st).
Definition DelBan now room target := mutateSet now room (fun st => set_Bans (Bans st ∖ {[target]}) st).
Definition AddInvite now room target (ttlS : f64) :=
  let ttlS := if SFleb ttlS f0 then f_of_Z 900 else ttlS in
  mutateSet now room (fun st => set_Invited (<[target := fadd (unix now) ttlS]> (Invited st)) st).
Definition DelInvite now room target :=
  mutateSet now room (fun st => set_Invited (delete target (Invited st)) st).

(** *** Reading the file *)

(** One part of the table: an identity and when its invitation ends. *)
Definition invite_part (now : Z) (out : gmap bytes f64) (p : bytes) : gmap bytes f64 :=
  match splitKV p with
  | None => out
  | Some (k, val) =>
      match parseFullID (unquote k) with
      | Err _ => out
      | Ok id => let exp := parseFloat val in if fltb (unix now) exp then <[id := exp]> out else out
      end
  end.

Definition parseInvited (now : Z) (v : bytes) : gmap bytes f64 :=
  let v := TrimSpace v in
  let v := if HasPrefix v (lit "{") && HasSuffix v (lit "}") then TrimSpace (inner v) else v in
  if bool_decide (v = []) then ∅ else foldl (invite_part now) ∅ (Split v x2c).

(** The identities of a list that are well formed, added to a set. *)
Definition add_ids (v : bytes) (m : gset bytes) : gset bytes :=
  foldl (fun m s => match parseFullID s with Ok id => {[id]} ∪ m | Err _ => m end) m (parseStringList v).

Definition applyRoomKey (now : Z) (st : RoomState) (k v : bytes) : RoomState :=
  if key_is k "founder" then match parseFullID (unquote v) with Ok id => set_Founder id st | Err _ => st end
  else if key_is k "topic" then set_Topic (unquote v) st
  else if key_is k "moderated" then set_Moderated (parseBool v) st
  else if key_is k "invite_only" then set_InviteOnly (parseBool v) st
  else if key_is k "topic_ops_only" then set_TopicOpsOnly (parseBool v) st
  else if key_is k "no_outside_msgs" then set_NoOutsideMsgs (parseBool v) st
  else if key_is k "private" then set_Private (parseBool v) st
  else if key_is k "key" then set_Key (unquote v) st
  else if key_is k "operators" then set_Ops (add_ids v (Ops st)) st
  else if key_is k "voiced" then set_Voiced (add_ids v (Voiced st)) st
  else if key_is k "bans" then set_Bans (add_ids v (Bans st)) st
  else if key_is k "invited" then set_Invited (parseInvited now v) st
  else if key_is k "last_used_ts" then set_LastUsed (parseFloat v) st
  else st.

Definition parseRoomTableName (s : bytes) : bytes :=
  let s := TrimSpace s in
  if quoted_by x22 s then unquote s else s.

(** One line of [parseRoomsTOML]: the rooms read so far and the current one. *)
Definition rooms_line (now : Z) (acc : gmap bytes RoomState * bytes) (l : bytes) : gmap bytes RoomState * bytes :=
  let '(out, cur) := acc in
  let line := TrimSpace l in
  if bool_decide (line = []) || HasPrefix line (lit "#") then acc
  else if HasPrefix line (lit "[") && HasSuffix line (lit "]") then
    let name := TrimSpace (inner line) in
    if EqualFoldWord name (lit "rooms") then (out, [])
    else if HasPrefix (ToLower name) (lit "rooms.") then
      let cur := parseRoomTableName (drop (length (lit "rooms.")) name) in
      (match out !! cur with
       | Some _ => out
       | None => <[cur := set_Registered true (newRoomState zero_ID false)]> out
       end, cur)
    else (out, [])
  else if bool_decide (cur = []) then acc
  else
    match splitKV line with
    | None => acc
    | Some (k, v) => (alter (fun st => applyRoomKey now st k v) cur out, cur)
    end.

Definition parseRoomsTOML (now : Z) (text : bytes) : gmap bytes RoomState * bool :=
  let '(ls, err) := scan_lines text in
  ((foldl (rooms_line now) (∅, []) ls).1, err).

(** [LoadRoomRegistry]: a missing file is an empty registry. *)
Definition LoadRoomRegistry (now : Z) (path : bytes) (d : gmap bytes (option bytes)) : option (gmap bytes RoomState) :=
  match d !! path with
  | None => Some ∅
  | Some None => None
  | Some (Some raw) => let '(rs, err) := parseRoomsTOML now raw in if err then None else Some rs
  end.
End file.

(** ** Trust ([trust.go]) *)

Record Trust := mkTrust { trusted : gset bytes; banned : gset bytes }.

Definition NewTrust : Trust := mkTrust ∅ ∅.

(** The identities of a list, or the error of the first that does not parse. *)
Fixpoint parse_ids `{Host} (l : list bytes) (acc : gset bytes) : res bytes (gset bytes) :=
  match l with
  | [] => Ok acc
  | s :: l => id ← parseFullID s; parse_ids l ({[id]} ∪ acc)
  end.

Definition Trust_Load `{Host} (trusted banned : list bytes) (t : Trust) : res bytes Trust :=
  nt ← parse_ids trusted ∅;
  nb ← parse_ids banned ∅;
  Ok (mkTrust nt nb).

Definition IsTrusted (id : bytes) (t : Trust) : bool := bool_decide (id ∈ trusted t).
Definition Trust_IsBanned (id : bytes) (t : Trust) : bool := bool_decide (id ∈ banned t).
Definition Ban (id : bytes) (t : Trust) : Trust := mkTrust (trusted t) ({[id]} ∪ banned t).
Definition Unban (id : bytes) (t : Trust) : Trust * bool :=
  (mkTrust (trusted t) (banned t ∖ {[id]}), bool_decide (id ∈ banned t)).
Definition BannedHex (t : Trust) : list bytes := sort_Strings (map ID_Hex (elements (banned t))).
Definition Counts (t : Trust) : nat * nat := (size (trusted t), size (banned t)).
