(* ===== verification/GorrcdToml.v ===== *)
(** * The registry file is read back

    [parseRoomsTOML] on the text [writeLocked] writes gives the registered rooms
    with every mode, key, operator, voice, ban and live invitation, whatever the
    bytes of names, topics and keys. *)

From stdpp Require Import base tactics list gmap sets strings sorting.
From Stdlib Require Import ZArith Lia SpecFloat.
From S2P Require Import Prelude GoText HexHash GoFloat GoConv Cbor RrcRoom RrcBodies RrcHub GorrcdConfig GorrcdRooms.

(** ** Text that survives quoting, trimming and splitting *)

Definition tightb (s : bytes) : bool :=
  match head s, last s with
  | Some a, Some b => (bZ a <? 128) && negb (isSpace (bZ a)) && (bZ b <? 128) && negb (isSpace (bZ b))
  | _, _ => true
  end.

Lemma tightb_spec s : tightb s = true -> tight s.
Proof.
  unfold tightb, tight. destruct (head s) as [a|] eqn:Ha; destruct (last s) as [b|] eqn:Hb.
  - intros H. bool_hyps. split; intros c [= <-]; done.
  - apply last_None in Hb as ->. done.
  - destruct s; [|done]. done.
  - done.
Qed.

Lemma tight_ends c d m : (bZ c < 128 /\ isSpace (bZ c) = false) -> (bZ d < 128 /\ isSpace (bZ d) = false) ->
  tight (c :: m ++ [d]).
Proof.
  intros Hc Hd. split; intros x; [by intros [= <-]|]. rewrite app_comm_cons, last_snoc. by intros [= <-].
Qed.

(** Only the ends matter. *)
Lemma tight_outer a m b : a <> [] -> b <> [] -> tight a -> tight b -> tight (a ++ m ++ b).
Proof.
  intros Ha Hb [H1 _] [_ H2]. destruct a as [|x a]; [done|]. split; intros c Hc; [by apply H1|].
  destruct b as [|y b _] using rev_ind; [done|]. rewrite !app_assoc, last_snoc in Hc. apply H2. by rewrite last_snoc.
Qed.

Lemma x22_tight : bZ x22 < 128 /\ isSpace (bZ x22) = false.
Proof. by vm_compute. Qed.

Section quoted.
Context (pa : Z -> bool).

Lemma Quote_tight s : tight (Quote pa s).
Proof. apply tight_ends; apply x22_tight. Qed.

Lemma Quote_nonempty s : Quote pa s <> [].
Proof. done. Qed.

Lemma Quote_len s : 2 <= len (Quote pa s).
Proof. unfold Quote. rewrite len_cons, len_app, len_cons, len_nil. pose proof (len_nonneg (concat (map (quote_unit pa) (decode s)))). lia. Qed.

Lemma quoted_Quote s : quoted_by x22 (Quote pa s) = true.
Proof.
  unfold quoted_by. rewrite (proj2 (Z.leb_le _ _) (Quote_len s)). unfold Quote.
  rewrite app_comm_cons, last_snoc. reflexivity.
Qed.

Lemma unquote_Quote s : unquote (Quote pa s) = s.
Proof. unfold unquote. by rewrite TrimSpace_tight, quoted_Quote, Unquote_Quote by apply Quote_tight. Qed.

(** Neither a newline nor, when it is not in the string, another low character
    comes out of quoting. *)
Lemma hex_of_hexish n v : 0 <= v -> Forall (fun c => hexish c = true) (hex_of n v).
Proof.
  revert v. induction n as [|n IH]; intros v Hv; [constructor|]. cbn [hex_of]. apply Forall_app. split.
  - apply IH, Z.div_pos; lia.
  - constructor; [|constructor]. apply hex_digit_hexish, Z.mod_pos_bound. lia.
Qed.

Lemma encode_rune_bytes r c : valid_rune r = true -> c ∈ encode_rune r -> bZ c = r \/ 128 <= bZ c.
Proof.
  intros Hv. unfold encode_rune. rewrite Hv. cbv zeta. unfold valid_rune in Hv.
  case_tests; bool_hyps; intros Hc; rewrite ?elem_of_cons, elem_of_nil in Hc;
    repeat (destruct Hc as [Hc|Hc]; [subst c; rewrite bZ_Zb_small by dlia; (left; dlia) || (right; dlia)|]); done.
Qed.

Lemma quote_unit_low u c : valid_unit u = true -> c ∈ quote_unit pa u -> bZ c < 32 -> False.
Proof.
  intros Hv Hc Hlow.
  assert (Hhex : forall n v, 0 <= v -> c ∈ hex_of n v -> False).
  { intros n v Hn Hin. pose proof (hex_of_hexish n v Hn) as H. rewrite List.Forall_forall in H.
    specialize (H c (proj1 (list_elem_of_In _ _) Hin)). unfold hexish, between in H. lia. }
  assert (Hb : forall d, c ∈ bslash d -> bZ d < 32).
  { intros d. unfold bslash. rewrite !elem_of_cons, elem_of_nil. intros [->|[->|[]]]; [by vm_compute in Hlow|done]. }
  destruct u as [r|b]; cbn [valid_unit quote_unit] in *.
  2: { apply elem_of_app in Hc as [Hc|Hc]; [apply Hb in Hc; by vm_compute in Hc|].
       eapply Hhex; [|exact Hc]. apply bZ_range. }
  assert (Hr : 0 <= r <= 1114111) by (unfold valid_rune in Hv; lia).
  unfold escape_rune in Hc. repeat case_match; bool_hyps; subst.
  all: try (apply Hb in Hc; by vm_compute in Hc).
  all: try (apply elem_of_app in Hc as [Hc|Hc]; [apply Hb in Hc; by vm_compute in Hc|eapply Hhex; [|exact Hc]; lia]).
  - apply Hb in Hc. assert (r = 34 \/ r = 92) as [-> | ->] by lia; by vm_compute in Hc.
  - apply (encode_rune_bytes r c Hv) in Hc. assert (32 <= r) by (destruct (Z.le_gt_cases r 255); [by apply (IsPrint_low pa)|lia]).
    lia.
Qed.

Lemma Quote_low s c : c ∈ Quote pa s -> 32 <= bZ c.
Proof.
  unfold Quote. rewrite elem_of_cons, elem_of_app, list_elem_of_singleton. intros [-> |[Hc| ->]]; [by vm_compute| |by vm_compute].
  apply list_elem_of_In, in_concat in Hc as (q & Hq & Hc). apply in_map_iff in Hq as (u & <- & Hu).
  pose proof (decode_valid s) as Hv. rewrite List.Forall_forall in Hv. specialize (Hv u Hu).
  destruct (Z.le_gt_cases 32 (bZ c)); [done|]. exfalso. apply list_elem_of_In in Hc. by apply (quote_unit_low u c).
Qed.

Lemma Quote_no_newline s : x0a ∉ Quote pa s.
Proof. intros H. apply Quote_low in H. by vm_compute in H. Qed.

(** Plain text is quoted as it is. *)
Definition plain_char (c : byte) : bool := between 32 (bZ c) 126 && negb (bZ c =? 34) && negb (bZ c =? 92).

Lemma Quote_plain s : forallb plain_char s = true -> Quote pa s = x22 :: s ++ [x22].
Proof.
  intros H. unfold Quote. f_equal. f_equal.
  assert (Ha : Forall (fun c => bZ c < 128) s).
  { apply List.Forall_forall. intros c Hc. rewrite forallb_forall in H. specialize (H c Hc). unfold plain_char, between in H. lia. }
  rewrite decode_ascii by done. rewrite map_map. induction s as [|c s IH]; [done|].
  cbn [map concat forallb] in *. bool_hyps. inversion_clear Ha. rewrite IH by done. cbn [quote_unit].
  unfold plain_char, between in H. unfold escape_rune, IsPrint, between.
  replace ((bZ c =? 34) || (bZ c =? 92)) with false by (symmetry; lia).
  rewrite (proj2 (Z.leb_le (bZ c) 255)) by lia. replace (_ || _) with true by (symmetry; lia).
  rewrite encode_rune_low by (pose proof (bZ_range c); lia). by rewrite Zb_bZ.
Qed.
End quoted.

Lemma hexish_plain c : hexish c = true -> plain_char c = true.
Proof. unfold hexish, plain_char, between. lia. Qed.

Lemma hex_plain id : forallb plain_char (ID_Hex id) = true.
Proof.
  apply forallb_forall. intros c Hc. pose proof (hex_Encode_hexish id) as H. rewrite List.Forall_forall in H.
  by apply hexish_plain, H.
Qed.

(** ** Values *)

Lemma hexish_clean s : Forall (fun c => hexish c = true) s ->
  Forall (fun c => bZ c < 128) s /\ tight s /\ ToLower s = s.
Proof.
  intros H. assert (Ha : Forall (fun c => bZ c < 128) s) by (eapply Forall_impl; [exact H|]; intros c Hc; by destruct (hexish_ascii c Hc)).
  split; [done|]. split.
  - assert (Hx : forall c, c ∈ s -> bZ c < 128 /\ isSpace (bZ c) = false).
    { intros c Hc. rewrite List.Forall_forall in H. destruct (hexish_ascii c) as (? & ? & _); [by apply H, list_elem_of_In|done]. }
    split; intros c Hc; apply Hx; (by apply head_Some_elem_of) || (by apply last_Some_elem_of).
  - unfold ToLower. rewrite decode_ascii, map_map by done. clear Ha. induction H as [|c s Hc _ IH]; [done|].
    cbn [map]. rewrite encode_cons, IH. cbn [lower_unit rune_of encode1]. unfold hexish, between in Hc.
    unfold lower_rune, between. rewrite (proj2 (Z.ltb_lt (bZ c) 128)) by lia.
    replace (_ && _) with false by (symmetry; lia). rewrite encode_rune_low by (pose proof (bZ_range c); lia).
    by rewrite Zb_bZ.
Qed.

Lemma drop_blanks_clean s : Forall (fun c => hexish c = true) s -> drop_blanks s = s.
Proof.
  intros H. destruct (hexish_clean s H) as (Ha & _ & _). unfold drop_blanks. rewrite decode_ascii, map_map by done. clear Ha. cbn [rune_of].
  induction H as [|c s Hc _ IH]; [done|]. cbn [map List.filter]. unfold hexish, between in Hc.
  replace (negb _) with true by (symmetry; lia). cbn [map]. rewrite encode_cons, IH. cbn [encode1].
  rewrite encode_rune_low by (pose proof (bZ_range c); lia). by rewrite Zb_bZ.
Qed.

Lemma TrimPrefix_hex s : Forall (fun c => hexish c = true) s -> TrimPrefix s (lit "0x") = s.
Proof.
  intros H. unfold TrimPrefix. assert (HasPrefix s (lit "0x") = false) as ->; [|done].
  change (lit "0x") with [x30; x78]. destruct s as [|a [|b s]]; [done| |].
  - cbn [HasPrefix]. by rewrite andb_false_r.
  - inversion_clear H as [|?? _ H']. inversion_clear H' as [|?? Hb _]. cbn [HasPrefix].
    rewrite (bool_decide_false (x78 = b)), andb_false_r; [done|]. intros <-. by vm_compute in Hb.
Qed.

Section values.
Context `{HO : Host}.
Local Abbreviation Quote := (Quote print_above).

Lemma parseFullID_Hex id : len id = IdentityLength -> parseFullID (ID_Hex id) = Ok id.
Proof.
  intros Hl. unfold parseFullID, parseIdentityHash, ID_Hex.
  pose proof (hex_Encode_hexish id) as Hh. destruct (hexish_clean _ Hh) as (_ & Ht & Hlow).
  rewrite Hlow, TrimSpace_tight, TrimPrefix_hex, drop_blanks_clean, hex_Decode_Encode by done. cbn [mbind res_bind].
  rewrite Hl. change (IdentityLength <? 4) with false. cbn [mbind res_bind]. unfold idFrom. by rewrite Hl.
Qed.

(** A value without quotes at its ends is itself. *)
Lemma unquote_bare v : tight v -> head v <> Some x22 -> head v <> Some x27 -> unquote v = v.
Proof.
  intros Ht H1 H2. unfold unquote, quoted_by. rewrite TrimSpace_tight by done.
  rewrite !(bool_decide_false (head v = _)) by done. by rewrite !andb_false_r.
Qed.

Lemma number_tight v : Forall (fun c => number_char c = true) v -> v <> [] ->
  tight v /\ head v <> Some x22 /\ head v <> Some x27 /\ x2c ∉ v /\ x0a ∉ v /\ x0d ∉ v.
Proof.
  intros H Hne. assert (Hx : forall c, c ∈ v -> number_char c = true).
  { intros c Hc. rewrite List.Forall_forall in H. by apply H, list_elem_of_In. }
  assert (Hs : forall c, number_char c = true -> bZ c < 128 /\ isSpace (bZ c) = false).
  { intros c. destruct c; vm_compute; intuition discriminate. }
  split; [split; intros c Hc; apply Hs, Hx; (by apply head_Some_elem_of) || (by apply last_Some_elem_of)|].
  repeat split; intros Hc; try apply head_Some_elem_of in Hc; apply Hx in Hc; by vm_compute in Hc.
Qed.

Lemma parseFloat_Format f : prints_back f = true -> parseFloat (FormatFloat f) = f.
Proof.
  intros Hf. destruct (FormatFloat_chars f Hf) as [Hc Hne]. destruct (number_tight _ Hc Hne) as (Ht & H1 & H2 & _).
  unfold parseFloat. by rewrite unquote_bare, ParseFloat_FormatFloat.
Qed.

Lemma parseU64_Itoa n : 0 <= n <= max_u64 -> parseU64 (Itoa n) = n.
Proof.
  intros Hn. destruct (Itoa_spells n) as (Hd & Hne & _); [lia|].
  destruct (number_tight _ (digits_number _ Hd) Hne) as (Ht & H1 & H2 & _).
  unfold parseU64. by rewrite unquote_bare, ParseUint_Itoa.
Qed.

Lemma parseBool_text b : parseBool (bool_text b) = b.
Proof. by destruct b. Qed.

Lemma bool_text_clean b : tight (bool_text b) /\ bool_text b <> [].
Proof. split; [by destruct b; apply tightb_spec|by destruct b]. Qed.

(** *** Lists *)

Lemma HasPrefix_app p s : HasPrefix (p ++ s) p = true.
Proof. induction p as [|x p IH]; [by destruct s|]. cbn [app HasPrefix]. by rewrite bool_decide_true. Qed.

Lemma HasSuffix_app s p : HasSuffix (s ++ p) p = true.
Proof. unfold HasSuffix. rewrite reverse_app. apply HasPrefix_app. Qed.

Lemma inner_wrap a s b : inner (a :: s ++ [b]) = s.
Proof.
  unfold inner, ztake, zdrop. replace (Z.to_nat (len (a :: s ++ [b]) - 2)) with (length s).
  - change (Z.to_nat 1) with 1%nat. cbn [drop]. apply take_app_length.
  - unfold len. cbn [length]. rewrite length_app. cbn [length]. lia.
Qed.

Lemma bracketed a s b : HasPrefix (a :: s ++ [b]) [a] && HasSuffix (a :: s ++ [b]) [b] = true.
Proof. rewrite app_comm_cons, HasSuffix_app, andb_true_r. apply (HasPrefix_app [a]). Qed.

Lemma Join_tight l sep : l <> [] -> Forall tight l -> Forall (fun s => s <> []) l -> tight (Join l sep) /\ Join l sep <> [].
Proof.
  intros Hne. induction l as [|x l IH]; [done|]. intros Ht Hn. inversion_clear Ht as [|?? Hx Hl].
  inversion_clear Hn as [|?? Hx0 Hl0]. destruct l as [|y l]; [done|].
  destruct IH as [IH1 IH2]; [done..|]. change (Join (x :: y :: l) sep) with (x ++ sep ++ Join (y :: l) sep).
  destruct x as [|a x]; [done|]. split; [|done]. split; intros c Hc; [by apply (proj1 Hx)|].
  destruct (Join (y :: l) sep) as [|b t _] using rev_ind; [done|]. rewrite !app_assoc, last_snoc in Hc.
  apply (proj2 IH1). by rewrite last_snoc.
Qed.

Lemma parseStringList_Join l : l <> [] -> Forall (fun s => s <> [] /\ x2c ∉ Quote s) l ->
  parseStringList (lit "[" ++ Join (map Quote l) (lit ", ") ++ lit "]") = l.
Proof.
  intros Hne Hl. unfold parseStringList. change (lit "[") with [x5b]. change (lit "]") with [x5d].
  change (lit ", ") with [x2c; x20]. cbn [app]. set (body := Join (map Quote l) [x2c; x20]).
  assert (Hj : tight body /\ body <> []).
  { apply Join_tight; [by destruct l|apply Forall_fmap, Forall_true; intros; apply Quote_tight|].
    apply Forall_fmap, Forall_true. intros. apply Quote_nonempty. }
  destruct Hj as [Hj1 Hj2].
  rewrite TrimSpace_tight by (apply tight_ends; by vm_compute).
  rewrite (bool_decide_false (_ = [])) by done.
  rewrite (bool_decide_false (_ = lit "[]")) by (intros [= E]; by destruct body as [|? [|??]]).
  change (lit "[") with [x5b]. change (lit "]") with [x5d]. cbn [orb].
  rewrite bracketed, inner_wrap, TrimSpace_tight by done. rewrite bool_decide_false by done.
  unfold body. destruct l as [|x l]; [done|]. cbn [map]. rewrite Split_Join.
  2: by rewrite list_elem_of_singleton.
  2: { apply (Forall_fmap Quote _ (x :: l)). eapply Forall_impl; [exact Hl|]. by intros s []. }
  cbn [map]. rewrite TrimSpace_tight, unquote_Quote by apply Quote_tight. rewrite !map_map.
  rewrite (map_ext _ id). 2: { intros s. cbn [app]. rewrite TrimSpace_blank_left by reflexivity.
    by rewrite TrimSpace_tight, unquote_Quote by apply Quote_tight. }
  rewrite map_id. clear -Hl. induction Hl as [|s k [Hs _] _ IH]; [done|]. cbn [List.filter].
  by rewrite bool_decide_false, IH.
Qed.

Lemma no_comma_hex id : x2c ∉ Quote (ID_Hex id).
Proof.
  rewrite Quote_plain by apply hex_plain. rewrite elem_of_cons, elem_of_app, list_elem_of_singleton.
  intros [H|[H|H]]; [done| |done]. pose proof (hex_Encode_hexish id) as Hh. rewrite List.Forall_forall in Hh.
  apply list_elem_of_In, Hh in H. by vm_compute in H.
Qed.

Lemma ID_Hex_nonempty id : len id = IdentityLength -> ID_Hex id <> [].
Proof. destruct id; done. Qed.
End values.

(** *** Identity sets *)

Definition ids_ok (m : gset bytes) : Prop := forall id, id ∈ m -> len id = IdentityLength.

Section sets.
Context `{HO : Host}.
Local Abbreviation Quote := (Quote print_above).

Lemma sort_map (f : bytes -> bytes) l : exists k, sort_Strings (map f l) = map f k /\ k ≡ₚ l.
Proof.
  pose proof (merge_sort_Permutation bytes_order (map f l)) as Hp.
  apply Permutation_map_inv in Hp as (k & E & Hk). exists k. split; [exact E|by symmetry].
Qed.

Lemma add_all (l : list bytes) (m : gset bytes) : Forall (fun id => len id = IdentityLength) l ->
  foldl (fun m s => match parseFullID s with Ok id => {[id]} ∪ m | Err _ => m end) m (map ID_Hex l) = list_to_set l ∪ m.
Proof.
  intros H. revert m. induction H as [|id l Hid _ IH]; intros m; cbn [map foldl list_to_set]; [by rewrite union_empty_l_L|].
  rewrite parseFullID_Hex by done. by rewrite IH, (assoc_L (∪)), (comm_L (∪) (list_to_set l)).
Qed.

Lemma formatIDList_elements m : m <> ∅ -> exists l, l ≡ₚ elements m
  /\ formatIDList m = lit "[" ++ Join (map Quote (map ID_Hex l)) (lit ", ") ++ lit "]" /\ l <> [].
Proof.
  intros Hm. unfold formatIDList. rewrite bool_decide_false by done.
  destruct (sort_map (fun id => Quote (ID_Hex id)) (elements m)) as (l & E & Hl). exists l.
  split; [done|]. rewrite E, map_map. split; [done|]. intros ->. apply Permutation_nil in Hl.
  apply elements_empty_inv in Hl. by apply leibniz_equiv in Hl.
Qed.

Lemma add_ids_format m acc : ids_ok m -> add_ids (formatIDList m) acc = m ∪ acc.
Proof.
  intros Hm. unfold add_ids. destruct (decide (m = ∅)) as [->|Hne].
  { change (formatIDList ∅) with (lit "[]"). change (parseStringList (lit "[]")) with (@nil bytes). by rewrite union_empty_l_L. }
  destruct (formatIDList_elements m Hne) as (l & Hl & -> & Hl0).
  assert (Hids : Forall (fun id => len id = IdentityLength) l).
  { apply Forall_forall. intros id Hid. apply Hm. rewrite Hl in Hid. by apply elem_of_elements. }
  rewrite parseStringList_Join; [|by destruct l|].
  - rewrite add_all by done. rewrite Hl, list_to_set_elements_L. done.
  - apply Forall_fmap. eapply Forall_impl; [exact Hids|]. intros id Hid. split; [by apply ID_Hex_nonempty|apply no_comma_hex].
Qed.

Lemma formatIDList_clean m : tight (formatIDList m) /\ formatIDList m <> [].
Proof.
  destruct (decide (m = ∅)) as [->|Hne]; [split; [by apply tightb_spec|done]|].
  destruct (formatIDList_elements m Hne) as (l & _ & -> & _). split; [|done]. apply tight_ends; by vm_compute.
Qed.

Lemma Join_no_newline l sep : x0a ∉ sep -> Forall (fun s => x0a ∉ s) l -> x0a ∉ Join l sep.
Proof.
  intros Hs. induction 1 as [|x l Hx Hl IH]; [apply not_elem_of_nil|]. destruct l as [|y l]; [done|].
  change (Join (x :: y :: l) sep) with (x ++ sep ++ Join (y :: l) sep). rewrite !not_elem_of_app. done.
Qed.

Lemma formatIDList_no_newline m : x0a ∉ formatIDList m.
Proof.
  destruct (decide (m = ∅)) as [->|Hne]; [change (formatIDList ∅) with [x5b; x5d]; set_solver|].
  destruct (formatIDList_elements m Hne) as (l & _ & -> & _). change (lit "[") with [x5b]. change (lit "]") with [x5d].
  rewrite !not_elem_of_app. split; [set_solver|]. split; [|set_solver]. apply Join_no_newline; [set_solver|].
  apply Forall_fmap, Forall_true. intros. apply Quote_no_newline.
Qed.

(** *** Invitations *)

Definition live_map (now : Z) (m : gmap bytes f64) : gmap bytes f64 := filter (fun p => fltb (unix now) p.2 = true) m.

Definition invite_text (p : bytes * f64) : bytes := Quote (ID_Hex p.1) ++ lit " = " ++ FormatFloat p.2.

Definition invites_ok (m : gmap bytes f64) : Prop :=
  forall id exp, m !! id = Some exp -> len id = IdentityLength /\ prints_back exp = true.

Lemma omap_filter {A B} (f : A -> B) (P : A -> bool) l :
  omap (fun x => if P x then Some (f x) else None) l = map f (List.filter P l).
Proof. induction l as [|x l IH]; [done|]. cbn. destruct (P x); cbn; by rewrite IH. Qed.

Lemma formatInvited_elements now m : m <> ∅ -> exists l, l ≡ₚ map_to_list (live_map now m)
  /\ formatInvited now m = lit "{ " ++ Join (map invite_text l) (lit ", ") ++ lit " }".
Proof.
  intros Hm. unfold formatInvited. rewrite bool_decide_false by done.
  rewrite (omap_filter invite_text (fun p : bytes * f64 => fltb (unix now) p.2)).
  pose proof (merge_sort_Permutation bytes_order (map invite_text
    (List.filter (fun p : bytes * f64 => fltb (unix now) p.2) (map_to_list m)))) as Hp.
  apply Permutation_map_inv in Hp as (l & E & Hl). exists l. split; [|unfold sort_Strings; by rewrite E].
  rewrite <- Hl. unfold live_map. rewrite map_filter_alt, map_to_list_to_map.
  2: { eapply sublist_NoDup; [apply (NoDup_fst_map_to_list m)|]. apply fmap_sublist, sublist_filter. }
  clear. induction (map_to_list m) as [|p l IH]; [done|].
  cbn. destruct (fltb (unix now) p.2) eqn:Ef.
  - by rewrite decide_True, IH.
  - by rewrite decide_False.
Qed.

Lemma IndexByte_app s c t : c ∉ s -> IndexByte (s ++ c :: t) c = Some (length s).
Proof.
  induction s as [|x s IH]; intros H; cbn [app IndexByte length]; [by rewrite bool_decide_true|].
  apply not_elem_of_cons in H as [H1 H2]. rewrite bool_decide_false by congruence. by rewrite IH.
Qed.

(** A key and a value around the equals sign, with a blank on each side of it. *)
Lemma splitKV_sides pre k v : k <> [] -> x3d ∉ k -> tight k -> tight v -> Forall (fun c => c = x20) pre ->
  splitKV (pre ++ k ++ lit " = " ++ v) = Some (ToLower k, v).
Proof.
  intros Hk Hn Htk Htv Hpre. unfold splitKV. change (lit " = ") with [x20; x3d; x20]. cbn [app].
  assert (x3d ∉ pre) as Hp by (intros Hx; rewrite Forall_forall in Hpre; by specialize (Hpre _ Hx)).
  replace (pre ++ k ++ x20 :: x3d :: x20 :: v) with ((pre ++ k ++ [x20]) ++ x3d :: x20 :: v)
    by by rewrite <- !app_assoc.
  rewrite IndexByte_app by (rewrite !not_elem_of_app; set_solver).
  destruct (length (pre ++ k ++ [x20])) as [|n] eqn:En; [rewrite !length_app in En; simpl in En; lia|].
  rewrite <- En. rewrite take_app_length. replace (S (length (pre ++ k ++ [x20]))) with (length ((pre ++ k ++ [x20]) ++ [x3d])) by (rewrite !length_app; simpl; lia).
  replace ((pre ++ k ++ [x20]) ++ x3d :: x20 :: v) with (((pre ++ k ++ [x20]) ++ [x3d]) ++ x20 :: v)
    by by rewrite <- (app_assoc _ [x3d]).
  rewrite drop_app_length. rewrite (TrimSpace_blank_left x20), (TrimSpace_tight v) by done.
  do 3 f_equal. clear -Hpre Hk Htk. induction Hpre as [|c pre -> _ IH]; cbn [app].
  - by rewrite TrimSpace_blank_right.
  - by rewrite TrimSpace_blank_left.
Qed.
End sets.

Section invites.
Context `{HO : Host}.
Local Abbreviation Quote := (Quote print_above).

Lemma ToLower_Quote_hex id : ToLower (Quote (ID_Hex id)) = Quote (ID_Hex id).
Proof.
  rewrite Quote_plain by apply hex_plain. pose proof (hex_Encode_hexish id) as Hh.
  destruct (hexish_clean _ Hh) as (Ha & _ & Hl). unfold ToLower in *.
  rewrite decode_head by (by vm_compute). rewrite decode_snoc by (by vm_compute).
  cbn [map]. rewrite map_app, encode_cons, encode_app. unfold ID_Hex in *. rewrite Hl. reflexivity.
Qed.

Lemma FormatFloat_clean f : prints_back f = true ->
  tight (FormatFloat f) /\ FormatFloat f <> [] /\ x2c ∉ FormatFloat f /\ x0a ∉ FormatFloat f.
Proof.
  intros Hf. destruct (FormatFloat_chars f Hf) as [Hc Hne]. destruct (number_tight _ Hc Hne) as (Ht & _ & _ & H1 & H2 & _).
  done.
Qed.

Definition invite_ok (p : bytes * f64) : Prop := len p.1 = IdentityLength /\ prints_back p.2 = true.

Lemma invite_text_clean p : invite_ok p -> tight (invite_text p) /\ invite_text p <> [] /\ x2c ∉ invite_text p /\ x0a ∉ invite_text p.
Proof.
  intros [_ Hf]. destruct (FormatFloat_clean _ Hf) as (Ht & Hne & Hc & Hn). unfold invite_text.
  split; [|split; [done|split]].
  - apply tight_outer; [done|done|apply Quote_tight|done].
  - change (lit " = ") with [x20; x3d; x20]. rewrite !not_elem_of_app. split; [apply no_comma_hex|set_solver].
  - change (lit " = ") with [x20; x3d; x20]. rewrite !not_elem_of_app. split; [apply Quote_no_newline|set_solver].
Qed.

(** What one part of the table does to the map being read. *)
Definition put_invite (now : Z) (out : gmap bytes f64) (p : bytes * f64) : gmap bytes f64 :=
  if fltb (unix now) p.2 then <[p.1 := p.2]> out else out.

Lemma no_equals_hex id : x3d ∉ Quote (ID_Hex id).
Proof.
  rewrite Quote_plain by apply hex_plain. rewrite elem_of_cons, elem_of_app, list_elem_of_singleton.
  intros [H|[H|H]]; [done| |done]. pose proof (hex_Encode_hexish id) as Hh. rewrite List.Forall_forall in Hh.
  apply list_elem_of_In, Hh in H. by vm_compute in H.
Qed.

Lemma read_invite now out pre p : invite_ok p -> Forall (fun c => c = x20) pre ->
  invite_part now out (pre ++ invite_text p) = put_invite now out p.
Proof.
  intros [Hid Hf] Hpre. destruct (FormatFloat_clean _ Hf) as (Ht & Hne & _). unfold invite_part, invite_text.
  rewrite splitKV_sides; [|done|apply no_equals_hex|apply Quote_tight|done|done].
  rewrite ToLower_Quote_hex, unquote_Quote, parseFullID_Hex, parseFloat_Format by done. done.
Qed.

Lemma put_invites_lookup now l k v : NoDup l.*1 ->
  foldl (put_invite now) ∅ l !! k = Some v <-> (k, v) ∈ l /\ fltb (unix now) v = true.
Proof.
  induction l as [|[id e] l IH] using rev_ind; intros Hn.
  { cbn [foldl]. rewrite lookup_empty, elem_of_nil. naive_solver. }
  rewrite fmap_app, NoDup_app in Hn. destruct Hn as (Hn & Hd & _).
  rewrite foldl_app. cbn [foldl]. unfold put_invite at 1. cbn [fst snd].
  assert (Hid : forall w, (id, w) ∈ l -> False).
  { intros w Hw. apply (Hd id); [|by left]. apply list_elem_of_fmap. by exists (id, w). }
  rewrite elem_of_app, list_elem_of_singleton. destruct (fltb (unix now) e) eqn:E.
  - rewrite lookup_insert_Some, IH by done. naive_solver.
  - rewrite IH by done. split; [intros []; by auto|]. intros [[?|[= -> ->]] ?]; [done|congruence].
Qed.

Lemma read_invites now l : Forall invite_ok l ->
  foldl (put_invite now) ∅ l = foldl (invite_part now) ∅
    match l with [] => [] | p :: l => invite_text p :: map (fun p => x20 :: invite_text p) l end.
Proof.
  intros Hl. destruct Hl as [|p l Hp Hl]; [done|]. cbn [foldl].
  pose proof (read_invite now ∅ [] p Hp ltac:(constructor)) as E0. cbn [app] in E0. rewrite E0. generalize (put_invite now ∅ p) as out.
  induction Hl as [|q l Hq _ IH]; intros out; [done|]. cbn [map foldl].
  pose proof (read_invite now out [x20] q Hq ltac:(by repeat constructor)) as E1. cbn [app] in E1. rewrite E1. apply IH.
Qed.

Lemma parseInvited_format now now' m : invites_ok m ->
  parseInvited now' (formatInvited now m) = live_map now' (live_map now m).
Proof.
  intros Hm. destruct (decide (m = ∅)) as [->|Hne]; [done|].
  destruct (formatInvited_elements now m Hne) as (l & Hl & E). rewrite E. clear E.
  assert (Hok : Forall invite_ok l).
  { apply Forall_forall. intros [id e] Hp. rewrite Hl in Hp. apply elem_of_map_to_list in Hp.
    apply map_lookup_filter_Some in Hp as [Hp _]. by apply Hm. }
  assert (Hres : foldl (put_invite now') ∅ l = live_map now' (live_map now m)).
  { apply map_eq. intros k. apply option_eq. intros v. rewrite put_invites_lookup.
    2: { rewrite Hl. apply NoDup_fst_map_to_list. }
    rewrite Hl, elem_of_map_to_list. unfold live_map at 2. rewrite map_lookup_filter_Some. done. }
  rewrite <- Hres, read_invites by done. clear Hres. unfold parseInvited.
  change (lit "{ ") with [x7b; x20]. change (lit " }") with [x20; x7d]. change (lit ", ") with [x2c; x20].
  replace ([x7b; x20] ++ Join (map invite_text l) [x2c; x20] ++ [x20; x7d])
    with (x7b :: (x20 :: Join (map invite_text l) [x2c; x20] ++ [x20]) ++ [x7d])
    by (cbn [app]; by rewrite <- app_assoc).
  rewrite TrimSpace_tight by (apply tight_ends; by vm_compute).
  change (lit "{") with [x7b]. change (lit "}") with [x7d]. rewrite bracketed, inner_wrap.
  rewrite TrimSpace_blank_left by done.
  destruct l as [|p l]; [reflexivity|].
  assert (Hj : tight (Join (map invite_text (p :: l)) [x2c; x20]) /\ Join (map invite_text (p :: l)) [x2c; x20] <> []).
  { apply Join_tight; [done| |]; apply Forall_fmap; (eapply Forall_impl; [exact Hok|]); intros q Hq; by destruct (invite_text_clean q Hq) as (? & ? & ? & ?). }
  destruct Hj as [Hj1 Hj2]. rewrite TrimSpace_blank_right by done. rewrite bool_decide_false by done.
  cbn [map]. rewrite Split_Join; [by rewrite map_map|by rewrite list_elem_of_singleton|].
  change (invite_text p :: map invite_text l) with (map invite_text (p :: l)). apply Forall_fmap.
  eapply Forall_impl; [exact Hok|]. intros q Hq. by destruct (invite_text_clean q Hq) as (? & ? & ? & ?).
Qed.

Lemma formatInvited_clean now m : tight (formatInvited now m) /\ formatInvited now m <> [].
Proof.
  destruct (decide (m = ∅)) as [->|Hne]; [split; [by apply tightb_spec|done]|].
  destruct (formatInvited_elements now m Hne) as (l & _ & ->). split; [|done].
  change (lit "{ ") with [x7b; x20]. change (lit " }") with [x20; x7d].
  replace ([x7b; x20] ++ Join (map invite_text l) (lit ", ") ++ [x20; x7d])
    with (x7b :: (x20 :: Join (map invite_text l) (lit ", ") ++ [x20]) ++ [x7d])
    by (cbn [app]; by rewrite <- app_assoc). apply tight_ends; by vm_compute.
Qed.

Lemma formatInvited_no_newline now m : invites_ok m -> x0a ∉ formatInvited now m.
Proof.
  intros Hm. destruct (decide (m = ∅)) as [->|Hne]; [change (formatInvited now ∅) with [x7b; x7d]; set_solver|].
  destruct (formatInvited_elements now m Hne) as (l & Hl & ->). change (lit "{ ") with [x7b; x20]. change (lit " }") with [x20; x7d].
  rewrite !not_elem_of_app. split; [set_solver|]. split; [|set_solver]. apply Join_no_newline; [set_solver|].
  apply Forall_fmap, Forall_forall. intros [id e] Hp. rewrite Hl in Hp. apply elem_of_map_to_list in Hp.
  apply map_lookup_filter_Some in Hp as [Hp _]. apply Hm in Hp. by destruct (invite_text_clean (id, e) Hp) as (? & ? & ? & ?).
Qed.
End invites.

(** ** Lines *)

(** The names of keys: lower case, no equals sign, and not the start of a comment
    or of a table. *)
Definition key_ok (k : string) : bool :=
  tightb (lit k) && negb (bool_decide (lit k = [])) && negb (bool_decide (x3d ∈ lit k))
  && bool_decide (ToLower (lit k) = lit k)
  && negb (bool_decide (head (lit k) = Some x23)) && negb (bool_decide (head (lit k) = Some x5b)).

Lemma HasPrefix_head s c : head s <> Some c -> HasPrefix s [c] = false.
Proof. destruct s as [|x s]; [done|]. cbn [head HasPrefix]. intros H. rewrite bool_decide_false by congruence. done. Qed.

Lemma kv_line k v : key_ok k = true -> tight v -> v <> [] ->
  TrimSpace (kv k v) = kv k v /\ kv k v <> [] /\ HasPrefix (kv k v) (lit "#") = false
  /\ HasPrefix (kv k v) (lit "[") = false /\ splitKV (kv k v) = Some (lit k, v).
Proof.
  intros Hk Ht Hv. unfold key_ok in Hk. bool_hyps. apply tightb_spec in H as Hkt.
  assert (Hhead : head (kv k v) = head (lit k)) by (unfold kv; by destruct (lit k)).
  split; [|split; [|split; [|split]]].
  - apply TrimSpace_tight. unfold kv. by apply tight_outer.
  - unfold kv. by destruct (lit k).
  - apply (HasPrefix_head _ x23). by rewrite Hhead.
  - apply (HasPrefix_head _ x5b). by rewrite Hhead.
  - unfold kv. rewrite <- (app_nil_l (lit k ++ _)). rewrite splitKV_sides by done. by f_equal; f_equal.
Qed.

Section lines.
Context `{HO : Host}.
Local Abbreviation Quote := (Quote print_above).

Lemma rooms_line_kv now out cur k v : cur <> [] -> key_ok k = true -> tight v -> v <> [] ->
  rooms_line now (out, cur) (kv k v) = (alter (fun st => applyRoomKey now st (lit k) v) cur out, cur).
Proof.
  intros Hc Hk Ht Hv. destruct (kv_line k v Hk Ht Hv) as (E1 & E2 & E3 & E4 & E5).
  unfold rooms_line. rewrite E1, E3, E4, E5. by rewrite !bool_decide_false.
Qed.

(** A table with one room being read: each key line changes that room. *)
Lemma rooms_line_at now out cur st k v : cur <> [] -> key_ok k = true -> tight v -> v <> [] ->
  rooms_line now (<[cur := st]> out, cur) (kv k v) = (<[cur := applyRoomKey now st (lit k) v]> out, cur).
Proof. intros. rewrite rooms_line_kv by done. by rewrite alter_insert_eq. Qed.

Lemma rooms_line_if now out cur st (b : bool) k v : cur <> [] -> key_ok k = true -> tight v -> v <> [] ->
  foldl (rooms_line now) (<[cur := st]> out, cur) (line_if b (kv k v))
  = (<[cur := if b then applyRoomKey now st (lit k) v else st]> out, cur).
Proof. intros. destruct b; [|done]. cbn [line_if foldl]. by apply rooms_line_at. Qed.

Lemma bare_chars s : isBareTOMLKey s = true -> forallb plain_char s = true /\ tight s /\ head s <> Some x22.
Proof.
  unfold isBareTOMLKey. intros H. bool_hyps. rewrite forallb_forall in H0.
  assert (Hd : forall u, u ∈ decode s -> exists r, u = R r /\ plain_char (Zb r) = true /\ r <> 34 /\ isSpace r = false /\ 0 <= r < 128).
  { intros u Hu. specialize (H0 (rune_of u)). destruct u as [r|b].
    - exists r. assert (Hr : between 65 r 90 || between 97 r 122 || between 48 r 57 || (r =? 95) || (r =? 45) = true).
      { apply H0. apply in_map_iff. exists (R r). split; [done|]. by apply list_elem_of_In. }
      unfold between in Hr. split; [done|]. assert (0 <= r < 128 /\ r <> 34 /\ r <> 92 /\ 32 < r <= 126) as (? & ? & ? & ?) by lia.
      split; [unfold plain_char, between; rewrite bZ_Zb_small by lia; lia|]. split; [done|]. split; [|done].
      unfold isSpace, between. lia.
    - exfalso. assert (Hr : false = true); [|done]. rewrite <- H0; [by vm_compute|].
      apply in_map_iff. exists (B b). split; [done|]. by apply list_elem_of_In. }
  assert (Hs : forall c, c ∈ s -> exists r, 0 <= r < 128 /\ c = Zb r /\ plain_char (Zb r) = true /\ r <> 34 /\ isSpace r = false).
  { intros c Hc. rewrite <- (encode_decode s) in Hc. unfold encode in Hc.
    apply list_elem_of_In, in_concat in Hc as (q & Hq & Hc). apply in_map_iff in Hq as (u & <- & Hu).
    apply list_elem_of_In in Hu. destruct (Hd u Hu) as (r & -> & Hp & Hne & Hsp & Hr). exists r. cbn [encode1] in Hc.
    rewrite encode_rune_low in Hc by done. destruct Hc as [<-|[]]. done. }
  split; [|split].
  - apply forallb_forall. intros c Hc. apply list_elem_of_In in Hc. by destruct (Hs c Hc) as (r & _ & -> & ? & _).
  - split; intros c Hc; (apply head_Some_elem_of in Hc || apply last_Some_elem_of in Hc);
      destruct (Hs c Hc) as (r & Hr & -> & _ & _ & Hsp); rewrite bZ_Zb_small by lia; (split; [lia|done]).
  - intros Hc. apply head_Some_elem_of in Hc. destruct (Hs _ Hc) as (r & Hr & E & _ & Hne & _).
    apply (f_equal bZ) in E. rewrite bZ_Zb_small in E by lia. vm_compute in E. lia.
Qed.

Lemma tableKey name : name <> [] -> tight (quoteTableKey name) /\ quoteTableKey name <> []
  /\ parseRoomTableName (quoteTableKey name) = name.
Proof.
  intros Hn. unfold quoteTableKey, parseRoomTableName. destruct (isBareTOMLKey name) eqn:E.
  - destruct (bare_chars name E) as (_ & Ht & Hh). rewrite TrimSpace_tight by done. split; [done|]. split; [done|].
    unfold quoted_by. rewrite (bool_decide_false (head name = _)) by done. by rewrite andb_false_r.
  - rewrite TrimSpace_tight, quoted_Quote, unquote_Quote by apply Quote_tight. split; [apply Quote_tight|done].
Qed.

Lemma rooms_header now out cur name : name <> [] -> out !! name = None ->
  foldl (rooms_line now) (out, cur) [[]; lit "[rooms." ++ quoteTableKey name ++ lit "]"]
  = (<[name := set_Registered true (newRoomState zero_ID false)]> out, name).
Proof.
  intros Hn Ho. destruct (tableKey name Hn) as (Ht & Hne & Hp). cbn [foldl].
  change (rooms_line now (out, cur) []) with (out, cur).
  set (t := lit "rooms." ++ quoteTableKey name).
  replace (lit "[rooms." ++ quoteTableKey name ++ lit "]") with (x5b :: t ++ [x5d]) by (unfold t; by rewrite <- app_assoc).
  assert (Htt : tight t).
  { unfold t. change (lit "rooms." ++ quoteTableKey name) with (lit "rooms." ++ [] ++ quoteTableKey name).
    apply tight_outer; [done|done|by apply tightb_spec|done]. }
  unfold rooms_line. rewrite TrimSpace_tight by (apply tight_ends; by vm_compute).
  rewrite (bool_decide_false (_ = [])) by done. rewrite (HasPrefix_head _ x23) by done.
  change (lit "[") with [x5b]. change (lit "]") with [x5d]. rewrite bracketed, inner_wrap, TrimSpace_tight by done. cbn [orb].
  assert (EqualFoldWord t (lit "rooms") = false) as ->.
  { unfold EqualFoldWord. rewrite bool_decide_false; [done|]. rewrite length_map. unfold t.
    change (lit "rooms." ++ ?q) with (x72 :: x6f :: x6f :: x6d :: x73 :: x2e :: q). rewrite !decode_head by (by vm_compute).
    change (length (lit "rooms")) with 5%nat. cbn [length]. lia. }
  assert (HasPrefix (ToLower t) (lit "rooms.") = true) as ->.
  { unfold t, ToLower. change (lit "rooms." ++ ?q) with (x72 :: x6f :: x6f :: x6d :: x73 :: x2e :: q).
    rewrite !decode_head by (by vm_compute). cbn [map]. rewrite !encode_cons. apply (HasPrefix_app (lit "rooms.")). }
  change (drop (length (lit "rooms.")) t) with (quoteTableKey name). rewrite Hp, Ho. done.
Qed.
End lines.

(** ** Rooms *)

Section rooms.
Context `{HO : Host}.
Local Abbreviation Quote := (Quote print_above).

(** What the keys of a room do, one equation per key. *)
Section keys.
Context (now : Z) (st : RoomState) (v : bytes).
Lemma key_founder : applyRoomKey now st (lit "founder") v
  = match parseFullID (unquote v) with Ok id => set_Founder id st | Err _ => st end.
Proof. reflexivity. Qed.
Lemma key_topic : applyRoomKey now st (lit "topic") v = set_Topic (unquote v) st. Proof. reflexivity. Qed.
Lemma key_moderated : applyRoomKey now st (lit "moderated") v = set_Moderated (parseBool v) st. Proof. reflexivity. Qed.
Lemma key_invite_only : applyRoomKey now st (lit "invite_only") v = set_InviteOnly (parseBool v) st. Proof. reflexivity. Qed.
Lemma key_topic_ops : applyRoomKey now st (lit "topic_ops_only") v = set_TopicOpsOnly (parseBool v) st. Proof. reflexivity. Qed.
Lemma key_no_outside : applyRoomKey now st (lit "no_outside_msgs") v = set_NoOutsideMsgs (parseBool v) st. Proof. reflexivity. Qed.
Lemma key_private : applyRoomKey now st (lit "private") v = set_Private (parseBool v) st. Proof. reflexivity. Qed.
Lemma key_key : applyRoomKey now st (lit "key") v = set_Key (unquote v) st. Proof. reflexivity. Qed.
Lemma key_operators : applyRoomKey now st (lit "operators") v = set_Ops (add_ids v (Ops st)) st. Proof. reflexivity. Qed.
Lemma key_voiced : applyRoomKey now st (lit "voiced") v = set_Voiced (add_ids v (Voiced st)) st. Proof. reflexivity. Qed.
Lemma key_bans : applyRoomKey now st (lit "bans") v = set_Bans (add_ids v (Bans st)) st. Proof. reflexivity. Qed.
Lemma key_invited : applyRoomKey now st (lit "invited") v = set_Invited (parseInvited now v) st. Proof. reflexivity. Qed.
Lemma key_last_used : applyRoomKey now st (lit "last_used_ts") v = set_LastUsed (parseFloat v) st. Proof. reflexivity. Qed.
End keys.

(** A room whose identities have their length and whose times print. *)
Record room_ok (st : RoomState) : Prop := {
  ok_founder : HasFounder st = true -> len (Founder st) = IdentityLength;
  ok_ops : ids_ok (Ops st); ok_voiced : ids_ok (Voiced st); ok_bans : ids_ok (Bans st);
  ok_invited : invites_ok (Invited st);
  ok_used : fltb f0 (LastUsed st) = true -> prints_back (LastUsed st) = true;
}.

(** The room a restart at [now'] finds in a file written at [now]. *)
Definition reloaded (now now' : Z) (st : RoomState) : RoomState :=
  mkRoom (if HasFounder st then Founder st else zero_ID) (HasFounder st) true (Topic st) (Moderated st)
    (InviteOnly st) (TopicOpsOnly st) (NoOutsideMsgs st) (Private st) (RoomKey st)
    (Ops st ∪ (if HasFounder st then {[Founder st]} else ∅)) (Voiced st) (Bans st)
    (live_map now' (live_map now (Invited st))) (if fltb f0 (LastUsed st) then LastUsed st else f0).

(** The state after each group of lines. *)
Lemma founder_read now st s : (HasFounder st = true -> len (Founder st) = IdentityLength) ->
  (if HasFounder st then applyRoomKey now s (lit "founder") (Quote (ID_Hex (Founder st))) else s)
  = if HasFounder st then set_Founder (Founder st) s else s.
Proof. intros H. destruct (HasFounder st); [|done]. rewrite key_founder, unquote_Quote, parseFullID_Hex by auto. done. Qed.

Lemma room_lines_read now now' out cur name st : name <> [] -> out !! name = None -> room_ok st ->
  foldl (rooms_line now') (out, cur) (room_lines now name st) = (<[name := reloaded now now' st]> out, name).
Proof.
  intros Hn Ho [Hf H1 H2 H3 H4 H5]. unfold room_lines. rewrite !foldl_app, rooms_header by done.
  assert (Hq : forall s, tight (Quote s) /\ Quote s <> []) by (intros s; split; [apply Quote_tight|done]).
  rewrite !rooms_line_if by (done || apply Hq). rewrite founder_read by done. cbn [foldl].
  rewrite !rooms_line_at by (done || apply bool_text_clean).
  rewrite rooms_line_if by (done || apply Hq).
  rewrite !rooms_line_at by (done || apply formatIDList_clean || apply formatInvited_clean).
  assert (Hu : forall s, foldl (rooms_line now') (<[name := s]> out, name) (line_if (fltb f0 (LastUsed st)) (kv "last_used_ts" (FormatFloat (LastUsed st))))
    = (<[name := if fltb f0 (LastUsed st) then set_LastUsed (LastUsed st) s else s]> out, name)).
  { intros s. destruct (fltb f0 (LastUsed st)); [|done]. destruct (FormatFloat_clean _ (H5 eq_refl)) as (Ht & Hne & _).
    cbn [line_if foldl]. rewrite rooms_line_at by done. by rewrite key_last_used, parseFloat_Format by auto. }
  rewrite Hu, key_invited, key_bans, key_voiced, key_operators, key_key, key_private, key_no_outside, key_topic_ops,
    key_invite_only, key_moderated, key_topic.
  rewrite parseInvited_format, !add_ids_format, !parseBool_text, !unquote_Quote by done. f_equal. f_equal.
  unfold reloaded. destruct st as [fd hf rg tp md io to no pv ky op vc bn iv lu].
  cbn [Founder HasFounder Registered Topic Moderated InviteOnly TopicOpsOnly NoOutsideMsgs Private RoomKey Ops Voiced Bans Invited LastUsed].
  case_bool_decide; case_bool_decide; destruct hf, (fltb f0 lu); subst;
    cbn -[live_map union f0]; by rewrite ?union_empty_r_L.
Qed.

(** A line that the scanner returns as it was written. *)
Definition clean_line (l : bytes) : Prop := x0a ∉ l /\ last l <> Some x0d.

Lemma clean_tight l : x0a ∉ l -> tight l -> clean_line l.
Proof. intros H1 [_ H2]. split; [done|]. intros E. apply H2 in E as [_ E]. by vm_compute in E. Qed.

Definition no_newline_key (k : string) : bool := negb (bool_decide (x0a ∈ lit k)).

Lemma clean_kv k v : key_ok k = true -> no_newline_key k = true -> tight v -> v <> [] -> x0a ∉ v -> clean_line (kv k v).
Proof.
  intros Hk Hn Ht Hv Hx. unfold no_newline_key in Hn. apply clean_tight.
  - unfold kv. bool_hyps. change (lit " = ") with [x20; x3d; x20]. rewrite !not_elem_of_app. set_solver.
  - unfold key_ok in Hk. bool_hyps. unfold kv. apply tight_outer; try done. by apply tightb_spec.
Qed.

Lemma clean_quote k s : key_ok k = true -> no_newline_key k = true -> clean_line (kv k (Quote s)).
Proof. intros. apply clean_kv; try done; [apply Quote_tight|apply Quote_no_newline]. Qed.

Lemma clean_bool k b : key_ok k = true -> no_newline_key k = true -> clean_line (kv k (bool_text b)).
Proof.
  intros. destruct (bool_text_clean b). apply clean_kv; try done. apply (bool_decide_unpack _). by destruct b; vm_compute.
Qed.

Lemma clean_ids k m : key_ok k = true -> no_newline_key k = true -> clean_line (kv k (formatIDList m)).
Proof. intros. destruct (formatIDList_clean m). apply clean_kv; try done. apply formatIDList_no_newline. Qed.

Lemma clean_table name : name <> [] -> clean_line (lit "[rooms." ++ quoteTableKey name ++ lit "]").
Proof.
  intros Hn. apply clean_tight.
  - rewrite !not_elem_of_app. split; [|split]; [by apply (bool_decide_unpack _); vm_compute| |by apply (bool_decide_unpack _); vm_compute].
    unfold quoteTableKey. destruct (isBareTOMLKey name) eqn:E; [|apply Quote_no_newline].
    destruct (bare_chars name E) as (Hp & _). intros Hx. rewrite forallb_forall in Hp.
    apply list_elem_of_In, Hp in Hx. by vm_compute in Hx.
  - apply tight_outer; try done; by apply tightb_spec.
Qed.

Lemma clean_if b l : (b = true -> clean_line l) -> Forall clean_line (line_if b l).
Proof. intros H. destruct b; repeat constructor; by apply H. Qed.

Lemma clean_empty : clean_line [].
Proof. split; [apply not_elem_of_nil|done]. Qed.

Lemma room_lines_clean now name st : name <> [] -> room_ok st -> Forall clean_line (room_lines now name st).
Proof.
  intros Hn [Hf H1 H2 H3 H4 H5]. unfold room_lines. repeat (apply Forall_app; split).
  - constructor; [apply clean_empty|]. constructor; [by apply clean_table|constructor].
  - apply clean_if. intros _. by apply clean_quote.
  - apply clean_if. intros _. by apply clean_quote.
  - repeat constructor; by apply clean_bool.
  - apply clean_if. intros _. by apply clean_quote.
  - repeat (constructor; [by apply clean_ids|]). constructor; [|constructor].
    destruct (formatInvited_clean now (Invited st)). apply clean_kv; try done. by apply formatInvited_no_newline.
  - apply clean_if. intros E. destruct (FormatFloat_clean _ (H5 E)) as (? & ? & _ & ?). by apply clean_kv.
Qed.

Lemma registered_names_elem rs name :
  name ∈ registered_names rs <-> exists st, rs !! name = Some st /\ Registered st = true.
Proof.
  unfold registered_names, sort_Strings. rewrite merge_sort_Permutation, list_elem_of_omap. split.
  - intros ([n st] & Hin & E). cbn in E. destruct (Registered st) eqn:Er; [|done]. injection E as ->.
    exists st. split; [by apply elem_of_map_to_list|done].
  - intros (st & Hst & Er). exists (name, st). split; [by apply elem_of_map_to_list|]. cbn. by rewrite Er.
Qed.

Lemma registered_names_NoDup rs : NoDup (registered_names rs).
Proof.
  unfold registered_names, sort_Strings. rewrite merge_sort_Permutation.
  assert (H : NoDup (map_to_list rs).*1) by apply NoDup_fst_map_to_list.
  induction (map_to_list rs) as [|[n st] l IH]; [constructor|]. cbn in *. apply NoDup_cons in H as [Hn H].
  destruct (Registered st); [|by apply IH]. constructor; [|by apply IH]. intros Hin. apply Hn.
  apply list_elem_of_omap in Hin as ([n' st'] & Hin & E). cbn in E. destruct (Registered st'); [|done]. injection E as ->.
  apply list_elem_of_fmap. by exists (n, st').
Qed.

(** Reading the lines of a list of rooms puts each of them into the table. *)
Lemma rooms_read (now now' : Z) (rs : gmap bytes RoomState) (names : list bytes) (out : gmap bytes RoomState) cur : NoDup names ->
  (forall name, name ∈ names -> exists st, rs !! name = Some st /\ room_ok st /\ name <> [] /\ out !! name = None) ->
  (foldl (rooms_line now') (out, cur)
    (concat (map (fun name => match rs !! name with Some st => room_lines now name st | None => [] end) names))).1
  = list_to_map (omap (fun name => (fun st => (name, reloaded now now' st)) <$> rs !! name) names) ∪ out.
Proof.
  intros Hd. revert out cur. induction Hd as [|name names Hn Hd IH]; intros out cur H.
  { symmetry. apply (left_id_L ∅ (∪) out). }
  destruct (H name) as (st & Hst & Hok & Hne & Ho); [by left|]. cbn [map concat]. rewrite Hst, foldl_app.
  rewrite room_lines_read by done. rewrite IH.
  - cbn [omap list_omap]. rewrite Hst. cbn. rewrite <- insert_union_r; [by rewrite insert_union_l|].
    apply not_elem_of_list_to_map_1. intros Hin. apply Hn. apply list_elem_of_fmap in Hin as ([n s] & -> & Hin).
    apply list_elem_of_omap in Hin as (n' & Hn' & E). destruct (rs !! n') eqn:E'; [|done]. cbn in *. by simplify_eq.
  - intros n Hin. destruct (H n) as (s & Hs & ? & ? & ?); [by right|]. exists s. do 3 (split; [done|]).
    rewrite lookup_insert_ne; [done|]. intros ->. done.
Qed.

(** The registered rooms as they are found again. *)
Definition reloaded_rooms (now now' : Z) (rs : gmap bytes RoomState) : gmap bytes RoomState :=
  omap (fun st => if Registered st then Some (reloaded now now' st) else None) rs.

Lemma reloaded_rooms_list now now' rs :
  list_to_map (omap (fun name => (fun st => (name, reloaded now now' st)) <$> rs !! name) (registered_names rs))
  = reloaded_rooms now now' rs.
Proof.
  apply map_eq. intros name. apply option_eq. intros v. unfold reloaded_rooms. rewrite lookup_omap_Some.
  rewrite <- elem_of_list_to_map, list_elem_of_omap.
  - setoid_rewrite registered_names_elem. split.
    + intros (n & (st & Hst & Hr) & E). rewrite Hst in E. cbn in E. injection E as -> <-. exists st. by rewrite Hr.
    + intros (st & E & Hst). destruct (Registered st) eqn:Hr; [|done]. injection E as <-.
      exists name. split; [by exists st|]. by rewrite Hst.
  - pose proof (registered_names_NoDup rs) as Hd. induction Hd as [|n l Hn Hd IH]; [constructor|].
    cbn. destruct (rs !! n) as [st|]; cbn; [|done]. constructor; [|done]. intros Hin. apply Hn.
    apply list_elem_of_fmap in Hin as ([m s] & -> & Hin). apply list_elem_of_omap in Hin as (n' & Hn' & E).
    destruct (rs !! n'); [|done]. cbn in *. by simplify_eq.
Qed.
End rooms.

(** ** The file *)

Definition short (l : bytes) : bool := len l <? MaxScanTokenSize.

Lemma scan_clean ls : Forall clean_line ls ->
  scan_lines (unlines ls) = (if forallb short ls then ls else (scan_lines (unlines ls)).1, negb (forallb short ls)).
Proof.
  intros H. destruct (forallb short ls) eqn:E.
  - apply scan_unlines. apply forallb_forall. intros l Hl. rewrite forallb_forall in E. specialize (E l Hl).
    rewrite List.Forall_forall in H. destruct (H l Hl). unfold line_ok. unfold short in E. rewrite E.
    by rewrite !bool_decide_false.
  - destruct (scan_lines (unlines ls)) as [out e] eqn:Es. cbn. f_equal. unfold scan_lines, text_lines in Es.
    rewrite Split_unlines in Es by (eapply Forall_impl; [exact H|]; by intros ? []).
    rewrite last_snoc, List.removelast_last in Es. clear H. revert out Es. induction ls as [|l ls IH]; intros out Es; [done|].
    cbn [forallb scan_split] in *. unfold short at 1 in E. destruct (Z.leb_spec MaxScanTokenSize (len l)).
    { by injection Es. }
    rewrite (proj2 (Z.ltb_lt _ _)) in E by lia. destruct (scan_split ls) as [o e'] eqn:E'. injection Es as <- <-. by eapply IH.
Qed.

Section registry.
Context `{HO : Host} (disk_ok : nat -> bool).

Definition registry_ok (rs : gmap bytes RoomState) : Prop :=
  forall name st, rs !! name = Some st -> Registered st = true -> name <> [] /\ room_ok st.

Lemma registry_lines_clean now rs : registry_ok rs -> Forall clean_line (registry_lines now rs).
Proof.
  intros Hr. unfold registry_lines. apply Forall_app. split.
  { constructor; [apply clean_tight; [by apply (bool_decide_unpack _); vm_compute|by apply tightb_spec]|].
    constructor; [apply clean_empty|]. constructor; [|constructor].
    apply clean_tight; [by apply (bool_decide_unpack _); vm_compute|by apply tightb_spec]. }
  apply Forall_concat, Forall_fmap, Forall_forall. intros name Hn. apply registered_names_elem in Hn as (st & Hst & E).
  destruct (Hr name st Hst E). cbn. rewrite Hst. by apply room_lines_clean.
Qed.

Lemma registry_read now now' rs : registry_ok rs ->
  (foldl (rooms_line now') (∅, []) (registry_lines now rs)).1 = reloaded_rooms now now' rs.
Proof.
  intros Hr. unfold registry_lines. rewrite foldl_app.
  replace (foldl (rooms_line now') (∅, []) _) with ((∅ : gmap bytes RoomState), (@nil byte)) by (vm_compute; reflexivity).
  rewrite rooms_read.
  - rewrite reloaded_rooms_list. apply (right_id_L ∅ (∪)).
  - apply registered_names_NoDup.
  - intros name Hn. apply registered_names_elem in Hn as (st & Hst & E). destruct (Hr name st Hst E).
    exists st. do 3 (split; [done|]). apply lookup_empty.
Qed.

(** C18: registered rooms survive a restart.  After a successful write of the
    registry, loading the file gives exactly the registered rooms, whatever the
    bytes of their names, topics and keys: founder, modes, key, operators (with
    the founder among them), voices and bans as they were, and the invitations
    that are still live; provided every line fits the line scanner.  One line of
    64 KiB or more makes the load fail as a whole. *)
Theorem gorrcd_registry_survives now now' r : registry_ok (r_rooms r) -> r_path r <> [] ->
  disk_ok (writes r) = true ->
  LoadRoomRegistry now' (r_path r) (disk (writeLocked disk_ok now r).1)
  = if forallb short (registry_lines now (r_rooms r)) then Some (reloaded_rooms now now' (r_rooms r)) else None.
Proof.
  intros Hr Hp Hw. unfold LoadRoomRegistry, writeLocked, atomicWrite. rewrite bool_decide_false, Hw by done. cbn [fst disk].
  rewrite lookup_insert_eq. unfold parseRoomsTOML, registry_text. rewrite scan_clean by by apply registry_lines_clean.
  destruct (forallb short _); cbn [negb]; [|done]. by rewrite registry_read.
Qed.
End registry.

(** A registry with one room. *)
Definition demo_room : RoomState :=
  set_Topic (lit "tea") (set_Key (lit "pass") (set_Registered true (newRoomState (make_bytes 16) true))).
Definition demo_registry : RoomRegistry := mkReg (lit "/r") f0 {[lit "#den" := demo_room]} ∅ 0.

Lemma demo_registry_ok : registry_ok (r_rooms demo_registry).
Proof.
  intros name st Hst _. cbn [r_rooms demo_registry] in Hst. apply lookup_singleton_Some in Hst as [<- <-]. split; [discriminate|].
  split; cbn; try done; try (intros id Hid; apply elem_of_empty in Hid as []).
  by intros id ->%elem_of_singleton.
Qed.

Lemma gorrcd_registry_survives_witness :
  LoadRoomRegistry (H := plain_host) 7 (r_path demo_registry)
    (disk (writeLocked (H := plain_host) (fun _ => true) 5 demo_registry).1)
  = Some (reloaded_rooms 5 7 {[lit "#den" := demo_room]}).
Proof.
  rewrite (gorrcd_registry_survives (HO := plain_host) (fun _ => true) 5 7 demo_registry).
  - reflexivity.
  - apply demo_registry_ok.
  - discriminate.
  - reflexivity.
Defined.
