(* ===== verification/Gorrcd.v ===== *)
(** * The hub daemon ([internal/gorrcd/service.go], [commands.go], [notice.go],
      [resources.go], [stats.go])

    The service that runs the hub of [RrcHub] with rooms that have operators,
    modes, bans and invitations, slash commands, announced resources and pings.
    It is a [HubPolicy]: its hooks act on the hub through the hub's public
    operations and keep their own state in the hub's policy state.

    The service is created before its hub and the hub starts after the service
    holds it, so the tests [s.hub == nil] of the code are false in every hook.
    [disk_ok], [rand_read] and [send_ok] answer for the disk, the random source
    and the links; [resource_ok] for the transfer of a resource on a link. *)

From stdpp Require Import base tactics list gmap sets strings.
From Stdlib Require Import ZArith Lia SpecFloat.
From S2P Require Import Prelude GoText HexHash Cbor RrcRoom RrcEnvelope RrcBodies GoFloat Sha256 RrcHub GoConv GorrcdConfig GorrcdRooms.

Definition Version : bytes := lit "0.1.0".
Definition ResourceKindNotice : bytes := lit "notice".
Definition ResourceKindMOTD : bytes := lit "motd".
Definition maxNoticeChunk : Z := 512.

(** ** State *)

Record expectation := mkExpect {
  e_id : bytes; e_kind : bytes; e_size : Z; e_sha256 : bytes; e_encoding : bytes; e_room : bytes; e_expires : Z;
}.

(** [Service] with its [Stats] (counters by name) and [Resources] (expectations by
    peer); [resources_out] are the resources handed to a link. *)
Record Service := mkService {
  s_cfg : Cfg.Config; s_rooms : RoomRegistry; s_trust : Trust;
  s_stats : gmap bytes Z; s_started : Z; awaiting : gmap bytes Z;
  byPeer : gmap bytes (gmap bytes expectation);
  statusRefresh : bool; resources_out : list (nat * bytes);
}.

Definition Service_eta (s : Service) : Service :=
  mkService (s_cfg s) (s_rooms s) (s_trust s) (s_stats s) (s_started s) (awaiting s) (byPeer s) (statusRefresh s)
    (resources_out s).
Definition set_s_cfg : Cfg.Config -> Service -> Service := ltac:(field_setter Service_eta s_cfg).
Definition set_s_rooms : RoomRegistry -> Service -> Service := ltac:(field_setter Service_eta s_rooms).
Definition set_s_trust : Trust -> Service -> Service := ltac:(field_setter Service_eta s_trust).
Definition set_s_stats : gmap bytes Z -> Service -> Service := ltac:(field_setter Service_eta s_stats).
Definition set_awaiting : gmap bytes Z -> Service -> Service := ltac:(field_setter Service_eta awaiting).
Definition set_byPeer : gmap bytes (gmap bytes expectation) -> Service -> Service := ltac:(field_setter Service_eta byPeer).
Definition set_refresh : bool -> Service -> Service := ltac:(field_setter Service_eta statusRefresh).
Definition set_resources_out : list (nat * bytes) -> Service -> Service := ltac:(field_setter Service_eta resources_out).

Notation DHub := (Hub Service).

(** Changing the policy state of the hub. *)
Definition set_pol (s : Service) (h : DHub) : DHub :=
  mkHub Service (cfg h) (h_sender h) (peers h) (rooms h) (nickIndex h) (started h) (heap h) (link_active h)
    (link_identity h) (clock h) (draws h) (tried h) (sent h) (events h) s.
Definition svc (f : Service -> Service) (h : DHub) : DHub := set_pol (f (pol_state h)) h.

(** *** Counters *)

Definition stat_keys : list bytes := map lit
  ["bytes_in"; "bytes_out"; "pkts_in"; "pkts_bad"; "rate_limited"; "errors_sent"; "joins"; "parts"; "msgs_forwarded";
   "notices_forwarded"; "actions_forwarded"; "pings_in"; "pongs_in"; "pings_out"; "pongs_out"; "announces";
   "resources_sent"; "resources_received"; "resources_rejected"; "resource_bytes_sent"; "resource_bytes_received"]%string.

(** [Inc]: nothing counts as one, an unknown name as nothing, and the counter
    wraps at 64 bits. *)
Definition Inc (key : string) (n : Z) (s : Service) : Service :=
  let n := if n =? 0 then 1 else n in
  if bool_decide (lit key ∈ stat_keys)
  then set_s_stats (<[lit key := u64 (default 0 (s_stats s !! lit key) + n)]> (s_stats s)) s else s.

Definition bumpStatus (s : Service) : Service := set_refresh true s.

Section service.
Context `{C : Cbor} `{HO : Host}.
Context (rand_read : nat -> option bytes) (send_ok : nat -> bool) (disk_ok : nat -> bool) (resource_ok : nat -> bytes -> bool).
Implicit Types h : DHub.

Definition inc (key : string) (n : Z) h : DHub := svc (Inc key n) h.
Definition bump h : DHub := svc bumpStatus h.
Definition upd_rooms (f : RoomRegistry -> RoomRegistry) h : DHub := svc (fun s => set_s_rooms (f (s_rooms s)) s) h.
Definition reg h : RoomRegistry := s_rooms (pol_state h).
Definition conf h : Cfg.Config := s_cfg (pol_state h).
Definition server_op h (id : bytes) : bool := IsTrusted id (s_trust (pol_state h)).

(** An operation of the registry that answers, at the hub's clock. *)
Definition on_rooms {A} (f : Z -> RoomRegistry -> RoomRegistry * A) h : DHub * A :=
  let '(r, a) := f (clock h) (reg h) in (upd_rooms (fun _ => r) h, a).

(** ** [notice.go] *)

(** The longest prefix of at most [n] bytes that is valid UTF-8. *)
Fixpoint valid_prefix (n : nat) (line : bytes) : nat :=
  match n with
  | O => O
  | S m => if valid_utf8 (take n line) then n else valid_prefix m line
  end.

(** The chunks of a line; a byte that starts no rune ends the line. *)
Fixpoint chunk_loop (fuel : nat) (line : bytes) : list bytes :=
  match fuel, line with
  | O, _ | _, [] => []
  | S fuel, _ =>
      match valid_prefix (Z.to_nat (Z.min maxNoticeChunk (len line))) line with
      | O => []
      | n => take n line :: chunk_loop fuel (drop n line)
      end
  end.

Definition notice_chunks (text : bytes) : list bytes :=
  concat (map (fun line => chunk_loop (length line) line) (Split text x0a)).

Definition notice (peer room text : bytes) h : DHub :=
  foldl (fun h chunk => (SendNotice rand_read send_ok peer room chunk h).1) h (notice_chunks text).

Definition errorTo (peer room text : bytes) h : DHub :=
  (SendError rand_read send_ok peer room text (inc "errors_sent" 1 h)).1.

(** ** [resources.go] *)

(** [subtleNeq]. *)
Definition subtleNeq (a b : bytes) : bool :=
  if negb (len a =? len b) then true
  else negb (foldl Z.lor 0 (zip_with (fun x y => Z.lxor (bZ x) (bZ y)) a b) =? 0).

Definition expireLocked (id : bytes) (now : Z) (m : gmap bytes (gmap bytes expectation))
  : gmap bytes (gmap bytes expectation) :=
  match m !! id with
  | None => m
  | Some es =>
      let es := filter (fun p => (now <=? e_expires p.2) = true) es in
      if bool_decide (es = ∅) then delete id m else <[id := es]> m
  end.

Definition Resources_Add (peer : bytes) (env : Envelope) h : DHub * option bytes :=
  let '(body, reason) := ValidateResourceEnvelopeBody (Body env) in
  if negb (bool_decide (reason = [])) then (h, Some reason)
  else
    match idFrom peer, body with
    | None, _ => (h, Some (lit "invalid peer"))
    | Some id, None => (h, None)
    | Some id, Some body =>
        let room := if HasRoom env then Room env else [] in
        let byp := expireLocked id (clock h) (byPeer (pol_state h)) in
        let es := default ∅ (byp !! id) in
        let byp := <[id := es]> byp in
        let max := if Cfg.MaxPendingResourceExpectations (conf h) <=? 0 then 8
                   else Cfg.MaxPendingResourceExpectations (conf h) in
        if max <=? Z.of_nat (size es)
        then (svc (set_byPeer byp) h, Some (lit "too many pending resource expectations"))
        else
          let ttl := if SFleb (Cfg.ResourceExpectationTTLS (conf h)) f0 then f_of_Z 30
                     else Cfg.ResourceExpectationTTLS (conf h) in
          let e := mkExpect (ResID body) (ResKind body) (ResSize body) (ResSHA256 body) (ResEncoding body) room
                     (clock h + default 0 (trunc_int (fmul ttl (f_of_Z Second)))) in
          (svc (set_byPeer (<[id := <[ResID body := e]> es]> byp)) h, None)
    end.

(** [peerOf]: the peer whose link this is. *)
Definition peerOf (lnk : nat) h : bytes :=
  default [] (head (omap (fun p => if bool_decide (PeerLink h p.1 = Some lnk) then Some p.1 else None) (AllPeers h))).

Definition matchSizeLocked (id : bytes) (size : Z) h : option expectation :=
  head (List.filter (fun e => e_size e =? size)
    (map snd (map_to_list (default ∅ (byPeer (pol_state h) !! id))))).

Definition matchLocked (id : bytes) (size : Z) (sum : bytes) h : option expectation :=
  head (List.filter (fun e => (e_size e =? size) && negb ((0 <? len (e_sha256 e)) && subtleNeq (e_sha256 e) sum))
    (map snd (map_to_list (default ∅ (byPeer (pol_state h) !! id))))).

(** [advertised]: whether a resource of [dataSize] bytes is taken from the link;
    [None] is an advertisement of the wrong type. *)
Definition advertised (lnk : nat) (dataSize : option Z) h : DHub * bool :=
  let reject h := (inc "resources_rejected" 1 h, false) in
  if negb (Cfg.EnableResourceTransfer (conf h)) then reject h
  else
    match dataSize with
    | None => reject h
    | Some n =>
        if n <? 0 then reject h
        else if Cfg.MaxResourceBytes (conf h) <? n then reject h
        else
          match idFrom (peerOf lnk h) with
          | None => reject h
          | Some id =>
              let h := svc (fun s => set_byPeer (expireLocked id (clock h) (byPeer s)) s) h in
              match matchSizeLocked id n h with
              | None => reject h
              | Some _ => (h, true)
              end
          end
    end.

(** [concluded] on the payload of a resource that has arrived. *)
Definition concluded (lnk : nat) (payload : bytes) h : DHub :=
  match idFrom (peerOf lnk h) with
  | None => h
  | Some id =>
      let sum := sha256 payload in
      match matchLocked id (len payload) sum h with
      | None => h
      | Some e =>
          let h := svc (fun s => set_byPeer (alter (delete (e_id e)) id (byPeer s)) s) h in
          if (0 <? len (e_sha256 e)) && subtleNeq (e_sha256 e) sum then h
          else
            let h := inc "resource_bytes_received" (len payload) (inc "resources_received" 1 h) in
            if bool_decide (e_kind e = ResourceKindNotice) && negb (bool_decide (e_room e = []))
            then inc "notices_forwarded" 1 (BroadcastNotice rand_read send_ok (e_room e) payload h)
            else h
      end
  end.

(** [lnk.SendPacket]. *)
Definition link_send (pid : nat) (raw : bytes) h : DHub * bool :=
  if negb (bool_decide (pid ∈ link_active h)) then (h, false)
  else if send_ok (tried h) then (log_send [(pid, raw)] h, true)
  else (log_send [] h, false).

Definition Resources_Send (peer kind payload room encoding : bytes) h : DHub * bool :=
  if negb (Cfg.EnableResourceTransfer (conf h)) then (h, false)
  else if Cfg.MaxResourceBytes (conf h) <? len payload then (h, false)
  else
    match PeerLink h peer with
    | None => (h, false)
    | Some lnk =>
        match rand_read (draws h) with
        | None => (draw h, false)
        | Some rid =>
            let h := draw h in
            let body := mkResource rid kind (len payload) (sha256 payload) encoding true true true true
                          (negb (bool_decide (encoding = []))) in
            let bodyMap := match ResourceToMap (Some body) with Some m => AMapU m | None => ANil end in
            let '(h, r) := marshalType rand_read (h_sender h) TypeResourceEnvelope room bodyMap [] h in
            match r with
            | Err _ => (h, false)
            | Ok raw =>
                let '(h, ok) := link_send lnk raw h in
                if negb ok then (h, false)
                else if resource_ok lnk payload then
                  let h := svc (fun s => set_resources_out (resources_out s ++ [(lnk, payload)]) s) h in
                  (inc "resource_bytes_sent" (len payload) (inc "resources_sent" 1 h), true)
                else (h, false)
            end
        end
    end.

Definition Cleanup h : DHub :=
  svc (fun s => set_byPeer (foldr (fun id m => expireLocked id (clock h) m) (byPeer s) (map fst (map_to_list (byPeer s)))) s) h.

Definition Clear h : DHub := svc (set_byPeer ∅) h.

Definition noticeChunksOrResource (peer room text kind : bytes) h : DHub :=
  let '(h, done) := if Cfg.EnableResourceTransfer (conf h) && (maxNoticeChunk <? len text)
                    then Resources_Send peer kind text room (lit "utf-8") h else (h, false) in
  if done then h else notice peer room text h.

(** ** [commands.go] *)

Definition normRoom (name : bytes) h : res bytes bytes :=
  let r := NormalizeRoom name in
  if bool_decide (r = []) then Err (lit "room name must not be empty")
  else if Cfg.MaxRoomNameBytes (conf h) <? len r
  then Err (lit "room name too long: " ++ Itoa (len r) ++ lit " bytes > " ++ Itoa (Cfg.MaxRoomNameBytes (conf h)) ++ lit " bytes")
  else Ok r.

(** The identity a token names (the zero identity when none or more than one)
    and the connected peers it matches. *)
Definition resolve (token room : bytes) h : bytes * list (bytes * bytes) :=
  let token := TrimSpace token in
  let hashes := match hasHexPrefix token with
                | Some prefix => LookupHashPrefix h prefix
                | None => LookupNick h token
                end in
  let inside hash := bool_decide (room = []) || IsMember h hash room in
  let matches := map (fun hash => (hash, HubNick h hash)) (List.filter inside hashes) in
  let full := match parseFullID token with Ok id => id | Err _ => zero_ID end in
  match matches with
  | [] => (full, matches)
  | [m] => (match idFrom m.1 with Some id => id | None => full end, matches)
  | _ => (zero_ID, matches)
  end.

Definition formatAmbiguous (token : bytes) (matches : list (bytes * bytes)) : bytes :=
  match matches with
  | [] => lit "target '" ++ token ++ lit "' not found"
  | _ =>
      lit "ambiguous: '" ++ token ++ lit "' matches " ++ Itoa (len matches) ++ lit " identities:"
      ++ concat (map (fun m => x0a :: lit "  - " ++ trimHex (hex_Encode m.1) 16 ++ lit " "
           ++ (if bool_decide (m.2 = []) then lit "(no nick)" else lit "nick='" ++ m.2 ++ lit "'")) matches)
      ++ x0a :: lit "Use full or longer identity hash to disambiguate."
  end.

Definition splitCmd (text : bytes) : list bytes :=
  let text := TrimSpace text in
  let text := if HasPrefix text (lit "/") then drop 1 text else text in
  List.filter (fun f => negb (bool_decide (f = []))) (Fields text).

Definition requireServerOp (peer id : bytes) h : DHub * bool :=
  if server_op h id then (h, true) else (errorTo peer [] rrcdNotAuthorized h, false).

Definition requireRoomOp (peer id room : bytes) h : DHub * bool :=
  if IsOp room id (server_op h id) (reg h) then (h, true) else (errorTo peer room rrcdNotAuthorized h, false).

(** Reading the [n]-th word of a command. *)
Definition word (parts : list bytes) (n : nat) : bytes := default [] (parts !! n).

Definition or_none (s : bytes) : bytes := if bool_decide (s = []) then lit "(none)" else s.

(** *** Reload *)

Definition reload_notice (peer text : bytes) h : DHub := notice peer [] text h.

Definition Reload (peer : bytes) h : DHub :=
  let path := Cfg.ConfigPath (conf h) in
  match (if bool_decide (path = []) then None else disk (reg h) !! path) with
  | None => reload_notice peer (lit "reload failed: config_path not set or missing") h
  | Some file =>
      let loaded := match file with
                    | None => Err (read_error path)
                    | Some raw => let '(c, err) := LoadConfigFile path raw in
                                  if err then Err (lit "bufio.Scanner: token too long") else Ok c
                    end in
      match loaded with
      | Err e => reload_notice peer (lit "reload failed: config parse error: " ++ e) h
      | Ok newCfg =>
          let newCfg := Cfg.set_ConfigPath path newCfg in
          match Trust_Load (Cfg.TrustedIdentities newCfg) (Cfg.BannedIdentities newCfg) (s_trust (pol_state h)) with
          | Err e => reload_notice peer (lit "reload failed: identity list parse error: " ++ e) h
          | Ok t =>
              let h := svc (set_s_trust t) h in
              match LoadRoomRegistry (clock h) (Cfg.RoomRegistryPath newCfg) (disk (reg h)) with
              | None =>
                  let e := match disk (reg h) !! Cfg.RoomRegistryPath newCfg with
                           | Some None => read_error (Cfg.RoomRegistryPath newCfg)
                           | _ => lit "bufio.Scanner: token too long"
                           end in
                  reload_notice peer (lit "reload failed: " ++ e) h
              | Some rs =>
                  let '(oldTrusted, oldBanned) := Counts (s_trust (pol_state h)) in
                  let oldRooms := Count (reg h) in
                  let h := svc (set_s_cfg newCfg) h in
                  let h := upd_rooms (fun r => SetInviteTimeout (Cfg.RoomInviteTimeoutS newCfg) (GorrcdRooms.ReplaceAll rs r)) h in
                  let h := ApplyRuntime (Cfg.HubName newCfg) Version (Cfg.IncludeJoinedMemberList newCfg)
                             (Cfg.EnableResourceTransfer newCfg) (Cfg.MaxResourceBytes newCfg) (HubLimits_of newCfg) h in
                  let '(newTrusted, newBanned) := Counts (s_trust (pol_state h)) in
                  let nat_text n := Itoa (Z.of_nat n) in
                  bump (notice peer []
                    (lit "reloaded: trusted=" ++ nat_text oldTrusted ++ lit "->" ++ nat_text newTrusted
                     ++ lit " banned=" ++ nat_text oldBanned ++ lit "->" ++ nat_text newBanned
                     ++ lit " registered_rooms=" ++ nat_text oldRooms ++ lit "->" ++ nat_text (Count (reg h))
                     ++ x0a :: lit "policy: max_nick_bytes=" ++ Itoa (Cfg.MaxNickBytes newCfg)) h)
              end
          end
      end
  end.

Definition cmdReload (peer id : bytes) h : DHub :=
  let '(h, ok) := requireServerOp peer id h in if ok then Reload peer h else h.

(** *** Lists *)

Definition cmdList (peer : bytes) h : DHub :=
  match PublicRegistered (reg h) with
  | [] => notice peer [] (lit "No public rooms registered") h
  | rs => notice peer [] (lit "Registered public rooms:" ++ concat (map (fun r : bytes * bytes =>
            x0a :: lit "  " ++ r.1 ++ (if bool_decide (r.2 = []) then [] else lit " - " ++ r.2)) rs)) h
  end.

Definition cmdWho (peer id room : bytes) (parts : list bytes) h : DHub :=
  let target := match parts with _ :: t :: _ => t | _ => room end in
  if bool_decide (target = []) then notice peer [] (lit "usage: /who [room]") h
  else
    match normRoom target h with
    | Err e => notice peer [] (lit "bad room: " ++ e) h
    | Ok r =>
        if IsPrivate r (reg h) && negb (server_op h id) then notice peer [] (lit "room " ++ r ++ lit " is private") h
        else
          let items := map (fun m : bytes * bytes => if bool_decide (m.2 = []) then hex_Encode m.1
                         else m.2 ++ lit " (" ++ trimHex (hex_Encode m.1) 12 ++ lit ")") (RoomMemberInfo h r) in
          notice peer [] (lit "members in " ++ r ++ lit ": " ++ or_none (Join items (lit ", "))) h
    end.

(** *** Removing people *)

Definition kick_out (target room text : bytes) h : DHub :=
  errorTo target room text (RemoveFromRoom target room h).1.

Definition cmdKick (peer id room : bytes) (parts : list bytes) h : DHub :=
  if len parts <? 3 then notice peer [] (lit "usage: /kick <room> <nick|hashprefix>") h
  else
    match normRoom (word parts 1) h with
    | Err e => notice peer room (lit "bad room: " ++ e) h
    | Ok r =>
        let '(h, ok) := requireRoomOp peer id r h in
        if negb ok then h
        else
          let '(target, matches) := resolve (word parts 2) r h in
          if negb (len matches =? 1) && bool_decide (target = zero_ID)
          then notice peer room (formatAmbiguous (word parts 2) matches) h
          else if negb (IsMember h target r) then notice peer room (lit "target not in room") h
          else notice peer room (lit "kicked " ++ word parts 2 ++ lit " from " ++ r)
                 (kick_out target r (lit "kicked from " ++ r) h)
    end.

Definition persistBannedIdentities (path : bytes) (banned : list bytes) (r : RoomRegistry) : RoomRegistry :=
  match disk r !! path with
  | Some (Some raw) => match rewriteBanned raw banned with Some out => (atomicWrite disk_ok path out r).1 | None => r end
  | _ => r
  end.

Definition persist_klines h : DHub :=
  upd_rooms (persistBannedIdentities (Cfg.ConfigPath (conf h)) (BannedHex (s_trust (pol_state h)))) h.

Definition kline_usage : bytes := lit "usage: /kline add|del|list [nick|hashprefix|hash]".

Definition klineAdd (peer token : bytes) h : DHub :=
  let '(target, matches) := resolve token [] h in
  if negb (bool_decide (target = zero_ID)) then
    let h := persist_klines (svc (fun s => set_s_trust (Ban target (s_trust s)) s) h) in
    notice peer [] (lit "kline added for " ++ token) (Disconnect rand_read send_ok target h)
  else if 1 <? len matches then notice peer [] (formatAmbiguous token matches) h
  else
    match parseFullID token with
    | Err e => notice peer [] (lit "bad identity hash: " ++ e) h
    | Ok id =>
        let h := persist_klines (svc (fun s => set_s_trust (Ban id (s_trust s)) s) h) in
        notice peer [] (lit "kline added for " ++ ID_Hex id) h
    end.

Definition klineDel (peer token : bytes) h : DHub :=
  match parseFullID token with
  | Err e => notice peer [] (lit "bad identity hash: " ++ e) h
  | Ok id =>
      let '(t, was) := Unban id (s_trust (pol_state h)) in
      let h := svc (set_s_trust t) h in
      if was then notice peer [] (lit "kline removed for " ++ ID_Hex id) (persist_klines h)
      else notice peer [] (lit "not klined: " ++ ID_Hex id) h
  end.

Definition cmdKline (peer id : bytes) (parts : list bytes) h : DHub :=
  let '(h, ok) := requireServerOp peer id h in
  if negb ok then h
  else if len parts <? 2 then notice peer [] kline_usage h
  else
    let op := ToLower (word parts 1) in
    if key_is op "list" then notice peer [] (lit "klines: " ++ or_none (Join (BannedHex (s_trust (pol_state h))) (lit ", "))) h
    else if negb (key_is op "add") && negb (key_is op "del") then notice peer [] kline_usage h
    else if len parts <? 3 then notice peer [] (lit "usage: /kline " ++ op ++ lit " <nick|hashprefix|hash>") h
    else if key_is op "add" then klineAdd peer (word parts 2) h
    else klineDel peer (word parts 2) h.

(** *** Registration *)

(** The sender is in the room it names and speaks from it. *)
Definition present_in (peer room r : bytes) h : bool :=
  negb (bool_decide (room = [])) && bool_decide (NormalizeRoom room = r) && IsMember h peer r.

Definition is_founder (r id : bytes) h : bool := bool_decide (GetFounder r (reg h) = Some id).

Definition cmdRegister (peer id room : bytes) (parts : list bytes) h : DHub :=
  if len parts <? 2 then notice peer [] (lit "usage: /register <room>") h
  else
    match normRoom (word parts 1) h with
    | Err e => notice peer [] (lit "bad room: " ++ e) h
    | Ok r =>
        if negb (present_in peer room r h) then notice peer room (lit "must be present in the room to register it") h
        else if negb (is_founder r id h) then errorTo peer r (lit "only the room founder can register") h
        else if bool_decide (Cfg.RoomRegistryPath (conf h) = [])
        then notice peer room (lit "cannot register room: no room_registry_path") h
        else
          let '(h, ok) := on_rooms (fun now => Register disk_ok now r id) h in
          notice peer room (if ok then lit "registered room " ++ r else write_error (r_path (reg h))) h
    end.

Definition cmdUnregister (peer id room : bytes) (parts : list bytes) h : DHub :=
  if len parts <? 2 then notice peer [] (lit "usage: /unregister <room>") h
  else
    match normRoom (word parts 1) h with
    | Err e => notice peer [] (lit "bad room: " ++ e) h
    | Ok r =>
        if negb (present_in peer room r h) then notice peer room (lit "must be present in the room to unregister it") h
        else if negb (is_founder r id h) then errorTo peer r (lit "only the room founder can unregister") h
        else
          let '(h, e) := on_rooms (fun now => Unregister disk_ok now r) h in
          notice peer room (match e with
                            | None => lit "unregistered room " ++ r
                            | Some NotRegistered => lit "room " ++ r ++ lit " is not registered"
                            | Some WriteFailed => write_error (r_path (reg h))
                            end) h
    end.

(** *** Topic, operators, voices *)

Definition cmdTopic (peer id room : bytes) (parts : list bytes) h : DHub :=
  if len parts <? 2 then notice peer [] (lit "usage: /topic <room> [topic]") h
  else
    match normRoom (word parts 1) h with
    | Err e => notice peer [] (lit "bad room: " ++ e) h
    | Ok r =>
        if len parts =? 2 then notice peer room (lit "topic for " ++ r ++ lit ": " ++ or_none (GetTopic r (reg h))) h
        else if negb (IsOp r id (server_op h id) (reg h)) && GetTopicOpsOnly r (reg h)
        then errorTo peer r rrcdNotAuthorizedTopic h
        else
          let topic := TrimSpace (Join (drop 2 parts) (lit " ")) in
          let h := upd_rooms (fun g => Persist disk_ok (clock h) (SetTopic (clock h) r topic g)) h in
          let shown := if bool_decide (topic = []) then lit "(cleared)" else topic in
          BroadcastNotice rand_read send_ok r (lit "topic for " ++ r ++ lit " is now: " ++ shown) h
    end.

(** [op], [deop], [voice] and [devoice] on a target: [None] when the founder would
    lose the operator status. *)
Inductive priv := POp | PDeop | PVoice | PDevoice.

Definition grant (p : priv) (r target : bytes) h : option DHub :=
  let now := clock h in
  match p with
  | POp => Some (upd_rooms (AddOp disk_ok now r target) h)
  | PDeop => if bool_decide (GetFounder r (reg h) = Some target) then None
             else Some (upd_rooms (DelOp disk_ok now r target) h)
  | PVoice => Some (upd_rooms (AddVoice disk_ok now r target) h)
  | PDevoice => Some (upd_rooms (DelVoice disk_ok now r target) h)
  end.

Definition priv_name (p : priv) : bytes :=
  lit match p with POp => "op" | PDeop => "deop" | PVoice => "voice" | PDevoice => "devoice" end.
Definition priv_done (p : priv) : bytes :=
  lit match p with POp => "op granted in " | PDeop => "op removed in " | PVoice => "voice granted in "
                 | PDevoice => "voice removed in " end.

Definition cmdPriv (peer id room : bytes) (cmd : priv) (parts : list bytes) h : DHub :=
  if len parts <? 3 then notice peer [] (lit "usage: /" ++ priv_name cmd ++ lit " <room> <nick|hashprefix|hash>") h
  else
    match normRoom (word parts 1) h with
    | Err e => notice peer [] (lit "bad room: " ++ e) h
    | Ok r =>
        let '(h, ok) := requireRoomOp peer id r h in
        if negb ok then h
        else
          let '(target, matches) := resolve (word parts 2) r h in
          if bool_decide (target = zero_ID) then notice peer room (formatAmbiguous (word parts 2) matches) h
          else
            match grant cmd r target h with
            | None => notice peer room (lit "cannot deop founder") h
            | Some h => notice peer room (priv_done cmd ++ r) h
            end
    end.

(** *** Modes *)

Definition supported_modes : bytes := lit "supported modes: +m -m +i -i +k -k +t -t +n -n +p -p +r -r +o -o +v -v".

Definition mode_priv (flag : bytes) : option priv :=
  if key_is flag "+o" then Some POp else if key_is flag "-o" then Some PDeop
  else if key_is flag "+v" then Some PVoice else if key_is flag "-v" then Some PDevoice else None.

Definition modePriv (peer room r flag : bytes) (p : priv) (parts : list bytes) h : DHub :=
  if len parts <? 4 then notice peer room (lit "usage: /mode <room> (+o|-o|+v|-v) <nick|hashprefix|hash>") h
  else
    let '(target, matches) := resolve (word parts 3) r h in
    if bool_decide (target = zero_ID) then notice peer room (formatAmbiguous (word parts 3) matches) h
    else
      match grant p r target h with
      | None => notice peer room (lit "cannot deop founder") h
      | Some h => BroadcastNotice rand_read send_ok r (lit "mode for " ++ r ++ lit " is now: " ++ flag ++ lit " " ++ ID_Prefix target 12) h
      end.

Definition modeFlag (peer room r flag : bytes) (parts : list bytes) h : DHub :=
  let on := HasPrefix flag (lit "+") in
  let ch := TrimLeftBytes [x2b; x2d] flag in
  if negb (len ch =? 1) then notice peer room supported_modes h
  else if key_is ch "k" && on && (len parts <? 4) then notice peer room (lit "usage: /mode <room> +k <key>") h
  else
    let key := if key_is ch "k" && on then TrimSpace (Join (drop 3 parts) (lit " ")) else [] in
    let '(h, e) := on_rooms (fun now => SetFlag disk_ok now r ch on key) h in
    match e with
    | Some UnknownFlag => notice peer room supported_modes h
    | Some EmptyKey => notice peer room (lit "key must not be empty") h
    | Some FlagWriteFailed => notice peer room (write_error (r_path (reg h))) h
    | None => BroadcastNotice rand_read send_ok r (lit "mode for " ++ r ++ lit " is now: " ++ ModeString r (reg h)) h
    end.

Definition mode_usage : bytes :=
  lit "usage: /mode <room> (+m|-m|+i|-i|+t|-t|+n|-n|+p|-p|+k|-k|+r|-r) [key] | /mode <room> (+o|-o|+v|-v) <nick|hashprefix|hash>".

Definition cmdMode (peer id room : bytes) (parts : list bytes) h : DHub :=
  if len parts <? 3 then notice peer [] mode_usage h
  else
    match normRoom (word parts 1) h with
    | Err e => notice peer [] (lit "bad room: " ++ e) h
    | Ok r =>
        let '(h, ok) := requireRoomOp peer id r h in
        if negb ok then h
        else
          let flag := ToLower (word parts 2) in
          if key_is flag "+r" || key_is flag "-r"
          then notice peer room (lit "use /register or /unregister to change +r") h
          else match mode_priv flag with
               | Some p => modePriv peer room r flag p parts h
               | None => modeFlag peer room r flag parts h
               end
    end.

(** *** Bans and invitations *)

Definition ban_usage : bytes := lit "usage: /ban <room> add|del|list [nick|hashprefix|hash]".

Definition cmdBan (peer id room : bytes) (parts : list bytes) h : DHub :=
  if len parts <? 3 then notice peer [] ban_usage h
  else
    match normRoom (word parts 1) h with
    | Err e => notice peer [] (lit "bad room: " ++ e) h
    | Ok r =>
        let op := ToLower (word parts 2) in
        if key_is op "list" then
          match ListBans r (reg h) with
          | [] => notice peer room (lit "no bans in " ++ r) h
          | items => notice peer room (lit "bans in " ++ r ++ lit ": " ++ Join items (lit ", ")) h
          end
        else if negb (key_is op "add") && negb (key_is op "del") then notice peer room ban_usage h
        else if len parts <? 4
        then notice peer room (lit "usage: /ban " ++ r ++ lit " " ++ op ++ lit " <nick|hashprefix|hash>") h
        else
          let '(h, ok) := requireRoomOp peer id r h in
          if negb ok then h
          else
            let '(target, matches) := resolve (word parts 3) r h in
            if bool_decide (target = zero_ID) then notice peer room (formatAmbiguous (word parts 3) matches) h
            else if key_is op "add" then
              let h := upd_rooms (AddBan disk_ok (clock h) r target) h in
              let h := if IsMember h target r then kick_out target r (lit "banned from " ++ r) h else h in
              notice peer room (lit "ban added in " ++ r) h
            else notice peer room (lit "ban removed in " ++ r) (upd_rooms (DelBan disk_ok (clock h) r target) h)
    end.

Definition invite_usage : bytes := lit "usage: /invite <room> add|del|list [nick|hashprefix|hash]".

Definition inviteAdd (peer room r token : bytes) h : DHub :=
  let '(target, matches) := resolve token [] h in
  if bool_decide (target = zero_ID) then errorTo peer r (lit "invite failed: " ++ formatAmbiguous token matches) h
  else
    let h := notice target r (lit "You have been invited to join " ++ r
               ++ (if HasKey r (reg h) then lit ". This invite allows joining without the key (+k)." else lit ".")) h in
    if NeedsStoredInvite r (reg h) then
      let ttl := Cfg.RoomInviteTimeoutS (conf h) in
      notice peer room (lit "invite added in " ++ r ++ lit " (expires in " ++ Itoa (default 0 (trunc_int ttl)) ++ lit "s)")
        (upd_rooms (AddInvite disk_ok (clock h) r target ttl) h)
    else notice peer room (lit "invite sent to " ++ token ++ lit " for " ++ r) h.

Definition cmdInvite (peer id room : bytes) (parts : list bytes) h : DHub :=
  if len parts <? 3 then notice peer [] invite_usage h
  else
    match normRoom (word parts 1) h with
    | Err e => notice peer [] (lit "bad room: " ++ e) h
    | Ok r =>
        let '(h, ok) := requireRoomOp peer id r h in
        if negb ok then h
        else
          let op := ToLower (word parts 2) in
          if key_is op "list"
          then notice peer room (lit "invites in " ++ r ++ lit ": " ++ or_none (Join (ListInvites (clock h) r (reg h)) (lit ", "))) h
          else if negb (key_is op "add") && negb (key_is op "del") then notice peer room invite_usage h
          else if len parts <? 4
          then notice peer room (lit "usage: /invite " ++ r ++ lit " " ++ op ++ lit " <nick|hashprefix|hash>") h
          else if key_is op "add" then inviteAdd peer room r (word parts 3) h
          else
            let '(target, matches) := resolve (word parts 3) [] h in
            if bool_decide (target = zero_ID) then notice peer room (formatAmbiguous (word parts 3) matches) h
            else notice peer room (lit "invite removed in " ++ r) (upd_rooms (DelInvite disk_ok (clock h) r target) h)
    end.

(** *** Statistics *)

(** The counters the hub's callbacks advance: the packets, and what was
    forwarded. *)
Definition callback_stats (e : hub_event) : list (string * Z) :=
  match e with
  | EvInboundBytes n => ("pkts_in", 1)%string :: (if 0 <? n then [("bytes_in", n)%string] else [])
  | EvBadPacket _ => [("pkts_bad", 1)%string]
  | EvRateLimited => [("rate_limited", 1)%string]
  | EvMsg _ env =>
      if Type_ env =? TypeMsg then [("msgs_forwarded", 1)%string]
      else if Type_ env =? TypeNotice then [("notices_forwarded", 1)%string]
      else if Type_ env =? TypeAction then [("actions_forwarded", 1)%string] else []
  | _ => []
  end.

(** The service with every callback of the hub accounted for. *)
Definition observed h : Service :=
  foldl (fun s e => foldl (fun s kn => Inc kn.1 kn.2 s) s (callback_stats e)) (pol_state h) (events h).

Definition counter h (key : string) : bytes := Itoa (default 0 (s_stats (observed h) !! lit key)).

(** Occupied rooms, the fullest first. *)
Definition fuller (a b : bytes * nat) : Prop :=
  (b.2 < a.2)%nat \/ (a.2 = b.2 /\ bytes_order a.1 b.1).
#[local] Instance fuller_dec : RelDecision fuller.
Proof. intros a b. unfold fuller. apply _. Defined.

Definition stats_lines h : list bytes :=
  let occupied := sorting.merge_sort fuller (OccupiedRooms h) in
  let topS := map (fun r : bytes * nat => r.1 ++ lit ":" ++ Itoa (Z.of_nat r.2)) (take 5 occupied) in
  let memberships := foldl (fun n (r : bytes * nat) => n + Z.of_nat r.2) 0 occupied in
  let '(trusted, banned) := Counts (s_trust (pol_state h)) in
  let c := conf h in
  let n k := counter h k in
  let num m := Itoa (Z.of_nat m) in
  [lit "gorrcd " ++ Version ++ lit " stats";
   lit "uptime_s=" ++ Format1f (duration_Seconds (time_Sub (clock h) (s_started (pol_state h))));
   lit "clients_total=" ++ num (PeerCount h) ++ lit " clients_identified=" ++ num (PeerCount h)
     ++ lit " clients_welcomed=" ++ num (WelcomedCount h);
   lit "rooms=" ++ num (length occupied) ++ lit " memberships=" ++ Itoa memberships]
  ++ (match topS with [] => [] | _ => [lit "top_rooms=" ++ Join topS (lit ", ")] end)
  ++ [lit "trust: trusted=" ++ num trusted ++ lit " banned=" ++ num banned;
      lit "limits: rate_limit_msgs_per_minute=" ++ Itoa (Cfg.RateLimitMsgsPerMinute c)
        ++ lit " max_rooms_per_session=" ++ Itoa (Cfg.MaxRoomsPerSession c)
        ++ lit " max_room_name_bytes=" ++ Itoa (Cfg.MaxRoomNameBytes c) ++ lit " max_nick_bytes=" ++ Itoa (Cfg.MaxNickBytes c);
      lit "features: ping_interval_s=" ++ FormatFloat (Cfg.PingIntervalS c) ++ lit " ping_timeout_s=" ++ FormatFloat (Cfg.PingTimeoutS c)
        ++ lit " announce_on_start=" ++ bool_text (Cfg.AnnounceOnStart c) ++ lit " announce_period_s=" ++ FormatFloat (Cfg.AnnouncePeriodS c);
      lit "io: pkts_in=" ++ n "pkts_in"%string ++ lit " pkts_bad=" ++ n "pkts_bad"%string ++ lit " bytes_in=" ++ n "bytes_in"%string
        ++ lit " bytes_out=" ++ n "bytes_out"%string;
      lit "events: joins=" ++ n "joins"%string ++ lit " parts=" ++ n "parts"%string ++ lit " msgs_fwd=" ++ n "msgs_forwarded"%string
        ++ lit " notices_fwd=" ++ n "notices_forwarded"%string ++ lit " actions_fwd=" ++ n "actions_forwarded"%string
        ++ lit " errors_sent=" ++ n "errors_sent"%string ++ lit " rate_limited=" ++ n "rate_limited"%string;
      lit "pings: in=" ++ n "pings_in"%string ++ lit " out=" ++ n "pings_out"%string ++ lit " pongs: in=" ++ n "pongs_in"%string
        ++ lit " out=" ++ n "pongs_out"%string;
      lit "resources: sent=" ++ n "resources_sent"%string ++ lit " received=" ++ n "resources_received"%string
        ++ lit " rejected=" ++ n "resources_rejected"%string ++ lit " bytes_sent=" ++ n "resource_bytes_sent"%string
        ++ lit " bytes_received=" ++ n "resource_bytes_received"%string].

Definition Stats_Format h : bytes := unlines (stats_lines h).

Definition cmdStats (peer id : bytes) h : DHub :=
  let '(h, ok) := requireServerOp peer id h in if ok then notice peer [] (Stats_Format h) h else h.

Definition handleCommand (peer room text : bytes) h : DHub :=
  let parts := splitCmd text in
  match parts, idFrom peer with
  | [], _ | _, None => h
  | c :: _, Some id =>
      let cmd := ToLower c in
      if key_is cmd "reload" then cmdReload peer id h
      else if key_is cmd "stats" then cmdStats peer id h
      else if key_is cmd "list" then cmdList peer h
      else if key_is cmd "who" || key_is cmd "names" then cmdWho peer id room parts h
      else if key_is cmd "kick" then cmdKick peer id room parts h
      else if key_is cmd "kline" then cmdKline peer id parts h
      else if key_is cmd "register" then cmdRegister peer id room parts h
      else if key_is cmd "unregister" then cmdUnregister peer id room parts h
      else if key_is cmd "topic" then cmdTopic peer id room parts h
      else if key_is cmd "op" then cmdPriv peer id room POp parts h
      else if key_is cmd "deop" then cmdPriv peer id room PDeop parts h
      else if key_is cmd "voice" then cmdPriv peer id room PVoice parts h
      else if key_is cmd "devoice" then cmdPriv peer id room PDevoice parts h
      else if key_is cmd "mode" then cmdMode peer id room parts h
      else if key_is cmd "ban" then cmdBan peer id room parts h
      else if key_is cmd "invite" then cmdInvite peer id room parts h
      else errorTo peer room rrcdUnrecognized h
  end.

(** ** [service.go]: the hooks *)

Definition Svc_OnLink (lnk : nat) h : DHub := h.

Definition Svc_OnIdentified (peer : bytes) h : DHub * option bytes :=
  match idFrom peer with
  | None => (h, None)
  | Some id => (h, if Trust_IsBanned id (s_trust (pol_state h)) then Some rrcdBanned else None)
  end.

Definition Svc_AfterWelcome (peer : bytes) h : DHub :=
  bump (if bool_decide (Cfg.Greeting (conf h) = []) then h
        else noticeChunksOrResource peer [] (Cfg.Greeting (conf h)) ResourceKindMOTD h).

Definition Svc_AllowJoin (peer room : bytes) (body : any) h : DHub * option bytes :=
  match idFrom peer with
  | None => (h, Some (lit "invalid peer"))
  | Some id => on_rooms (fun now => GorrcdRooms.AllowJoin now room id body (server_op h id)) h
  end.

Definition Svc_AfterJoin (peer room : bytes) h : DHub :=
  let id := default zero_ID (idFrom peer) in
  let h := inc "joins" 1 h in
  let now := clock h in
  let h := upd_rooms (fun r => Persist disk_ok now (Touch now room (ConsumeInvite room id (Ensure room id true r)))) h in
  bump (notice peer room (InfoLine room (reg h)) h).

Definition Svc_AfterPart (peer room : bytes) h : DHub :=
  let h := inc "parts" 1 h in
  bump (upd_rooms (fun r => Persist disk_ok (clock h) (Touch (clock h) room r)) h).

Definition Svc_AllowContent (peer : bytes) (env : Envelope) h : DHub * option bytes :=
  let room := NormalizeRoom (Room env) in
  match idFrom peer with
  | None => (h, Some (lit "invalid peer"))
  | Some id => (h, GorrcdRooms.AllowContent room id (IsMember h peer room) (server_op h id) (reg h))
  end.

Definition blank (c : byte) : bool := bool_decide (c ∈ [x20; x09; x0a; x0d]).
Fixpoint drop_blank (s : bytes) : bytes :=
  match s with c :: s' => if blank c then drop_blank s' else s | [] => [] end.
Definition stringsTrim (s : bytes) : bytes := reverse (drop_blank (reverse (drop_blank s))).

Definition Svc_Intercept (peer : bytes) (env : Envelope) h : DHub * bool :=
  match BodyAsString (Body env) with
  | None => (h, false)
  | Some text =>
      let text := stringsTrim text in
      if bool_decide (head text = Some x2f) then (handleCommand peer (Room env) text h, true) else (h, false)
  end.

Definition Svc_OnPong (peer : bytes) h : DHub :=
  match idFrom peer with
  | None => h
  | Some id => svc (fun s => set_awaiting (delete id (awaiting s)) s) (inc "pongs_in" 1 h)
  end.

Definition Svc_OnResourceEnvelope (peer : bytes) (env : Envelope) h : DHub * option bytes := Resources_Add peer env h.

(** The service as the hub's policy. *)
Definition gorrcd : HubPolicy Service :=
  mkPolicy Service Svc_OnLink Svc_OnIdentified Svc_AfterWelcome Svc_AllowJoin Svc_AfterJoin Svc_AfterPart
    Svc_AllowContent Svc_Intercept Svc_OnPong Svc_OnResourceEnvelope.

(** ** [service.go]: starting and the periodic work *)

Definition NewService (c : Cfg.Config) (d : gmap bytes (option bytes)) (now : Z) : Service :=
  mkService c (NewRoomRegistry (Cfg.RoomRegistryPath c) (Cfg.RoomInviteTimeoutS c) d) NewTrust ∅ now ∅ ∅ false [].

Definition hub_config (c : Cfg.Config) : HubConfig :=
  mkConfig (Cfg.HubName c) Version (HubLimits_of c) (Cfg.IncludeJoinedMemberList c) (Cfg.EnableResourceTransfer c)
    (Cfg.MaxResourceBytes c) None.

(** The part of [Start] before the hub runs: the lists must parse; a registry that
    does not load is left empty. *)
Definition Start_service (now : Z) (s : Service) : res bytes Service :=
  t ← Trust_Load (Cfg.TrustedIdentities (s_cfg s)) (Cfg.BannedIdentities (s_cfg s)) (s_trust s);
  let s := set_s_trust t s in
  if bool_decide (Cfg.RoomRegistryPath (s_cfg s) = []) then Ok s
  else match LoadRoomRegistry now (Cfg.RoomRegistryPath (s_cfg s)) (disk (s_rooms s)) with
       | Some rs => Ok (set_s_rooms (GorrcdRooms.ReplaceAll rs (s_rooms s)) s)
       | None => Ok s
       end.

Definition start_hub (c : Cfg.Config) (identity : bytes) (s : Service) : DHub := Start (NewHub (hub_config c) identity s).

(** [pingOnce]: who has been waited for too long, and who is asked now. *)
Definition ping_scan (now : Z) (timeout : f64) (acc : gmap bytes Z * list bytes * list bytes) (peer : bytes)
  : gmap bytes Z * list bytes * list bytes :=
  let '(aw, drop, ping) := acc in
  match idFrom peer with
  | None => acc
  | Some id =>
      match aw !! id with
      | Some t =>
          if fltb f0 timeout && fltb timeout (duration_Seconds (time_Sub now t)) then (aw, drop ++ [peer], ping) else acc
      | None => (<[id := now]> aw, drop, ping ++ [peer])
      end
  end.

Definition send_ping (h : DHub) (peer : bytes) : DHub :=
  let '(h, r) := SendPing rand_read send_ok peer (AFloat (bits_of_f64 (unix (clock h)))) h in
  if is_ok r then inc "pings_out" 1 h else h.

Definition pingOnce h : DHub :=
  if SFleb (Cfg.PingIntervalS (conf h)) f0 then h
  else
    let '(aw, drop, ping) := foldl (ping_scan (clock h) (Cfg.PingTimeoutS (conf h)))
                               (awaiting (pol_state h), [], []) (ActivePeerHashes h) in
    let h := svc (set_awaiting aw) h in
    let h := foldl (fun h peer => Disconnect rand_read send_ok peer h) h drop in
    foldl send_ping h ping.

(** The body of [pruneLoop]. *)
Definition pruneOnce h : DHub :=
  let occupied := list_to_set (map fst (List.filter (fun r => (0 <? r.2)%nat) (OccupiedRooms h))) in
  let '(h, removed) := on_rooms (fun now => PruneUnused disk_ok now (Cfg.RoomRegistryPruneAfterS (conf h)) occupied
                                  (s_started (pol_state h))) h in
  match removed with [] => h | _ => bump h end.

(** What the daemon does beside its hub: the periodic tasks, and the callbacks of
    a link that carries a resource. *)
Inductive daemon_step : DHub -> DHub -> Prop :=
| d_hub h h' : hub_step rand_read send_ok (Some gorrcd) h h' -> daemon_step h h'
| d_ping h : daemon_step h (pingOnce h)
| d_prune h : daemon_step h (pruneOnce h)
| d_cleanup h : daemon_step h (Cleanup h)
| d_advertised h lnk n : daemon_step h (advertised lnk n h).1
| d_concluded h lnk payload : daemon_step h (concluded lnk payload h).
End service.
