(* ===== verification/GorrcdSafe.v ===== *)
(** * The hub daemon keeps its hub in order, and its rooms to their operators

    The service of [Gorrcd] discharges the laws of [PolicyOk], so that the hub
    under it keeps its invariant; its periodic work and the callbacks of a
    resource do too.  A slash command of a peer leaves every room alone that the
    peer does not operate. *)

From stdpp Require Import base tactics list gmap sets strings.
From Stdlib Require Import ZArith Lia SpecFloat.
From S2P Require Import Prelude GoText HexHash Cbor RrcRoom RrcEnvelope RrcBodies GoFloat RrcHub RrcHubInv RrcHubSafe GoConv GorrcdConfig GorrcdRooms Gorrcd.

(** ** Sending changes nothing the daemon decides by *)

Definition same_service (s s' : Service) : Prop :=
  s_cfg s' = s_cfg s /\ s_rooms s' = s_rooms s /\ s_trust s' = s_trust s /\ awaiting s' = awaiting s.

(** Two hubs that differ in what was sent and counted. *)
Record calm (h h' : DHub) : Prop := {
  calm_view : view_eq h h'; calm_heap : heap h' = heap h; calm_clock : clock h' = clock h;
  calm_links : link_active h' = link_active h; calm_svc : same_service (pol_state h) (pol_state h');
}.

#[export] Instance calm_preorder : PreOrder calm.
Proof.
  split.
  - intros h. by split.
  - intros h1 h2 h3 [V1 H1 C1 L1 (A1 & B1 & D1 & E1)] [V2 H2 C2 L2 (A2 & B2 & D2 & E2)].
    split; try congruence; [by transitivity h2|]. unfold same_service. repeat split; congruence.
Qed.

Section calm.
Context `{C : Cbor} `{HO : Host}.
Context (rand_read : nat -> option bytes) (send_ok : nat -> bool) (disk_ok : nat -> bool) (resource_ok : nat -> bytes -> bool).
Implicit Types h : DHub.

Lemma calm_draw h : calm h (draw h). Proof. by split. Qed.
Lemma calm_log l h : calm h (log_send l h). Proof. by split. Qed.
Lemma calm_event e h : calm h (event e h). Proof. by split. Qed.

Lemma calm_sendRaw pid raw h : calm h (sendRaw send_ok pid raw h).1.
Proof. unfold sendRaw. repeat case_match; cbn [fst]; try reflexivity; apply calm_log. Qed.

Lemma calm_marshalType s t r b n h : calm h (marshalType rand_read s t r b n h).1.
Proof. unfold marshalType. repeat case_match; cbn [fst]; try reflexivity; apply calm_draw. Qed.

Lemma calm_sendType pid t r b n h : calm h (sendType rand_read send_ok pid t r b n h).1.
Proof.
  unfold sendType. pose proof (calm_marshalType (h_sender h) t r b n h) as H.
  destruct (marshalType _ _ _ _ _ _ _) as [h' [raw|e]]; cbn [fst] in *; [|done].
  etransitivity; [exact H|apply calm_sendRaw].
Qed.

Lemma calm_send_to peer t room body h : calm h (send_to rand_read send_ok peer t room body h).1.
Proof. unfold send_to. case_match; [apply calm_sendType|reflexivity]. Qed.

Lemma calm_sendRawAll pids raw h : calm h (sendRawAll send_ok pids raw h).
Proof.
  unfold sendRawAll. revert h. induction pids as [|pid pids IH]; intros h; simpl; [reflexivity|].
  etransitivity; [apply calm_sendRaw|apply IH].
Qed.

Lemma calm_broadcast t r b n l h : calm h (broadcast rand_read send_ok t r b n l h).
Proof.
  unfold broadcast. destruct l; [reflexivity|].
  pose proof (calm_marshalType (h_sender h) t r b n h) as H.
  destruct (marshalType _ _ _ _ _ _ _) as [h' [raw|e]]; cbn [fst] in *; [|done].
  etransitivity; [exact H|apply calm_sendRawAll].
Qed.

Lemma calm_BroadcastNotice room text h : calm h (BroadcastNotice rand_read send_ok room text h).
Proof. apply calm_broadcast. Qed.

Lemma calm_set_pol s h : same_service (pol_state h) s -> calm h (set_pol s h).
Proof. intros H. by split; [by repeat split|..]. Qed.

Lemma calm_svc_upd f h : (forall s, same_service s (f s)) -> calm h (svc f h).
Proof. intros H. apply calm_set_pol, H. Qed.

Lemma calm_inc k n h : calm h (inc k n h).
Proof. apply calm_svc_upd. intros s. unfold Inc. by case_match. Qed.

Lemma calm_bump h : calm h (bump h).
Proof. by apply calm_svc_upd. Qed.

Lemma calm_notice peer room text h : calm h (notice rand_read send_ok peer room text h).
Proof.
  unfold notice. generalize (notice_chunks text). intros l. revert h. induction l as [|c l IH]; intros h; simpl; [reflexivity|].
  etransitivity; [apply calm_send_to|apply IH].
Qed.

Lemma calm_errorTo peer room text h : calm h (errorTo rand_read send_ok peer room text h).
Proof. unfold errorTo. etransitivity; [apply calm_inc|apply calm_send_to]. Qed.

Lemma calm_link_send pid raw h : calm h (link_send send_ok pid raw h).1.
Proof. unfold link_send. repeat case_match; cbn [fst]; try reflexivity; apply calm_log. Qed.

Lemma calm_Resources_Send peer kind payload room enc h :
  calm h (Resources_Send rand_read send_ok resource_ok peer kind payload room enc h).1.
Proof.
  unfold Resources_Send. repeat (case_match; [reflexivity|]). destruct (PeerLink h peer) as [lnk|]; [|reflexivity].
  destruct (rand_read (draws h)) as [rid|]; [|apply calm_draw].
  match goal with |- context [marshalType _ ?s ?t ?r ?b ?n ?h0] => pose proof (calm_marshalType s t r b n h0) as Hm end.
  destruct (marshalType _ _ _ _ _ _ _) as [h1 [raw|e]]; cbn [fst] in *;
    [|by etransitivity; [apply calm_draw|]].
  pose proof (calm_link_send lnk raw h1) as H1. destruct (link_send _ _ _ _) as [h2 ok]. cbn [fst] in *.
  assert (H2 : calm h h2) by (etransitivity; [apply calm_draw|]; by etransitivity).
  repeat case_match; cbn [fst]; try done. etransitivity; [exact H2|].
  etransitivity; [|apply calm_inc]. etransitivity; [|apply calm_inc]. by apply calm_svc_upd.
Qed.

Lemma calm_noticeChunksOrResource peer room text kind h :
  calm h (noticeChunksOrResource rand_read send_ok resource_ok peer room text kind h).
Proof.
  unfold noticeChunksOrResource. destruct (_ && _).
  - pose proof (calm_Resources_Send peer kind text room (lit "utf-8") h) as H.
    destruct (Resources_Send _ _ _ _ _ _ _ _ _) as [h1 []]; [exact H|]. etransitivity; [exact H|apply calm_notice].
  - apply calm_notice.
Qed.
End calm.

(** ** What a command does

    Every command but [/reload] is a sequence of these, for a sender [id] with the
    rights it has in [h0]. *)

Section acts.
Context `{C : Cbor} `{HO : Host}.
Context (rand_read : nat -> option bytes) (send_ok : nat -> bool) (disk_ok : nat -> bool).
Implicit Types h : DHub.

(** An operation of the registry that concerns one room only. *)
Definition confined (r : bytes) (g g' : RoomRegistry) : Prop :=
  forall r', r' <> r -> r_rooms g' !! r' = r_rooms g !! r'.

Definition may_operate h0 (id r : bytes) : Prop := IsOp r id (server_op h0 id) (reg h0) = true.

Inductive act (h0 : DHub) (id : bytes) : DHub -> DHub -> Prop :=
| act_calm h h' : calm h h' -> act h0 id h h'
| act_room r f h : may_operate h0 id r -> confined r (reg h) (f (reg h)) -> act h0 id h (upd_rooms f h)
| act_topic r topic h : may_operate h0 id r \/ GetTopicOpsOnly r (reg h0) = false ->
    act h0 id h (upd_rooms (fun g => Persist disk_ok (clock h) (SetTopic (clock h) r topic g)) h)
| act_remove r target h : may_operate h0 id r -> NormalizeRoom r = r -> act h0 id h (RemoveFromRoom target r h).1
| act_trust t h : server_op h0 id = true -> act h0 id h (svc (fun s => set_s_trust (t (s_trust s)) s) h)
| act_file f h : r_rooms (f (reg h)) = r_rooms (reg h) -> act h0 id h (upd_rooms f h)
| act_disconnect target h : server_op h0 id = true -> act h0 id h (Disconnect rand_read send_ok target h).

Notation acts h0 id := (rtc (act h0 id)).
Notation notice := (notice rand_read send_ok).
Notation errorTo := (errorTo rand_read send_ok).

Lemma acts_calm h0 id h h1 h2 : acts h0 id h h1 -> calm h1 h2 -> acts h0 id h h2.
Proof. intros H Hc. eapply rtc_r; [exact H|by apply act_calm]. Qed.

Lemma acts_notice h0 id h h1 peer room text : acts h0 id h h1 -> acts h0 id h (notice peer room text h1).
Proof. intros H. eapply acts_calm; [exact H|apply calm_notice]. Qed.

Lemma acts_error h0 id h h1 peer room text : acts h0 id h h1 -> acts h0 id h (errorTo peer room text h1).
Proof. intros H. eapply acts_calm; [exact H|apply calm_errorTo]. Qed.

Lemma acts_broadcast h0 id h h1 room text : acts h0 id h h1 -> acts h0 id h (BroadcastNotice rand_read send_ok room text h1).
Proof. intros H. eapply acts_calm; [exact H|apply calm_BroadcastNotice]. Qed.

(** *** The registry's operations concern one room *)

Lemma confined_trans r g1 g2 g3 : confined r g1 g2 -> confined r g2 g3 -> confined r g1 g3.
Proof. intros H1 H2 r' Hr. by rewrite H2, H1. Qed.

Lemma confined_with r st g : confined r g (with_room r st g).
Proof. intros r' Hr. simpl. by rewrite lookup_insert_ne. Qed.

Lemma confined_same r g g' : r_rooms g' = r_rooms g -> confined r g g'.
Proof. intros H r' _. by rewrite H. Qed.

Lemma rooms_write now g : r_rooms (writeLocked disk_ok now g).1 = r_rooms g.
Proof. unfold writeLocked, atomicWrite. by repeat case_match. Qed.

Lemma rooms_registered now st g : r_rooms (write_registered disk_ok now st g).1 = r_rooms g.
Proof. unfold write_registered. case_match; [apply rooms_write|done]. Qed.

Lemma confined_mutate now r f g : confined r g (mutateSet disk_ok now r f g).
Proof.
  unfold mutateSet, ensureLocked. eapply confined_trans; [|eapply confined_trans; [apply confined_with|]]; [apply confined_with|].
  apply confined_same, rooms_registered.
Qed.

Lemma confined_Register now r id g : confined r g (Register disk_ok now r id g).1.
Proof.
  unfold Register, ensureLocked. eapply confined_trans; [|eapply confined_trans; [apply confined_with|]]; [apply confined_with|].
  apply confined_same, rooms_write.
Qed.

Lemma confined_Unregister now r g : confined r g (Unregister disk_ok now r g).1.
Proof.
  unfold Unregister. destruct (r_rooms g !! r) as [st|]; [|done]. destruct (Registered st); [|done].
  match goal with |- context [writeLocked _ _ ?g1] => pose proof (rooms_write now g1) as Hw end.
  destruct (writeLocked _ _ _) as [g2 ok]. cbn [fst] in *. eapply confined_trans; [apply confined_with|by apply confined_same].
Qed.

Lemma confined_SetFlag now r flag on key g : confined r g (SetFlag disk_ok now r flag on key g).1.
Proof.
  unfold SetFlag, ensureLocked. destruct (flag_setter _ _ _ _) as [st|e]; [|apply confined_with].
  match goal with |- context [write_registered _ _ ?st1 ?g1] => pose proof (rooms_registered now st1 g1) as Hw end.
  destruct (write_registered _ _ _ _) as [g2 ok]. cbn [fst] in *.
  eapply confined_trans; [|eapply confined_trans; [apply confined_with|]]; [apply confined_with|by apply confined_same].
Qed.

Lemma acts_room h0 id h h1 r f : acts h0 id h h1 -> may_operate h0 id r ->
  confined r (reg h1) (f (reg h1)) -> acts h0 id h (upd_rooms f h1).
Proof. intros H Hm Hf. eapply rtc_r; [exact H|by eapply act_room]. Qed.

Lemma acts_on_rooms {A} h0 id h h1 r (f : Z -> RoomRegistry -> RoomRegistry * A) : acts h0 id h h1 -> may_operate h0 id r ->
  confined r (reg h1) (f (clock h1) (reg h1)).1 -> acts h0 id h (on_rooms f h1).1.
Proof.
  intros H Hm Hf. unfold on_rooms. destruct (f (clock h1) (reg h1)) as [g a]. cbn [fst] in *. by eapply acts_room.
Qed.

Lemma normRoom_norm name h r : normRoom name h = Ok r -> NormalizeRoom r = r.
Proof. unfold normRoom. repeat case_match; try done. intros [= <-]. by apply NormalizeRoom_idemp. Qed.

Lemma founder_operates h id r : is_founder r id h = true -> may_operate h id r.
Proof.
  unfold is_founder, GetFounder, may_operate, IsOp, is_op. rewrite bool_decide_eq_true.
  destruct (r_rooms (reg h) !! r) as [st|]; [|done]. destruct (HasFounder st); [|done]. intros [= ->].
  rewrite bool_decide_true by done. by rewrite orb_true_r.
Qed.

Hint Resolve confined_mutate confined_Register confined_Unregister confined_SetFlag : core.

Ltac acts_step :=
  match goal with
  | |- rtc _ ?h ?h => apply rtc_refl
  | |- rtc _ _ (Gorrcd.notice _ _ _ _ _ _) => apply acts_notice
  | |- rtc _ _ (Gorrcd.errorTo _ _ _ _ _ _) => apply acts_error
  | |- rtc _ _ (BroadcastNotice _ _ _ _ _) => apply acts_broadcast
  | H : requireRoomOp _ _ _ _ _ _ = _ |- _ => unfold requireRoomOp in H
  | H : requireServerOp _ _ _ _ _ = _ |- _ => unfold requireServerOp in H
  | H : (if ?b then _ else _) = (_, _) |- _ => destruct b eqn:?; injection H as <- <-
  | |- rtc _ _ (if ?b then _ else _) => destruct b eqn:?
  | |- rtc _ _ (match ?x with _ => _ end) => destruct x eqn:?
  end; cbn [negb] in *; try done.
Ltac acts_tac := repeat acts_step.

Section commands.
Context (peer id room : bytes) (parts : list bytes) (h : DHub).
Notation acts := (rtc (act h id)).

Lemma acts_cmdList : acts h (cmdList rand_read send_ok peer h).
Proof. unfold cmdList. acts_tac. Qed.

Lemma acts_cmdWho : acts h (cmdWho rand_read send_ok peer id room parts h).
Proof. unfold cmdWho. acts_tac. Qed.

Lemma acts_cmdStats : acts h (cmdStats rand_read send_ok peer id h).
Proof. unfold cmdStats. acts_tac. Qed.

Lemma acts_kick_out r target text h1 : may_operate h id r -> NormalizeRoom r = r -> acts h h1 ->
  acts h (kick_out rand_read send_ok target r text h1).
Proof. intros Hm Hn H. unfold kick_out. apply acts_error. eapply rtc_r; [exact H|]. by apply act_remove. Qed.

Lemma acts_cmdKick : acts h (cmdKick rand_read send_ok peer id room parts h).
Proof.
  unfold cmdKick. acts_tac. apply acts_kick_out; [done|by eapply normRoom_norm|constructor].
Qed.

Lemma persisted_rooms path b g : r_rooms (persistBannedIdentities disk_ok path b g) = r_rooms g.
Proof. unfold persistBannedIdentities, atomicWrite. by repeat case_match. Qed.

Lemma acts_klines h1 : acts h h1 -> acts h (persist_klines disk_ok h1).
Proof. intros H. eapply rtc_r; [exact H|]. apply act_file, persisted_rooms. Qed.

Lemma acts_trust t h1 : server_op h id = true -> acts h h1 -> acts h (svc (fun s => set_s_trust (t (s_trust s)) s) h1).
Proof. intros Hs H. eapply rtc_r; [exact H|]. by apply act_trust. Qed.

Lemma acts_klineAdd token : server_op h id = true -> acts h (klineAdd rand_read send_ok disk_ok peer token h).
Proof.
  intros Hs. unfold klineAdd. acts_tac.
  - eapply rtc_r; [|by apply act_disconnect]. by apply acts_klines, (acts_trust (Ban _)).
  - by apply acts_klines, (acts_trust (Ban _)).
Qed.

Lemma acts_klineDel token : server_op h id = true -> acts h (klineDel rand_read send_ok disk_ok peer token h).
Proof.
  intros Hs. unfold klineDel. acts_tac.
  - by apply acts_klines, (acts_trust (fun _ => t)).
  - by apply (acts_trust (fun _ => t)).
Qed.

Lemma acts_cmdKline : acts h (cmdKline rand_read send_ok disk_ok peer id parts h).
Proof. unfold cmdKline. acts_tac; [by apply acts_klineAdd|by apply acts_klineDel]. Qed.

(** An operation of the registry that answers. *)
Lemma acts_answer {A} r (f : Z -> RoomRegistry -> RoomRegistry * A) h1 h2 a : on_rooms f h1 = (h2, a) -> acts h h1 ->
  may_operate h id r -> confined r (reg h1) (f (clock h1) (reg h1)).1 -> acts h h2.
Proof. intros E H Hm Hf. change h2 with (h2, a).1. rewrite <- E. by eapply acts_on_rooms. Qed.

Lemma acts_cmdRegister : acts h (cmdRegister rand_read send_ok disk_ok peer id room parts h).
Proof.
  unfold cmdRegister. acts_tac. bool_hyps.
  eapply acts_answer; [done|constructor|by apply founder_operates|apply confined_Register].
Qed.

Lemma acts_cmdUnregister : acts h (cmdUnregister rand_read send_ok disk_ok peer id room parts h).
Proof.
  unfold cmdUnregister. acts_tac. bool_hyps.
  eapply acts_answer; [done|constructor|by apply founder_operates|apply confined_Unregister].
Qed.

Lemma acts_cmdTopic : acts h (cmdTopic rand_read send_ok disk_ok peer id room parts h).
Proof.
  unfold cmdTopic. acts_tac. apply rtc_once, act_topic. unfold may_operate.
  destruct (IsOp _ _ _ _); [by left|]. right. cbn [negb andb] in *. done.
Qed.

Lemma acts_grant p r target h2 : may_operate h id r -> grant disk_ok p r target h = Some h2 -> acts h h2.
Proof.
  intros Hm Hg. destruct p; cbn [grant] in Hg; try case_bool_decide; simplify_eq;
    (eapply acts_room; [constructor|done|apply confined_mutate]).
Qed.

Lemma acts_cmdPriv p : acts h (cmdPriv rand_read send_ok disk_ok peer id room p parts h).
Proof. unfold cmdPriv. acts_tac. by eapply acts_grant. Qed.

Lemma acts_modePriv p r flag : may_operate h id r -> acts h (modePriv rand_read send_ok disk_ok peer room r flag p parts h).
Proof. intros Hm. unfold modePriv. acts_tac. by eapply acts_grant. Qed.

Lemma acts_modeFlag r flag : may_operate h id r -> acts h (modeFlag rand_read send_ok disk_ok peer room r flag parts h).
Proof.
  intros Hm. unfold modeFlag. acts_tac;
    (eapply acts_answer; [done|constructor|done|apply confined_SetFlag]).
Qed.

Lemma acts_cmdMode : acts h (cmdMode rand_read send_ok disk_ok peer id room parts h).
Proof. unfold cmdMode. acts_tac; [by apply acts_modePriv|by apply acts_modeFlag]. Qed.

Lemma acts_mutate r f h1 now : acts h h1 -> may_operate h id r -> acts h (upd_rooms (mutateSet disk_ok now r f) h1).
Proof. intros H Hm. eapply acts_room; [exact H|done|apply confined_mutate]. Qed.

Lemma acts_cmdBan : acts h (cmdBan rand_read send_ok disk_ok peer id room parts h).
Proof.
  unfold cmdBan. acts_tac.
  - apply acts_kick_out; [done|by eapply normRoom_norm|]. apply acts_mutate; [constructor|done].
  - apply acts_mutate; [constructor|done].
  - apply acts_mutate; [constructor|done].
Qed.

Lemma acts_inviteAdd r token : may_operate h id r -> acts h (inviteAdd rand_read send_ok disk_ok peer room r token h).
Proof. intros Hm. unfold inviteAdd. acts_tac. apply acts_mutate; [apply acts_notice; constructor|done]. Qed.

Lemma acts_cmdInvite : acts h (cmdInvite rand_read send_ok disk_ok peer id room parts h).
Proof.
  unfold cmdInvite. acts_tac; [by apply acts_inviteAdd|]. apply acts_mutate; [constructor|done].
Qed.
End commands.

(** Every command is such a sequence, or the reload of a server operator. *)
Lemma command_acts peer id room text h : idFrom peer = Some id ->
  rtc (act h id) h (handleCommand rand_read send_ok disk_ok peer room text h)
  \/ server_op h id = true /\ handleCommand rand_read send_ok disk_ok peer room text h = Reload rand_read send_ok peer h.
Proof.
  intros Hid. unfold handleCommand. destruct (splitCmd text) as [|c parts] eqn:Ep; [by left|]. rewrite Hid.
  destruct (key_is (ToLower c) "reload").
  { unfold cmdReload, requireServerOp. destruct (server_op h id); [by right|left]. apply acts_error. constructor. }
  left. repeat (match goal with |- rtc _ _ (if ?b then _ else _) => destruct b end);
    auto using acts_cmdStats, acts_cmdList, acts_cmdWho, acts_cmdKick, acts_cmdKline, acts_cmdRegister, acts_cmdUnregister,
      acts_cmdTopic, acts_cmdPriv, acts_cmdMode, acts_cmdBan, acts_cmdInvite.
  apply acts_error. constructor.
Qed.
End acts.

(** ** The service is a policy the hub can rely on *)

Section policy.
Context `{C : Cbor} `{HO : Host}.
Context (rand_read : nat -> option bytes) (send_ok : nat -> bool) (disk_ok : nat -> bool) (resource_ok : nat -> bytes -> bool).
Implicit Types h : DHub.

Lemma view_set_pol s h : view_eq h (set_pol s h). Proof. by repeat split. Qed.
Lemma view_svc f h : view_eq h (svc f h). Proof. apply view_set_pol. Qed.
Lemma view_upd_rooms f h : view_eq h (upd_rooms f h). Proof. apply view_set_pol. Qed.
Lemma view_on_rooms {A} (f : Z -> RoomRegistry -> RoomRegistry * A) h : view_eq h (on_rooms f h).1.
Proof. unfold on_rooms. destruct (f _ _). apply view_upd_rooms. Qed.

Lemma ok_calm h h' : calm h h' -> ok h h'.
Proof. intros H. apply ok_view, H. Qed.

Lemma ok_Disconnect target h : ok h (Disconnect rand_read send_ok target h).
Proof. unfold Disconnect. case_match; [apply close_session_ok|reflexivity]. Qed.

Lemma act_ok h0 id h h' : act rand_read send_ok disk_ok h0 id h h' -> ok h h'.
Proof.
  intros []; try by apply ok_view, view_set_pol.
  - by apply ok_calm.
  - apply ok_RemoveFromRoom.
  - apply ok_Disconnect.
Qed.

Lemma acts_ok h0 id h h' : rtc (act rand_read send_ok disk_ok h0 id) h h' -> ok h h'.
Proof. induction 1 as [|h1 h2 h3 H _ IH]; [reflexivity|]. etransitivity; [by eapply act_ok|exact IH]. Qed.

Lemma late_then h h1 h2 : late h h1 -> view_eq h1 h2 -> late h h2.
Proof.
  intros H Hv Hi. destruct (H Hi) as (Hi1 & Hs & Hd & R). split; [by rewrite <- Hv|].
  split; [intros q Hq; rewrite <- Hv; auto|]. split; [intros q; rewrite <- Hv; apply Hd|].
  by rewrite (abs_view _ _ Hv).
Qed.

Lemma late_runtime n v im er mr lim h : late h (ApplyRuntime n v im er mr lim h).
Proof. intros Hi. split; [by split; apply Hi|]. split; [done|]. split; [done|]. by rewrite (abs_ext h (ApplyRuntime n v im er mr lim h)). Qed.

Lemma late_Reload peer h : late h (Reload rand_read send_ok peer h).
Proof.
  assert (Hn : forall text h1, view_eq h h1 -> late h (reload_notice rand_read send_ok peer text h1)).
  { intros text h1 Hv. apply late_ok, ok_view. etransitivity; [exact Hv|apply calm_notice]. }
  unfold Reload. destruct (if bool_decide _ then _ else _) as [file|]; [|by apply Hn].
  destruct (match file with Some _ => _ | None => _ end) as [c|e]; [|by apply Hn].
  destruct (Trust_Load _ _ _) as [t|e]; [|by apply Hn].
  destruct (LoadRoomRegistry _ _ _) as [rs|]; [|by apply Hn, view_svc].
  unfold Counts.
  eapply late_then; [|apply calm_bump]. eapply late_then; [|apply calm_notice].
  eapply late_after; [|apply late_runtime]. apply ok_view.
  etransitivity; [apply view_svc|]. etransitivity; [apply view_svc|apply view_upd_rooms].
Qed.

Lemma late_handleCommand peer room text h : late h (handleCommand rand_read send_ok disk_ok peer room text h).
Proof.
  destruct (idFrom peer) as [id|] eqn:Hid.
  - destruct (command_acts rand_read send_ok disk_ok peer id room text h Hid) as [H|[_ ->]];
      [by apply late_ok, (acts_ok h id)|apply late_Reload].
  - unfold handleCommand. rewrite Hid. by destruct (splitCmd text); apply late_ok.
Qed.

Notation gorrcd := (gorrcd rand_read send_ok disk_ok resource_ok).

#[export] Instance gorrcd_policy : PolicyOk gorrcd.
Proof.
  split; cbn [gorrcd OnLink OnIdentified AfterWelcome RrcHub.AllowJoin AfterJoin AfterPart RrcHub.AllowContent Intercept OnPong OnResourceEnvelope].
  - reflexivity.
  - intros hash h. unfold Svc_OnIdentified. by case_match.
  - intros hash h _. unfold Svc_OnIdentified. by case_match.
  - intros hash h. unfold Svc_AfterWelcome. apply ok_calm. etransitivity; [|apply calm_bump].
    case_match; [reflexivity|apply calm_noticeChunksOrResource].
  - intros hash room key h. unfold Svc_AllowJoin. case_match; [|reflexivity]. apply ok_view, view_on_rooms.
  - intros hash room key h _. unfold Svc_AllowJoin. case_match; [|done].
    intros _ pid. by rewrite <- (view_on_rooms _ h).
  - intros hash room h. unfold Svc_AfterJoin. apply ok_view. etransitivity; [apply calm_inc|].
    etransitivity; [apply view_upd_rooms|]. etransitivity; [apply calm_notice|apply calm_bump].
  - intros hash room h. unfold Svc_AfterPart. apply ok_view. etransitivity; [apply calm_inc|].
    etransitivity; [apply view_upd_rooms|apply calm_bump].
  - intros hash env h. unfold Svc_AllowContent. by case_match.
  - intros hash env h. unfold Svc_Intercept. repeat case_match; try by apply late_ok. apply late_handleCommand.
  - intros hash env h. unfold Svc_Intercept. by repeat case_match.
  - intros hash h. unfold Svc_OnPong. case_match; [|reflexivity]. apply ok_view. etransitivity; [apply calm_inc|apply view_svc].
  - intros hash env h. unfold Svc_OnResourceEnvelope, Resources_Add. repeat case_match; try reflexivity; apply ok_view, view_svc.
Qed.

(** *** The daemon's own steps *)

Lemma ok_foldl {A} (f : DHub -> A -> DHub) l h : (forall h x, ok h (f h x)) -> ok h (foldl f h l).
Proof. intros Hf. revert h. induction l as [|x l IH]; intros h; simpl; [reflexivity|]. etransitivity; [apply Hf|apply IH]. Qed.

Lemma ok_pingOnce h : ok h (pingOnce rand_read send_ok h).
Proof.
  unfold pingOnce. case_match; [reflexivity|]. destruct (foldl _ _ _) as [[aw drop] ping].
  etransitivity; [apply ok_view, view_svc|]. etransitivity; [apply (ok_foldl (fun h peer => Disconnect rand_read send_ok peer h) drop); intros; apply ok_Disconnect|].
  apply ok_foldl. intros h1 peer. unfold send_ping.
  pose proof (calm_send_to rand_read send_ok peer TypePing [] (AFloat (bits_of_f64 (unix (clock h1)))) h1) as Hc.
  unfold SendPing. destruct (send_to _ _ _ _ _ _ _) as [h2 r]. cbn [fst] in *.
  etransitivity; [by apply ok_calm|]. case_match; [apply ok_calm, calm_inc|reflexivity].
Qed.

Lemma ok_pruneOnce h : ok h (pruneOnce disk_ok h).
Proof.
  unfold pruneOnce. match goal with |- context [on_rooms ?f h] => pose proof (view_on_rooms f h) as Hv end.
  destruct (on_rooms _ _) as [h1 gone]. cbn [fst] in *. etransitivity; [apply ok_view, Hv|].
  case_match; [reflexivity|apply ok_calm, calm_bump].
Qed.

Lemma ok_advertised lnk n h : ok h (advertised lnk n h).1.
Proof.
  unfold advertised. repeat case_match; cbn [fst]; try apply ok_calm, calm_inc; try reflexivity; apply ok_view;
    (etransitivity; [apply view_svc|]); try reflexivity; apply calm_inc.
Qed.

Lemma ok_concluded lnk payload h : ok h (concluded rand_read send_ok lnk payload h).
Proof.
  unfold concluded. repeat case_match; try reflexivity; apply ok_view; (etransitivity; [apply view_svc|]); try reflexivity;
    (etransitivity; [apply calm_inc|]); (etransitivity; [apply calm_inc|]); try reflexivity.
  etransitivity; [apply calm_BroadcastNotice|apply calm_inc].
Qed.
End policy.
