(* ===== verification/GorrcdNotice.v ===== *)
(** * Notices of the hub daemon ([internal/gorrcd/notice.go])

    A text of any length goes out line by line in chunks of at most 512 bytes,
    cut between runes. *)

From stdpp Require Import base tactics list gmap sets strings.
From Stdlib Require Import ZArith Lia.
From S2P Require Import Prelude GoText HexHash Cbor GoConv GorrcdConfig GorrcdRooms GorrcdToml Gorrcd.

(** ** Valid UTF-8 is a sequence of runes *)

Lemma valid_runes s : valid_utf8 s = true ->
  exists rs, s = encode (map R rs) /\ Forall (fun r => valid_rune r = true) rs.
Proof.
  unfold valid_utf8. intros Hv. pose proof (decode_valid s) as Hd. rewrite <- (encode_decode s).
  revert Hv Hd. generalize (decode s). intros us. induction us as [|[r|b] us IH]; intros Hv Hd; [by exists []| |done].
  inversion_clear Hd. destruct IH as (rs & E & Hrs); [done|done|]. exists (r :: rs). cbn [map].
  rewrite !encode_cons, E. by split; [|constructor].
Qed.

Lemma valid_rune_app r s : valid_rune r = true -> valid_utf8 (encode_rune r ++ s) = valid_utf8 s.
Proof. intros Hr. unfold valid_utf8. rewrite decode_unfold, decode1_rune by done. done. Qed.

Lemma valid_app a b : valid_utf8 a = true -> valid_utf8 (a ++ b) = valid_utf8 b.
Proof.
  intros (rs & -> & Hrs)%valid_runes. induction Hrs as [|r rs Hr _ IH]; [done|].
  cbn [map]. rewrite encode_cons, <- app_assoc. cbn [encode1]. by rewrite valid_rune_app.
Qed.

Lemma encode_rune_length r : (1 <= length (encode_rune r) <= 4)%nat.
Proof. unfold encode_rune. case_tests; cbn; lia. Qed.

Lemma Split_nonempty s sep : Split s sep <> [].
Proof. destruct s; cbn [Split]; [done|]. by repeat case_match. Qed.

(** The lines of valid text are valid. *)
Lemma Split_valid s : valid_utf8 s = true -> Forall (fun l => valid_utf8 l = true) (Split s x0a).
Proof.
  intros (rs & -> & Hrs)%valid_runes. induction Hrs as [|r rs Hr _ IH]; [by repeat constructor|].
  cbn [map]. rewrite encode_cons. cbn [encode1]. destruct (decide (r = 10)) as [->|Hn].
  - change (encode_rune 10) with [x0a]. cbn [app Split]. rewrite bool_decide_true by done. by constructor.
  - rewrite Split_prefix.
    + destruct (Split (encode (map R rs)) x0a) as [|l ls] eqn:E; [by destruct (Split_nonempty (encode (map R rs)) x0a)|].
      apply Forall_cons in IH as [Hl Hls]. constructor; [by rewrite valid_rune_app|done].
    + intros Hc. destruct (encode_rune_bytes (fun _ => true) r x0a Hr Hc) as [E|E]; [by change (bZ x0a) with 10 in E|by change (bZ x0a) with 10 in E; lia].
Qed.

Lemma Split_concat s sep : concat (Split s sep) = List.filter (fun c => negb (bool_decide (c = sep))) s.
Proof.
  induction s as [|c s IH]; [done|]. cbn [Split List.filter]. case_bool_decide; cbn [negb]; [exact IH|].
  rewrite <- IH. pose proof (Split_nonempty s sep). by destruct (Split s sep).
Qed.

Lemma Split_clean s sep : Forall (fun l => sep ∉ l) (Split s sep).
Proof.
  induction s as [|c s IH]; cbn [Split]; [repeat constructor; apply not_elem_of_nil|].
  case_bool_decide; [constructor; [apply not_elem_of_nil|done]|].
  destruct (Split s sep) as [|l ls]; [repeat constructor; set_solver|].
  apply Forall_cons in IH as [Hl Hls]. constructor; [set_solver|done].
Qed.

(** ** Chunks *)

Lemma valid_prefix_le n s : (valid_prefix n s <= n)%nat.
Proof. induction n as [|n IH]; cbn [valid_prefix]; [done|]. case_match; lia. Qed.

Lemma valid_prefix_valid n s : valid_utf8 (take (valid_prefix n s) s) = true.
Proof. induction n as [|n IH]; cbn [valid_prefix]; [done|]. by case_match. Qed.

Lemma valid_prefix_most n s k : (k <= n)%nat -> valid_utf8 (take k s) = true -> (k <= valid_prefix n s)%nat.
Proof.
  induction n as [|n IH]; intros Hk Hv; cbn [valid_prefix]; [done|].
  case_match eqn:E; [done|]. destruct (decide (k = S n)) as [->|]; [congruence|]. apply IH; [lia|done].
Qed.

Definition chunk_size (line : bytes) : nat := Z.to_nat (Z.min maxNoticeChunk (len line)).

(** A valid line always has a first chunk. *)
Lemma chunk_progress line : line <> [] -> valid_utf8 line = true -> (1 <= valid_prefix (chunk_size line) line)%nat.
Proof.
  intros Hne (rs & -> & Hrs)%valid_runes. destruct Hrs as [|r rs Hr Hrs]; [done|]. cbn [map] in *.
  rewrite encode_cons in *. cbn [encode1] in *. pose proof (encode_rune_length r) as Hl.
  transitivity (length (encode_rune r)); [lia|]. apply valid_prefix_most.
  - unfold chunk_size, maxNoticeChunk, len. rewrite length_app. lia.
  - rewrite take_app_length, <- (app_nil_r (encode_rune r)). by rewrite valid_rune_app.
Qed.

Lemma chunk_loop_step fuel line : line <> [] -> chunk_loop (S fuel) line =
  match valid_prefix (chunk_size line) line with O => [] | n => take n line :: chunk_loop fuel (drop n line) end.
Proof. by destruct line. Qed.

(** Every chunk is a small valid piece of the line; together they are the line when
    it is valid. *)
Lemma chunk_loop_pieces fuel line : x0a ∉ line ->
  Forall (fun c => c <> [] /\ len c <= maxNoticeChunk /\ valid_utf8 c = true /\ x0a ∉ c) (chunk_loop fuel line).
Proof.
  revert line. induction fuel as [|fuel IH]; intros line Hn; [constructor|]. destruct (decide (line = [])) as [->|Hne]; [constructor|].
  rewrite chunk_loop_step by done. pose proof (valid_prefix_le (chunk_size line) line) as Hle.
  pose proof (valid_prefix_valid (chunk_size line) line) as Hv. destruct (valid_prefix (chunk_size line) line) as [|n]; [constructor|].
  constructor; [|apply IH; intros Hin; apply Hn; rewrite <- (take_drop (S n) line), elem_of_app; by right]. split; [by destruct line|].
  split; [|split; [done|intros Hin; apply Hn; rewrite <- (take_drop (S n) line), elem_of_app; by left]].
  unfold chunk_size, len in *. rewrite length_take. unfold maxNoticeChunk in *. lia.
Qed.

Lemma chunk_loop_all fuel line : (length line <= fuel)%nat -> valid_utf8 line = true -> concat (chunk_loop fuel line) = line.
Proof.
  revert line. induction fuel as [|fuel IH]; intros line Hf Hv; [by destruct line; [|cbn in Hf; lia]|].
  destruct (decide (line = [])) as [->|Hne]; [done|]. rewrite chunk_loop_step by done.
  pose proof (chunk_progress line Hne Hv) as Hp. pose proof (valid_prefix_valid (chunk_size line) line) as Ht.
  destruct (valid_prefix (chunk_size line) line) as [|n]; [lia|]. cbn [concat].
  rewrite IH; [by rewrite take_drop|rewrite length_drop; destruct line; cbn in *; lia|].
  rewrite <- (valid_app (take (S n) line)) by done. by rewrite take_drop.
Qed.

(** C25: notices are cut without loss.  Every chunk the daemon sends of a text is
    non-empty, has at most 512 bytes, is valid UTF-8 and holds no line break; and
    when the text is valid UTF-8 the chunks together are the text without its line
    breaks.  (A text that is not valid loses, line by line, what follows the first
    byte that is not part of a rune.) *)
Theorem gorrcd_notice_chunks text :
  Forall (fun c => c <> [] /\ len c <= maxNoticeChunk /\ valid_utf8 c = true /\ x0a ∉ c) (notice_chunks text)
  /\ (valid_utf8 text = true ->
      concat (notice_chunks text) = List.filter (fun c => negb (bool_decide (c = x0a))) text).
Proof.
  unfold notice_chunks. split.
  - apply Forall_concat, Forall_fmap, Forall_forall. intros l Hl. apply chunk_loop_pieces.
    exact (proj1 (Forall_forall _ _) (Split_clean text x0a) l Hl).
  - intros Hv. rewrite <- Split_concat. pose proof (Split_valid text Hv) as Hs.
    induction Hs as [|l ls Hl _ IH]; [done|]. cbn [map concat]. rewrite concat_app, IH. f_equal. by apply chunk_loop_all.
Qed.
