(* ===== verification/GorrcdProps.v ===== *)
(** * What the hub daemon guarantees

    The commands respect the rights of their senders, the rooms admit and relay
    by their modes and lists, a kline takes effect at once, notices are split
    without loss, and the hub under the daemon keeps its invariant. *)

From stdpp Require Import base tactics list gmap sets strings.
From Stdlib Require Import ZArith Lia SpecFloat.
From S2P Require Import Prelude GoText HexHash Cbor CborRef RrcRoom RrcEnvelope RrcBodies GoFloat RrcHub RrcHubInv RrcHubSafe RrcHubProps GoConv GorrcdConfig GorrcdRooms Gorrcd GorrcdSafe.

Section authority.
Context `{C : Cbor} `{HO : Host}.
Context (rand_read : nat -> option bytes) (send_ok : nat -> bool) (disk_ok : nat -> bool).
Implicit Types h : DHub.

(** What only operators decide about a room: all of its state but the topic and
    the time of last use. *)
Definition guarded (o : option RoomState) : RoomState :=
  set_Topic [] (set_LastUsed f0 (default (newRoomState zero_ID false) o)).

(** Nothing that is reserved to the operators of [r] or of the server has
    changed. *)
Record untouched (r : bytes) (h h' : DHub) : Prop := {
  un_state : guarded (r_rooms (reg h') !! r) = guarded (r_rooms (reg h) !! r);
  un_topic : GetTopicOpsOnly r (reg h) = true -> GetTopic r (reg h') = GetTopic r (reg h);
  un_members pid : in_room h' pid r = in_room h pid r;
  un_peers : peers h' = peers h;
  un_server : s_trust (pol_state h') = s_trust (pol_state h) /\ conf h' = conf h /\ cfg h' = cfg h;
}.

Lemma in_room_heap h h' pid r : heap h' = heap h -> in_room h' pid r = in_room h pid r.
Proof. intros H. unfold in_room. by rewrite H. Qed.

Lemma in_room_Remove target r r' pid h : NormalizeRoom r' = r' -> r <> r' ->
  in_room (RemoveFromRoom target r' h).1 pid r = in_room h pid r.
Proof.
  intros Hn Hr. unfold RemoveFromRoom. rewrite Hn. destruct (peers h !! peerKey target) as [q|]; [|done].
  destruct (in_room h q r'); cbn [negb fst]; [|done]. unfold in_room. cbn [heap set_rooms upd_peer set_heap].
  destruct (decide (pid = q)) as [->|]; [|by rewrite lookup_alter_ne]. rewrite lookup_alter_eq.
  destruct (heap h !! q) as [p|]; [|done]. simpl. apply bool_decide_ext. set_solver.
Qed.

Lemma Remove_frame target r h : let h' := (RemoveFromRoom target r h).1 in
  peers h' = peers h /\ pol_state h' = pol_state h /\ cfg h' = cfg h.
Proof. unfold RemoveFromRoom. repeat case_match; by repeat split. Qed.

(** Setting a topic leaves the rest of the room as it is. *)
Lemma topic_guarded now r topic g :
  guarded (r_rooms (Persist disk_ok now (SetTopic now r topic g)) !! r) = guarded (r_rooms g !! r).
Proof.
  unfold Persist. rewrite rooms_write. unfold SetTopic, ensureLocked. cbn [r_rooms with_room with_rooms].
  rewrite lookup_insert_eq. unfold guarded, ensured. destruct (r_rooms g !! r) as [st|]; [|done].
  cbn [default]. by rewrite andb_false_r.
Qed.

Lemma topic_others now r r' topic g : r' <> r ->
  r_rooms (Persist disk_ok now (SetTopic now r topic g)) !! r' = r_rooms g !! r'.
Proof.
  intros Hr. unfold Persist. rewrite rooms_write. unfold SetTopic, ensureLocked. cbn [r_rooms with_room with_rooms].
  by rewrite !lookup_insert_ne.
Qed.

Lemma server_operates h id r : server_op h id = true -> may_operate h id r.
Proof. intros H. unfold may_operate, IsOp. by rewrite H. Qed.

(** A registry change that keeps the room. *)
Lemma untouched_rooms r f h h1 : untouched r h h1 ->
  r_rooms (f (reg h1)) !! r = r_rooms (reg h1) !! r -> untouched r h (upd_rooms f h1).
Proof.
  intros [U1 U2 U3 U4 U5] E. split; try done; change (reg (upd_rooms f h1)) with (f (reg h1)).
  - by rewrite E.
  - intros Ht. rewrite <- (U2 Ht). unfold GetTopic. by rewrite E.
Qed.

Lemma act_untouched r id h h1 h2 : ~ may_operate h id r -> untouched r h h1 ->
  act rand_read send_ok disk_ok h id h1 h2 -> untouched r h h2.
Proof.
  intros Hno U Ha. assert (Hne : forall r', may_operate h id r' -> r <> r') by (intros r' Hm ->; done).
  assert (Hns : server_op h id <> true) by (intros Hs; by apply Hno, server_operates).
  destruct Ha as [h1 h2 [(Vp & Vr & _ & _ & _ & Vc) Hh _ _ (Sc & Sr & St & _)]|r' f h1 Hm Hf|r' topic h1 Ht|r' target h1 Hm Hn|t h1 Hs|f h1 Hf|target h1 Hs];
    try done.
  - destruct U as [U1 U2 U3 U4 (U5 & U6 & U7)]. unfold reg, conf in *.
    split; unfold reg, conf; rewrite ?Sr, ?Sc, ?St; try done; [|congruence|].
    + intros pid. by rewrite (in_room_heap h1).
    + repeat split; congruence.
  - apply untouched_rooms; [done|]. by apply Hf, Hne.
  - destruct (decide (r = r')) as [<-|Hr]; [|by apply untouched_rooms, topic_others].
    destruct U as [U1 U2 U3 U4 U5]. destruct Ht as [Hm|Ht]; [done|].
    split; try done; [|congruence]. exact (eq_trans (topic_guarded _ _ _ _) U1).
  - destruct U as [U1 U2 U3 U4 U5]. destruct (Remove_frame target r' h1) as (Ep & Es & Ec).
    unfold reg, conf in *. split; unfold reg, conf; rewrite ?Es, ?Ep, ?Ec; try done.
    intros pid. rewrite in_room_Remove; auto.
  - apply untouched_rooms; [done|]. by rewrite Hf.
Qed.

Lemma acts_untouched r id h h' : ~ may_operate h id r -> rtc (act rand_read send_ok disk_ok h id) h h' -> untouched r h h'.
Proof.
  intros Hno. apply (rtc_ind_r (untouched r h) h); [by split|]. intros h1 h2 _ Ha U. by eapply act_untouched.
Qed.

(** C3: a command changes only what its sender may change.  Whatever an
    identified peer types, a room it does not operate keeps its founder, modes,
    key, registration, operators, voices, bans, invitations and members (and its
    topic, when that is for operators), nobody is disconnected, and the lists of
    trusted and banned identities and the configuration stay. *)
Theorem gorrcd_command_authority peer id room text r h : idFrom peer = Some id ->
  IsOp r id (server_op h id) (reg h) = false ->
  untouched r h (handleCommand rand_read send_ok disk_ok peer room text h).
Proof.
  intros Hid Hno. assert (Hno' : ~ may_operate h id r) by (unfold may_operate; by rewrite Hno).
  destruct (command_acts rand_read send_ok disk_ok peer id room text h Hid) as [H|[Hs _]];
    [|by destruct Hno'; apply server_operates].
  by apply (acts_untouched r id h).
Qed.
End authority.

(** ** The hub under the daemon *)

Section daemon.
Context `{C : Cbor} `{HO : Host}.
Context (rand_read : nat -> option bytes) (send_ok : nat -> bool) (disk_ok : nat -> bool) (resource_ok : nat -> bytes -> bool).
Implicit Types h : DHub.
Notation gorrcd := (gorrcd rand_read send_ok disk_ok resource_ok).
Notation daemon_step := (daemon_step rand_read send_ok disk_ok resource_ok).

(** No open session belongs to an identity that is banned from the server. *)
Definition no_banned h : Prop := forall pid p, heap h !! pid = Some p -> sess_closed p = false ->
  peerHash p <> [] -> peerHash p ∉ banned (s_trust (pol_state h)).

Lemma no_banned_unrefused h : safe h -> no_banned h -> unrefused (Some gorrcd) h.
Proof.
  intros [Hi Hd] Hb pid v hash n Hv Hc Hne Hid Hl. unfold hv in Hv. destruct (heap h !! pid) as [p|] eqn:Hp; [|done].
  simplify_eq/=. destruct (Hd pid) as [Hk _]. specialize (Hk (view p)). unfold hv in Hk. rewrite Hp in Hk.
  specialize (Hk eq_refl Hc). unfold shown in Hk. rewrite Hid, Hl in Hk. cbn in Hk. subst hash.
  unfold ask_policy. cbn [OnIdentified Gorrcd.gorrcd]. unfold Svc_OnIdentified, idFrom. rewrite Hl. cbn.
  unfold Trust_IsBanned. rewrite bool_decide_false; [done|]. by apply (Hb pid).
Qed.

Definition daemon_run : DHub -> DHub -> Prop := rtc (fun h h' => daemon_step h h' /\ no_banned h).

Lemma daemon_step_ends h h' : daemon_step h h' -> no_banned h -> safe h -> ends h h'.
Proof.
  intros Hstep Hb Hs. assert (Hok : forall h', ok h h' -> ends h h') by (intros; by apply reaches_ends, reaches_ok').
  destruct Hstep as [h h' Hh|h|h|h|h lnk n|h lnk payload].
  - apply (hub_step_safe rand_read send_ok (Some gorrcd) (gorrcd_policy rand_read send_ok disk_ok resource_ok)); try done.
    by apply no_banned_unrefused.
  - apply Hok, ok_pingOnce.
  - apply Hok, ok_pruneOnce.
  - apply Hok, ok_view, view_svc.
  - apply Hok, ok_advertised.
  - apply Hok, ok_concluded.
Qed.

Lemma start_safe c identity s : safe (start_hub c identity s).
Proof.
  unfold start_hub, Start. cbn [started NewHub]. pose proof (NewHub_safe rand_read send_ok None I (hub_config c) identity s) as [Hi Hd].
  split; [by split; apply Hi|done].
Qed.

Lemma daemon_run_safe c identity s h : daemon_run (start_hub c identity s) h -> safe h.
Proof.
  intros Hr. assert (H0 := start_safe c identity s). unfold daemon_run in Hr.
  induction Hr as [|h1 h2 h3 [Hs Hb] _ IH]; [done|]. by apply IH, (daemon_step_ends h1 h2).
Qed.

(** C4: the daemon's hub stays in order.  In every state of a run of the daemon
    in which nobody connected is banned (links, packets with any commands in
    them, pings, pruning, resources), the hub's tables agree with its sessions
    and sessions have the identities of their links; and each further step moves
    the table of memberships only by connections, drops, and joins and parts within
    the limits in force. *)
Theorem gorrcd_daemon_invariant c identity s h : daemon_run (start_hub c identity s) h ->
  hub_inv h
  /\ (forall pid p, heap h !! pid = Some p -> sess_closed p = false -> peerHash p = shown h pid)
  /\ (no_banned h -> forall h', daemon_step h h' -> rtc (member_step (CfgLimits (cfg h))) (abs h) (abs h')).
Proof.
  intros Hr. pose proof (daemon_run_safe c identity s h Hr) as Hs. split; [apply Hs|]. split.
  - intros pid p Hp. destruct Hs as [_ Hd]. destruct (Hd pid) as [Hk _]. apply (Hk (view p)). unfold hv. by rewrite Hp.
  - intros Hb h' Hh. by apply (daemon_step_ends h h' Hh Hb Hs).
Qed.
End daemon.

(** ** Who gets into a room, and who is heard there *)

Section access.
Context `{C : Cbor} `{HO : Host}.
Context (rand_read : nat -> option bytes) (send_ok : nat -> bool) (disk_ok : nat -> bool) (resource_ok : nat -> bytes -> bool).
Implicit Types h : DHub.
Notation gorrcd := (gorrcd rand_read send_ok disk_ok resource_ok).

(** The rule: never when banned; operators and the invited always; the others
    when the room is not for the invited only, with the key if it has one. *)
Definition may_join (now : Z) (st : RoomState) (id : bytes) (serverOp : bool) (body : any) : Prop :=
  id ∉ Bans st
  /\ (serverOp = true \/ is_op st id = true \/ live_invite now st id = true
      \/ (InviteOnly st = false /\ (RoomKey st = [] \/ default [] (BodyAsString body) = RoomKey st))).

Lemma keyEqual_spec a b : keyEqual a b = bool_decide (a = b).
Proof.
  unfold keyEqual. destruct (Z.eqb_spec (len a) (len b)); [done|]. symmetry. apply bool_decide_eq_false. congruence.
Qed.

Lemma AllowJoin_rule now room id body so g :
  (GorrcdRooms.AllowJoin now room id body so g).2 = None
  <-> may_join now (ensured (r_rooms g !! room) id true) id so body.
Proof.
  unfold GorrcdRooms.AllowJoin, ensureLocked, may_join. cbn [snd]. set (st := ensured _ _ _).
  rewrite keyEqual_spec. destruct (decide (id ∈ Bans st)); [rewrite bool_decide_true by done; split; [done|tauto]|].
  rewrite (bool_decide_false (id ∈ Bans st)) by done.
  destruct so, (is_op st id), (live_invite now st id), (InviteOnly st); cbn [orb negb andb]; rewrite ?andb_false_r; cbn;
    try (split; [intros _; split; [done|]; tauto|done]);
    try (split; [done|intros [_ [?|[?|[?|[? _]]]]]; done]).
  destruct (decide (RoomKey st = [])); [rewrite (bool_decide_true (RoomKey st = [])) by done; cbn; tauto|].
  rewrite (bool_decide_false (RoomKey st = [])) by done. cbn.
  case_bool_decide; cbn; (split; [done || tauto|]); [done|]. intros [_ [?|[?|[?|[_ [?|?]]]]]]; done.
Qed.

Lemma in_room_enter pid p room h h' q r : heap h !! pid = Some p -> enter_room pid room h = Some h' ->
  in_room h' q r = if decide (q = pid /\ r = room) then true else in_room h q r.
Proof.
  intros Hp. unfold enter_room. destruct (in_room h pid room) eqn:Hin.
  { intros [= <-]. case_decide as Hd; [|done]. by destruct Hd as [-> ->]. }
  case_match; [done|]. intros [= <-]. unfold in_room in *. cbn [heap set_rooms upd_peer set_heap].
  destruct (decide (q = pid)) as [->|Hq].
  - rewrite lookup_alter_eq, Hp. cbn. case_decide as Hd.
    + destruct Hd as [_ ->]. apply bool_decide_true. set_solver.
    + apply bool_decide_ext. set_solver.
  - rewrite lookup_alter_ne by done. by rewrite decide_False by naive_solver.
Qed.

Lemma heap_AfterJoin peer room h : heap (Svc_AfterJoin rand_read send_ok disk_ok peer room h) = heap h.
Proof.
  unfold Svc_AfterJoin. rewrite (calm_heap _ _ (calm_bump _)), (calm_heap _ _ (calm_notice _ _ _ _ _ _)).
  apply (calm_heap _ _ (calm_inc _ _ _)).
Qed.

(** The membership update of an admitted join, after everything that is sent. *)
Lemma onJoin_entered pid p env h id : heap h !! pid = Some p -> peerHash p = id -> len id = IdentityLength ->
  let room := NormalizeRoom (Room env) in
  room <> [] -> len room <= MaxRoomNameBytes (CfgLimits (cfg h)) ->
  let '(g, refused) := GorrcdRooms.AllowJoin (clock h) room id (Body env) (server_op h id) (reg h) in
  let h1 := upd_rooms (fun _ => g) h in
  match refused with
  | Some msg => onJoin rand_read send_ok (Some gorrcd) pid env h = replyError rand_read send_ok pid msg h1
  | None =>
      match enter_room pid room h1 with
      | None => onJoin rand_read send_ok (Some gorrcd) pid env h = replyError rand_read send_ok pid (lit "room limit exceeded") h1
      | Some h2 => heap (onJoin rand_read send_ok (Some gorrcd) pid env h) = heap h2
      end
  end.
Proof.
  intros Hp Hid Hl room Hr Hlen. unfold onJoin. fold room. rewrite bool_decide_false by done.
  rewrite (proj2 (Z.ltb_ge _ _)) by lia. unfold ask_policy. cbn [RrcHub.AllowJoin Gorrcd.gorrcd].
  assert (Hph : peer_hash h pid = id) by (unfold peer_hash; by rewrite Hp). rewrite Hph.
  unfold Svc_AllowJoin, idFrom. rewrite Hl. cbn [Z.eqb]. change (IdentityLength =? IdentityLength) with true. cbn iota.
  unfold on_rooms. destruct (GorrcdRooms.AllowJoin _ _ _ _ _ _) as [g [msg|]]; [done|].
  destruct (enter_room pid room _) as [h2|]; [|done]. unfold run_hook. cbn [AfterJoin Gorrcd.gorrcd].
  rewrite heap_AfterJoin. cbn [heap event]. rewrite (calm_heap _ _ (calm_sendType _ _ _ _ _ _ _ _)).
  apply (calm_heap _ _ (calm_broadcast _ _ _ _ _ _ _ _)).
Qed.

(** C10: who gets into a room.  A welcomed peer that asks for a room is in it
    afterwards if and only if it was, or the rule admits it (never when banned,
    always when it operates the room or the server or holds a live invitation,
    otherwise when the room is not invite-only and the key, if there is one, is
    given) and it has not reached its number of rooms; nobody else moves.  When
    the rule does not admit it, nothing is sent to anybody else.  A room without
    founder takes its first applicant as founder before the rule is applied. *)
Theorem gorrcd_join_rule pid p env h : heap h !! pid = Some p -> len (peerHash p) = IdentityLength ->
  let room := NormalizeRoom (Room env) in
  room <> [] -> len room <= MaxRoomNameBytes (CfgLimits (cfg h)) ->
  let st := ensured (r_rooms (reg h) !! room) (peerHash p) true in
  let admitted := may_join (clock h) st (peerHash p) (server_op h (peerHash p)) (Body env) in
  let h' := onJoin rand_read send_ok (Some gorrcd) pid env h in
  (in_room h' pid room = true <-> in_room h pid room = true
     \/ admitted /\ room_count h pid < MaxRoomsPerSession (CfgLimits (cfg h)))
  /\ (forall q r, ~ (q = pid /\ r = room) -> in_room h' q r = in_room h q r)
  /\ (~ admitted -> only_to (fun q => q = pid) h h').
Proof.
  intros Hp Hl room Hr Hlen st admitted h'.
  pose proof (onJoin_entered pid p env h (peerHash p) Hp eq_refl Hl Hr Hlen) as Hj. fold room h' in Hj.
  pose proof (AllowJoin_rule (clock h) room (peerHash p) (Body env) (server_op h (peerHash p)) (reg h)) as Hrule.
  fold st admitted in Hrule. destruct (GorrcdRooms.AllowJoin _ _ _ _ _ _) as [g [msg|]]; cbn [snd] in Hrule.
  - assert (Hno : ~ admitted) by (intros Ha; by apply Hrule in Ha).
    assert (Hsame : forall q r, in_room h' q r = in_room h q r).
    { intros q r. rewrite Hj. unfold replyError. by rewrite (in_room_heap _ _ _ _ (calm_heap _ _ (calm_sendType _ _ _ _ _ _ _ _))). }
    split; [rewrite Hsame; tauto|]. split; [intros; apply Hsame|]. intros _. rewrite Hj.
    transitivity (upd_rooms (fun _ => g) h); [by apply only_to_same|by apply only_to_replyError].
  - assert (Ha : admitted) by by apply Hrule.
    cbv zeta in Hj. destruct (enter_room pid room (upd_rooms (fun _ => g) h)) as [h2|] eqn:He.
    + pose proof (fun q r => in_room_enter pid p room (upd_rooms (fun _ => g) h) h2 q r Hp He) as Hin.
      assert (Hsame : forall q r, in_room h' q r = in_room h2 q r) by (intros; by apply in_room_heap).
      split; [|split; [|done]].
      * rewrite Hsame, Hin, decide_True by done. split; [intros _|done]. unfold enter_room in He.
        change (in_room (upd_rooms (fun _ => g) h) pid room) with (in_room h pid room) in He.
        destruct (in_room h pid room); [by left|right]. split; [done|].
        destruct (Z.leb_spec (MaxRoomsPerSession (CfgLimits (cfg (upd_rooms (fun _ => g) h)))) (room_count (upd_rooms (fun _ => g) h) pid)); [done|exact H].
      * intros q r Hne. by rewrite Hsame, Hin, decide_False.
    + assert (Hsame : forall q r, in_room h' q r = in_room h q r).
      { intros q r. rewrite Hj. unfold replyError. by rewrite (in_room_heap _ _ _ _ (calm_heap _ _ (calm_sendType _ _ _ _ _ _ _ _))). }
      split; [|split; [intros; apply Hsame|done]]. rewrite Hsame. unfold enter_room in He.
      change (in_room (upd_rooms (fun _ => g) h) pid room) with (in_room h pid room) in He.
      destruct (in_room h pid room); [done|]. split; [done|]. intros [|[_ Hc]]; [done|].
      rewrite (proj2 (Z.leb_gt _ _)) in He; [done|exact Hc].
Qed.

(** The rule for speaking in a room: it exists or one is in it, one is not banned,
    comes from inside if the room wants that, and has a voice if it is moderated. *)
Definition may_speak (o : option RoomState) (id : bytes) (member serverOp : bool) : Prop :=
  match o with
  | None => member = true
  | Some st =>
      id ∉ Bans st /\ (member = true \/ NoOutsideMsgs st = false)
      /\ (Moderated st = false \/ serverOp = true \/ is_op st id = true \/ id ∈ Voiced st)
  end.

Lemma AllowContent_rule room id member so g :
  GorrcdRooms.AllowContent room id member so g = None <-> may_speak (r_rooms g !! room) id member so.
Proof.
  unfold GorrcdRooms.AllowContent, may_speak, IsVoiced, IsOp. destruct (r_rooms g !! room) as [st|]; cbn [present negb andb].
  2: { by destruct member. }
  destruct (decide (id ∈ Bans st)) as [Hb|Hb]; [rewrite bool_decide_true by done; split; [done|tauto]|].
  rewrite (bool_decide_false (id ∈ Bans st)) by done.
  destruct member, (NoOutsideMsgs st), (Moderated st), so, (is_op st id); cbn; try (split; [done|]); try tauto;
    try (intros (_ & [?|?] & _); done);
    (destruct (decide (id ∈ Voiced st)) as [Hv|Hv]; [rewrite bool_decide_true by done|rewrite bool_decide_false by done]);
    cbn; split; try done; try tauto; intros (_ & _ & [?|[?|[?|?]]]); done.
Qed.

Lemma events_sendType pid t r b n h : events (sendType rand_read send_ok pid t r b n h).1 = events h.
Proof. unfold sendType, marshalType, sendRaw. by repeat case_match; simplify_eq/=. Qed.

(** C14: who is heard in a room.  Content a welcomed peer sends to a room goes to
    the hub's relay exactly when the rule lets it speak; otherwise the sender gets
    an error and nobody gets anything, no message is reported to the application
    and nothing else changes. *)
Theorem gorrcd_moderation pid p env h : heap h !! pid = Some p -> len (peerHash p) = IdentityLength ->
  let room := NormalizeRoom (Room env) in
  let speaks := may_speak (r_rooms (reg h) !! room) (peerHash p) (IsMember h (peerHash p) room) (server_op h (peerHash p)) in
  let h' := dispatchContent rand_read send_ok (Some gorrcd) pid env h in
  (speaks -> h' = onRoomContent rand_read send_ok (Some gorrcd) pid env h)
  /\ (~ speaks -> only_to (fun q => q = pid) h h' /\ events h' = events h /\ calm h h').
Proof.
  intros Hp Hl room speaks h'. assert (Hph : peer_hash h pid = peerHash p) by (unfold peer_hash; by rewrite Hp).
  pose proof (AllowContent_rule room (peerHash p) (IsMember h (peerHash p) room) (server_op h (peerHash p)) (reg h)) as Hrule.
  fold speaks in Hrule. subst h'. unfold dispatchContent, ask_policy. cbn [RrcHub.AllowContent Gorrcd.gorrcd].
  unfold Svc_AllowContent. rewrite Hph. unfold idFrom. rewrite Hl. cbn [Z.eqb]. change (IdentityLength =? IdentityLength) with true.
  cbn iota. fold room. destruct (GorrcdRooms.AllowContent _ _ _ _ _) as [msg|].
  - split; [intros Hs; by apply Hrule in Hs|]. intros _. split; [by apply only_to_replyError|].
    split; [apply events_sendType|apply calm_sendType].
  - split; [done|]. intros Hno. by destruct Hno; apply Hrule.
Qed.
End access.

(** A room that has no founder (one a server operator has given a key or closed
    before anybody joined, or one whose entry in the registry names none) admits
    whoever applies first, key or not, invited or not, as its founder. *)
Lemma founderless_takeover now room id body so g st : r_rooms g !! room = Some st -> HasFounder st = false ->
  id ∉ Bans st ->
  let '(g', refused) := GorrcdRooms.AllowJoin now room id body so g in
  refused = None /\ IsOp room id false g' = true.
Proof.
  intros Hr Hf Hb. pose proof (AllowJoin_rule now room id body so g) as Hrule. rewrite Hr in Hrule.
  cbn [ensured] in Hrule. rewrite Hf in Hrule. cbn [negb andb] in Hrule.
  assert (Hop : is_op (set_Founder id st) id = true).
  { unfold is_op. cbn [Founder HasFounder set_Founder]. by rewrite bool_decide_true. }
  unfold GorrcdRooms.AllowJoin, ensureLocked in *. rewrite Hr in *. cbn [ensured] in *. rewrite Hf in *. cbn [negb andb snd] in *.
  split.
  - apply Hrule. split; [done|]. by right; left.
  - unfold IsOp. cbn [r_rooms with_room with_rooms orb]. by rewrite lookup_insert_eq.
Qed.

(** ** Klines *)

Section kline.
Context `{C : Cbor} `{HO : Host}.
Context (rand_read : nat -> option bytes) (send_ok : nat -> bool) (disk_ok : nat -> bool).
Implicit Types h : DHub.

Lemma parseFullID_len text id : parseFullID text = Ok id -> len id = IdentityLength.
Proof.
  unfold parseFullID, idFrom. destruct (parseIdentityHash text) as [b|]; [|done]. cbn.
  destruct (Z.eqb_spec (len b) IdentityLength); [|done]. by intros [= <-].
Qed.

Lemma resolve_len token room h : len (resolve token room h).1 = IdentityLength.
Proof.
  assert (Hfull : len (match parseFullID (TrimSpace token) with Ok id => id | Err _ => zero_ID end) = IdentityLength).
  { destruct (parseFullID (TrimSpace token)) eqn:E; [by eapply parseFullID_len|done]. }
  unfold resolve. destruct (map _ _) as [|m [|m' l]]; cbn [fst]; try done.
  unfold idFrom. by destruct (Z.eqb_spec (len m.1) IdentityLength).
Qed.

(** Disconnecting an identity takes it, and only it, out of the table. *)
Lemma Disconnect_drops target h : hub_inv h -> len target = IdentityLength ->
  let h' := Disconnect rand_read send_ok target h in
  peers h' = delete target (peers h) /\ abs h' = delete target (abs h) /\ link_identity h' = link_identity h
  /\ forall q v, hv h' q = Some v -> v_closed v = false -> hv h q = Some v.
Proof.
  intros Hi Hl. unfold Disconnect. rewrite peerKey_id by done. destruct (peers h !! target) as [pid|] eqn:Hk.
  2: { cbv zeta. rewrite !delete_id; [done|unfold abs; by rewrite lookup_fmap, Hk|done]. }
  destruct (inv_peers h Hi _ _ Hk) as (v & Hv & E & _ & Hc). unfold hv in Hv.
  destruct (heap h !! pid) as [p|] eqn:Hp; [|done].
  injection Hv as <-. cbn [v_hash v_closed view] in E, Hc. subst target.
  pose proof (close_session_open rand_read send_ok h pid p Hi Hp Hc) as Hve.
  rewrite decide_False in Hve by (intros E; by rewrite E in Hl). cbv zeta. rewrite (abs_view _ _ Hve).
  destruct Hve as (Vp & _ & _ & Vl & Vv & _).
  destruct (unindex_frame (peerHash p) (sess_nick p) (set_peers (delete (peerHash p) (peers h)) h)) as (U1 & _ & _ & U4).
  split; [rewrite Vp; exact U1|]. split; [by apply abs_dropped|]. split; [rewrite Vl; exact U4|].
  intros q w. rewrite Vv, (hv_dropped h pid p q Hp). case_decide; [|done]. intros [= <-]. done.
Qed.

Lemma calm_notify b n notes h : calm h (foldl (notify_parted rand_read send_ok b n) h notes).
Proof.
  revert h. induction notes as [|x notes IH]; intros h; simpl; [reflexivity|]. etransitivity; [|apply IH].
  unfold notify_parted. pose proof (calm_marshalType rand_read (h_sender h) TypeParted x.1 b n h) as H.
  destruct (marshalType _ _ _ _ _ _ _) as [h' [raw|e]]; cbn [fst] in *; [|done].
  etransitivity; [exact H|apply calm_sendRawAll].
Qed.

Lemma service_Disconnect target h :
  same_service (pol_state h) (pol_state (Disconnect rand_read send_ok target h)).
Proof.
  unfold Disconnect. destruct (peers h !! peerKey target) as [pid|]; [|done]. unfold close_session.
  destruct (heap h !! pid) as [p|]; [|done]. destruct (sess_closed p); [done|]. unfold dropPeerIf.
  cbn [heap set_links upd_peer set_heap]. destruct (alter set_closed pid (heap h) !! pid) as [q|]; [|done].
  destruct (len (peerHash q) =? 0); [done|].
  match goal with |- context [peers ?h0 !! peerKey (peerHash q)] => destruct (peers h0 !! peerKey (peerHash q)) as [cur|]; [|done] end.
  destruct (negb (Nat.eqb cur pid)); [done|].
  match goal with |- context [foldl (drop_room ?k) (?h0, []) ?l] =>
    destruct (drop_rooms_frame k l h0 []) as [notes ->]; set (h1 := h0) end.
  cbn [pol_state event].
  match goal with |- context [foldl (notify_parted _ _ ?b ?n) ?h0 notes] =>
    pose proof (calm_svc _ _ (calm_notify b n notes h0)) as Hs end.
  replace (pol_state h) with (pol_state h1) by (unfold h1, unindexNickLocked; by case_bool_decide). exact Hs.
Qed.

(** What remains to be shown of a kline once its words are read. *)
Lemma klineAdd_effect peer token target matches h : safe h -> resolve token [] h = (target, matches) -> target <> zero_ID ->
  let h' := klineAdd rand_read send_ok disk_ok peer token h in
  s_trust (pol_state h') = Ban target (s_trust (pol_state h)) /\ peers h' = delete target (peers h)
  /\ abs h' = delete target (abs h) /\ hub_inv h'
  /\ forall q v, hv h' q = Some v -> v_closed v = false -> hv h q = Some v.
Proof.
  intros [Hi Hd] Hr Hz. pose proof (resolve_len token [] h) as Hl. rewrite Hr in Hl. cbn [fst] in Hl.
  unfold klineAdd. rewrite Hr, bool_decide_false by done. cbn [negb]. cbv zeta.
  set (h1 := persist_klines disk_ok (svc (fun s => set_s_trust (Ban target (s_trust s)) s) h)).
  assert (Hve : view_eq h h1) by (etransitivity; [apply view_svc|apply view_upd_rooms]).
  assert (Hi1 : hub_inv h1) by by rewrite <- Hve.
  destruct (Disconnect_drops target h1 Hi1 Hl) as (Ep & Ea & _ & Ev).
  set (h2 := Disconnect rand_read send_ok target h1) in *.
  assert (Hi2 : hub_inv h2) by (apply (ok_inv h1); [apply ok_Disconnect|done]).
  destruct (calm_notice rand_read send_ok peer [] (lit "kline added for " ++ token) h2) as [Vn _ _ _ (_ & _ & Tn & _)].
  set (h3 := notice _ _ _ _ _ h2) in *. split; [|split; [|split; [|split]]].
  - rewrite Tn. destruct (service_Disconnect target h1) as (_ & _ & Td & _). unfold h2. by rewrite Td.
  - destruct Vn as (-> & _). rewrite Ep. by destruct Hve as (-> & _).
  - rewrite (abs_view _ _ Vn), Ea. by rewrite (abs_view _ _ Hve).
  - by rewrite <- Vn.
  - intros q v. destruct Vn as (_ & _ & _ & _ & -> & _). intros Hv Hc. destruct Hve as (_ & _ & _ & _ & <- & _). by apply Ev.
Qed.

(** C16: a kline takes effect at once.  When a server operator says [/kline add]
    of a target that is resolved to an identity, that identity is banned, its
    session is closed and everybody else keeps theirs with their rooms; it would
    be refused if it came back, and if nobody connected was banned before, nobody
    is after. *)
Theorem gorrcd_kline peer id room text c op token rest target matches h : safe h ->
  idFrom peer = Some id -> server_op h id = true -> splitCmd text = c :: op :: token :: rest ->
  ToLower c = lit "kline" -> ToLower op = lit "add" ->
  resolve token [] h = (target, matches) -> target <> zero_ID ->
  let h' := handleCommand rand_read send_ok disk_ok peer room text h in
  (Svc_OnIdentified target h').2 = Some rrcdBanned
  /\ HasPeer h' target = false /\ (forall key, key <> target -> abs h' !! key = abs h !! key)
  /\ (no_banned h -> no_banned h').
Proof.
  intros Hs Hid Hop Hsp Hc Ho Hr Hz h'.
  assert (E : h' = klineAdd rand_read send_ok disk_ok peer token h).
  { subst h'. unfold handleCommand. rewrite Hsp, Hid, Hc.
    transitivity (cmdKline rand_read send_ok disk_ok peer id (c :: op :: token :: rest) h); [reflexivity|].
    unfold cmdKline, requireServerOp. rewrite Hop. cbn [negb]. change (word _ 1) with op. change (word _ 2) with token.
    rewrite Ho. unfold len. cbn [length]. rewrite (proj2 (Z.ltb_ge _ _)) by lia.
    rewrite (proj2 (Z.ltb_ge _ _)) by lia. reflexivity. }
  destruct (klineAdd_effect peer token target matches h Hs Hr Hz) as (Et & Ep & Ea & Hi' & Ev). rewrite <- E in *.
  pose proof (resolve_len token [] h) as Hl. rewrite Hr in Hl. cbn [fst] in Hl.
  split; [|split; [|split]].
  - unfold Svc_OnIdentified, idFrom. rewrite Hl. cbn [Z.eqb]. change (IdentityLength =? IdentityLength) with true. cbn.
    unfold Trust_IsBanned. rewrite Et, bool_decide_true; [done|]. cbn. set_solver.
  - unfold HasPeer. rewrite peerKey_id, Ep, lookup_delete_eq by done. apply bool_decide_false. by intros [].
  - intros key Hk. by rewrite Ea, lookup_delete_ne.
  - intros Hb pid p Hp Hcl Hne. assert (Hv : hv h' pid = Some (view p)) by (unfold hv; by rewrite Hp).
    pose proof (inv_live h' Hi' pid _ Hv Hcl Hne) as Hk. cbn in Hk. rewrite Ep in Hk.
    apply lookup_delete_Some in Hk as [Hk _]. pose proof (Ev pid _ Hv Hcl) as Hv0. unfold hv in Hv0.
    destruct (heap h !! pid) as [p0|] eqn:Hp0; [|done]. injection Hv0 as E1 _ _ E2 _ _.
    rewrite Et. cbn. specialize (Hb pid p0 Hp0). rewrite E1, E2 in Hb. specialize (Hb Hcl Hne). set_solver.
Qed.
End kline.

(** ** Pings *)

Section pings.
Context `{C : Cbor} `{HO : Host}.
Context (rand_read : nat -> option bytes) (send_ok : nat -> bool).
Implicit Types h : DHub.

(** A peer that was asked longer ago than the timeout allows. *)
Definition overdue (now t : Z) (timeout : f64) : bool :=
  fltb f0 timeout && fltb timeout (duration_Seconds (time_Sub now t)).

(** The scan keeps what it waits for, and drops the overdue. *)
Lemma ping_scan_keeps now timeout l aw d p id t : aw !! id = Some t -> len id = IdentityLength ->
  let r := foldl (ping_scan now timeout) (aw, d, p) l in
  r.1.1 !! id = Some t /\ d ⊆ r.1.2 /\ (id ∈ l -> overdue now t timeout = true -> id ∈ r.1.2).
Proof.
  revert aw d p. induction l as [|x l IH]; intros aw d p Ha Hl; cbn [foldl]; [set_solver|].
  assert (Hx : exists aw' d' p', ping_scan now timeout (aw, d, p) x = (aw', d', p') /\ aw' !! id = Some t /\ d ⊆ d'
    /\ (x = id -> overdue now t timeout = true -> id ∈ d')).
  { unfold ping_scan, idFrom. destruct (Z.eqb_spec (len x) IdentityLength) as [Hx|Hx];
      [|do 3 eexists; split; [done|]; split; [done|]; split; [done|]; by intros ->].
    destruct (aw !! x) as [t'|] eqn:Hax.
    - destruct (fltb f0 timeout && fltb timeout _) eqn:Ho; do 3 eexists; (split; [done|]); (split; [done|]).
      + split; [set_solver|]. intros -> _. set_solver.
      + split; [done|]. intros -> Hov. unfold overdue in Hov. congruence.
    - do 3 eexists. split; [done|]. rewrite lookup_insert_ne by congruence. split; [done|]. split; [done|]. congruence. }
  destruct Hx as (aw' & d' & p' & -> & Ha' & Hd & Hov). destruct (IH aw' d' p' Ha' Hl) as (H1 & H2 & H3).
  split; [done|]. split; [set_solver|]. intros Hin Ho. apply elem_of_cons in Hin as [->|Hin]; auto.
Qed.

Lemma Disconnect_all l h : hub_inv h -> Forall (fun id => len id = IdentityLength) l ->
  let h' := foldl (fun h peer => Disconnect rand_read send_ok peer h) h l in
  hub_inv h' /\ awaiting (pol_state h') = awaiting (pol_state h)
  /\ (forall id, peers h !! id = None -> peers h' !! id = None) /\ (forall id, id ∈ l -> peers h' !! id = None).
Proof.
  revert h. induction l as [|x l IH]; intros h Hi Hl; cbn [foldl]; [set_solver|].
  apply Forall_cons in Hl as [Hx Hl]. destruct (Disconnect_drops rand_read send_ok x h Hi Hx) as (Ep & _).
  destruct (service_Disconnect rand_read send_ok x h) as (_ & _ & _ & Ea).
  assert (Hi1 : hub_inv (Disconnect rand_read send_ok x h)) by (apply (ok_inv h); [apply ok_Disconnect|done]).
  destruct (IH _ Hi1 Hl) as (H1 & H2 & H3 & H4). split; [done|]. split; [congruence|]. split.
  - intros id Hid. apply H3. rewrite Ep. by apply lookup_delete_None; right.
  - intros id Hin. apply elem_of_cons in Hin as [->|Hin]; [|auto]. apply H3. by rewrite Ep, lookup_delete_eq.
Qed.

Lemma ping_scan_ids now timeout l acc : Forall (fun id => len id = IdentityLength) acc.1.2 ->
  Forall (fun id => len id = IdentityLength) (foldl (ping_scan now timeout) acc l).1.2.
Proof.
  revert acc. induction l as [|x l IH]; intros [[aw d] p] Hd; cbn [foldl]; [done|]. apply IH. clear IH. cbn [fst snd] in Hd.
  unfold ping_scan, idFrom. destruct (Z.eqb_spec (len x) IdentityLength) as [Hx|Hx]; [|done].
  repeat case_match; cbn [fst snd]; try done. apply Forall_app. split; [done|]. by repeat constructor.
Qed.

Lemma calm_send_ping h peer : calm h (send_ping rand_read send_ok h peer).
Proof.
  unfold send_ping, SendPing.
  pose proof (calm_send_to rand_read send_ok peer TypePing [] (AFloat (bits_of_f64 (unix (clock h)))) h) as Hc.
  destruct (send_to _ _ _ _ _ _ _) as [h2 r]. cbn [fst] in *. case_match; [|done]. etransitivity; [exact Hc|apply calm_inc].
Qed.

Lemma active_peer h id : hub_inv h -> id ∈ ActivePeerHashes h -> len id = IdentityLength.
Proof.
  intros Hi. unfold ActivePeerHashes. rewrite list_elem_of_omap. intros ([key pid] & Hk & E).
  apply elem_of_map_to_list in Hk. destruct (inv_peers h Hi _ _ Hk) as (v & Hv & Ek & Hl & _).
  cbn [snd] in E. case_match; [|done]. injection E as <-. rewrite (hv_peer_hash h pid v Hv). congruence.
Qed.

End pings.

(** ** A small daemon *)

Module gdemo.
#[local] Existing Instance ref_cbor.
#[local] Existing Instance plain_host.
Definition disk (_ : nat) : bool := true.
Definition takes (_ : nat) (_ : bytes) : bool := true.
Definition carol : bytes := replicate 16 x0c.
Definition config : Cfg.Config :=
  Cfg.set_PingTimeoutS (f_of_Z 30) (Cfg.set_PingIntervalS (f_of_Z 60) (Cfg.set_RoomRegistryPath [] (DefaultConfig (H := plain_host)))).
(** Carol is a server operator. *)
Definition service : Service := set_s_trust (mkTrust {[carol]} ∅) (NewService config ∅ 0).
Definition policy : HubPolicy Service := gorrcd (C := ref_cbor) (HO := plain_host) demo.rand demo.net disk takes.
Definition start : DHub := start_hub config demo.hub_id service.
(** Alice comes in and makes a room. *)
Definition s1 : DHub := demo.accept (Some policy) 1 start.
Definition s2 : DHub := demo.identify (Some policy) 1 demo.alice s1.
Definition s3 : DHub := demo.deliver (Some policy) 1 (demo.packet TypeHello demo.alice [] ANil (lit "alice")) s2.
Definition one : DHub := demo.deliver (Some policy) 1 (demo.packet TypeJoin demo.alice (lit "#den") ANil []) s3.

Notation run := (daemon_run (C := ref_cbor) (HO := plain_host) demo.rand demo.net disk takes).

Lemma open_house (h : DHub) : banned (s_trust (pol_state h)) = ∅ -> no_banned h.
Proof. intros E pid p _ _ _. rewrite E. apply not_elem_of_empty. Qed.

Lemma run_hub (h h1 h2 : DHub) : hub_step (C := ref_cbor) demo.rand demo.net (Some policy) h h1 ->
  banned (s_trust (pol_state h)) = ∅ -> run h1 h2 -> run h h2.
Proof. intros Hs Hb Hr. eapply rtc_l; [|exact Hr]. split; [by apply d_hub|by apply open_house]. Qed.

Lemma one_run : run start one.
Proof.
  eapply run_hub; [by apply (step_accept _ _ _ start 1)|reflexivity|].
  eapply run_hub; [by eapply (step_identified _ _ _ s1 1)|reflexivity|].
  eapply run_hub; [by eapply (step_deliver _ _ _ s2 1)|reflexivity|].
  eapply run_hub; [eapply (step_deliver _ _ _ s3 1); vm_compute; reflexivity|reflexivity|]. constructor.
Qed.

Lemma one_safe : safe one.
Proof. exact (daemon_run_safe (C := ref_cbor) (HO := plain_host) demo.rand demo.net disk takes config demo.hub_id service one one_run). Qed.

Definition peer_of (h : DHub) : hubPeer := default (fresh_peer h) (heap h !! 1%nat).

(** A room alice is banned from, with moderation on. *)
Definition vip : RoomState := set_Bans {[demo.alice]} (set_Moderated true (newRoomState carol true)).
Definition gated : DHub := upd_rooms (with_room (lit "#vip") vip) one.
Definition say (t : Z) : Envelope := fill (bare_envelope t demo.alice (replicate 8 x01) 1000) (lit "#VIP") (AStr (lit "hi")) [].
End gdemo.

Lemma gorrcd_daemon_invariant_witness : hub_inv gdemo.one
  /\ rtc (member_step (CfgLimits (cfg gdemo.one))) (abs gdemo.one)
       (abs (pingOnce (C := ref_cbor) demo.rand demo.net gdemo.one)).
Proof.
  destruct (gorrcd_daemon_invariant (C := ref_cbor) (HO := plain_host) demo.rand demo.net gdemo.disk gdemo.takes
    gdemo.config demo.hub_id gdemo.service gdemo.one gdemo.one_run) as (Hi & _ & Hm).
  split; [exact Hi|]. apply Hm; [apply gdemo.open_house; reflexivity|apply d_ping].
Defined.

Lemma gorrcd_command_authority_witness :
  let h' := handleCommand (C := ref_cbor) (HO := plain_host) demo.rand demo.net gdemo.disk demo.bob [] (lit "/kick #den alice") gdemo.one in
  untouched (lit "#den") gdemo.one h' /\ in_room gdemo.one 1 (lit "#den") = true.
Proof.
  split; [|vm_compute; reflexivity].
  apply (gorrcd_command_authority (C := ref_cbor) (HO := plain_host) demo.rand demo.net gdemo.disk demo.bob demo.bob).
  - reflexivity.
  - vm_compute. reflexivity.
Defined.

Lemma gorrcd_join_rule_witness :
  in_room (onJoin (C := ref_cbor) demo.rand demo.net (Some gdemo.policy) 1 (gdemo.say TypeJoin) gdemo.gated) 1 (lit "#vip") = false.
Proof.
  destruct (gorrcd_join_rule (C := ref_cbor) (HO := plain_host) demo.rand demo.net gdemo.disk gdemo.takes 1
    (gdemo.peer_of gdemo.gated) (gdemo.say TypeJoin) gdemo.gated) as (Hin & _).
  - apply default_some. vm_compute. reflexivity.
  - vm_compute. reflexivity.
  - vm_compute. discriminate.
  - vm_compute. discriminate.
  - apply not_true_iff_false. intros H. apply Hin in H as [H|[[H _] _]]; [vm_compute in H; discriminate|].
    apply H. apply (bool_decide_unpack _). vm_compute. exact I.
Defined.

Lemma gorrcd_moderation_witness :
  only_to (fun q => q = 1%nat) gdemo.gated
    (dispatchContent (C := ref_cbor) demo.rand demo.net (Some gdemo.policy) 1 (gdemo.say TypeMsg) gdemo.gated).
Proof.
  destruct (gorrcd_moderation (C := ref_cbor) (HO := plain_host) demo.rand demo.net gdemo.disk gdemo.takes 1
    (gdemo.peer_of gdemo.gated) (gdemo.say TypeMsg) gdemo.gated) as (_ & Hno).
  - apply default_some. vm_compute. reflexivity.
  - vm_compute. reflexivity.
  - assert (E : r_rooms (reg gdemo.gated) !! NormalizeRoom (Room (gdemo.say TypeMsg)) = Some gdemo.vip)
      by (vm_compute; reflexivity).
    apply Hno. intros H. rewrite E in H. cbn [may_speak] in H. destruct H as [H _]. apply H.
    apply (bool_decide_unpack _). vm_compute. exact I.
Defined.

Lemma gorrcd_kline_witness :
  let h' := handleCommand (C := ref_cbor) (HO := plain_host) demo.rand demo.net gdemo.disk gdemo.carol [] (lit "/kline add alice") gdemo.one in
  HasPeer gdemo.one demo.alice = true /\ HasPeer h' demo.alice = false /\ no_banned h'.
Proof.
  split; [vm_compute; reflexivity|].
  destruct (gorrcd_kline (C := ref_cbor) (HO := plain_host) demo.rand demo.net gdemo.disk gdemo.carol gdemo.carol []
    (lit "/kline add alice") (lit "kline") (lit "add") (lit "alice") [] demo.alice [(demo.alice, lit "alice")] gdemo.one)
    as (_ & Hp & _ & Hb).
  - apply gdemo.one_safe.
  - reflexivity.
  - vm_compute. reflexivity.
  - vm_compute. reflexivity.
  - vm_compute. reflexivity.
  - vm_compute. reflexivity.
  - vm_compute. reflexivity.
  - vm_compute. discriminate.
  - split; [exact Hp|]. apply Hb, gdemo.open_house. reflexivity.
Defined.

(** A configuration file that ends in another section: the line of the banned
    identities that a first kline adds is read as part of that section, and the
    ban is gone after the next start. *)
Definition logging_last : bytes := unlines [lit "[hub]"; kv "hub_name" (lit "x"); lit "[logging]"; kv "level" (lit "INFO")].

Example kline_lost_after_restart :
  let file := default [] (rewriteBanned (H := plain_host) logging_last [ID_Hex demo.alice]) in
  Cfg.BannedIdentities (LoadConfigFile (H := plain_host) (lit "/c") file).1 = []
  /\ Contains file (ID_Hex demo.alice) = true.
Proof. by vm_compute. Qed.

(** Alice is asked, does not answer for ten minutes and is dropped; she comes back
    on a new link, and is dropped at the next ping. *)
Module gping.
#[local] Existing Instance plain_host.
Notation ping := (pingOnce (C := ref_cbor) demo.rand demo.net).
Definition later (h : DHub) : DHub := set_env (link_active h) (link_identity h) (600 * Second) h.
Definition asked : DHub := ping gdemo.s3.
Definition dropped : DHub := ping (later asked).
Definition c1 : DHub := demo.accept (Some gdemo.policy) 2 dropped.
Definition c2 : DHub := demo.identify (Some gdemo.policy) 2 demo.alice c1.
Definition again : DHub := demo.deliver (Some gdemo.policy) 2 (demo.packet TypeHello demo.alice [] ANil (lit "alice")) c2.

Lemma run_ping (h h2 : DHub) : banned (s_trust (pol_state h)) = ∅ -> gdemo.run (ping h) h2 -> gdemo.run h h2.
Proof. intros Hb Hr. eapply rtc_l; [|exact Hr]. split; [by apply d_ping|by apply gdemo.open_house]. Qed.

Lemma again_run : gdemo.run gdemo.start again.
Proof.
  apply (gdemo.run_hub gdemo.start gdemo.s1); [by apply (step_accept _ _ _ gdemo.start 1)|reflexivity|].
  apply (gdemo.run_hub gdemo.s1 gdemo.s2); [by eapply (step_identified _ _ _ gdemo.s1 1)|reflexivity|].
  apply (gdemo.run_hub gdemo.s2 gdemo.s3); [by eapply (step_deliver _ _ _ gdemo.s2 1)|reflexivity|].
  apply run_ping; [vm_compute; reflexivity|].
  apply (gdemo.run_hub asked (later asked)); [apply step_time; vm_compute; discriminate|vm_compute; reflexivity|].
  apply run_ping; [vm_compute; reflexivity|].
  apply (gdemo.run_hub dropped c1); [apply step_accept; vm_compute; reflexivity|vm_compute; reflexivity|].
  apply (gdemo.run_hub c1 c2); [eapply step_identified; vm_compute; reflexivity|vm_compute; reflexivity|].
  apply (gdemo.run_hub c2 again); [eapply step_deliver; vm_compute; reflexivity|vm_compute; reflexivity|]. constructor.
Qed.

Lemma again_inv : hub_inv again.
Proof.
  exact (proj1 (daemon_run_safe (C := ref_cbor) (HO := plain_host) demo.rand demo.net gdemo.disk gdemo.takes
    gdemo.config demo.hub_id gdemo.service again again_run)).
Qed.
End gping.

